(** * Local Code Review: thread codec, diff parser, relocation and store

    A shallow embedding of the persistence core of the extension
    ([src/review/workspaceReviewStore.ts], [src/review/unifiedDiff.ts],
    [src/review/localCodeReviewManager.ts]) and the properties claimed of it.

    Conventions of the embedding.
    - Text is a [string]; one [ascii] stands for one UTF-16 code unit, so the
      model covers code units 0..255.  The middle dot of the heading line is
      code unit 183.
    - A JavaScript [number] that the code uses as a line, column or count is
      a [Z] (or [N] once it is known to be non-negative).  The model is
      exact: it agrees with the doubles of the code on the integers up to
      2^53 in size, and a statement that depends on the value of a number
      keeps its numbers there ([HunkSpec.MAX_SAFE],
      [RelocateSpec.safeNumbers]).
    - [String.prototype.localeCompare] depends on the locale of the host: the
      store takes it as a parameter, and the statements about the order of
      the index hold for every comparison that is a collation
      ([StoreSpec.collation]).
    - [Uri.joinPath] normalizes the path it builds; the store follows a
      thread id as long as the path of its file stays one entry of the
      [threads] directory ([Store.entryName]).
    - [undefined] and a missing property are both [None].
    - Index loops over [lines] are written as recursion on the remaining
      lines. *)

From Stdlib Require Import String Ascii ZArith Lia Bool List Sorted Permutation.
From Stdlib Require OrderedTypeEx.
From stdpp Require Import base gmap list strings sorting.
Import ListNotations.

Local Open Scope string_scope.
Local Open Scope list_scope.

#[local] Arguments String.append !_ _ / : simpl nomatch.

(** ** JavaScript string built-ins *)

Module JS.

(** [String.prototype.trim] strips WhiteSpace and LineTerminator code units:
    TAB, LF, VT, FF, CR, SPACE and NBSP below 256. *)
Definition isWhiteSpace (c : ascii) : bool :=
  let n := nat_of_ascii c in
  (Nat.leb 9 n && Nat.leb n 13) || Nat.eqb n 32 || Nat.eqb n 160.

Definition isDigit (c : ascii) : bool :=
  let n := nat_of_ascii c in Nat.leb 48 n && Nat.leb n 57.

(** The class [\w] of a regular expression without flags. *)
Definition isWordChar (c : ascii) : bool :=
  let n := nat_of_ascii c in
  (Nat.leb 48 n && Nat.leb n 57) || (Nat.leb 65 n && Nat.leb n 90)
  || (Nat.leb 97 n && Nat.leb n 122) || Nat.eqb n 95.

Definition isAsciiLetter (c : ascii) : bool :=
  let n := nat_of_ascii c in
  (Nat.leb 65 n && Nat.leb n 90) || (Nat.leb 97 n && Nat.leb n 122).

Definition LF : ascii := ascii_of_nat 10.
Definition CR : ascii := ascii_of_nat 13.
Definition NUL : ascii := ascii_of_nat 0.

Fixpoint trimStart (s : string) : string :=
  match s with
  | String c r => if isWhiteSpace c then trimStart r else s
  | EmptyString => EmptyString
  end.

Fixpoint allWhiteSpace (s : string) : bool :=
  match s with
  | String c r => isWhiteSpace c && allWhiteSpace r
  | EmptyString => true
  end.

Fixpoint trimEnd (s : string) : string :=
  match s with
  | String c r => if allWhiteSpace s then EmptyString else String c (trimEnd r)
  | EmptyString => EmptyString
  end.

Definition trim (s : string) : string := trimEnd (trimStart s).

Fixpoint isPrefix (p s : string) : bool :=
  match p, s with
  | EmptyString, _ => true
  | String a p', String b s' => Ascii.eqb a b && isPrefix p' s'
  | String _ _, EmptyString => false
  end.

Definition startsWith (s p : string) : bool := isPrefix p s.

Fixpoint stripPrefix (p s : string) : option string :=
  match p, s with
  | EmptyString, _ => Some s
  | String a p', String b s' => if Ascii.eqb a b then stripPrefix p' s' else None
  | String _ _, EmptyString => None
  end.

Fixpoint endsWith (s p : string) : bool :=
  String.eqb s p ||
  match s with
  | String _ r => endsWith r p
  | EmptyString => false
  end.

Fixpoint includesChar (c : ascii) (s : string) : bool :=
  match s with
  | String d r => Ascii.eqb c d || includesChar c r
  | EmptyString => false
  end.

(** [s.includes(p)] and [s.indexOf(p)]. *)
Fixpoint includes (s p : string) : bool :=
  isPrefix p s ||
  match s with
  | String _ r => includes r p
  | EmptyString => false
  end.

(** [s.split(sep)] for a one-character separator: never empty. *)
Fixpoint splitChar (sep : ascii) (s : string) : list string :=
  match s with
  | EmptyString => [EmptyString]
  | String c r =>
      if Ascii.eqb c sep then EmptyString :: splitChar sep r
      else match splitChar sep r with
           | l :: ls => String c l :: ls
           | [] => [String c EmptyString]
           end
  end.

Definition splitLF : string -> list string := splitChar LF.

(** [s.replace(/\r\n/g, '\n')]. *)
Fixpoint replaceCRLF (s : string) : string :=
  match s with
  | String c r =>
      match r with
      | String d _ =>
          if Ascii.eqb c CR && Ascii.eqb d LF then replaceCRLF r
          else String c (replaceCRLF r)
      | EmptyString => s
      end
  | EmptyString => EmptyString
  end.

(** [s.split(/\r?\n/)]: a line ends at LF, or at CR immediately before LF. *)
Definition splitLines (s : string) : list string := splitLF (replaceCRLF s).

(** [parts.join(sep)]. *)
Fixpoint join (sep : string) (parts : list string) : string :=
  match parts with
  | [] => EmptyString
  | [p] => p
  | p :: ps => p ++ sep ++ join sep ps
  end.

(** [s.replaceAll(pat, by)] for a non-empty [pat]: left to right, without
    overlap; [skip] counts the code units of a match still to be passed. *)
Fixpoint replaceAllFrom (skip : nat) (pat by_ s : string) : string :=
  match s with
  | EmptyString => EmptyString
  | String c r =>
      match skip with
      | S k => replaceAllFrom k pat by_ r
      | O =>
          if isPrefix pat s
          then by_ ++ replaceAllFrom (String.length pat - 1) pat by_ r
          else String c (replaceAllFrom 0 pat by_ r)
      end
  end.

Definition replaceAll (pat by_ s : string) : string := replaceAllFrom 0 pat by_ s.

(** The longest prefix of digits: a greedy run of [\d]. *)
Fixpoint spanDigits (s : string) : string * string :=
  match s with
  | String c r =>
      if isDigit c then let (d, rest) := spanDigits r in (String c d, rest)
      else (EmptyString, s)
  | EmptyString => (EmptyString, EmptyString)
  end.

Definition digitValue (c : ascii) : Z := Z.of_nat (nat_of_ascii c) - 48.

Fixpoint numberOfDigitsFrom (acc : Z) (s : string) : Z :=
  match s with
  | String c r => numberOfDigitsFrom (10 * acc + digitValue c) r
  | EmptyString => acc
  end.

(** [Number(s)] for a string of decimal digits. *)
Definition numberOfDigits (s : string) : Z := numberOfDigitsFrom 0 s.

End JS.

(** ** Diff parser ([unifiedDiff.ts]) *)

Module Diff.

Record HunkMatch := {
  m_oldStart : string;
  m_oldLines : option string;
  m_newStart : string;
  m_newLines : option string;
  m_rest : string
}.

(** A number and an optional count: digits, then optionally a comma and
    digits. *)
Definition matchStartCount (s : string) : option (string * option string * string) :=
  let (d, r) := JS.spanDigits s in
  if String.eqb d "" then None
  else match r with
       | String "," r' =>
           let (d', r'') := JS.spanDigits r' in
           if String.eqb d' "" then Some (d, None, r) else Some (d, Some d', r'')
       | _ => Some (d, None, r)
       end.

(** [.] matches everything but a line terminator. *)
Definition noLineTerminator (s : string) : bool :=
  negb (JS.includesChar JS.LF s) && negb (JS.includesChar JS.CR s).

(** [HUNK_RE.exec(line)]: the whole line is [@@ -], a number and an
    optional count, [ +], a number and an optional count, [ @@] and a rest
    without line terminator. *)
Definition HUNK_RE (line : string) : option HunkMatch :=
  match JS.stripPrefix "@@ -" line with
  | None => None
  | Some s1 =>
      match matchStartCount s1 with
      | None => None
      | Some (os, ol, s2) =>
          match JS.stripPrefix " +" s2 with
          | None => None
          | Some s3 =>
              match matchStartCount s3 with
              | None => None
              | Some (ns, nl, s4) =>
                  match JS.stripPrefix " @@" s4 with
                  | None => None
                  | Some rest =>
                      if noLineTerminator rest then
                        Some {| m_oldStart := os; m_oldLines := ol;
                                m_newStart := ns; m_newLines := nl;
                                m_rest := rest |}
                      else None
                  end
              end
          end
      end
  end.

Record DiffHunk := {
  header : string;
  oldStart : Z;
  oldLines : Z;
  newStart : Z;
  newLines : Z;
  patch : string
}.

Record DiffLineRange := { start : Z; end_ : Z }.

(** The mutable locals of [parseUnifiedDiffChangedLineRanges]. *)
Record RangeScan := {
  ranges : list DiffLineRange;
  current : option DiffLineRange;
  inHunk : bool;
  newLine : Z
}.

Definition flush (st : RangeScan) : RangeScan :=
  match current st with
  | None => st
  | Some c =>
      {| ranges := ranges st ++ [c]; current := None;
         inHunk := inHunk st; newLine := newLine st |}
  end.

Definition isFileHeader (line : string) : bool :=
  JS.startsWith line "diff " || JS.startsWith line "index "
  || JS.startsWith line "---" || JS.startsWith line "+++".

(** One iteration of the [for (const line of lines)] loop. *)
Definition rangeStep (st : RangeScan) (line : string) : RangeScan :=
  match HUNK_RE line with
  | Some m =>
      let st' := flush st in
      {| ranges := ranges st'; current := current st'; inHunk := true;
         newLine := JS.numberOfDigits (m_newStart m) |}
  | None =>
      if negb (inHunk st) then st
      else if JS.startsWith line "+" && negb (JS.startsWith line "+++") then
        let st' :=
          match current st with
          | Some c =>
              if Z.eqb (newLine st) (end_ c + 1) then
                {| ranges := ranges st;
                   current := Some {| start := start c; end_ := newLine st |};
                   inHunk := inHunk st; newLine := newLine st |}
              else
                let f := flush st in
                {| ranges := ranges f;
                   current := Some {| start := newLine st; end_ := newLine st |};
                   inHunk := inHunk f; newLine := newLine f |}
          | None =>
              {| ranges := ranges st;
                 current := Some {| start := newLine st; end_ := newLine st |};
                 inHunk := inHunk st; newLine := newLine st |}
          end in
        {| ranges := ranges st'; current := current st'; inHunk := inHunk st';
           newLine := newLine st' + 1 |}
      else if JS.startsWith line "-" && negb (JS.startsWith line "---") then
        flush st
      else if JS.startsWith line " " then
        let st' := flush st in
        {| ranges := ranges st'; current := current st'; inHunk := inHunk st';
           newLine := newLine st' + 1 |}
      else if JS.startsWith line "\" then st
      else if isFileHeader line then
        let st' := flush st in
        {| ranges := ranges st'; current := current st'; inHunk := false;
           newLine := 0 |}
      else st
  end.

Definition parseUnifiedDiffChangedLineRanges (diffText : string)
  : list DiffLineRange :=
  let lines := JS.splitLines diffText in
  let st0 := {| ranges := []; current := None; inHunk := false; newLine := 0 |} in
  ranges (flush (fold_left rangeStep lines st0)).

(** The mutable locals of [parseUnifiedDiffHunks]. *)
Record HunkInProgress := {
  h_header : string;
  h_oldStart : Z;
  h_oldLines : Z;
  h_newStart : Z;
  h_newLines : Z;
  h_patchLines : list string
}.

Definition flushHunk (st : list DiffHunk * option HunkInProgress)
  : list DiffHunk * option HunkInProgress :=
  match snd st with
  | None => st
  | Some c =>
      (fst st ++ [{| header := h_header c; oldStart := h_oldStart c;
                     oldLines := h_oldLines c; newStart := h_newStart c;
                     newLines := h_newLines c;
                     patch := JS.trimEnd (JS.join (String JS.LF "") (h_patchLines c)) |}],
       None)
  end.

Definition countOrOne (o : option string) : Z :=
  match o with
  | Some d => JS.numberOfDigits d
  | None => 1
  end.

Definition hunkStep (st : list DiffHunk * option HunkInProgress) (line : string)
  : list DiffHunk * option HunkInProgress :=
  match HUNK_RE line with
  | Some m =>
      (fst (flushHunk st),
       Some {| h_header := line;
               h_oldStart := JS.numberOfDigits (m_oldStart m);
               h_oldLines := countOrOne (m_oldLines m);
               h_newStart := JS.numberOfDigits (m_newStart m);
               h_newLines := countOrOne (m_newLines m);
               h_patchLines := [line] |})
  | None =>
      match snd st with
      | None => st
      | Some c =>
          if isFileHeader line then flushHunk st
          else (fst st,
                Some {| h_header := h_header c; h_oldStart := h_oldStart c;
                        h_oldLines := h_oldLines c; h_newStart := h_newStart c;
                        h_newLines := h_newLines c;
                        h_patchLines := h_patchLines c ++ [line] |})
      end
  end.

Definition parseUnifiedDiffHunks (diffText : string) : list DiffHunk :=
  fst (flushHunk (fold_left hunkStep (JS.splitLines diffText) ([], None))).

End Diff.

(** ** The diff parser, facts to state *)

Module DiffSpec.
Import Diff.

Definition isHunkHeader (line : string) : bool :=
  match HUNK_RE line with
  | Some _ => true
  | None => false
  end.

Definition orderedRange (r : DiffLineRange) : Prop :=
  (0 <= start r /\ start r <= end_ r)%Z.

(** What the scan of the changed lines keeps: ordered ranges, pushed or in
    progress, and a line number that is not negative. *)
Definition scanOk (st : RangeScan) : Prop :=
  Forall orderedRange (ranges st)
  /\ match current st with Some c => orderedRange c | None => True end
  /\ (0 <= newLine st)%Z.

End DiffSpec.

(** A diff text with file headers and no hunk header. *)
Definition headers_only_diff : string :=
  JS.join (String JS.LF "")
    ["diff --git a/example.ts b/example.ts"; "--- a/example.ts"; "+++ b/example.ts";
     "+added"].

(** ** Path resolver ([normalizeStoragePath]) *)

Module PathResolver.

Definition DEFAULT_STORAGE_PATH : string := ".code-review".

Definition SLASH : ascii := "/"%char.
Definition BACKSLASH : ascii := "\"%char.

(** [raw.replace(/\\/g, '/')]. *)
Fixpoint slashes (s : string) : string :=
  match s with
  | String c r => String (if Ascii.eqb c BACKSLASH then SLASH else c) (slashes r)
  | EmptyString => EmptyString
  end.

(** [/^[A-Za-z]:\//.test(s)]. *)
Definition hasDrivePrefix (s : string) : bool :=
  match s with
  | String a (String b (String c _)) =>
      JS.isAsciiLetter a && Ascii.eqb b ":"%char && Ascii.eqb c SLASH
  | _ => false
  end.

(** Node's [normalizeString] with [allowAboveRoot]: the segments kept so
    far, last one first.  An empty segment and [.] are dropped, [..] removes
    the previous segment unless there is none or it is [..] itself. *)
Definition pushSegment (allowAboveRoot : bool) (stack : list string) (seg : string)
  : list string :=
  if String.eqb seg "" || String.eqb seg "." then stack
  else if String.eqb seg ".." then
    match stack with
    | top :: below =>
        if String.eqb top ".." then
          if allowAboveRoot then seg :: stack else stack
        else below
    | [] => if allowAboveRoot then [seg] else []
    end
  else seg :: stack.

Definition normalizeString (path : string) (allowAboveRoot : bool) : string :=
  JS.join "/" (rev (fold_left (pushSegment allowAboveRoot)
                              (JS.splitChar SLASH path) [])).

Fixpoint lastChar (s : string) : option ascii :=
  match s with
  | EmptyString => None
  | String c EmptyString => Some c
  | String _ r => lastChar r
  end.

(** Node's [path.posix.normalize]. *)
Definition posix_normalize (path : string) : string :=
  match path with
  | EmptyString => "."
  | String c0 _ =>
      let isAbsolute := Ascii.eqb c0 SLASH in
      let trailingSeparator :=
        match lastChar path with Some c => Ascii.eqb c SLASH | None => false end in
      let p := normalizeString path (negb isAbsolute) in
      if String.eqb p "" then
        if isAbsolute then "/" else if trailingSeparator then "./" else "."
      else
        let p' := if trailingSeparator then (p ++ "/")%string else p in
        if isAbsolute then ("/" ++ p')%string else p'
  end.

Fixpoint stripSlashes (s : string) : string :=
  match s with
  | String c r => if Ascii.eqb c SLASH then stripSlashes r else s
  | EmptyString => EmptyString
  end.

(** [s.replace(/^\.\/+/, '')]. *)
Definition stripDotSlash (s : string) : string :=
  match s with
  | String "." (String "/" r) => stripSlashes r
  | _ => s
  end.

Fixpoint allSlashes (s : string) : bool :=
  match s with
  | String c r => Ascii.eqb c SLASH && allSlashes r
  | EmptyString => true
  end.

(** [s.replace(/\/+$/, '')]. *)
Fixpoint stripTrailingSlashes (s : string) : string :=
  match s with
  | String c r => if allSlashes s then EmptyString else String c (stripTrailingSlashes r)
  | EmptyString => EmptyString
  end.

(** What is left of the raw value before the final test. *)
Definition trimmedPath (raw : string) : string :=
  stripTrailingSlashes (stripDotSlash (posix_normalize (slashes raw))).

Definition rejectedResult (trimmed : string) : bool :=
  String.eqb trimmed "" || String.eqb trimmed "." || String.eqb trimmed ".."
  || JS.startsWith trimmed "../".

(** [normalizeStoragePath(value)] for a string [value]. *)
Definition normalizeStoragePath (value : string) : string :=
  let raw := JS.trim value in
  if String.eqb raw "" then DEFAULT_STORAGE_PATH
  else if JS.includesChar JS.NUL raw then DEFAULT_STORAGE_PATH
  else
    let normalizedSlashes := slashes raw in
    if JS.startsWith normalizedSlashes "/" || JS.startsWith normalizedSlashes "//"
    then DEFAULT_STORAGE_PATH
    else if hasDrivePrefix normalizedSlashes then DEFAULT_STORAGE_PATH
    else
      let trimmed := trimmedPath raw in
      if rejectedResult trimmed then DEFAULT_STORAGE_PATH else trimmed.

(** A raw value that begins with a separator: [/] or a backslash. *)
Definition leadingSeparator (value : string) : bool :=
  JS.startsWith value "/" || JS.startsWith value "\".

(** A raw value that begins with a drive letter, a colon and a separator. *)
Definition drivePrefix (value : string) : bool := hasDrivePrefix (slashes value).

End PathResolver.

(** ** What a resolved storage path looks like *)

Module PathSpec.

(** A path segment that names an entry of the directory it is resolved in:
    not empty, neither [.] nor [..], and free of separators. *)
Definition plainSegment (seg : string) : Prop :=
  seg <> "" /\ seg <> "." /\ seg <> ".."
  /\ JS.includesChar PathResolver.SLASH seg = false
  /\ JS.includesChar PathResolver.BACKSLASH seg = false.

(** A relative path that stays below the directory it is resolved in: one or
    more plain segments joined by [/]. *)
Definition staysInside (p : string) : Prop :=
  exists segs, segs <> [] /\ Forall plainSegment segs /\ p = JS.join "/" segs.

(** A segment as [split] hands it to [normalizeString] once the backslashes
    are replaced. *)
Definition separatorFree (seg : string) : Prop :=
  JS.includesChar PathResolver.SLASH seg = false
  /\ JS.includesChar PathResolver.BACKSLASH seg = false.

(** The stacks [normalizeString] builds when it may climb above the root,
    last segment first: plain segments on top of a run of [..]. *)
Inductive climbing : list string -> Prop :=
| climbing_up (k : nat) : climbing (repeat ".." k)
| climbing_seg (seg : string) (stack : list string) :
    plainSegment seg -> climbing stack -> climbing (seg :: stack).

End PathSpec.

(** ** JSON ([JSON.parse], [JSON.stringify])

    A value as [JSON.parse] builds it.  An object keeps its members in
    insertion order with one entry per key.  A numeral with an integer value
    is that integer; any other numeral keeps its text, the code never
    computes with it.  An escape [\uXXXX] above 255 is outside the model and
    makes the model's parser fail. *)

Module Json.

#[local] Unset Elimination Schemes.
Inductive value :=
| JNull
| JBool (b : bool)
| JNumber (n : Z)
| JNonInteger (numeral : string)
| JString (s : string)
| JArray (items : list value)
| JObject (members : list (string * value)).
#[local] Set Elimination Schemes.

(** Induction on a value, with the property at hand for every item and for
    the value of every member. *)
Section ValueInduction.
Variable P : value -> Prop.
Hypothesis Hnull : P JNull.
Hypothesis Hbool : forall b, P (JBool b).
Hypothesis Hnumber : forall n, P (JNumber n).
Hypothesis Hnoninteger : forall numeral, P (JNonInteger numeral).
Hypothesis Hstring : forall s, P (JString s).
Hypothesis Harray : forall items, Forall P items -> P (JArray items).
Hypothesis Hobject :
  forall members, Forall (fun m => P (snd m)) members -> P (JObject members).

Fixpoint value_ind (v : value) : P v :=
  match v with
  | JNull => Hnull
  | JBool b => Hbool b
  | JNumber n => Hnumber n
  | JNonInteger numeral => Hnoninteger numeral
  | JString s => Hstring s
  | JArray items =>
      Harray items
        ((fix all (l : list value) : Forall P l :=
            match l with
            | [] => @List.Forall_nil _ P
            | x :: r => @List.Forall_cons _ P x r (value_ind x) (all r)
            end) items)
  | JObject members =>
      Hobject members
        ((fix all (l : list (string * value)) : Forall (fun m => P (snd m)) l :=
            match l with
            | [] => @List.Forall_nil _ _
            | m :: r => @List.Forall_cons _ _ m r (value_ind (snd m)) (all r)
            end) members)
  end.
End ValueInduction.

(** A call either returns or throws. *)
Inductive outcome (A : Type) :=
| Returned (a : A)
| Thrown.
Arguments Returned {A} a.
Arguments Thrown {A}.

(** *** Reading values *)

Definition isRecord (v : option value) : bool :=
  match v with
  | Some (JObject _) => true
  | _ => false
  end.

Fixpoint lookup (k : string) (members : list (string * value)) : option value :=
  match members with
  | [] => None
  | (k', v) :: rest => if String.eqb k' k then Some v else lookup k rest
  end.

(** [v.k] where [v] is known to be a record, or [v?.k]: [None] is
    [undefined]. *)
Definition prop (v : option value) (k : string) : option value :=
  match v with
  | Some (JObject members) => lookup k members
  | _ => None
  end.

(** A later member with the same key replaces the value and keeps the place. *)
Fixpoint setMember (k : string) (v : value) (members : list (string * value))
  : list (string * value) :=
  match members with
  | [] => [(k, v)]
  | (k', v') :: rest =>
      if String.eqb k' k then (k', v) :: rest else (k', v') :: setMember k v rest
  end.

(** *** [JSON.stringify(value, null, 2)] *)

Definition digitChar (d : Z) : ascii := ascii_of_nat (48 + Z.to_nat d).

Fixpoint digitsFuel (fuel : nat) (n : Z) : string :=
  match fuel with
  | O => EmptyString
  | S fuel' =>
      ((if Z.ltb n 10 then EmptyString else digitsFuel fuel' (n / 10))
       ++ String (digitChar (n mod 10)) EmptyString)%string
  end.

(** The decimal digits of [n >= 0]. *)
Definition digitsOf (n : Z) : string := digitsFuel (S (Z.to_nat (Z.log2 n))) n.

(** [String(n)] for an integer. *)
Definition numberToString (n : Z) : string :=
  if Z.ltb n 0 then ("-" ++ digitsOf (- n))%string else digitsOf n.

Definition hexChar (d : nat) : ascii :=
  if Nat.ltb d 10 then ascii_of_nat (48 + d) else ascii_of_nat (87 + d).

Definition BACKSLASH : ascii := "\"%char.
Definition QUOTE : ascii := ascii_of_nat 34.

Definition escapeChar (c : ascii) : string :=
  let n := nat_of_ascii c in
  if Ascii.eqb c QUOTE then String BACKSLASH (String QUOTE "")
  else if Ascii.eqb c BACKSLASH then String BACKSLASH (String BACKSLASH "")
  else if Nat.eqb n 8 then String BACKSLASH "b"
  else if Nat.eqb n 12 then String BACKSLASH "f"
  else if Nat.eqb n 10 then String BACKSLASH "n"
  else if Nat.eqb n 13 then String BACKSLASH "r"
  else if Nat.eqb n 9 then String BACKSLASH "t"
  else if Nat.ltb n 32 then
    String BACKSLASH
      (String "u" (String "0" (String "0"
         (String (hexChar (n / 16)) (String (hexChar (n mod 16)) "")))))
  else String c "".

Fixpoint escapeString (s : string) : string :=
  match s with
  | EmptyString => EmptyString
  | String c r => (escapeChar c ++ escapeString r)%string
  end.

Definition quote (s : string) : string :=
  String QUOTE (escapeString s ++ String QUOTE "")%string.

Fixpoint spaces (n : nat) : string :=
  match n with
  | O => EmptyString
  | S n' => String " " (spaces n')
  end.

Definition NL : string := String JS.LF "".

(** The value at nesting depth [depth]; [indent] is two spaces a level. *)
Fixpoint stringifyAt (depth : nat) (v : value) : string :=
  let inner := spaces (2 * S depth) in
  let outer := spaces (2 * depth) in
  match v with
  | JNull => "null"
  | JBool true => "true"
  | JBool false => "false"
  | JNumber n => numberToString n
  | JNonInteger numeral => numeral
  | JString s => quote s
  | JArray [] => "[]"
  | JArray items =>
      ("[" ++ NL
       ++ JS.join ("," ++ NL) (map (fun i => inner ++ stringifyAt (S depth) i) items)
       ++ NL ++ outer ++ "]")%string
  | JObject [] => "{}"
  | JObject members =>
      ("{" ++ NL
       ++ JS.join ("," ++ NL)
            (map (fun m => inner ++ quote (fst m) ++ ": " ++ stringifyAt (S depth) (snd m))
                 members)
       ++ NL ++ outer ++ "}")%string
  end.

Definition stringify (v : value) : string := stringifyAt 0 v.

(** *** [JSON.parse] *)

Definition isJsonWhiteSpace (c : ascii) : bool :=
  let n := nat_of_ascii c in
  Nat.eqb n 32 || Nat.eqb n 9 || Nat.eqb n 10 || Nat.eqb n 13.

Fixpoint skipWs (s : string) : string :=
  match s with
  | String c r => if isJsonWhiteSpace c then skipWs r else s
  | EmptyString => EmptyString
  end.

Definition hexValue (c : ascii) : option nat :=
  let n := nat_of_ascii c in
  if Nat.leb 48 n && Nat.leb n 57 then Some (n - 48)
  else if Nat.leb 97 n && Nat.leb n 102 then Some (n - 87)
  else if Nat.leb 65 n && Nat.leb n 70 then Some (n - 55)
  else None.

Definition unicodeEscape (h1 h2 h3 h4 : ascii) : option ascii :=
  match hexValue h1, hexValue h2, hexValue h3, hexValue h4 with
  | Some a, Some b, Some c, Some d =>
      if Nat.eqb a 0 && Nat.eqb b 0 then Some (ascii_of_nat (16 * c + d)) else None
  | _, _, _, _ => None
  end.

Definition simpleEscape (e : ascii) : option ascii :=
  if Ascii.eqb e QUOTE then Some QUOTE
  else if Ascii.eqb e BACKSLASH then Some BACKSLASH
  else if Ascii.eqb e "/" then Some "/"%char
  else if Ascii.eqb e "b" then Some (ascii_of_nat 8)
  else if Ascii.eqb e "f" then Some (ascii_of_nat 12)
  else if Ascii.eqb e "n" then Some (ascii_of_nat 10)
  else if Ascii.eqb e "r" then Some (ascii_of_nat 13)
  else if Ascii.eqb e "t" then Some (ascii_of_nat 9)
  else None.

(** The characters of a string literal after its opening quote, and what
    follows the closing quote. *)
Fixpoint parseStringBody (s : string) : option (string * string) :=
  match s with
  | EmptyString => None
  | String c r =>
      if Ascii.eqb c QUOTE then Some (EmptyString, r)
      else if Ascii.eqb c BACKSLASH then
        match r with
        | String e r1 =>
            if Ascii.eqb e "u" then
              match r1 with
              | String h1 (String h2 (String h3 (String h4 r5))) =>
                  match unicodeEscape h1 h2 h3 h4 with
                  | Some d =>
                      match parseStringBody r5 with
                      | Some (body, rest) => Some (String d body, rest)
                      | None => None
                      end
                  | None => None
                  end
              | _ => None
              end
            else
              match simpleEscape e with
              | Some d =>
                  match parseStringBody r1 with
                  | Some (body, rest) => Some (String d body, rest)
                  | None => None
                  end
              | None => None
              end
        | EmptyString => None
        end
      else if Nat.ltb (nat_of_ascii c) 32 then None
      else
        match parseStringBody r with
        | Some (body, rest) => Some (String c body, rest)
        | None => None
        end
  end.

Definition leadingZero (digits : string) : bool :=
  match digits with
  | String "0" (String _ _) => true
  | _ => false
  end.

(** The optional fraction of a numeral: its digits. *)
Definition parseFraction (s : string) : option (string * string) :=
  match s with
  | String "." r =>
      let (d, rest) := JS.spanDigits r in
      if String.eqb d "" then None else Some (d, rest)
  | _ => Some (EmptyString, s)
  end.

(** The optional exponent of a numeral: its text and its value. *)
Definition parseExponent (s : string) : option (string * Z * string) :=
  match s with
  | String e r =>
      if Ascii.eqb e "e" || Ascii.eqb e "E" then
        let '(sign, neg, r1) :=
          match r with
          | String "+" r' => ("+", false, r')
          | String "-" r' => ("-", true, r')
          | _ => (EmptyString, false, r)
          end in
        let (d, rest) := JS.spanDigits r1 in
        if String.eqb d "" then None
        else Some ((String e sign ++ d)%string,
                   if neg then (- JS.numberOfDigits d)%Z else JS.numberOfDigits d,
                   rest)
      else Some (EmptyString, 0%Z, s)
  | EmptyString => Some (EmptyString, 0%Z, s)
  end.

(** A numeral: its value is the integer [m * 10 ^ e] when that is one. *)
Definition parseNumber (s : string) : option (value * string) :=
  let (neg, s1) :=
    match s with
    | String "-" r => (true, r)
    | _ => (false, s)
    end in
  let (int, s2) := JS.spanDigits s1 in
  if String.eqb int "" || leadingZero int then None
  else
    match parseFraction s2 with
    | None => None
    | Some (frac, s3) =>
        match parseExponent s3 with
        | None => None
        | Some (expText, exp, rest) =>
            let m := JS.numberOfDigits (int ++ frac) in
            let m := if neg then (- m)%Z else m in
            let e := (exp - Z.of_nat (String.length frac))%Z in
            let numeral :=
              ((if neg then "-" else "") ++ int
               ++ (if String.eqb frac "" then "" else "." ++ frac) ++ expText)%string in
            if Z.leb 0 e then Some (JNumber (m * 10 ^ e), rest)
            else if Z.eqb (m mod 10 ^ (- e)) 0 then Some (JNumber (m / 10 ^ (- e)), rest)
            else Some (JNonInteger numeral, rest)
        end
    end.

Definition parseLiteral (word : string) (v : value) (s : string)
  : option (value * string) :=
  match JS.stripPrefix word s with
  | Some rest => Some (v, rest)
  | None => None
  end.

(** Recursive descent; [fuel] bounds the nesting and the number of elements
    read, both at most the length of the text. *)
Fixpoint parseValue (fuel : nat) (s : string) : option (value * string) :=
  match fuel with
  | O => None
  | S fuel' =>
      match skipWs s with
      | EmptyString => None
      | String c r =>
          if Ascii.eqb c QUOTE then
            match parseStringBody r with
            | Some (str, rest) => Some (JString str, rest)
            | None => None
            end
          else if Ascii.eqb c "[" then
            match skipWs r with
            | String "]" rest => Some (JArray [], rest)
            | _ => parseElements fuel' r []
            end
          else if Ascii.eqb c "{" then
            match skipWs r with
            | String "}" rest => Some (JObject [], rest)
            | _ => parseMembers fuel' r []
            end
          else if Ascii.eqb c "n" then parseLiteral "null" JNull (String c r)
          else if Ascii.eqb c "t" then parseLiteral "true" (JBool true) (String c r)
          else if Ascii.eqb c "f" then parseLiteral "false" (JBool false) (String c r)
          else parseNumber (String c r)
      end
  end
with parseElements (fuel : nat) (s : string) (acc : list value)
  : option (value * string) :=
  match fuel with
  | O => None
  | S fuel' =>
      match parseValue fuel' s with
      | Some (v, r) =>
          match skipWs r with
          | String "," rest => parseElements fuel' rest (acc ++ [v])
          | String "]" rest => Some (JArray (acc ++ [v]), rest)
          | _ => None
          end
      | None => None
      end
  end
with parseMembers (fuel : nat) (s : string) (acc : list (string * value))
  : option (value * string) :=
  match fuel with
  | O => None
  | S fuel' =>
      match skipWs s with
      | String c r =>
          if Ascii.eqb c QUOTE then
            match parseStringBody r with
            | Some (k, r1) =>
                match skipWs r1 with
                | String ":" r2 =>
                    match parseValue fuel' r2 with
                    | Some (v, r3) =>
                        match skipWs r3 with
                        | String "," rest => parseMembers fuel' rest (setMember k v acc)
                        | String "}" rest => Some (JObject (setMember k v acc), rest)
                        | _ => None
                        end
                    | None => None
                    end
                | _ => None
                end
            | None => None
            end
          else None
      | EmptyString => None
      end
  end.

(** [JSON.parse(text)]: one value, then nothing but white space; a
    [SyntaxError] otherwise. *)
Definition parse (text : string) : outcome value :=
  match parseValue (2 * String.length text + 2) text with
  | Some (v, rest) =>
      if String.eqb (skipWs rest) "" then Returned v else Thrown
  | None => Thrown
  end.

End Json.

(** ** JSON, facts about the values the codec writes *)

Module JsonSpec.
Import Json.

Fixpoint allDigits (s : string) : bool :=
  match s with
  | EmptyString => true
  | String c r => JS.isDigit c && allDigits r
  end.

(** A value [JSON.stringify] writes and [JSON.parse] reads back: integers
    only, and no key twice in an object. *)
Fixpoint wellFormed (v : value) : Prop :=
  match v with
  | JNonInteger _ => False
  | JArray items =>
      (fix all (l : list value) : Prop :=
         match l with
         | [] => True
         | x :: r => wellFormed x /\ all r
         end) items
  | JObject members =>
      List.NoDup (map fst members)
      /\ (fix all (l : list (string * value)) : Prop :=
            match l with
            | [] => True
            | m :: r => wellFormed (snd m) /\ all r
            end) members
  | _ => True
  end.

(** The nodes of a value, each item and member counted twice. *)
Fixpoint size (v : value) : nat :=
  match v with
  | JArray items =>
      S ((fix sum (l : list value) : nat :=
            match l with
            | [] => O
            | x :: r => S (size x) + sum r
            end) items)
  | JObject members =>
      S ((fix sum (l : list (string * value)) : nat :=
            match l with
            | [] => O
            | m :: r => S (size (snd m)) + sum r
            end) members)
  | _ => 1%nat
  end.

Definition itemsSize (items : list value) : nat :=
  list_sum (map (fun x => S (size x)) items).

Definition membersSize (members : list (string * value)) : nat :=
  list_sum (map (fun m => S (size (snd m))) members).

(** What may follow a value: the end of the text, or a code unit that ends
    a numeral. *)
Definition delimited (rest : string) : Prop :=
  match rest with
  | EmptyString => True
  | String c _ =>
      c = ","%char \/ c = JS.LF \/ c = "]"%char \/ c = "}"%char \/ c = " "%char
  end.

End JsonSpec.

(** ** Hunks, in the words of the specification *)

Module HunkSpec.
Local Open Scope Z_scope.

(** Every integer up to this bound is a double: there the numbers of the
    code and the integers of the model agree. *)
Definition MAX_SAFE : Z := 2 ^ 53.

(** The decimal numeral of a number that is not negative. *)
Definition numeral (n : Z) : string := Json.digitsOf n.

(** The count of a range of a hunk header, when it is written. *)
Definition countText (count : option Z) : string :=
  match count with
  | Some n => "," +:+ numeral n
  | None => ""
  end.

(** An omitted count is 1. *)
Definition countOf (count : option Z) : Z :=
  match count with
  | Some n => n
  | None => 1
  end.

(** The header line [@@ -a,b +c,d @@rest] of a hunk. *)
Definition headerLine (a : Z) (b : option Z) (c : Z) (d : option Z) (rest : string)
  : string :=
  "@@ -" +:+ numeral a +:+ countText b +:+ " +" +:+ numeral c +:+ countText d
  +:+ " @@" +:+ rest.

(** A line of the body of a hunk: kept in both files, added to the new file
    or removed from the old one. *)
Inductive BodyLine :=
| Kept (text : string)
| Added (text : string)
| Removed (text : string).

Definition lineText (l : BodyLine) : string :=
  match l with
  | Kept text => " " +:+ text
  | Added text => "+" +:+ text
  | Removed text => "-" +:+ text
  end.

Definition oneLine (text : string) : Prop :=
  JS.includesChar JS.LF text = false /\ JS.includesChar JS.CR text = false.

(** The text of a line has no line end, and the line is no file header
    ([+++] or [---]). *)
Definition bodyLineOk (l : BodyLine) : Prop :=
  match l with
  | Kept text => oneLine text
  | Added text => oneLine text /\ JS.startsWith text "++" = false
  | Removed text => oneLine text /\ JS.startsWith text "--" = false
  end.

(** The text of a diff with one hunk. *)
Definition hunkText (a : Z) (b : option Z) (c : Z) (d : option Z) (rest : string)
  (body : list BodyLine) : string :=
  JS.join (String JS.LF "") (headerLine a b c d rest :: map lineText body).

(** The runs of added lines of a body whose first line has the number
    [newLine] in the new file.  A kept line and an added line take a line
    number, a removed line takes none; added lines that follow one another
    make one run, from the number of the first to the number of the last. *)
Fixpoint addedRuns (newLine : Z) (body : list BodyLine) {struct body}
  : list Diff.DiffLineRange :=
  match body with
  | [] => []
  | l :: rest =>
      match l with
      | Kept _ => addedRuns (newLine + 1) rest
      | Removed _ => addedRuns newLine rest
      | Added _ =>
          let single := {| Diff.start := newLine; Diff.end_ := newLine |} in
          let later := addedRuns (newLine + 1) rest in
          match rest with
          | Added _ :: _ =>
              match later with
              | run :: runs =>
                  {| Diff.start := newLine; Diff.end_ := Diff.end_ run |} :: runs
              | [] => [single]
              end
          | _ => single :: later
          end
      end
  end.

(** What is left of a count for the header: its numeral. *)
Definition countDigits (count : option Z) : option string := option_map numeral count.

Definition countOk (count : option Z) : Prop :=
  match count with
  | Some n => 0 <= n
  | None => True
  end.

(** The runs of a body that follows an added line: [open] is the run that
    ends with that line. *)
Definition continuedRuns (open : Diff.DiffLineRange) (newLine : Z)
  (body : list BodyLine) : list Diff.DiffLineRange :=
  match body with
  | Added _ :: _ =>
      match addedRuns newLine body with
      | run :: runs => {| Diff.start := Diff.start open; Diff.end_ := Diff.end_ run |} :: runs
      | [] => [open]
      end
  | _ => open :: addedRuns newLine body
  end.

End HunkSpec.

(** ** Persisted data model ([persistedTypes.ts])

    Field names carry a prefix where two records share a name.  The literal
    type of [schemaVersion] has the single value 1, so a thread carries no
    field for it; the codec writes and checks the constant. *)

Definition SCHEMA_VERSION : Z := 1.

Record PersistedRange := {
  startLine : Z;
  startCharacter : Z;
  endLine : Z;
  endCharacter : Z
}.

Record PersistedComment := {
  c_id : string;
  c_author : string;
  c_bodyMarkdown : string;
  c_createdAt : string
}.

Inductive PersistedThreadStatus := open | resolved.

Record PersistedAnchorContext := {
  before : list string;
  selection : string;
  after : list string
}.

Record PersistedGit := {
  baseRef : option string;
  hunkHeader : option string;
  hunkPatch : option string
}.

(** [kind] is always ['lineRange']. *)
Record PersistedAnchor := {
  context : option PersistedAnchorContext;
  git : option PersistedGit
}.

Record PersistedThreadTarget := {
  workspaceRelativePath : string;
  range : option PersistedRange;
  anchor : PersistedAnchor
}.

Record PersistedThread := {
  t_id : string;
  target : PersistedThreadTarget;
  status : PersistedThreadStatus;
  comments : list PersistedComment;
  createdAt : string;
  updatedAt : string
}.

#[global] Instance PersistedRange_eq_dec : EqDecision PersistedRange.
Proof. solve_decision. Defined.
#[global] Instance PersistedComment_eq_dec : EqDecision PersistedComment.
Proof. solve_decision. Defined.
#[global] Instance PersistedThreadStatus_eq_dec : EqDecision PersistedThreadStatus.
Proof. solve_decision. Defined.
#[global] Instance PersistedAnchorContext_eq_dec : EqDecision PersistedAnchorContext.
Proof. solve_decision. Defined.
#[global] Instance PersistedGit_eq_dec : EqDecision PersistedGit.
Proof. solve_decision. Defined.
#[global] Instance PersistedAnchor_eq_dec : EqDecision PersistedAnchor.
Proof. solve_decision. Defined.
#[global] Instance PersistedThreadTarget_eq_dec : EqDecision PersistedThreadTarget.
Proof. solve_decision. Defined.
#[global] Instance PersistedThread_eq_dec : EqDecision PersistedThread.
Proof. solve_decision. Defined.

Definition with_range (t : PersistedThread) (r : option PersistedRange) : PersistedThread :=
  {| t_id := t_id t;
     target := {| workspaceRelativePath := workspaceRelativePath (target t);
                  range := r;
                  anchor := anchor (target t) |};
     status := status t; comments := comments t;
     createdAt := createdAt t; updatedAt := updatedAt t |}.

Definition with_updatedAt (t : PersistedThread) (now : string) : PersistedThread :=
  {| t_id := t_id t; target := target t; status := status t;
     comments := comments t; createdAt := createdAt t; updatedAt := now |}.

(** ** Thread codec ([workspaceReviewStore.ts]) *)

Module Codec.
Import Json.

Definition THREAD_META_TAG : string := "local-code-review-thread".
Definition COMMENT_TAG : string := "local-code-review-comment".
Definition PATCH_TAG : string := "local-code-review-patch".

(** [PersistedThreadMeta]: a thread without its comments. *)
Record PersistedThreadMeta := {
  m_id : string;
  m_target : PersistedThreadTarget;
  m_status : PersistedThreadStatus;
  m_createdAt : string;
  m_updatedAt : string
}.

(** [{ ...meta, comments }]. *)
Definition withComments (meta : PersistedThreadMeta) (cs : list PersistedComment)
  : PersistedThread :=
  {| t_id := m_id meta; target := m_target meta; status := m_status meta;
     comments := cs; createdAt := m_createdAt meta; updatedAt := m_updatedAt meta |}.

(** A string is truthy when it is not empty. *)
Definition truthy (o : option string) : bool :=
  match o with
  | Some s => negb (String.eqb s "")
  | None => false
  end.

(** [a || b] on strings. *)
Definition orElse (a b : string) : string := if String.eqb a "" then b else a.

(** *** Decoding the metadata *)

Definition parseNonNegativeInteger (v : option value) : option Z :=
  match v with
  | Some (JNumber n) => if Z.ltb n 0 then None else Some n
  | _ => None
  end.

Definition parseString (v : option value) : option string :=
  match v with
  | Some (JString s) => Some s
  | _ => None
  end.

Definition parseNonEmptyString (v : option value) : option string :=
  match parseString v with
  | Some s => if String.eqb (JS.trim s) "" then None else Some s
  | None => None
  end.

Fixpoint allStrings (items : list value) : option (list string) :=
  match items with
  | [] => Some []
  | JString s :: rest =>
      match allStrings rest with
      | Some l => Some (s :: l)
      | None => None
      end
  | _ :: _ => None
  end.

Definition parseStringArray (v : option value) : option (list string) :=
  match v with
  | Some (JArray items) => allStrings items
  | _ => None
  end.

(** [null] stands for every value that is not a complete range. *)
Definition parsePersistedRange (v : option value) : option PersistedRange :=
  match v with
  | None | Some JNull => None
  | _ =>
      if negb (isRecord v) then None
      else
        match parseNonNegativeInteger (prop v "startLine"),
              parseNonNegativeInteger (prop v "startCharacter"),
              parseNonNegativeInteger (prop v "endLine"),
              parseNonNegativeInteger (prop v "endCharacter") with
        | Some sl, Some sc, Some el, Some ec =>
            Some {| startLine := sl; startCharacter := sc;
                    endLine := el; endCharacter := ec |}
        | _, _, _, _ => None
        end
  end.

Definition parsePersistedAnchorContext (v : option value)
  : option PersistedAnchorContext :=
  if negb (isRecord v) then None
  else
    match parseStringArray (prop v "before"),
          parseString (prop v "selection"),
          parseStringArray (prop v "after") with
    | Some b, Some s, Some a => Some {| before := b; selection := s; after := a |}
    | _, _, _ => None
    end.

Definition parsePersistedThreadStatus (v legacyState : option value)
  : PersistedThreadStatus :=
  match v with
  | Some (JString "open") => open
  | Some (JString "resolved") => resolved
  | _ =>
      match legacyState with
      | Some (JString "resolved") => resolved
      | _ => open
      end
  end.

Definition parsePersistedComment (now : string) (v : option value)
  (fallbackId : string) : option PersistedComment :=
  if negb (isRecord v) then None
  else
    Some {| c_id := match parseNonEmptyString (prop v "id") with
                    | Some s => s | None => fallbackId end;
            c_author := match parseNonEmptyString (prop v "author") with
                        | Some s => s | None => "unknown" end;
            c_bodyMarkdown :=
              match parseString (prop v "bodyMarkdown") with
              | Some s => s
              | None => match parseString (prop v "body") with
                        | Some s => s | None => "" end
              end;
            c_createdAt := match parseString (prop v "createdAt") with
                           | Some s => s | None => now end |}.

Definition parseAnchor (raw : option value) : PersistedAnchor :=
  if isRecord raw
     && match prop raw "kind" with
        | Some (JString "lineRange") => true
        | _ => false
        end
  then
    let ctx := parsePersistedAnchorContext (prop raw "context") in
    let g :=
      if isRecord (prop raw "git") then
        Some {| baseRef := parseString (prop (prop raw "git") "baseRef");
                hunkHeader := parseString (prop (prop raw "git") "hunkHeader");
                hunkPatch := parseString (prop (prop raw "git") "hunkPatch") |}
      else None in
    {| context := ctx;
       git := match g with
              | Some g' =>
                  if truthy (baseRef g') || truthy (hunkHeader g') || truthy (hunkPatch g')
                  then g else None
              | None => None
              end |}
  else {| context := None; git := None |}.

(** [now] is [new Date().toISOString()]. *)
Definition parsePersistedThreadMeta (now : string) (v : option value)
  : option PersistedThreadMeta :=
  if negb (isRecord v)
     || negb match prop v "schemaVersion" with
             | Some (JNumber n) => Z.eqb n SCHEMA_VERSION
             | _ => false
             end
  then None
  else
    match parseNonEmptyString (prop v "id") with
    | None => None
    | Some id_ =>
        let target_ := prop v "target" in
        if negb (isRecord target_) then None
        else
          match parseNonEmptyString (prop target_ "workspaceRelativePath") with
          | None => None
          | Some path =>
              let range_ := parsePersistedRange (prop target_ "range") in
              let anchor_ := parseAnchor (prop target_ "anchor") in
              let status_ := parsePersistedThreadStatus (prop v "status") (prop v "state") in
              let createdAt_ :=
                match parseString (prop v "createdAt") with
                | Some s => s | None => now end in
              let updatedAt_ :=
                match parseString (prop v "updatedAt") with
                | Some s => s | None => createdAt_ end in
              Some {| m_id := id_;
                      m_target := {| workspaceRelativePath := path;
                                     range := range_;
                                     anchor := anchor_ |};
                      m_status := status_;
                      m_createdAt := createdAt_;
                      m_updatedAt := updatedAt_ |}
          end
    end.

Fixpoint parseCommentsFrom (now id_ : string) (i : Z) (items : list value)
  : list PersistedComment :=
  match items with
  | [] => []
  | c :: rest =>
      match parsePersistedComment now (Some c) (id_ +:+ ":" +:+ numberToString i) with
      | Some pc => pc :: parseCommentsFrom now id_ (i + 1) rest
      | None => parseCommentsFrom now id_ (i + 1) rest
      end
  end.

(** [parsePersistedThread], for the legacy JSON files. *)
Definition parsePersistedThread (now : string) (v : option value)
  : option PersistedThread :=
  match parsePersistedThreadMeta now v with
  | None => None
  | Some meta =>
      let commentsRaw :=
        match prop v "comments" with
        | Some (JArray items) => if isRecord v then items else []
        | _ => []
        end in
      Some (withComments meta (parseCommentsFrom now (m_id meta) 0 commentsRaw))
  end.

(** *** Encoding *)

Definition statusText (s : PersistedThreadStatus) : string :=
  match s with
  | open => "open"
  | resolved => "resolved"
  end.

Definition rangeJson (r : option PersistedRange) : value :=
  match r with
  | None => JNull
  | Some r =>
      JObject [("startLine", JNumber (startLine r));
               ("startCharacter", JNumber (startCharacter r));
               ("endLine", JNumber (endLine r));
               ("endCharacter", JNumber (endCharacter r))]
  end.

Definition contextJson (c : PersistedAnchorContext) : value :=
  JObject [("before", JArray (map JString (before c)));
           ("selection", JString (selection c));
           ("after", JArray (map JString (after c)))].

(** A property whose value is [undefined] is left out by [JSON.stringify]. *)
Definition optionalMember (k : string) (o : option value) : list (string * value) :=
  match o with
  | Some v => [(k, v)]
  | None => []
  end.

(** The [git] object of the metadata block: a copy without [hunkPatch], kept
    when [baseRef] or [hunkHeader] is truthy. *)
Definition metaGit (a : PersistedAnchor) : option value :=
  match git a with
  | Some g =>
      if truthy (baseRef g) || truthy (hunkHeader g) then
        Some (JObject (optionalMember "baseRef" (option_map JString (baseRef g))
                       ++ optionalMember "hunkHeader" (option_map JString (hunkHeader g))))
      else None
  | None => None
  end.

Definition anchorJson (a : PersistedAnchor) : value :=
  JObject ([("kind", JString "lineRange")]
           ++ optionalMember "context" (option_map contextJson (context a))
           ++ optionalMember "git" (metaGit a)).

(** The object handed to [JSON.stringify(meta, null, 2)]. *)
Definition metaJson (thread : PersistedThread) : value :=
  JObject [("schemaVersion", JNumber SCHEMA_VERSION);
           ("id", JString (t_id thread));
           ("target",
            JObject [("workspaceRelativePath",
                      JString (workspaceRelativePath (target thread)));
                     ("range", rangeJson (range (target thread)));
                     ("anchor", anchorJson (anchor (target thread)))]);
           ("status", JString (statusText (status thread)));
           ("createdAt", JString (createdAt thread));
           ("updatedAt", JString (updatedAt thread))].

Definition formatRangeLabel (r : option PersistedRange) : string :=
  match r with
  | None => "File"
  | Some r =>
      let start_ := (startLine r + 1)%Z in
      let end__ := (endLine r + 1)%Z in
      if Z.eqb start_ end__ then "L" +:+ numberToString start_
      else "L" +:+ numberToString start_ +:+ "-L" +:+ numberToString end__
  end.

(** The separator of the heading: a space, a middle dot, a space. *)
Definition MIDDLE_DOT : string :=
  String " " (String (ascii_of_nat 183) (String " " "")).

Definition escapeXmlAttr (value : string) : string :=
  JS.replaceAll ">" "&gt;"
    (JS.replaceAll "<" "&lt;"
       (JS.replaceAll (String QUOTE "") "&quot;"
          (JS.replaceAll "&" "&amp;" value))).

Definition unescapeXmlAttr (value : string) : string :=
  JS.replaceAll "&amp;" "&"
    (JS.replaceAll "&gt;" ">"
       (JS.replaceAll "&lt;" "<"
          (JS.replaceAll "&quot;" (String QUOTE "") value))).

Definition Q : string := String QUOTE "".

(** The marker line of a comment. *)
Definition commentMetaLine (c : PersistedComment) : string :=
  "<" +:+ COMMENT_TAG +:+ " id=" +:+ Q +:+ escapeXmlAttr (c_id c) +:+ Q
  +:+ " author=" +:+ Q +:+ escapeXmlAttr (c_author c) +:+ Q
  +:+ " createdAt=" +:+ Q +:+ escapeXmlAttr (c_createdAt c) +:+ Q +:+ "/>".

Definition splitText (s : string) : list string := JS.splitLF (JS.replaceCRLF s).

Definition contextLines (c : PersistedAnchorContext) : list string :=
  [""; "## Context";
   ""; "### Before"; "```text"] ++ before c ++ ["```";
   ""; "### Selection"; "```text"] ++ splitText (selection c) ++ ["```";
   ""; "### After"; "```text"] ++ after c ++ ["```"].

Definition gitLines (g : option PersistedGit) : list string :=
  match g with
  | Some g =>
      if truthy (baseRef g) || truthy (hunkHeader g) then
        [""; "## Git"]
        ++ (match baseRef g with
            | Some b => if String.eqb b "" then [] else ["- baseRef: " +:+ b]
            | None => []
            end)
        ++ (match hunkHeader g with
            | Some h => if String.eqb h "" then [] else ["- hunkHeader: " +:+ h]
            | None => []
            end)
      else []
  | None => []
  end.

(** [hunkPatch?.trimEnd()]. *)
Definition patchText (g : option PersistedGit) : option string :=
  match g with
  | Some g => option_map JS.trimEnd (hunkPatch g)
  | None => None
  end.

Definition patchLines (g : option PersistedGit) : list string :=
  if truthy (patchText g) then
    [""; "## Patch"; "<" +:+ PATCH_TAG +:+ " lang=" +:+ Q +:+ "diff" +:+ Q +:+ "/>";
     ""; "```diff"]
    ++ splitText (match patchText g with Some p => p | None => "" end)
    ++ ["```"]
  else [].

Definition commentLines (c : PersistedComment) : list string :=
  let body := JS.trimEnd (c_bodyMarkdown c) in
  [""; commentMetaLine c; ""]
  ++ (if String.eqb body "" then [] else splitText body).

(** The array [lines] of [serializeThreadMarkdown]. *)
Definition threadLines (thread : PersistedThread) : list string :=
  let headerLabel :=
    workspaceRelativePath (target thread) +:+ ":"
    +:+ formatRangeLabel (range (target thread)) +:+ MIDDLE_DOT
    +:+ statusText (status thread) in
  ["<" +:+ THREAD_META_TAG +:+ ">";
   stringify (metaJson thread);
   "</" +:+ THREAD_META_TAG +:+ ">";
   "";
   "# " +:+ headerLabel]
  ++ (match context (anchor (target thread)) with
      | Some c => contextLines c
      | None => []
      end)
  ++ gitLines (git (anchor (target thread)))
  ++ patchLines (git (anchor (target thread)))
  ++ [""; "## Comments"]
  ++ concat (map commentLines (comments thread)).

Definition serializeThreadMarkdown (thread : PersistedThread) : string :=
  JS.join NL (threadLines thread) +:+ NL.

(** *** Decoding *)

(** The first loop: the lines after the opening marker. *)
Fixpoint afterOpenMarker (lines : list string) : option (list string) :=
  match lines with
  | [] => None
  | l :: rest =>
      if String.eqb (JS.trim l) ("<" +:+ THREAD_META_TAG +:+ ">") then Some rest
      else afterOpenMarker rest
  end.

(** The second loop: [metaLines], and the lines after the closing marker. *)
Fixpoint untilCloseMarker (lines : list string)
  : option (list string * list string) :=
  match lines with
  | [] => None
  | l :: rest =>
      if String.eqb (JS.trim l) ("</" +:+ THREAD_META_TAG +:+ ">") then Some ([], rest)
      else
        match untilCloseMarker rest with
        | Some (metaLines, after_) => Some (l :: metaLines, after_)
        | None => None
        end
  end.

Definition isPatchMarker (l : string) : bool :=
  JS.startsWith (JS.trim l) ("<" +:+ PATCH_TAG).

Fixpoint dropChars (n : nat) (s : string) : string :=
  match n, s with
  | O, _ => s
  | S n', String _ r => dropChars n' r
  | S _, EmptyString => EmptyString
  end.

(** A fence line whose language is [diff] or [patch]. *)
Definition isPatchFence (l : string) : bool :=
  let fenceLine := JS.trimEnd l in
  JS.startsWith fenceLine "```"
  && (let lang := JS.trim (dropChars 3 fenceLine) in
      String.eqb lang "diff" || String.eqb lang "patch").

Fixpoint afterPatchMarker (lines : list string) : option (list string) :=
  match lines with
  | [] => None
  | l :: rest => if isPatchMarker l then Some rest else afterPatchMarker rest
  end.

Fixpoint afterPatchFence (lines : list string) : option (list string) :=
  match lines with
  | [] => None
  | l :: rest => if isPatchFence l then Some rest else afterPatchFence rest
  end.

(** [patchLines]: up to the closing fence or the end. *)
Fixpoint fencedLines (lines : list string) : list string :=
  match lines with
  | [] => []
  | l :: rest => if String.eqb (JS.trimEnd l) "```" then [] else l :: fencedLines rest
  end.

(** The patch of the first marker and the first fence after it, if it is
    not blank. *)
Definition extractPatch (lines : list string) : option string :=
  match afterPatchMarker lines with
  | None => None
  | Some rest =>
      match afterPatchFence rest with
      | None => None
      | Some body =>
          let p := JS.trimEnd (JS.join NL (fencedLines body)) in
          if String.eqb p "" then None else Some p
      end
  end.

(** [meta.target.anchor.git = { ...existing, hunkPatch: patch }]. *)
Definition withPatch (meta : PersistedThreadMeta) (p : string) : PersistedThreadMeta :=
  let a := anchor (m_target meta) in
  let existing :=
    match git a with
    | Some g => g
    | None => {| baseRef := None; hunkHeader := None; hunkPatch := None |}
    end in
  {| m_id := m_id meta;
     m_target :=
       {| workspaceRelativePath := workspaceRelativePath (m_target meta);
          range := range (m_target meta);
          anchor := {| context := context a;
                       git := Some {| baseRef := baseRef existing;
                                      hunkHeader := hunkHeader existing;
                                      hunkPatch := Some p |} |} |};
     m_status := m_status meta;
     m_createdAt := m_createdAt meta;
     m_updatedAt := m_updatedAt meta |}.

Definition isCommentMarker (l : string) : bool :=
  JS.startsWith (JS.trim l) ("<" +:+ COMMENT_TAG).

(** The text up to the next double quote, which must be there. *)
Fixpoint untilQuote (s : string) : option string :=
  match s with
  | EmptyString => None
  | String c r =>
      if Ascii.eqb c QUOTE then Some EmptyString
      else match untilQuote r with
           | Some v => Some (String c v)
           | None => None
           end
  end.

Definition attrAt (name s : string) : option string :=
  match JS.stripPrefix (name +:+ "=" +:+ Q) s with
  | Some r => untilQuote r
  | None => None
  end.

(** The first match of the attribute pattern: a word boundary, the name,
    an equals sign and a quoted value without double quote; the result is
    the value.  [afterWord] tells whether the previous code unit is a word
    character. *)
Fixpoint attrSearch (name : string) (afterWord : bool) (s : string) : option string :=
  match (if afterWord then None else attrAt name s) with
  | Some v => Some v
  | None =>
      match s with
      | String c r => attrSearch name (JS.isWordChar c) r
      | EmptyString => None
      end
  end.

(** [(match?.[1] ?? '')]. *)
Definition attr (name raw : string) : string :=
  match attrSearch name false raw with
  | Some v => v
  | None => EmptyString
  end.

Definition skipBlankLine (lines : list string) : list string :=
  match lines with
  | EmptyString :: rest => rest
  | _ => lines
  end.

(** [bodyLines]: up to the next comment marker or the end. *)
Fixpoint bodyLines (lines : list string) : list string :=
  match lines with
  | [] => []
  | l :: rest => if isCommentMarker l then [] else l :: bodyLines rest
  end.

(** The comment of the marker line [raw], followed by [following]. *)
Definition parseComment (meta : PersistedThreadMeta) (commentIndex : Z)
  (raw : string) (following : list string) : PersistedComment :=
  let fallbackId := m_id meta +:+ ":" +:+ numberToString commentIndex in
  let fallbackCreatedAt := orElse (m_updatedAt meta) (m_createdAt meta) in
  {| c_id := orElse (JS.trim (attr "id" raw)) fallbackId;
     c_author := orElse (JS.trim (unescapeXmlAttr (attr "author" raw))) "unknown";
     c_bodyMarkdown := JS.trimEnd (JS.join NL (bodyLines (skipBlankLine following)));
     c_createdAt := orElse (JS.trim (attr "createdAt" raw)) fallbackCreatedAt |}.

(** The last loop.  The lines of a body are no markers, so going on right
    after a marker line reaches the same next marker as going on after its
    body. *)
Fixpoint parseComments (meta : PersistedThreadMeta) (commentIndex : Z)
  (lines : list string) : list PersistedComment :=
  match lines with
  | [] => []
  | l :: rest =>
      if isCommentMarker l then
        parseComment meta commentIndex (JS.trim l) rest
        :: parseComments meta (commentIndex + 1) rest
      else parseComments meta commentIndex rest
  end.

(** [parseThreadMarkdown(markdown)]; [now] is the clock of the defaults. *)
Definition parseThreadMarkdown (now : string) (markdown : string)
  : outcome (option PersistedThread) :=
  let lines := splitText markdown in
  match afterOpenMarker lines with
  | None => Returned None
  | Some l1 =>
      match untilCloseMarker l1 with
      | None => Returned None
      | Some (metaLines, rest) =>
          match parse (JS.trim (JS.join NL metaLines)) with
          | Thrown => Returned None
          | Returned metaObject =>
              match parsePersistedThreadMeta now (Some metaObject) with
              | None => Returned None
              | Some meta =>
                  let meta' :=
                    match extractPatch rest with
                    | Some p => withPatch meta p
                    | None => meta
                    end in
                  Returned (Some (withComments meta' (parseComments meta' 0 rest)))
              end
          end
      end
  end.

End Codec.

(** ** Anchor relocator ([localCodeReviewManager.ts]) *)

Module Relocate.
Local Open Scope Z_scope.

(** [list[i]] for a numeric index: [undefined] out of range. *)
Definition at_ {A} (l : list A) (i : Z) : option A :=
  if Z.ltb i 0 then None else nth_error l (Z.to_nat i).

Definition len {A} (l : list A) : Z := Z.of_nat (length l).
Definition strlen (s : string) : Z := Z.of_nat (String.length s).

(** Every offset at which [sel] occurs in the text, in increasing order;
    [pos] is the offset of the text that is left. *)
Fixpoint occurrencesFrom (sel text : string) (pos : Z) : list Z :=
  (if JS.isPrefix sel text then [pos] else []) ++
  match text with
  | String _ r => occurrencesFrom sel r (pos + 1)
  | EmptyString => []
  end.

(** The [indexOf] loop: the first 50 occurrences. *)
Definition occurrences (fileText sel : string) : list Z :=
  firstn 50%nat (occurrencesFrom sel fileText 0).

Fixpoint lineStartsFrom (text : string) (i : Z) : list Z :=
  match text with
  | String c r =>
      if Ascii.eqb c JS.LF then (i + 1) :: lineStartsFrom r (i + 1)
      else lineStartsFrom r (i + 1)
  | EmptyString => []
  end.

Definition buildLineStarts (text : string) : list Z := 0 :: lineStartsFrom text 0.

Record Position := { line : Z; character : Z }.

(** The binary search of [offsetToPosition]; [fuel] bounds the iterations
    of its [while] loop. *)
Fixpoint offsetSearch (fuel : nat) (lineStarts : list Z) (offset low high : Z)
  : Position :=
  let fallback :=
    let l := Z.max 0 high in
    {| line := l;
       character := Z.max 0 (offset - match at_ lineStarts l with
                                      | Some s => s | None => 0 end) |} in
  match fuel with
  | O => fallback
  | S fuel' =>
      if Z.leb low high then
        let mid := (low + high) / 2 in
        match at_ lineStarts mid with
        | Some start_ =>
            if Z.eqb start_ offset then {| line := mid; character := 0 |}
            else if Z.ltb start_ offset
                 then offsetSearch fuel' lineStarts offset (mid + 1) high
                 else offsetSearch fuel' lineStarts offset low (mid - 1)
        | None => offsetSearch fuel' lineStarts offset low (mid - 1)
        end
      else fallback
  end.

Definition offsetToPosition (lineStarts : list Z) (offset : Z) : Position :=
  offsetSearch (S (length lineStarts)) lineStarts offset 0 (len lineStarts - 1).

(** The first match of
    [@@ -\d+(?:,\d+)? \+(\d+)(?:,(\d+))? @@] anywhere in the header: its
    first capture. *)
Definition approxAt (s : string) : option string :=
  match JS.stripPrefix "@@ -" s with
  | None => None
  | Some s1 =>
      match Diff.matchStartCount s1 with
      | None => None
      | Some (_, _, s2) =>
          match JS.stripPrefix " +" s2 with
          | None => None
          | Some s3 =>
              match Diff.matchStartCount s3 with
              | None => None
              | Some (ns, _, s4) =>
                  if JS.startsWith s4 " @@" then Some ns else None
              end
          end
      end
  end.

Fixpoint approxSearch (s : string) : option string :=
  match approxAt s with
  | Some ns => Some ns
  | None =>
      match s with
      | String _ r => approxSearch r
      | EmptyString => None
      end
  end.

(** [Number.isFinite(Number(digits))]: an engine that rounds to the nearest
    double reads a numeral at or above 2^1024 - 2^970 as [Infinity]. *)
Definition isFinite (n : Z) : bool := Z.ltb n (2 ^ 1024 - 2 ^ 970).

(** [getApproximateLine].  The stored start line is a number of the model,
    which is finite. *)
Definition getApproximateLine (fallbackRange : PersistedRange)
  (hunkHeader : option string) : Z :=
  let parsed :=
    match hunkHeader with
    | Some h => if String.eqb h "" then None else approxSearch h
    | None => None
    end in
  match parsed with
  | Some ns =>
      let newStart := JS.numberOfDigits ns in
      if isFinite newStart then Z.max 0 (newStart - 1) else startLine fallbackRange
  | None => startLine fallbackRange
  end.

(** The first loop: [expected] is [context.before] read from its end. *)
Fixpoint matchesBefore (lines expected : list string) (actualIndex : Z) : Z :=
  match expected with
  | [] => 0
  | e :: es =>
      if Z.ltb actualIndex 0 then 0
      else match at_ lines actualIndex with
           | Some l =>
               if String.eqb l e then 1 + matchesBefore lines es (actualIndex - 1)
               else 0
           | None => 0
           end
  end.

(** The second loop, over [context.after]. *)
Fixpoint matchesAfter (lines expected : list string) (actualIndex : Z) : Z :=
  match expected with
  | [] => 0
  | e :: es =>
      if Z.leb (len lines) actualIndex then 0
      else match at_ lines actualIndex with
           | Some l =>
               if String.eqb l e then 1 + matchesAfter lines es (actualIndex + 1)
               else 0
           | None => 0
           end
  end.

Section Scoring.
Variables (fileText : string) (context : PersistedAnchorContext)
          (approximateLine : Z).

Definition selectionText : string := JS.replaceCRLF (selection context).
Definition lines : list string := JS.splitLF fileText.
Definition lineStarts : list Z := buildLineStarts fileText.
Definition selectionLineCount : Z := len (JS.splitLF selectionText).

Definition selectionStartLine (offset : Z) : Z :=
  line (offsetToPosition lineStarts offset).
Definition selectionEndLine (offset : Z) : Z :=
  selectionStartLine offset + selectionLineCount - 1.

Definition contextMatches (offset : Z) : Z :=
  matchesBefore lines (rev (before context)) (selectionStartLine offset - 1)
  + matchesAfter lines (after context) (selectionEndLine offset + 1).

Definition distance (offset : Z) : Z :=
  Z.abs (selectionStartLine offset - approximateLine).

Definition score (offset : Z) : Z := contextMatches offset * 10 - distance offset.

(** [bestScore], [bestDistance] and [bestOffset]; [None] stands for the
    initial minus and plus infinity. *)
Definition Best : Type := option (Z * Z * Z).

Definition better (best : Best) (offset : Z) : bool :=
  match best with
  | None => true
  | Some (bestScore, bestDistance, _) =>
      Z.ltb bestScore (score offset)
      || (Z.eqb (score offset) bestScore && Z.ltb (distance offset) bestDistance)
  end.

Definition bestOf (offset : Z) : Best :=
  Some (score offset, distance offset, offset).

Definition pick (best : Best) (offset : Z) : Best :=
  if better best offset then bestOf offset else best.

Definition bestOffset (occs : list Z) : option Z :=
  match fold_left pick occs None with
  | Some (_, _, o) => Some o
  | None => None
  end.
End Scoring.

(** [new vscode.Range(start, end)] orders its two positions. *)
Definition isBefore (a b : Position) : bool :=
  Z.ltb (line a) (line b)
  || (Z.eqb (line a) (line b) && Z.ltb (character a) (character b)).

Definition mkRange (a b : Position) : Position * Position :=
  if isBefore b a then (b, a) else (a, b).

Definition toPersistedRange (r : Position * Position) : PersistedRange :=
  {| startLine := line (fst r); startCharacter := character (fst r);
     endLine := line (snd r); endCharacter := character (snd r) |}.

(** [findAnchoredRangeInText], with the [vscode.Range] it returns read back
    by [toPersistedRange]. *)
Definition findAnchoredRangeInText (fileText : string)
  (context : PersistedAnchorContext) (fallbackRange : PersistedRange)
  (hunkHeader : option string) : option PersistedRange :=
  let sel := selectionText context in
  if String.eqb (JS.trim sel) "" then None
  else
    let occs := occurrences fileText sel in
    let approximateLine := getApproximateLine fallbackRange hunkHeader in
    match bestOffset fileText context approximateLine occs with
    | None => None
    | Some o =>
        let start_ := offsetToPosition (lineStarts fileText) o in
        let end__ := offsetToPosition (lineStarts fileText) (o + strlen sel) in
        Some (toPersistedRange (mkRange start_ end__))
    end.

Definition arePersistedRangesEqual (a b : PersistedRange) : bool :=
  Z.eqb (startLine a) (startLine b)
  && Z.eqb (startCharacter a) (startCharacter b)
  && Z.eqb (endLine a) (endLine b)
  && Z.eqb (endCharacter a) (endCharacter b).

(** A [vscode.TextDocument] with LF line ends is the list of its lines;
    [getText] is modelled for a range that lies inside the document. *)
Definition Document : Type := list string.

Definition lineAt (document : Document) (i : Z) : string :=
  match at_ document i with Some l => l | None => EmptyString end.

Definition sliceLines (document : Document) (from to : Z) : list string :=
  firstn (Z.to_nat (to - from)) (skipn (Z.to_nat from) document).

Definition getText (document : Document) (r : PersistedRange) : string :=
  let first := lineAt document (startLine r) in
  if Z.eqb (startLine r) (endLine r) then
    String.substring (Z.to_nat (startCharacter r))
      (Z.to_nat (endCharacter r - startCharacter r)) first
  else
    JS.join (String JS.LF "")
      ([String.substring (Z.to_nat (startCharacter r))
          (String.length first - Z.to_nat (startCharacter r)) first]
       ++ sliceLines document (startLine r + 1) (endLine r)
       ++ [String.substring 0 (Z.to_nat (endCharacter r))
             (lineAt document (endLine r))]).

(** [buildAnchorContext]: the selection and up to two lines on each side. *)
Definition buildAnchorContext (document : Document) (r : PersistedRange)
  : PersistedAnchorContext :=
  let beforeLineCount := 2 in
  let afterLineCount := 2 in
  let beforeStart := Z.max 0 (startLine r - beforeLineCount) in
  let afterEnd := Z.min (len document - 1) (endLine r + afterLineCount) in
  {| before := sliceLines document beforeStart (startLine r);
     selection := getText document r;
     after := sliceLines document (endLine r + 1) (afterEnd + 1) |}.

(** [normalizeWorkspaceRelativePath]: as for the storage root, without the
    removal of trailing slashes; [None] is [undefined]. *)
Definition normalizeWorkspaceRelativePath (workspaceRelativePath : string)
  : option string :=
  let raw := JS.trim workspaceRelativePath in
  if String.eqb raw "" then None
  else if JS.includesChar JS.NUL raw then None
  else
    let normalizedSlashes := PathResolver.slashes raw in
    if JS.startsWith normalizedSlashes "/" || JS.startsWith normalizedSlashes "//"
    then None
    else if PathResolver.hasDrivePrefix normalizedSlashes then None
    else
      let normalized :=
        PathResolver.stripDotSlash (PathResolver.posix_normalize normalizedSlashes) in
      if PathResolver.rejectedResult normalized then None else Some normalized.

(** The workspace folder: the text of each file, keyed by the segments of
    its path below the folder. *)
Definition Workspace : Type := list string -> option string.

Definition resolveWorkspaceRelativePath (workspaceRelativePath : string)
  : option (list string) :=
  match normalizeWorkspaceRelativePath workspaceRelativePath with
  | None => None
  | Some normalized =>
      Some (filter (fun p => negb (String.eqb p "")) (JS.splitChar "/" normalized))
  end.

(** What [reanchorThreadIfNeeded] returns, and the thread it hands to
    [store.writeThread], if any. *)
Record Reanchored := {
  returned : PersistedThread;
  written : option PersistedThread
}.

Definition unchanged (persisted : PersistedThread) : Reanchored :=
  {| returned := persisted; written := None |}.

Definition reanchorThreadIfNeeded (ws : Workspace) (now : string)
  (persisted : PersistedThread) : Reanchored :=
  match context (anchor (target persisted)), range (target persisted) with
  | Some ctx, Some rng =>
      if String.eqb (JS.trim (selection ctx)) "" then unchanged persisted
      else
        match resolveWorkspaceRelativePath (workspaceRelativePath (target persisted)) with
        | None => unchanged persisted
        | Some uri =>
            match ws uri with
            | None => unchanged persisted
            | Some text =>
                let fileText := JS.replaceCRLF text in
                let hh := match git (anchor (target persisted)) with
                          | Some g => hunkHeader g
                          | None => None
                          end in
                match findAnchoredRangeInText fileText ctx rng hh with
                | None => unchanged persisted
                | Some newPersistedRange =>
                    if arePersistedRangesEqual newPersistedRange rng
                    then unchanged persisted
                    else
                      let moved :=
                        with_updatedAt (with_range persisted (Some newPersistedRange)) now in
                      {| returned := moved; written := Some moved |}
                end
            end
        end
  | _, _ => unchanged persisted
  end.

End Relocate.

(** ** Concrete scenarios *)

Definition scenarioB_diff : string :=
  JS.join (String JS.LF "")
    ["@@ -1,3 +1,4 @@"; " context"; "+added1"; "+added2"; " context2"].

(** Scenario A: [example.ts] after a blank line was inserted at its top, and
    the thread created on its second line before the edit. *)
Definition scenarioA_text : string :=
  JS.join (String JS.LF "")
    [""; "export function add(a, b) {"; "  return a + b;"; "}"].

Definition scenarioA_context : PersistedAnchorContext :=
  {| before := ["export function add(a, b) {"];
     selection := "  return a + b;";
     after := ["}"] |}.

Definition scenarioA_range : PersistedRange :=
  {| startLine := 1; startCharacter := 0; endLine := 1; endCharacter := 15 |}.

Definition scenarioA_thread : PersistedThread :=
  {| t_id := "t0001";
     target := {| workspaceRelativePath := "example.ts";
                  range := Some scenarioA_range;
                  anchor := {| context := Some scenarioA_context; git := None |} |};
     status := open;
     comments := [ {| c_id := "c0001"; c_author := "You";
                      c_bodyMarkdown := "LGTM";
                      c_createdAt := "2000-01-01T00:00:00.000Z" |} ];
     createdAt := "2000-01-01T00:00:00.000Z";
     updatedAt := "2000-01-01T00:00:00.000Z" |}.

Definition scenarioA_workspace : Relocate.Workspace :=
  fun uri => if decide (uri = ["example.ts"]) then Some scenarioA_text else None.

(** The thread of scenario A once it is relocated: its range is on the
    third line. *)
Definition anchored_range : PersistedRange :=
  {| startLine := 2; startCharacter := 0; endLine := 2; endCharacter := 15 |}.

(** A file in which the selection occurs twice: the stored context fits
    the second occurrence, the stored header and range point at the first. *)
Definition twice_text : string :=
  JS.join (String JS.LF "")
    ["let x = 1;"; "return x;"; "let y = 2;"; "return x;"; "}"].

Definition twice_context : PersistedAnchorContext :=
  {| before := ["let y = 2;"]; selection := "return x;"; after := ["}"] |}.

Definition twice_range : PersistedRange :=
  {| startLine := 1; startCharacter := 0; endLine := 1; endCharacter := 9 |}.

Definition twice_header : string := "@@ -1,3 +2,4 @@".

(** A thread on the second occurrence, with no hunk header stored. *)
Definition settled_range : PersistedRange :=
  {| startLine := 3; startCharacter := 0; endLine := 3; endCharacter := 9 |}.

Definition settled_thread : PersistedThread :=
  {| t_id := "t0006";
     target := {| workspaceRelativePath := "twice.ts";
                  range := Some settled_range;
                  anchor := {| context := Some twice_context; git := None |} |};
     status := open;
     comments := [];
     createdAt := "2000-01-01T00:00:00.000Z";
     updatedAt := "2000-01-01T00:00:00.000Z" |}.

Definition twice_workspace : Relocate.Workspace :=
  fun uri => if decide (uri = ["twice.ts"]) then Some twice_text else None.

(** ** Relocation, in the words of the specification *)

Module RelocateSpec.
Local Open Scope Z_scope.

(** How many leading elements of [stored] agree with [actual], stopping at
    the first mismatch. *)
Fixpoint matchingRun (stored actual : list string) : Z :=
  match stored, actual with
  | s :: stored', a :: actual' =>
      if String.eqb a s then 1 + matchingRun stored' actual' else 0
  | _, _ => 0
  end.

(** The stored [before] lines against the lines preceding [startLine_],
    nearest first, plus the stored [after] lines against the lines following
    [endLine_]. *)
Definition contextMatches (lines : list string) (ctx : PersistedAnchorContext)
  (startLine_ endLine_ : Z) : Z :=
  matchingRun (rev (before ctx)) (rev (firstn (Z.to_nat startLine_) lines))
  + matchingRun (after ctx) (skipn (Z.to_nat (endLine_ + 1)) lines).

Section Order.
Variables (score distance : Z -> Z).

(** [o] loses to [winner]: a lower score, or the same score and a larger
    distance. *)
Definition loses (winner o : Z) : Prop :=
  score o < score winner
  \/ (score o = score winner /\ distance winner < distance o).

(** [o] does not beat [winner]. *)
Definition noBetter (winner o : Z) : Prop :=
  score o < score winner
  \/ (score o = score winner /\ distance winner <= distance o).

(** [winner] has the highest score among [occs], the smallest distance
    among those, and comes first among the occurrences that tie on both. *)
Definition firstBest (occs : list Z) (winner : Z) : Prop :=
  exists earlier later,
    occs = earlier ++ winner :: later
    /\ Forall (loses winner) earlier
    /\ Forall (noBetter winner) later.
End Order.

(** The entries of [ls] grow with their index. *)
Definition increasing (ls : list Z) : Prop :=
  forall i j x y, Relocate.at_ ls i = Some x -> Relocate.at_ ls j = Some y -> i < j -> x < y.

(** What the binary search finds: the last line start not after [offset]. *)
Definition locates (ls : list Z) (offset : Z) (p : Relocate.Position) : Prop :=
  exists s, Relocate.at_ ls (Relocate.line p) = Some s /\ s <= offset
            /\ Relocate.character p = offset - s
            /\ forall j y, Relocate.at_ ls j = Some y -> Relocate.line p < j -> offset < y.

(** [text] without its first [k] code units. *)
Fixpoint dropChars (k : nat) (text : string) : string :=
  match k, text with
  | O, _ => text
  | S k', String _ r => dropChars k' r
  | S _, EmptyString => EmptyString
  end.

(** [sel] occurs in [text] at offset [o]. *)
Definition occursAt (sel text : string) (o : Z) : Prop :=
  0 <= o <= Relocate.strlen text
  /\ JS.isPrefix sel (dropChars (Z.to_nat o) text) = true.

(** The approximate line of a relocation, for the stored headers the
    specification names: [c - 1], not below 0, for a header that begins with
    [@@ -a,b +c,d @@] (either count may be left out), and the stored start
    line when no header is stored or the stored header has no [@@ -] at all.
    The numbers stay within [MAX_SAFE], where the doubles of the code are
    the integers of the model. *)
Inductive approximateLine (fallbackRange : PersistedRange)
  : option string -> Z -> Prop :=
| approximate_by_header (a : Z) (b : option Z) (c : Z) (d : option Z) (rest : string) :
    0 <= a ->
    0 <= c <= HunkSpec.MAX_SAFE ->
    match b with Some n => 0 <= n | None => True end ->
    match d with Some n => 0 <= n | None => True end ->
    approximateLine fallbackRange (Some (HunkSpec.headerLine a b c d rest))
      (Z.max 0 (c - 1))
| approximate_without_header :
    0 <= startLine fallbackRange <= HunkSpec.MAX_SAFE ->
    approximateLine fallbackRange None (startLine fallbackRange)
| approximate_by_other_header (h : string) :
    JS.includes h "@@ -" = false ->
    0 <= startLine fallbackRange <= HunkSpec.MAX_SAFE ->
    approximateLine fallbackRange (Some h) (startLine fallbackRange).

(** The longest run of digits in a text; [run] counts the digits just
    passed. *)
Fixpoint longestDigitRun (run : nat) (s : string) : nat :=
  match s with
  | EmptyString => run
  | String c r =>
      if JS.isDigit c then longestDigitRun (S run) r
      else Nat.max run (longestDigitRun 0 r)
  end.

(** The numbers of a thread on which the doubles of the code are the
    integers of the model: no numeral of the stored hunk header has more
    than 15 digits, and the stored start line is a safe integer. *)
Definition safeNumbers (persisted : PersistedThread) : Prop :=
  match git (anchor (target persisted)) with
  | Some g =>
      match hunkHeader g with
      | Some h => (longestDigitRun 0 h <= 15)%nat
      | None => True
      end
  | None => True
  end
  /\ match range (target persisted) with
     | Some rng => 0 <= startLine rng <= HunkSpec.MAX_SAFE
     | None => True
     end.

(** A line feed stands in [text] at offset [i]. *)
Definition lineFeedAt (text : string) (i : Z) : Prop :=
  0 <= i /\ String.get (Z.to_nat i) text = Some JS.LF.

(** No occurrence of the selection that starts before [o] starts on the
    line of [o]: a line feed lies between the two. *)
Definition firstOnLine (sel text : string) (o : Z) : Prop :=
  forall o', occursAt sel text o' -> o' < o ->
             exists i, o' <= i < o /\ lineFeedAt text i.

(** Fewer than [cap] occurrences of the selection start before [o]. *)
Definition amongFirst (cap : nat) (sel text : string) (o : Z) : Prop :=
  forall earlier,
    List.NoDup earlier ->
    Forall (fun o' => occursAt sel text o' /\ o' < o) earlier ->
    (length earlier < cap)%nat.

(** The file has the stored context around the range: the stored [before]
    lines are the lines just above the first line of the range, the stored
    [after] lines the lines just below its last line. *)
Definition contextIntact (lines : list string) (ctx : PersistedAnchorContext)
  (rng : PersistedRange) : Prop :=
  (exists above, firstn (Z.to_nat (startLine rng)) lines = above ++ before ctx)
  /\ (exists below, skipn (Z.to_nat (endLine rng + 1)) lines = after ctx ++ below).

(** The range runs from the position of offset [o] in the text to the
    position of the end of the selection. *)
Definition spans (rng : PersistedRange) (sel text : string) (o : Z) : Prop :=
  exists first last,
    locates (Relocate.buildLineStarts text) o first
    /\ locates (Relocate.buildLineStarts text) (o + Relocate.strlen sel) last
    /\ rng = {| startLine := Relocate.line first;
                startCharacter := Relocate.character first;
                endLine := Relocate.line last;
                endCharacter := Relocate.character last |}.

(** The hunk header stored with a thread, if any. *)
Definition storedHeader (persisted : PersistedThread) : option string :=
  match git (anchor (target persisted)) with
  | Some g => hunkHeader g
  | None => None
  end.

(** The content of the file is the stored context of the thread, where the
    stored range says: the selection occurs at [o], the range spans that
    occurrence and the stored lines stand around it; the approximate line is
    the start line of the range; and the occurrence is one of the first 50,
    the first of them on its line. *)
Definition inPlace (ctx : PersistedAnchorContext) (rng : PersistedRange)
  (header : option string) (text : string) (o : Z) : Prop :=
  let sel := JS.replaceCRLF (selection ctx) in
  occursAt sel text o
  /\ spans rng sel text o
  /\ contextIntact (JS.splitLF text) ctx rng
  /\ approximateLine rng header (startLine rng)
  /\ amongFirst 50 sel text o
  /\ firstOnLine sel text o.

End RelocateSpec.

(** A line on which the selected text also occurs further left. *)
Definition repeated_document : Relocate.Document := ["aa aa"].

Definition repeated_range : PersistedRange :=
  {| startLine := 0; startCharacter := 3; endLine := 0; endCharacter := 5 |}.

Definition repeated_thread : PersistedThread :=
  {| t_id := "t0002";
     target := {| workspaceRelativePath := "notes.txt";
                  range := Some repeated_range;
                  anchor := {| context := Some (Relocate.buildAnchorContext
                                                  repeated_document repeated_range);
                               git := None |} |};
     status := open;
     comments := [];
     createdAt := "2000-01-01T00:00:00.000Z";
     updatedAt := "2000-01-01T00:00:00.000Z" |}.

Definition repeated_workspace : Relocate.Workspace :=
  fun uri =>
    if decide (uri = ["notes.txt"])
    then Some (JS.join (String JS.LF "") repeated_document) else None.

(** ** The thread codec, in the words of the specification *)

Module CodecSpec.
Import Json Codec.

Definition OPEN_MARKER : string := "<local-code-review-thread>".
Definition CLOSE_MARKER : string := "</local-code-review-thread>".

Definition isOpen (l : string) : Prop := JS.trim l = OPEN_MARKER.
Definition isClose (l : string) : Prop := JS.trim l = CLOSE_MARKER.

(** No line of the file is the opening marker. *)
Definition noOpenMarker (markdown : string) : Prop :=
  Forall (fun l => ~ isOpen l) (splitText markdown).

(** The first opening marker is followed by no closing marker. *)
Definition unterminated (markdown : string) : Prop :=
  exists pre openLine post,
    splitText markdown = pre ++ openLine :: post
    /\ Forall (fun l => ~ isOpen l) pre /\ isOpen openLine
    /\ Forall (fun l => ~ isClose l) post.

(** [metaLines] are the lines between the first opening marker and the
    first closing marker after it; [rest] follows the closing marker. *)
Definition metadataBlock (markdown : string) (metaLines rest : list string) : Prop :=
  exists pre openLine closeLine,
    splitText markdown = pre ++ openLine :: metaLines ++ closeLine :: rest
    /\ Forall (fun l => ~ isOpen l) pre /\ isOpen openLine
    /\ Forall (fun l => ~ isClose l) metaLines /\ isClose closeLine.

(** The text handed to [JSON.parse]. *)
Definition metadataText (metaLines : list string) : string :=
  JS.trim (JS.join NL metaLines).

Definition schemaVersionOk (v : value) : Prop :=
  prop (Some v) "schemaVersion" = Some (JNumber 1).

(** The property is a string that is not blank. *)
Definition hasText (v : option value) (k : string) : Prop :=
  exists s, prop v k = Some (JString s) /\ JS.trim s <> "".

Definition idOk (v : value) : Prop := hasText (Some v) "id".

Definition pathOk (v : value) : Prop :=
  hasText (prop (Some v) "target") "workspaceRelativePath".

(** [target.range] supplies four non-negative integers. *)
Definition completeRange (r : option value) : Prop :=
  exists sl sc el ec,
    (0 <= sl /\ 0 <= sc /\ 0 <= el /\ 0 <= ec)%Z
    /\ prop r "startLine" = Some (JNumber sl)
    /\ prop r "startCharacter" = Some (JNumber sc)
    /\ prop r "endLine" = Some (JNumber el)
    /\ prop r "endCharacter" = Some (JNumber ec).

(** [target.range] is present, not [null], and not a complete range. *)
Definition malformedRange (v : value) : Prop :=
  let r := prop (prop (Some v) "target") "range" in
  r <> None /\ r <> Some JNull /\ ~ completeRange r.

(** One code unit, escaped. *)
Definition xmlEscapeChar (c : ascii) : string :=
  if Ascii.eqb c "&" then "&amp;"
  else if Ascii.eqb c QUOTE then "&quot;"
  else if Ascii.eqb c "<" then "&lt;"
  else if Ascii.eqb c ">" then "&gt;"
  else String c "".

(** The last code unit before an attribute name makes a word boundary:
    it is no word character, or there is none and the search does not start
    after one. *)
Definition boundaryBefore (afterWord : bool) (pre : string) : Prop :=
  match PathResolver.lastChar pre with
  | Some c => JS.isWordChar c = false
  | None => afterWord = false
  end.

End CodecSpec.

(** A name or a text between double quotes. *)
Definition quoted (s : string) : string := Codec.Q +:+ s +:+ Codec.Q.

(** A thread file whose range lacks three of its four fields. *)
Definition malformed_range_file : string :=
  JS.join Json.NL
    ["<local-code-review-thread>";
     "{";
     "  " +:+ quoted "schemaVersion" +:+ ": 1,";
     "  " +:+ quoted "id" +:+ ": " +:+ quoted "t0003" +:+ ",";
     "  " +:+ quoted "target" +:+ ": {";
     "    " +:+ quoted "workspaceRelativePath" +:+ ": " +:+ quoted "example.ts" +:+ ",";
     "    " +:+ quoted "range" +:+ ": { " +:+ quoted "startLine" +:+ ": -1 }";
     "  }";
     "}";
     "</local-code-review-thread>";
     ""].

(** Scenario C. *)
Definition scenarioC_file : string :=
  JS.join Json.NL
    ["<local-code-review-thread>";
     "{";
     "  " +:+ quoted "schemaVersion" +:+ ": 1,";
     "  " +:+ quoted "id" +:+ ": " +:+ quoted "t0001" +:+ ",";
     "  " +:+ quoted "target" +:+ ": {";
     "    " +:+ quoted "workspaceRelativePath" +:+ ": " +:+ quoted "example.ts" +:+ ",";
     "    " +:+ quoted "range" +:+ ": null,";
     "    " +:+ quoted "anchor" +:+ ": { " +:+ quoted "kind" +:+ ": " +:+ quoted "lineRange" +:+ " }";
     "  },";
     "  " +:+ quoted "status" +:+ ": " +:+ quoted "open" +:+ ",";
     "  " +:+ quoted "createdAt" +:+ ": " +:+ quoted "2000-01-01T00:00:00.000Z" +:+ ",";
     "  " +:+ quoted "updatedAt" +:+ ": " +:+ quoted "2000-01-01T00:00:00.000Z";
     "}";
     "</local-code-review-thread>";
     "";
     "# example.ts:File";
     "";
     "## Comments";
     "";
     "<local-code-review-comment id=" +:+ quoted "c1" +:+ " author=" +:+ quoted "A&amp;B" +:+ " createdAt=" +:+ quoted "2000-01-01T00:00:00.000Z" +:+ "/>";
     "";
     "Hello";
     ""].

Definition scenarioC_comment : PersistedComment :=
  {| c_id := "c1"; c_author := "A&B"; c_bodyMarkdown := "Hello";
     c_createdAt := "2000-01-01T00:00:00.000Z" |}.

Definition anonymous_comment : PersistedComment :=
  {| c_id := "c2"; c_author := ""; c_bodyMarkdown := "Hello";
     c_createdAt := "2000-01-01T00:00:00.000Z" |}.

Definition some_meta : Codec.PersistedThreadMeta :=
  {| Codec.m_id := "t0001";
     Codec.m_target := {| workspaceRelativePath := "example.ts"; range := None;
                          anchor := {| context := None; git := None |} |};
     Codec.m_status := open;
     Codec.m_createdAt := "2000-01-01T00:00:00.000Z";
     Codec.m_updatedAt := "2000-01-01T00:00:00.000Z" |}.

Module JsonText.
Import Json.

(** The first code unit of a written value. *)
Definition isValueStart (c : ascii) : bool :=
  Ascii.eqb c QUOTE || Ascii.eqb c "[" || Ascii.eqb c "{" || Ascii.eqb c "-"
  || JS.isDigit c || Ascii.eqb c "n" || Ascii.eqb c "t" || Ascii.eqb c "f".

Definition inner (depth : nat) : string := spaces (2 * S depth).
Definition outer (depth : nat) : string := spaces (2 * depth).

(** What [stringifyAt] writes after an item of an array: the other items
    and the closing bracket, then [rest]. *)
Fixpoint elementsTail (depth : nat) (items : list value) (rest : string) : string :=
  match items with
  | [] => NL +:+ outer depth +:+ "]" +:+ rest
  | x :: r =>
      "," +:+ NL +:+ inner depth +:+ stringifyAt (S depth) x
      +:+ elementsTail depth r rest
  end.

(** The same after a member of an object. *)
Fixpoint membersTail (depth : nat) (members : list (string * value)) (rest : string)
  : string :=
  match members with
  | [] => NL +:+ outer depth +:+ "}" +:+ rest
  | m :: r =>
      "," +:+ NL +:+ inner depth +:+ quote (fst m) +:+ ": "
      +:+ stringifyAt (S depth) (snd m) +:+ membersTail depth r rest
  end.

(** Written at any depth and followed by any delimited text, the value is
    read back, and the text that follows is left. *)
Definition readsBack (v : value) : Prop :=
  forall depth rest fuel,
    JsonSpec.delimited rest -> JsonSpec.size v <= fuel ->
    parseValue fuel (stringifyAt depth v +:+ rest) = Some (v, rest).

(** A line of written JSON: no carriage return, and after its indentation
    a code unit that starts a value or closes an array or an object. *)
Definition isLineStart (c : ascii) : bool :=
  isValueStart c || Ascii.eqb c "]" || Ascii.eqb c "}".

Definition jsonLine (l : string) : Prop :=
  JS.includesChar JS.CR l = false
  /\ exists n c r, l = spaces n +:+ String c r /\ isLineStart c = true.

Definition jsonLines (s : string) : Prop := Forall jsonLine (JS.splitLF s).

End JsonText.

(** ** The threads the codec reads back unchanged *)

Module RoundTrip.
Import Json Codec.

(** The metadata [parseThreadMarkdown] reads from the block written for
    [thread]: the thread without its comments and without its patch. *)
Definition metaGitOf (g : option PersistedGit) : option PersistedGit :=
  match g with
  | Some g =>
      if truthy (baseRef g) || truthy (hunkHeader g) then
        Some {| baseRef := baseRef g; hunkHeader := hunkHeader g; hunkPatch := None |}
      else None
  | None => None
  end.

Definition metaOf (thread : PersistedThread) : PersistedThreadMeta :=
  {| m_id := t_id thread;
     m_target :=
       {| workspaceRelativePath := workspaceRelativePath (target thread);
          range := range (target thread);
          anchor := {| context := context (anchor (target thread));
                       git := metaGitOf (git (anchor (target thread))) |} |};
     m_status := status thread;
     m_createdAt := createdAt thread;
     m_updatedAt := updatedAt thread |}.

(** The lines of the file that a list of pushed strings makes. *)
Definition physical (pushed : list string) : list string :=
  concat (map JS.splitLF pushed).

Definition singleLine (s : string) : Prop :=
  JS.includesChar JS.LF s = false /\ JS.includesChar JS.CR s = false.

(** A line that neither search of the parser takes for a marker. *)
Definition plainLine (l : string) : Prop :=
  isPatchMarker l = false /\ isCommentMarker l = false.

(** A text without carriage return whose lines are plain. *)
Definition plainText (s : string) : Prop :=
  JS.includesChar JS.CR s = false /\ Forall plainLine (JS.splitLF s).

Definition rangeOk (r : option PersistedRange) : Prop :=
  match r with
  | Some r =>
      (0 <= startLine r /\ 0 <= startCharacter r
       /\ 0 <= endLine r /\ 0 <= endCharacter r)%Z
  | None => True
  end.

Definition contextOk (c : option PersistedAnchorContext) : Prop :=
  match c with
  | Some c =>
      Forall plainText (before c) /\ plainText (selection c)
      /\ Forall plainText (after c)
  | None => True
  end.

(** A patch that is its own trimmed text, with no comment marker and no
    closing fence on a line of its own. *)
Definition patchOk (p : string) : Prop :=
  JS.trimEnd p = p /\ p <> ""
  /\ JS.includesChar JS.CR p = false
  /\ Forall (fun l => isCommentMarker l = false /\ JS.trimEnd l <> "```")
       (JS.splitLF p).

Definition optionally (P : string -> Prop) (o : option string) : Prop :=
  match o with
  | Some s => P s
  | None => True
  end.

(** The [git] object is written whole: in the metadata block when it has a
    base ref or a hunk header, and as nothing but its patch otherwise. *)
Definition gitOk (g : option PersistedGit) : Prop :=
  match g with
  | Some g =>
      optionally singleLine (baseRef g)
      /\ optionally singleLine (hunkHeader g)
      /\ optionally patchOk (hunkPatch g)
      /\ (truthy (baseRef g) || truthy (hunkHeader g) = true
          \/ (baseRef g = None /\ hunkHeader g = None /\ hunkPatch g <> None))
  | None => True
  end.

(** An attribute value that is written on the marker line and read back
    by trimming. *)
Definition attributeOk (s : string) : Prop :=
  s <> "" /\ JS.trim s = s /\ singleLine s.

Definition commentOk (c : PersistedComment) : Prop :=
  attributeOk (c_id c) /\ escapeXmlAttr (c_id c) = c_id c
  /\ JS.endsWith (c_id c) "author=" = false
  /\ JS.endsWith (c_id c) "createdAt=" = false
  /\ attributeOk (c_author c)
  /\ JS.endsWith (escapeXmlAttr (c_author c)) "createdAt=" = false
  /\ attributeOk (c_createdAt c) /\ escapeXmlAttr (c_createdAt c) = c_createdAt c
  /\ JS.trimEnd (c_bodyMarkdown c) = c_bodyMarkdown c
  /\ plainText (c_bodyMarkdown c).

Definition canonical (thread : PersistedThread) : Prop :=
  JS.trim (t_id thread) <> ""
  /\ JS.trim (workspaceRelativePath (target thread)) <> ""
  /\ singleLine (workspaceRelativePath (target thread))
  /\ rangeOk (range (target thread))
  /\ contextOk (context (anchor (target thread)))
  /\ gitOk (git (anchor (target thread)))
  /\ Forall commentOk (comments thread).

Ltac decide_parts :=
  repeat first
    [ apply Z_le_dec | apply True_dec
    | apply String.eq_dec | apply bool_eq_dec | apply option_eq_dec
    | apply Forall_dec; intro
    | apply and_dec | apply or_dec | apply not_dec ].

#[export] Instance singleLine_dec s : Decision (singleLine s).
Proof. unfold singleLine. decide_parts. Defined.

#[export] Instance plainLine_dec l : Decision (plainLine l).
Proof. unfold plainLine. decide_parts. Defined.

#[export] Instance plainText_dec s : Decision (plainText s).
Proof. unfold plainText. decide_parts. Defined.

#[export] Instance rangeOk_dec r : Decision (rangeOk r).
Proof. destruct r; unfold rangeOk; decide_parts. Defined.

#[export] Instance contextOk_dec c : Decision (contextOk c).
Proof. destruct c; unfold contextOk; decide_parts. Defined.

#[export] Instance patchOk_dec p : Decision (patchOk p).
Proof. unfold patchOk. decide_parts. Defined.

#[export] Instance gitOk_dec g : Decision (gitOk g).
Proof.
  destruct g as [[[b|] [h|] [p|]]|]; unfold gitOk, optionally;
    cbn [baseRef hunkHeader hunkPatch]; decide_parts.
Defined.

#[export] Instance attributeOk_dec s : Decision (attributeOk s).
Proof. unfold attributeOk. decide_parts. Defined.

#[export] Instance commentOk_dec c : Decision (commentOk c).
Proof. unfold commentOk. decide_parts. Defined.

#[export] Instance canonical_dec thread : Decision (canonical thread).
Proof.
  unfold canonical. decide_parts;
    first [apply rangeOk_dec | apply contextOk_dec | apply gitOk_dec].
Defined.

(** The lines of the file that a canonical comment makes, and those of a
    list of comments followed by the empty last line of the file. *)
Definition writtenBody (c : PersistedComment) : list string :=
  if String.eqb (c_bodyMarkdown c) "" then [] else JS.splitLF (c_bodyMarkdown c).

Definition writtenComment (c : PersistedComment) : list string :=
  "" :: commentMetaLine c :: "" :: writtenBody c.

Definition writtenComments (cs : list PersistedComment) : list string :=
  concat (map writtenComment cs) ++ [""].

(** The lines of the patch section. *)
Definition writtenPatch (p : option string) : list string :=
  match p with
  | Some p =>
      [""; "## Patch"; "<" +:+ PATCH_TAG +:+ " lang=" +:+ Q +:+ "diff" +:+ Q +:+ "/>";
       ""; "```diff"] ++ JS.splitLF p ++ ["```"]
  | None => []
  end.

(** What the serializer keeps of a thread: the bodies of the comments and
    the patch lose their trailing white space. *)
Definition trimBody (c : PersistedComment) : PersistedComment :=
  {| c_id := c_id c; c_author := c_author c;
     c_bodyMarkdown := JS.trimEnd (c_bodyMarkdown c);
     c_createdAt := c_createdAt c |}.

Definition trimPatch (g : PersistedGit) : PersistedGit :=
  {| baseRef := baseRef g; hunkHeader := hunkHeader g;
     hunkPatch := option_map JS.trimEnd (hunkPatch g) |}.

Definition trimmed (thread : PersistedThread) : PersistedThread :=
  {| t_id := t_id thread;
     target :=
       {| workspaceRelativePath := workspaceRelativePath (target thread);
          range := range (target thread);
          anchor := {| context := context (anchor (target thread));
                       git := option_map trimPatch (git (anchor (target thread))) |} |};
     status := status thread;
     comments := map trimBody (comments thread);
     createdAt := createdAt thread;
     updatedAt := updatedAt thread |}.

(** The [hunkPatch] member of the metadata block. *)
Definition metaHunkPatch (thread : PersistedThread) : option value :=
  prop (prop (prop (prop (Some (metaJson thread)) "target") "anchor") "git") "hunkPatch".

(** Two threads with the same metadata: all but the comments and the git
    part of the anchor. *)
Definition sameMetadata (a b : PersistedThread) : Prop :=
  t_id a = t_id b
  /\ workspaceRelativePath (target a) = workspaceRelativePath (target b)
  /\ range (target a) = range (target b)
  /\ context (anchor (target a)) = context (anchor (target b))
  /\ status a = status b
  /\ createdAt a = createdAt b
  /\ updatedAt a = updatedAt b.

(** The heading, and the lines of the file between the metadata block and
    the patch section. *)
Definition headingLine (thread : PersistedThread) : string :=
  "# " +:+ (workspaceRelativePath (target thread) +:+ ":"
            +:+ formatRangeLabel (range (target thread)) +:+ MIDDLE_DOT
            +:+ statusText (status thread)).

Definition pushedHead (thread : PersistedThread) : list string :=
  [""; headingLine thread]
  ++ (match context (anchor (target thread)) with
      | Some c => contextLines c
      | None => []
      end)
  ++ gitLines (git (anchor (target thread))).

(** The lines of the file after the closing marker of the metadata block. *)
Definition writtenRest (thread : PersistedThread) : list string :=
  physical (pushedHead thread)
  ++ writtenPatch (patchText (git (anchor (target thread))))
  ++ ["" ; "## Comments"] ++ writtenComments (comments thread).

End RoundTrip.

(** A thread with a git anchor, a patch and two comments. *)
Definition patched_thread : PersistedThread :=
  {| t_id := "t0004";
     target :=
       {| workspaceRelativePath := "src/example.ts";
          range := Some scenarioA_range;
          anchor :=
            {| context := Some scenarioA_context;
               git := Some {| baseRef := Some "HEAD";
                              hunkHeader := Some "@@ -1,3 +1,4 @@";
                              hunkPatch := Some scenarioB_diff |} |} |};
     status := resolved;
     comments := [ {| c_id := "c0001"; c_author := "A&B <dev>";
                      c_bodyMarkdown := "First line" +:+ Json.NL +:+ Json.NL +:+ "Third line";
                      c_createdAt := "2000-01-01T00:00:00.000Z" |};
                   {| c_id := "c0002"; c_author := "You";
                      c_bodyMarkdown := "";
                      c_createdAt := "2000-01-02T00:00:00.000Z" |} ];
     createdAt := "2000-01-01T00:00:00.000Z";
     updatedAt := "2000-01-02T00:00:00.000Z" |}.

(** Scenario A, its comment ending in a line break. *)
Definition trailing_thread : PersistedThread :=
  {| t_id := "t0001";
     target := target scenarioA_thread;
     status := open;
     comments := [ {| c_id := "c0001"; c_author := "You";
                      c_bodyMarkdown := "LGTM" +:+ Json.NL;
                      c_createdAt := "2000-01-01T00:00:00.000Z" |} ];
     createdAt := "2000-01-01T00:00:00.000Z";
     updatedAt := "2000-01-01T00:00:00.000Z" |}.

(** Scenario A, its comment without an author. *)
Definition anonymous_thread : PersistedThread :=
  {| t_id := "t0001";
     target := target scenarioA_thread;
     status := open;
     comments := [ {| c_id := "c0001"; c_author := "";
                      c_bodyMarkdown := "LGTM";
                      c_createdAt := "2000-01-01T00:00:00.000Z" |} ];
     createdAt := "2000-01-01T00:00:00.000Z";
     updatedAt := "2000-01-01T00:00:00.000Z" |}.

(** A thread with an author that holds the four characters the
    serialization escapes. *)
Definition escaped_comment : PersistedComment :=
  {| c_id := "c2"; c_author := "A&B <" +:+ quoted "C" +:+ ">";
     c_bodyMarkdown := "Hello";
     c_createdAt := "2000-01-01T00:00:00.000Z" |}.

Definition escaped_thread : PersistedThread :=
  {| t_id := "t0005";
     target := target scenarioA_thread;
     status := status scenarioA_thread;
     comments := [scenarioC_comment; escaped_comment];
     createdAt := createdAt scenarioA_thread;
     updatedAt := updatedAt scenarioA_thread |}.

(** ** The store of a workspace folder *)

(** [sortBy le l]: a stable sort, as [Array.prototype.sort] is; [le a b]
    tells that the comparator does not put [a] after [b]. *)
Fixpoint insertBy {A : Type} (le : A -> A -> bool) (x : A) (l : list A) : list A :=
  match l with
  | [] => [x]
  | y :: r => if le x y then x :: l else y :: insertBy le x r
  end.

Definition sortBy {A : Type} (le : A -> A -> bool) (l : list A) : list A :=
  fold_right (insertBy le) [] l.

Module Store.
Import Json Codec.

(** *** The files *)

(** An entry of a directory: a file with its text, or a directory, empty or
    not. *)
Inductive Node :=
| File (content : string)
| Folder (empty : bool).

#[export] Instance Node_eq_dec : EqDecision Node.
Proof. solve_decision. Defined.

Abbreviation Dir := (gmap string Node).

(** The storage root, laid out as the store expects it: [threads] and
    [comments] are directories or absent, [index.json] is a file or absent,
    and of [AGENTS.md] only the presence is kept. *)
Record Root := {
  threadsDir : option Dir;
  commentsDir : option Dir;
  indexFile : option string;
  agentsFile : bool
}.

(** The files and the fields of a [WorkspaceReviewStore].  [root] is [None]
    when the root directory is absent; [legacyRoot] is the directory
    [.local-code-review], [None] when it is absent or is the root itself. *)
Record State := {
  root : option Root;
  legacyRoot : option Root;
  migrationInProgress : bool;
  legacyRootMigrated : bool
}.

(** How a call on the store ends.  [Pending] is a promise that never
    settles; [Unmodelled] marks the behaviour this model leaves out. *)
Inductive settled :=
| Fulfilled (s : State)
| Rejected (s : State)
| Pending
| Unmodelled.

Definition andThen (r : settled) (k : State -> settled) : settled :=
  match r with
  | Fulfilled s => k s
  | other => other
  end.

Definition emptyRoot : Root :=
  {| threadsDir := None; commentsDir := None; indexFile := None; agentsFile := false |}.

Definition theRoot (s : State) : Root := default emptyRoot (root s).

Definition withRoot (r : Root) (s : State) : State :=
  {| root := Some r; legacyRoot := legacyRoot s;
     migrationInProgress := migrationInProgress s;
     legacyRootMigrated := legacyRootMigrated s |}.

Definition withThreads (d : option Dir) (s : State) : State :=
  let r := theRoot s in
  withRoot {| threadsDir := d; commentsDir := commentsDir r;
              indexFile := indexFile r; agentsFile := agentsFile r |} s.

Definition withLegacyComments (d : option Dir) (s : State) : State :=
  let r := theRoot s in
  withRoot {| threadsDir := threadsDir r; commentsDir := d;
              indexFile := indexFile r; agentsFile := agentsFile r |} s.

Definition withIndex (text : string) (s : State) : State :=
  let r := theRoot s in
  withRoot {| threadsDir := threadsDir r; commentsDir := commentsDir r;
              indexFile := Some text; agentsFile := agentsFile r |} s.

Definition withAgents (s : State) : State :=
  let r := theRoot s in
  withRoot {| threadsDir := threadsDir r; commentsDir := commentsDir r;
              indexFile := indexFile r; agentsFile := true |} s.

Definition withMigration (b : bool) (s : State) : State :=
  {| root := root s; legacyRoot := legacyRoot s;
     migrationInProgress := b; legacyRootMigrated := legacyRootMigrated s |}.

Definition THREAD_MARKDOWN_EXTENSION : string := ".md".

(** The name of the file of a thread in [threads], and of its legacy file. *)
Definition threadFile (threadId : string) : string :=
  threadId +:+ THREAD_MARKDOWN_EXTENSION.

Definition legacyThreadFile (threadId : string) : string := threadId +:+ ".json".

(** An id that is a file name as it stands: it has no [/], and no
    backslash, which is a separator for [Uri.joinPath] on Windows. *)
Definition plainName (threadId : string) : bool :=
  negb (JS.includesChar PathResolver.SLASH threadId)
  && negb (JS.includesChar PathResolver.BACKSLASH threadId).

(** [Uri.joinPath(threadsDirUri, name)] normalizes the joined path: it
    drops the empty segments and [.], and [..] removes the segment before
    it.  The model follows a name that resolves to an entry of [threads]
    itself; one that resolves below a directory of [threads], that climbs
    out of [threads], or that has a backslash is left out. *)
Definition entryName (name : string) : option string :=
  if JS.includesChar PathResolver.BACKSLASH name then None
  else
    match rev (fold_left (PathResolver.pushSegment true)
                 (JS.splitChar PathResolver.SLASH name) []) with
    | [seg] => if String.eqb seg ".." then None else Some seg
    | _ => None
    end.

(** [name.slice(0, -n)]. *)
Definition sliceEnd (n : nat) (name : string) : string :=
  String.substring 0 (String.length name - n) name.

(** *** The index *)

Record IndexEntry := {
  e_id : string;
  e_file : string;
  e_range : value;
  e_status : string;
  e_updatedAt : string
}.

(** [String(v)] for a value read from JSON; [None] when it throws.  A
    number that is no integer is printed as its numeral, as [stringify]
    prints it.  An object is printed by [Object.prototype.toString]; a member
    [toString] of its own hides that method, is not callable, and the
    conversion throws a [TypeError]. *)
Fixpoint jsString (v : value) : option string :=
  match v with
  | JNull => Some "null"
  | JBool true => Some "true"
  | JBool false => Some "false"
  | JNumber n => Some (numberToString n)
  | JNonInteger numeral => Some numeral
  | JString s => Some s
  | JArray items =>
      option_map (JS.join ",")
        ((fix each (l : list value) : option (list string) :=
            match l with
            | [] => Some []
            | x :: r =>
                match (match x with JNull => Some "" | _ => jsString x end), each r with
                | Some a, Some b => Some (a :: b)
                | _, _ => None
                end
            end) items)
  | JObject members =>
      match lookup "toString" members with
      | Some _ => None
      | None => Some "[object Object]"
      end
  end.

(** [String(x ?? '')]. *)
Definition coerceString (o : option value) : option string :=
  match o with
  | None | Some JNull => Some ""
  | Some v => jsString v
  end.

(** The callback of [map] in [readIndex]; [None] when it throws. *)
Definition readEntry (t : value) : option IndexEntry :=
  let v := Some t in
  let status :=
    match prop v "status" with
    | Some (JString s) => s
    | _ =>
        match prop v "state" with
        | Some (JString st) => if String.eqb st "resolved" then "resolved" else "open"
        | _ => "open"
        end
    end in
  match coerceString (prop v "id"), coerceString (prop v "file"),
        coerceString (prop v "updatedAt") with
  | Some id_, Some file, Some updated =>
      Some {| e_id := id_;
              e_file := file;
              e_range := match prop v "range" with
                         | Some r => r
                         | None => JNull
                         end;
              e_status := status;
              e_updatedAt := updated |}
  | _, _, _ => None
  end.

(** [items.map(f)] for a callback that may throw. *)
Fixpoint mapEntries (items : list value) : option (list IndexEntry) :=
  match items with
  | [] => Some []
  | t :: rest =>
      match readEntry t, mapEntries rest with
      | Some e, Some es => Some (e :: es)
      | _, _ => None
      end
  end.

Definition listed (e : IndexEntry) : bool :=
  negb (String.eqb (e_id e) "") && negb (String.eqb (e_file e) "").

(** [readIndex()]: the threads of the index file, none when the file is
    missing or is no index.  Only [JSON.parse] is in the [try] block: the
    call throws when the conversion of an entry does. *)
Definition readIndex (s : State) : outcome (list IndexEntry) :=
  match indexFile (theRoot s) with
  | None => Returned []
  | Some raw =>
      match parse raw with
      | Thrown => Returned []
      | Returned parsed =>
          match prop (Some parsed) "schemaVersion", prop (Some parsed) "threads" with
          | Some (JNumber 1), Some (JArray items) =>
              match mapEntries items with
              | Some entries => Returned (List.filter listed entries)
              | None => Thrown
              end
          | _, _ => Returned []
          end
      end
  end.

Definition entryJson (e : IndexEntry) : value :=
  JObject [("id", JString (e_id e)); ("file", JString (e_file e));
           ("range", e_range e); ("status", JString (e_status e));
           ("updatedAt", JString (e_updatedAt e))].

Definition indexJson (threads : list IndexEntry) : value :=
  JObject [("schemaVersion", JNumber SCHEMA_VERSION);
           ("threads", JArray (map entryJson threads))].

(** The text [writeJson] writes for an index. *)
Definition indexText (threads : list IndexEntry) : string :=
  stringify (indexJson threads) +:+ NL.

Definition writeIndex (threads : list IndexEntry) (s : State) : State :=
  withIndex (indexText threads) s.

Definition entryOf (thread : PersistedThread) : IndexEntry :=
  {| e_id := t_id thread;
     e_file := workspaceRelativePath (target thread);
     e_range := rangeJson (range (target thread));
     e_status := statusText (status thread);
     e_updatedAt := updatedAt thread |}.

Definition otherThan (threadId : string) (e : IndexEntry) : bool :=
  negb (String.eqb (e_id e) threadId).

(** *** File operations in [threads] *)

(** [fs.writeFile]: the directories above the file are made when missing;
    a directory of that name makes the call throw. *)
Definition writeThreadFile (name text : string) (s : State) : settled :=
  let d := default ∅ (threadsDir (theRoot s)) in
  match d !! name with
  | Some (Folder _) => Rejected s
  | _ => Fulfilled (withThreads (Some (<[name := File text]> d)) s)
  end.

(** [tryDelete], which is not recursive: a file or an empty directory
    goes, and a failure is swallowed. *)
Definition tryDeleteThreadFile (name : string) (s : State) : State :=
  match threadsDir (theRoot s) with
  | Some d =>
      match d !! name with
      | Some (File _) | Some (Folder true) => withThreads (Some (delete name d)) s
      | _ => s
      end
  | None => s
  end.

Definition isFile (n : Node) : bool :=
  match n with
  | File _ => true
  | Folder _ => false
  end.

(** The stems of the files named [*.json] in a directory, in the order of
    its listing. *)
Definition legacyStems (d : Dir) : list string :=
  map (fun e => sliceEnd 5 (fst e))
    (List.filter (fun e => isFile (snd e) && JS.endsWith (fst e) ".json")
       (map_to_list d)).

(** [tryReadFile] of the legacy thread file of that name, [JSON.parse] and
    [parsePersistedThread]. *)
Definition readLegacyFile (now legacyName : string) (s : State)
  : option PersistedThread :=
  match threadsDir (theRoot s) with
  | Some d =>
      match d !! legacyName with
      | Some (File raw) =>
          match parse raw with
          | Returned parsed => parsePersistedThread now (Some parsed)
          | Thrown => None
          end
      | _ => None
      end
  | None => None
  end.

(** The loop of [tryMigrateLegacyThreadJsonFiles] reads the legacy file of
    an id it took from the name of an entry of [threads]. *)
Definition readLegacyThread (now threadId : string) (s : State)
  : option PersistedThread :=
  readLegacyFile now (legacyThreadFile threadId) s.

(** *** Writing a thread *)

Section Collation.

(** [String.prototype.localeCompare] compares by the collation of the
    host's locale, which is not part of the program: a number that is
    negative, zero or positive. *)
Variable localeCompare : string -> string -> Z.

(** [(a, b) => a.file.localeCompare(b.file) || a.id.localeCompare(b.id)]. *)
Definition compareEntries (a b : IndexEntry) : Z :=
  let byFile := localeCompare (e_file a) (e_file b) in
  if Z.eqb byFile 0 then localeCompare (e_id a) (e_id b) else byFile.

(** [threads.sort(compareEntries)]: the sort is stable, and puts [a] before
    [b] when the comparator is negative.  For a comparator that is not
    consistent the order is left to the implementation; the result is a
    permutation all the same. *)
Definition sortEntries (threads : list IndexEntry) : list IndexEntry :=
  sortBy (fun a b => Z.leb (compareEntries a b) 0) threads.

(** The task of [writeThread] after its initialization.  The thread file is
    written and the legacy file deleted before the index is read: when
    [readIndex] throws, the task is rejected with both done. *)
Definition storeThread (thread : PersistedThread) (s : State) : settled :=
  match entryName (threadFile (t_id thread)),
        entryName (legacyThreadFile (t_id thread)) with
  | Some markdownName, Some legacyName =>
      andThen
        (writeThreadFile markdownName (serializeThreadMarkdown thread) s)
        (fun s1 =>
           let s2 := tryDeleteThreadFile legacyName s1 in
           match readIndex s2 with
           | Thrown => Rejected s2
           | Returned index =>
               let threads :=
                 List.filter (otherThan (t_id thread)) index ++ [entryOf thread] in
               Fulfilled (writeIndex (sortEntries threads) s2)
           end)
  | _, _ => Unmodelled
  end.

(** *** Initialization and migrations *)

Definition tryMigrateLegacyRootDir (s : State) : State :=
  if legacyRootMigrated s then s
  else
    match legacyRoot s, root s with
    | Some r, None =>
        {| root := Some r; legacyRoot := None;
           migrationInProgress := migrationInProgress s;
           legacyRootMigrated := true |}
    | _, _ =>
        {| root := root s; legacyRoot := legacyRoot s;
           migrationInProgress := migrationInProgress s;
           legacyRootMigrated := true |}
    end.

Definition createThreadsDir (s : State) : State :=
  withThreads (Some (default ∅ (threadsDir (theRoot s)))) s.

Definition createLegacyCommentsDir (s : State) : State :=
  withLegacyComments (Some (default ∅ (commentsDir (theRoot s)))) s.

Definition ensureAgentsFile (s : State) : State :=
  if agentsFile (theRoot s) then s else withAgents s.

Definition ensureIndexFile (s : State) : State :=
  match indexFile (theRoot s) with
  | Some _ => s
  | None => writeIndex [] s
  end.

(** The migration of the files of [comments] is left out: it returns at
    once when [comments] has no JSON file or [threads] has a file. *)
Definition tryMigrateLegacyCommentsDir (s : State) : settled :=
  match commentsDir (theRoot s) with
  | None => Fulfilled s
  | Some d =>
      match legacyStems d with
      | [] => Fulfilled s
      | _ :: _ =>
          match threadsDir (theRoot s) with
          | Some current =>
              if existsb (fun e => isFile (snd e)) (map_to_list current)
              then Fulfilled s else Unmodelled
          | None => Unmodelled
          end
      end
  end.

(** The loop of [tryMigrateLegacyThreadJsonFiles].  It awaits [writeThread],
    whose task skips the initialization, [migrationInProgress] being set.
    When the loop itself runs in a task of the write queue ([queued]), that
    task is put behind the running one and is never started. *)
Fixpoint migrateLegacyThreads (queued : bool) (now : string) (threadIds : list string)
  (s : State) : settled :=
  match threadIds with
  | [] => Fulfilled s
  | threadId :: rest =>
      match readLegacyThread now threadId s with
      | None => migrateLegacyThreads queued now rest s
      | Some thread =>
          if queued then Pending
          else andThen (storeThread thread s) (migrateLegacyThreads queued now rest)
      end
  end.

Definition tryMigrateLegacyThreadJsonFiles (queued : bool) (now : string) (s : State)
  : settled :=
  match threadsDir (theRoot s) with
  | None => Fulfilled s
  | Some d =>
      match legacyStems d with
      | [] => Fulfilled s
      | threadIds =>
          match migrateLegacyThreads queued now threadIds (withMigration true s) with
          | Fulfilled s' => Fulfilled (withMigration false s')
          | Rejected s' => Rejected (withMigration false s')
          | other => other
          end
      end
  end.

Definition ensureInitialized (queued : bool) (now : string) (s : State) : settled :=
  let s1 := tryMigrateLegacyRootDir s in
  let s2 := createThreadsDir s1 in
  let s3 := createLegacyCommentsDir s2 in
  let s4 := ensureAgentsFile s3 in
  let s5 := ensureIndexFile s4 in
  andThen (tryMigrateLegacyCommentsDir s5) (tryMigrateLegacyThreadJsonFiles queued now).

(** The start of a queued task: [if (!this.migrationInProgress) await
    this.ensureInitialized()]. *)
Definition initialized (now : string) (s : State) : settled :=
  if migrationInProgress s then Fulfilled s else ensureInitialized true now s.

(** [writeThread(thread)] and [deleteThread(threadId)]: the task, which the
    write queue runs when the tasks before it have settled. *)
Definition writeThread (now : string) (thread : PersistedThread) (s : State) : settled :=
  andThen (initialized now s) (storeThread thread).

(** The deletion is followed for an id that is a file name as it stands. *)
Definition deleteThread (now : string) (threadId : string) (s : State) : settled :=
  andThen (initialized now s)
    (fun s0 =>
       if plainName threadId then
         let s1 := tryDeleteThreadFile (threadFile threadId) s0 in
         let s2 := tryDeleteThreadFile (legacyThreadFile threadId) s1 in
         match readIndex s2 with
         | Thrown => Rejected s2
         | Returned index =>
             Fulfilled (writeIndex (List.filter (otherThan threadId) index) s2)
         end
       else Unmodelled).

End Collation.

(** *** Reading *)

Definition stemOf (e : string * Node) : option string :=
  if isFile (snd e) then
    if JS.endsWith (fst e) THREAD_MARKDOWN_EXTENSION then Some (sliceEnd 3 (fst e))
    else if JS.endsWith (fst e) ".json" then Some (sliceEnd 5 (fst e))
    else None
  else None.

(** [ids.add(x)] on the members of a set, in the order they were added. *)
Definition setAdd (ids : list string) (x : string) : list string :=
  if existsb (String.eqb x) ids then ids else ids ++ [x].

Definition addStem (ids : list string) (e : string * Node) : list string :=
  match stemOf e with
  | Some x => setAdd ids x
  | None => ids
  end.

(** [listThreadIds()]; the sort without comparator orders strings by their
    code units. *)
Definition listThreadIds (s : State) : list string :=
  match threadsDir (theRoot s) with
  | None => []
  | Some d => sortBy String.leb (fold_left addStem (map_to_list d) [])
  end.

(** What a read finds; [Outside] marks an id whose files the model does not
    follow. *)
Inductive found (A : Type) :=
| Known (a : A)
| Outside.
Arguments Known {A} a.
Arguments Outside {A}.

Definition readThread (now threadId : string) (s : State)
  : found (option PersistedThread) :=
  match entryName (threadFile threadId), entryName (legacyThreadFile threadId) with
  | Some markdownName, Some legacyName =>
      let markdown :=
        match threadsDir (theRoot s) with
        | Some d =>
            match d !! markdownName with
            | Some (File raw) => Some (parseThreadMarkdown now raw)
            | _ => None
            end
        | None => None
        end in
      Known
        match markdown with
        | Some (Returned (Some parsed)) => Some parsed
        | Some Thrown => None
        | _ => readLegacyFile now legacyName s
        end
  | _, _ => Outside
  end.

End Store.

(** ** The index, in the words of the specification *)

Module StoreSpec.
Import Store.

(** The index recomputed from all thread files. *)
Definition recomputedIndex (localeCompare : string -> string -> Z) (now : string)
  (s : State) : list IndexEntry :=
  sortEntries localeCompare
    (map entryOf
       (omap (fun threadId =>
                match readThread now threadId s with
                | Known thread => thread
                | Outside => None
                end)
          (listThreadIds s))).

(** A comparison that orders: the sign turns with the arguments, and not
    coming after is transitive. *)
Definition collation (compare : string -> string -> Z) : Prop :=
  (forall a b, Z.sgn (compare b a) = (- Z.sgn (compare a b))%Z)
  /\ (forall a b c, (compare a b <= 0 -> compare b c <= 0 -> compare a c <= 0)%Z).

(** [a] does not come after [b]: by file, and by id where the files
    compare equal. *)
Definition inOrder (compare : string -> string -> Z) (a b : IndexEntry) : Prop :=
  (compare (e_file a) (e_file b) < 0
   \/ (compare (e_file a) (e_file b) = 0 /\ compare (e_id a) (e_id b) <= 0))%Z.

(** The entry of the index that lists [thread]. *)
Definition lists (thread : PersistedThread) (e : IndexEntry) : Prop :=
  e_id e = t_id thread
  /\ e_file e = workspaceRelativePath (target thread)
  /\ e_range e = Codec.rangeJson (range (target thread))
  /\ e_status e = Codec.statusText (status thread)
  /\ e_updatedAt e = updatedAt thread.

(** A collation for the examples: the order of the code units. *)
Definition codeUnits (a b : string) : Z :=
  match String.compare a b with
  | Lt => (-1)%Z
  | Eq => 0%Z
  | Gt => 1%Z
  end.

(** An id that is a file name as it stands. *)
Definition fileName (threadId : string) : Prop :=
  JS.includesChar "/" threadId = false /\ JS.includesChar "\" threadId = false.

(** The entries of the threads directory, none when it is absent. *)
Definition filesOf (s : State) : Dir := default ∅ (threadsDir (theRoot s)).

Definition isFolder (n : option Node) : bool :=
  match n with
  | Some (Folder _) => true
  | _ => false
  end.

Definition fileText (n : option Node) : option string :=
  match n with
  | Some (File content) => Some content
  | _ => None
  end.

(** A store with nothing to migrate: no legacy root, and no file named
    [*.json] in [threads] or in [comments]. *)
Definition quiet (s : State) : Prop :=
  legacyRoot s = None
  /\ migrationInProgress s = false
  /\ legacyStems (filesOf s) = []
  /\ legacyStems (default ∅ (commentsDir (theRoot s))) = [].

(** A quiet store after [ensureInitialized]: what was missing is there. *)
Definition initializedStore (s : State) : State :=
  {| root :=
       Some {| threadsDir := Some (filesOf s);
               commentsDir := Some (default ∅ (commentsDir (theRoot s)));
               indexFile := Some (default (indexText []) (indexFile (theRoot s)));
               agentsFile := true |};
     legacyRoot := None;
     migrationInProgress := false;
     legacyRootMigrated := true |}.

End StoreSpec.

(** A store after its first initialization, with one thread. *)
Definition quiet_store : Store.State :=
  {| Store.root :=
       Some {| Store.threadsDir :=
                 Some {[ "t0001.md" :=
                           Store.File (Codec.serializeThreadMarkdown scenarioA_thread) ]};
               Store.commentsDir := Some ∅;
               Store.indexFile := Some (Store.indexText [Store.entryOf scenarioA_thread]);
               Store.agentsFile := true |};
     Store.legacyRoot := None;
     Store.migrationInProgress := false;
     Store.legacyRootMigrated := true |}.

(** A store whose index does not list the thread file it holds. *)
Definition stale_store : Store.State :=
  {| Store.root :=
       Some {| Store.threadsDir :=
                 Some {[ "t0001.md" :=
                           Store.File (Codec.serializeThreadMarkdown scenarioA_thread) ]};
               Store.commentsDir := Some ∅;
               Store.indexFile := Some (Store.indexText []);
               Store.agentsFile := true |};
     Store.legacyRoot := None;
     Store.migrationInProgress := false;
     Store.legacyRootMigrated := true |}.

(** A store whose index lists the thread of scenario A and an older state of
    [patched_thread]. *)
Definition indexed_store : Store.State :=
  {| Store.root :=
       Some {| Store.threadsDir :=
                 Some {[ "t0001.md" :=
                           Store.File (Codec.serializeThreadMarkdown scenarioA_thread) ]};
               Store.commentsDir := Some ∅;
               Store.indexFile :=
                 Some (Store.indexText
                         [Store.entryOf (with_updatedAt patched_thread
                                           "2000-01-01T00:00:00.000Z");
                          Store.entryOf scenarioA_thread]);
               Store.agentsFile := true |};
     Store.legacyRoot := None;
     Store.migrationInProgress := false;
     Store.legacyRootMigrated := true |}.

(** A thread whose id is no file name as it stands: [Uri.joinPath] resolves
    [./t0004.md] to the entry [t0004.md]. *)
Definition dotted_thread : PersistedThread :=
  {| t_id := "./t0004";
     target := target scenarioA_thread;
     status := status scenarioA_thread;
     comments := comments scenarioA_thread;
     createdAt := createdAt scenarioA_thread;
     updatedAt := updatedAt scenarioA_thread |}.

(** A store that holds a thread twice: as Markdown and as legacy JSON. *)
Definition doubled_store : Store.State :=
  {| Store.root :=
       Some {| Store.threadsDir :=
                 Some {[ "t0004.md" := Store.File "stale";
                         "t0004.json" := Store.File "{}" ]};
               Store.commentsDir := Some ∅;
               Store.indexFile := None;
               Store.agentsFile := false |};
     Store.legacyRoot := None;
     Store.migrationInProgress := false;
     Store.legacyRootMigrated := false |}.

(** * Properties *)

(** ** Strings *)

Lemma sapp_assoc (a b c : string) : (a +:+ b) +:+ c = a +:+ (b +:+ c).
Proof. induction a as [|x a IH]; [reflexivity|]. simpl. now rewrite IH. Qed.

Lemma sapp_nil_r (a : string) : a +:+ "" = a.
Proof. induction a as [|x a IH]; [reflexivity|]. simpl. now rewrite IH. Qed.

Lemma sapp_length (a b : string) :
  String.length (a +:+ b) = String.length a + String.length b.
Proof. induction a as [|x a IH]; [reflexivity|]. simpl. now rewrite IH. Qed.

Example normalize_ex1 : PathResolver.posix_normalize "a/../b" = "b".
Proof. reflexivity. Qed.
Example normalize_ex2 : PathResolver.posix_normalize "./a//b/./c/" = "a/b/c/".
Proof. reflexivity. Qed.
Example normalize_ex3 : PathResolver.posix_normalize "a/../../b" = "../b".
Proof. reflexivity. Qed.
Example normalize_ex4 : PathResolver.posix_normalize "./" = "./".
Proof. reflexivity. Qed.
Example storage_ex1 : PathResolver.normalizeStoragePath " .vscode\reviews/ " = ".vscode/reviews".
Proof. reflexivity. Qed.
Example storage_ex2 : PathResolver.normalizeStoragePath "a/../b" = "b".
Proof. reflexivity. Qed.
Example storage_ex3 : PathResolver.normalizeStoragePath "a/../.." = ".code-review".
Proof. reflexivity. Qed.

(** *** Facts about trimming *)

Lemma allWhiteSpace_includesChar c s :
  JS.allWhiteSpace s = true -> JS.includesChar c s = true -> JS.isWhiteSpace c = true.
Proof.
  induction s as [|d r IH]; simpl; [discriminate|].
  intros Hw Hi. apply andb_true_iff in Hw as [Hd Hr].
  apply orb_true_iff in Hi as [Hi|Hi]; [|auto].
  apply Ascii.eqb_eq in Hi. now subst.
Qed.

Lemma trimEnd_includesChar c s :
  JS.isWhiteSpace c = false -> JS.includesChar c s = true ->
  JS.includesChar c (JS.trimEnd s) = true.
Proof.
  intros Hc. induction s as [|d r IH]; [discriminate|].
  intros Hi. cbn [JS.trimEnd].
  destruct (JS.allWhiteSpace (String d r)) eqn:Hw.
  - rewrite (allWhiteSpace_includesChar c _ Hw Hi) in Hc. discriminate.
  - simpl in *. apply orb_true_iff in Hi as [Hi|Hi].
    + now rewrite Hi.
    + rewrite (IH Hi). apply orb_true_r.
Qed.

Lemma trimStart_includesChar c s :
  JS.isWhiteSpace c = false -> JS.includesChar c s = true ->
  JS.includesChar c (JS.trimStart s) = true.
Proof.
  intros Hc. induction s as [|d r IH]; [discriminate|].
  intros Hi. simpl. destruct (JS.isWhiteSpace d) eqn:Hd; [|exact Hi].
  simpl in Hi. apply orb_true_iff in Hi as [Hi|Hi]; [|auto].
  apply Ascii.eqb_eq in Hi. subst. congruence.
Qed.

Lemma trim_includesChar c s :
  JS.isWhiteSpace c = false -> JS.includesChar c s = true ->
  JS.includesChar c (JS.trim s) = true.
Proof.
  intros Hc Hi. unfold JS.trim.
  apply trimEnd_includesChar; [exact Hc|]. now apply trimStart_includesChar.
Qed.

Lemma trim_keeps_head c r :
  JS.isWhiteSpace c = false ->
  exists r', JS.trim (String c r) = String c r'.
Proof.
  intros Hc. unfold JS.trim. cbn [JS.trimStart]. rewrite Hc.
  cbn [JS.trimEnd JS.allWhiteSpace]. rewrite Hc. simpl. eauto.
Qed.

Section PathSafety.
Import PathResolver.

Lemma slashes_head c r :
  slashes (String c r) = String (if Ascii.eqb c BACKSLASH then SLASH else c) (slashes r).
Proof. reflexivity. Qed.

Lemma slashes_includesChar_NUL s :
  JS.includesChar JS.NUL (slashes s) = JS.includesChar JS.NUL s.
Proof.
  induction s as [|c r IH]; [reflexivity|].
  simpl. rewrite IH. destruct (Ascii.eqb c BACKSLASH) eqn:E; [|reflexivity].
  apply Ascii.eqb_eq in E. now subst.
Qed.

Lemma leadingSeparator_rejected value :
  leadingSeparator value = true -> normalizeStoragePath value = DEFAULT_STORAGE_PATH.
Proof.
  unfold leadingSeparator, JS.startsWith. intros H.
  destruct value as [|c r]; [discriminate|].
  assert (Hc : c = SLASH \/ c = BACKSLASH).
  { cbn [JS.isPrefix] in H. rewrite !andb_true_r in H.
    apply orb_true_iff in H as [H|H]; apply Ascii.eqb_eq in H; auto. }
  assert (Hw : JS.isWhiteSpace c = false) by (destruct Hc; subst; reflexivity).
  destruct (trim_keeps_head c r Hw) as [r' Hr].
  unfold normalizeStoragePath. rewrite Hr.
  cbn [String.eqb]. destruct (JS.includesChar JS.NUL (String c r')); [reflexivity|].
  rewrite slashes_head.
  replace (if Ascii.eqb c BACKSLASH then SLASH else c) with SLASH
    by (destruct Hc; subst; reflexivity).
  reflexivity.
Qed.

Lemma drivePrefix_rejected value :
  drivePrefix value = true -> normalizeStoragePath value = DEFAULT_STORAGE_PATH.
Proof.
  unfold drivePrefix. intros H.
  destruct value as [|a [|b [|c r]]]; try discriminate.
  cbn [slashes hasDrivePrefix] in H.
  apply andb_true_iff in H as [H Hc]. apply andb_true_iff in H as [Ha Hb].
  assert (Hw : JS.isWhiteSpace a = false).
  { destruct (Ascii.eqb a BACKSLASH) eqn:E.
    - apply Ascii.eqb_eq in E. now subst.
    - clear - Ha. unfold JS.isAsciiLetter, JS.isWhiteSpace in *.
      destruct (nat_of_ascii a) as [|n]; [discriminate|].
      repeat (destruct n as [|n]; [discriminate|]).
      apply orb_true_iff in Ha.
      rewrite !andb_true_iff, !Nat.leb_le in Ha.
      repeat match goal with
             | |- context [Nat.leb ?x ?y] => destruct (Nat.leb_spec x y)
             | |- context [Nat.eqb ?x ?y] => destruct (Nat.eqb_spec x y)
             end; simpl; try reflexivity; lia. }
  assert (Hbw : JS.isWhiteSpace b = false).
  { destruct (Ascii.eqb b BACKSLASH) eqn:E; [discriminate|].
    apply Ascii.eqb_eq in Hb. now subst. }
  assert (Hcw : JS.isWhiteSpace c = false).
  { destruct (Ascii.eqb c BACKSLASH) eqn:E.
    - apply Ascii.eqb_eq in E. now subst.
    - apply Ascii.eqb_eq in Hc. now subst. }
  unfold normalizeStoragePath, JS.trim.
  cbn [JS.trimStart]. rewrite Hw.
  cbn [JS.trimEnd JS.allWhiteSpace]. rewrite Hw, Hbw, Hcw. cbn [andb].
  cbn [String.eqb].
  match goal with |- (if ?x then _ else _) = _ => destruct x; [reflexivity|] end.
  cbn [slashes JS.startsWith JS.isPrefix hasDrivePrefix].
  rewrite Ha, Hb, Hc. cbn [andb].
  match goal with |- (if ?x then _ else _) = _ => destruct x; reflexivity end.
Qed.

Lemma NUL_rejected value :
  JS.includesChar JS.NUL value = true ->
  normalizeStoragePath value = DEFAULT_STORAGE_PATH.
Proof.
  intros H. unfold normalizeStoragePath.
  rewrite (trim_includesChar JS.NUL value eq_refl H).
  now destruct (String.eqb (JS.trim value) "").
Qed.

Lemma rejectedResult_rejected value :
  rejectedResult (trimmedPath (JS.trim value)) = true ->
  normalizeStoragePath value = DEFAULT_STORAGE_PATH.
Proof.
  intros H. unfold normalizeStoragePath. rewrite H.
  repeat match goal with |- (if ?x then _ else _) = _ => destruct x; try reflexivity end.
Qed.

End PathSafety.

(** C4 (amended): a raw storage root with a leading separator, a drive-letter
    prefix or a NUL code unit falls back to the default root, and so does
    every value whose lexically normalized form is empty, [.], [..] or
    starts with [../]. *)
Theorem storage_path_rejection (value : string) :
  PathResolver.leadingSeparator value = true
  \/ PathResolver.drivePrefix value = true
  \/ JS.includesChar JS.NUL value = true
  \/ PathResolver.rejectedResult (PathResolver.trimmedPath (JS.trim value)) = true ->
  PathResolver.normalizeStoragePath value = PathResolver.DEFAULT_STORAGE_PATH.
Proof.
  intros [H|[H|[H|H]]].
  - now apply leadingSeparator_rejected.
  - now apply drivePrefix_rejected.
  - now apply NUL_rejected.
  - now apply rejectedResult_rejected.
Qed.

Lemma storage_path_rejection_witness :
  PathResolver.drivePrefix "C:\reviews" = true
  /\ PathResolver.normalizeStoragePath "C:\reviews" = PathResolver.DEFAULT_STORAGE_PATH.
Proof.
  split; [reflexivity|].
  apply (storage_path_rejection "C:\reviews"). right. left. reflexivity.
Defined.

(** C4 as stated fails: [a/../b] contains [..] and resolves to [b]. *)
Lemma storage_path_dotdot_accepted :
  ~ (forall value : string,
        JS.includes value ".." = true ->
        PathResolver.normalizeStoragePath value = PathResolver.DEFAULT_STORAGE_PATH).
Proof.
  intros H. specialize (H "a/../b" eq_refl). vm_compute in H. discriminate.
Qed.

(** ** Anchor relocator *)

Example scenario_A_relocates :
  Relocate.returned
    (Relocate.reanchorThreadIfNeeded scenarioA_workspace "2000-01-02T00:00:00.000Z"
       scenarioA_thread)
  = with_updatedAt
      (with_range scenarioA_thread
         (Some {| startLine := 2; startCharacter := 0;
                  endLine := 2; endCharacter := 15 |}))
      "2000-01-02T00:00:00.000Z".
Proof. vm_compute. reflexivity. Qed.

Section BinarySearch.
Local Open Scope Z_scope.
Import Relocate.

Lemma at_Some_bounds {A} (l : list A) i x :
  at_ l i = Some x -> 0 <= i < len l.
Proof.
  unfold at_, len. destruct (Z.ltb_spec i 0) as [Hi|Hi]; [discriminate|].
  intros Hx. assert (Hn : nth_error l (Z.to_nat i) <> None) by congruence.
  apply nth_error_Some in Hn. lia.
Qed.

Lemma at_in_range {A} (l : list A) i :
  0 <= i < len l -> exists x, at_ l i = Some x.
Proof.
  unfold at_, len. intros Hr. destruct (Z.ltb_spec i 0) as [Hi|Hi]; [lia|].
  destruct (nth_error l (Z.to_nat i)) eqn:E; [eauto|].
  apply nth_error_None in E. lia.
Qed.

Lemma offsetSearch_line_bounds fuel ls offset low high :
  0 <= low -> high < len ls -> 0 < len ls ->
  0 <= line (offsetSearch fuel ls offset low high) < len ls.
Proof.
  revert low high. induction fuel as [|fuel IH]; intros low high Hl Hh Hn.
  - simpl. lia.
  - cbn [offsetSearch]. destruct (Z.leb_spec low high); [|simpl; lia].
    assert (Hm : low <= (low + high) / 2 <= high).
    { split; [apply Z.div_le_lower_bound|apply Z.div_le_upper_bound]; lia. }
    destruct (at_ ls ((low + high) / 2)) as [s|].
    + destruct (Z.eqb_spec s offset); [simpl; lia|].
      destruct (Z.ltb_spec s offset); apply IH; lia.
    + apply IH; lia.
Qed.

Lemma lineStartsFrom_length text i :
  S (length (lineStartsFrom text i)) = length (JS.splitChar JS.LF text).
Proof.
  revert i. induction text as [|c r IH]; intros i; [reflexivity|].
  cbn [lineStartsFrom JS.splitChar].
  destruct (Ascii.eqb c JS.LF).
  - simpl. now rewrite <- (IH (i + 1)).
  - specialize (IH (i + 1)). destruct (JS.splitChar JS.LF r); simpl in *; lia.
Qed.

Lemma lineStarts_length text :
  len (buildLineStarts text) = len (JS.splitLF text).
Proof.
  unfold len, buildLineStarts, JS.splitLF. simpl length.
  rewrite <- (lineStartsFrom_length text 0). lia.
Qed.

Lemma selectionStartLine_bounds fileText offset :
  0 <= selectionStartLine fileText offset < len (lines fileText).
Proof.
  unfold selectionStartLine, lines, lineStarts, offsetToPosition.
  rewrite <- lineStarts_length.
  assert (0 < len (buildLineStarts fileText)) by (unfold len; simpl; lia).
  apply offsetSearch_line_bounds; lia.
Qed.

End BinarySearch.

Section ContextMatches.
Local Open Scope Z_scope.
Import Relocate.

Lemma at_of_nat {A} (l : list A) (k : nat) : at_ l (Z.of_nat k) = nth_error l k.
Proof.
  unfold at_. destruct (Z.ltb_spec (Z.of_nat k) 0); [lia|].
  now rewrite Nat2Z.id.
Qed.

Lemma firstn_snoc {A} (l : list A) (k : nat) x :
  nth_error l k = Some x -> firstn (S k) l = firstn k l ++ [x].
Proof.
  revert k. induction l as [|a l IH]; intros [|k] H; try discriminate.
  - simpl in H. now inversion H.
  - simpl in H. cbn [firstn]. now rewrite (IH k H).
Qed.

Lemma skipn_cons_nth {A} (l : list A) (k : nat) x :
  nth_error l k = Some x -> skipn k l = x :: skipn (S k) l.
Proof.
  revert k. induction l as [|a l IH]; intros [|k] H; try discriminate.
  - simpl in H. now inversion H.
  - simpl in H. cbn [skipn]. now apply IH.
Qed.

Lemma matchesBefore_run lines expected (k : nat) :
  (k <= length lines)%nat ->
  matchesBefore lines expected (Z.of_nat k - 1)
  = RelocateSpec.matchingRun expected (rev (firstn k lines)).
Proof.
  revert k. induction expected as [|e es IH]; intros k Hk; [reflexivity|].
  cbn [matchesBefore]. destruct k as [|k].
  - simpl. reflexivity.
  - replace (Z.of_nat (S k) - 1) with (Z.of_nat k) by lia.
    destruct (Z.ltb_spec (Z.of_nat k) 0); [lia|].
    rewrite at_of_nat.
    destruct (nth_error lines k) as [l|] eqn:E.
    + rewrite (firstn_snoc _ _ _ E), rev_app_distr. cbn [rev app RelocateSpec.matchingRun].
      rewrite <- IH by lia. reflexivity.
    + apply nth_error_None in E. lia.
Qed.

Lemma matchesAfter_run lines expected (j : nat) :
  matchesAfter lines expected (Z.of_nat j)
  = RelocateSpec.matchingRun expected (skipn j lines).
Proof.
  revert j. induction expected as [|e es IH]; intros j; [reflexivity|].
  cbn [matchesAfter]. unfold len.
  destruct (Z.leb_spec (Z.of_nat (length lines)) (Z.of_nat j)).
  - rewrite skipn_all2 by lia. reflexivity.
  - rewrite at_of_nat.
    destruct (nth_error lines j) as [l|] eqn:E.
    + rewrite (skipn_cons_nth _ _ _ E). cbn [RelocateSpec.matchingRun].
      replace (Z.of_nat j + 1) with (Z.of_nat (S j)) by lia.
      now rewrite IH.
    + apply nth_error_None in E. lia.
Qed.

(** The two loops of [findAnchoredRangeInText] count what the specification
    describes. *)
Lemma contextMatches_refines fileText ctx offset :
  contextMatches fileText ctx offset
  = RelocateSpec.contextMatches (lines fileText) ctx
      (selectionStartLine fileText offset)
      (selectionEndLine fileText ctx offset).
Proof.
  unfold contextMatches, RelocateSpec.contextMatches.
  pose proof (selectionStartLine_bounds fileText offset) as Hb.
  f_equal.
  - rewrite <- matchesBefore_run by (unfold len in Hb; lia).
    now rewrite Z2Nat.id by lia.
  - rewrite <- matchesAfter_run.
    assert (Hc : 0 < selectionLineCount ctx).
    { unfold selectionLineCount, len, JS.splitLF.
      destruct (selectionText ctx) as [|c r]; simpl; [lia|].
      destruct (Ascii.eqb c JS.LF); [simpl; lia|].
      destruct (JS.splitChar JS.LF r); simpl; lia. }
    rewrite Z2Nat.id; [reflexivity|]. unfold selectionEndLine. lia.
Qed.

End ContextMatches.

Section FirstBest.
Local Open Scope Z_scope.
Import Relocate RelocateSpec.
Variables (fileText : string) (ctx : PersistedAnchorContext) (approximateLine : Z).

Local Abbreviation score := (Relocate.score fileText ctx approximateLine).
Local Abbreviation distance := (Relocate.distance fileText approximateLine).
Local Abbreviation pick := (Relocate.pick fileText ctx approximateLine).
Local Abbreviation bestOf := (Relocate.bestOf fileText ctx approximateLine).

Lemma pick_bestOf b x :
  pick (bestOf b) x = bestOf x /\ loses score distance x b
  \/ pick (bestOf b) x = bestOf b /\ noBetter score distance b x.
Proof.
  unfold Relocate.pick, bestOf, better, loses, noBetter.
  destruct (Z.ltb_spec (score b) (score x)); cbn [orb].
  - left. split; [reflexivity|lia].
  - destruct (Z.eqb_spec (score x) (score b)); cbn [andb].
    + destruct (Z.ltb_spec (distance x) (distance b)).
      * left. split; [reflexivity|lia].
      * right. split; [reflexivity|lia].
    + right. split; [reflexivity|lia].
Qed.

Lemma loses_trans a b c :
  loses score distance b a -> loses score distance c b -> loses score distance c a.
Proof. unfold loses. lia. Qed.

Lemma noBetter_loses a b c :
  noBetter score distance b a -> loses score distance c b -> loses score distance c a.
Proof. unfold loses, noBetter. lia. Qed.

Lemma fold_pick_firstBest l b :
  exists o, fold_left pick l (bestOf b) = bestOf o
            /\ firstBest score distance (b :: l) o.
Proof.
  revert b. induction l as [|x l IH]; intros b.
  - exists b. split; [reflexivity|]. exists [], []. repeat split; constructor.
  - cbn [fold_left]. destruct (pick_bestOf b x) as [[-> Hx]|[-> Hx]].
    + destruct (IH x) as (o & Hf & earlier & later & Heq & He & Hl).
      exists o. split; [exact Hf|].
      exists (b :: earlier), later. split; [now rewrite Heq|]. split; [|exact Hl].
      constructor; [|exact He].
      destruct earlier as [|y earlier].
      * simpl in Heq. injection Heq as <- _. exact Hx.
      * simpl in Heq. injection Heq as <- _. inversion He; subst.
        eapply loses_trans; eauto.
    + destruct (IH b) as (o & Hf & earlier & later & Heq & He & Hl).
      exists o. split; [exact Hf|].
      destruct earlier as [|y earlier].
      * simpl in Heq. injection Heq as <- <-.
        exists [], (x :: l). repeat split; constructor; assumption.
      * simpl in Heq. injection Heq as <- ->. inversion He; subst.
        exists (b :: x :: earlier), later. split; [reflexivity|]. split; [|exact Hl].
        constructor; [assumption|]. constructor; [|assumption].
        eapply noBetter_loses; eauto.
Qed.

Lemma bestOffset_firstBest occs :
  occs <> [] ->
  exists o, bestOffset fileText ctx approximateLine occs = Some o
            /\ firstBest score distance occs o.
Proof.
  destruct occs as [|b l]; [congruence|]. intros _.
  destruct (fold_pick_firstBest l b) as (o & Hf & Hb).
  exists o. split; [|exact Hb].
  unfold bestOffset. cbn [fold_left]. unfold Relocate.pick at 2. cbn [better].
  fold (bestOf b). now rewrite Hf.
Qed.

Lemma bestOffset_nil : bestOffset fileText ctx approximateLine [] = None.
Proof. reflexivity. Qed.

Lemma firstBest_unique occs o1 o2 :
  firstBest score distance occs o1 -> firstBest score distance occs o2 -> o1 = o2.
Proof.
  assert (Hcase : forall a b e1 l1 e2 l2 m,
    e1 = e2 ++ m -> b :: l2 = m ++ a :: l1 ->
    Forall (loses score distance a) e1 -> Forall (noBetter score distance b) l2 ->
    a = b).
  { intros a b e1 l1 e2 l2 m Ha Hb He Hl. destruct m as [|y m].
    - simpl in Hb. now injection Hb.
    - simpl in Hb. injection Hb as Hy Hl2.
      assert (Hx : loses score distance a b).
      { rewrite Forall_forall in He. apply He. rewrite Ha, Hy. set_solver. }
      assert (Hz : noBetter score distance b a).
      { rewrite Forall_forall in Hl. apply Hl. rewrite Hl2. set_solver. }
      unfold loses, noBetter in *. lia. }
  intros (e1 & l1 & H1 & He1 & Hl1) (e2 & l2 & H2 & He2 & Hl2).
  rewrite H1 in H2. apply app_eq_app in H2 as [m [[Ha Hb]|[Ha Hb]]].
  - exact (Hcase o1 o2 e1 l1 e2 l2 m Ha Hb He1 Hl2).
  - symmetry. exact (Hcase o2 o1 e2 l2 e1 l1 m Ha Hb He2 Hl1).
Qed.

End FirstBest.

Section OffsetToPosition.
Local Open Scope Z_scope.
Import Relocate RelocateSpec.

Lemma at_cons {A} (a : A) l i :
  0 < i -> at_ (a :: l) i = at_ l (i - 1).
Proof.
  intros Hi. unfold at_.
  destruct (Z.ltb_spec i 0); [lia|]. destruct (Z.ltb_spec (i - 1) 0); [lia|].
  replace (Z.to_nat i) with (S (Z.to_nat (i - 1))) by lia. reflexivity.
Qed.

Lemma at_cons_0 {A} (a : A) l : at_ (a :: l) 0 = Some a.
Proof. reflexivity. Qed.

Lemma lineStartsFrom_above text i k x :
  at_ (lineStartsFrom text i) k = Some x -> i < x.
Proof.
  revert i k. induction text as [|c r IH]; intros i k H.
  - unfold at_ in H. destruct (k <? 0); [discriminate|].
    simpl in H. now destruct (Z.to_nat k).
  - cbn [lineStartsFrom] in H. destruct (Ascii.eqb c JS.LF).
    + destruct (Z.eq_dec k 0) as [->|Hk].
      * rewrite at_cons_0 in H. inversion H. lia.
      * pose proof (at_Some_bounds _ _ _ H).
        rewrite at_cons in H by lia. apply IH in H. lia.
    + apply IH in H. lia.
Qed.

Lemma increasing_cons a l :
  (forall k x, at_ l k = Some x -> a < x) -> increasing l -> increasing (a :: l).
Proof.
  intros Ha Hl i j x y Hi Hj Hij.
  pose proof (at_Some_bounds _ _ _ Hi). pose proof (at_Some_bounds _ _ _ Hj).
  rewrite (at_cons a l j) in Hj by lia.
  destruct (Z.eq_dec i 0) as [->|Hi0].
  - rewrite at_cons_0 in Hi. inversion Hi; subst. eauto.
  - rewrite at_cons in Hi by lia. eapply Hl; eauto. lia.
Qed.

Lemma lineStartsFrom_increasing text i : increasing (lineStartsFrom text i).
Proof.
  revert i. induction text as [|c r IH]; intros i.
  - intros a b x y H. unfold at_ in H. destruct (a <? 0); [discriminate|].
    simpl in H. now destruct (Z.to_nat a).
  - cbn [lineStartsFrom]. destruct (Ascii.eqb c JS.LF); [|apply IH].
    apply increasing_cons; [|apply IH].
    intros k x. apply lineStartsFrom_above.
Qed.

Lemma buildLineStarts_increasing text : increasing (buildLineStarts text).
Proof.
  apply increasing_cons; [|apply lineStartsFrom_increasing].
  intros k x. apply lineStartsFrom_above.
Qed.

Lemma offsetSearch_locates fuel ls offset low high :
  increasing ls -> at_ ls 0 = Some 0 -> 0 <= offset ->
  0 <= low <= len ls -> -1 <= high < len ls ->
  (forall i x, at_ ls i = Some x -> i < low -> x < offset) ->
  (forall i x, at_ ls i = Some x -> high < i -> offset < x) ->
  high - low + 1 < Z.of_nat fuel ->
  locates ls offset (offsetSearch fuel ls offset low high).
Proof.
  intros Hinc H0 Hoff. revert low high.
  induction fuel as [|fuel IH]; intros low high Hlow Hhigh Hbelow Habove Hfuel.
  - assert (Hc : 0 <= high + 1 < len ls) by lia.
    destruct (at_in_range ls (high + 1) Hc) as [x Hx].
    pose proof (Hbelow _ _ Hx). pose proof (Habove _ _ Hx). lia.
  - cbn [offsetSearch]. destruct (Z.leb_spec low high) as [Hle|Hgt].
    + assert (Hm : low <= (low + high) / 2 <= high).
      { split; [apply Z.div_le_lower_bound|apply Z.div_le_upper_bound]; lia. }
      destruct (at_in_range ls ((low + high) / 2)) as [s Hs]; [lia|].
      rewrite Hs. destruct (Z.eqb_spec s offset) as [->|Hne].
      * exists offset. cbn [line character]. repeat split; [exact Hs|lia|lia|].
        intros j y Hj Hlt. eapply Hinc; eauto.
      * destruct (Z.ltb_spec s offset).
        -- apply IH; try lia.
           ++ intros i x Hi Hlt.
              destruct (Z.eq_dec i ((low + high) / 2)) as [->|Hd]; [congruence|].
              assert (x < s) by (eapply Hinc; eauto; lia). lia.
           ++ exact Habove.
        -- apply IH; try lia.
           ++ exact Hbelow.
           ++ intros i x Hi Hlt.
              destruct (Z.eq_dec i ((low + high) / 2)) as [->|Hd]; [assert (x = s) by congruence; lia|].
              assert (s < x) by (eapply Hinc; eauto; lia). lia.
    + assert (Hh : high = low - 1).
      { destruct (Z.eq_dec high (low - 1)); [assumption|].
        assert (Hc : 0 <= high + 1 < len ls) by lia.
        destruct (at_in_range ls (high + 1) Hc) as [x Hx].
        pose proof (Hbelow _ _ Hx). pose proof (Habove _ _ Hx). lia. }
      destruct (Z.eq_dec low 0) as [->|Hl0].
      * pose proof (Habove _ _ H0). lia.
      * destruct (at_in_range ls high) as [s Hs]; [lia|].
        pose proof (Hbelow _ _ Hs).
        exists s. cbn [line character].
        replace (Z.max 0 high) with high by lia. rewrite Hs.
        repeat split; [lia|lia|exact Habove].
Qed.

Lemma offsetToPosition_locates text offset :
  0 <= offset ->
  locates (buildLineStarts text) offset (offsetToPosition (buildLineStarts text) offset).
Proof.
  intros Hoff. unfold offsetToPosition.
  assert (Hn : 0 < len (buildLineStarts text)) by (unfold len; simpl; lia).
  apply offsetSearch_locates; try lia.
  - apply buildLineStarts_increasing.
  - reflexivity.
  - intros i x Hi Hlt. apply at_Some_bounds in Hi. lia.
  - intros i x Hi Hlt. apply at_Some_bounds in Hi. lia.
  - unfold len. lia.
Qed.

Lemma locates_monotone ls o o' p p' :
  increasing ls -> locates ls o p -> locates ls o' p' -> o <= o' ->
  isBefore p' p = false.
Proof.
  intros Hinc (s & Hs & Hle & Hc & Hab) (s' & Hs' & Hle' & Hc' & Hab') Hoo.
  unfold isBefore.
  destruct (Z.ltb_spec (line p') (line p)) as [Hlt|Hge].
  - pose proof (Hab' _ _ Hs Hlt). lia.
  - cbn [orb]. destruct (Z.eqb_spec (line p') (line p)) as [He|Hne]; [|reflexivity].
    cbn [andb]. rewrite He in Hs'. assert (s = s') by congruence.
    destruct (Z.ltb_spec (character p') (character p)); [lia|reflexivity].
Qed.

End OffsetToPosition.

Section Occurrences.
Local Open Scope Z_scope.
Import Relocate RelocateSpec.

Lemma occurrencesFrom_spec sel text pos o :
  In o (occurrencesFrom sel text pos) <-> occursAt sel text (o - pos).
Proof.
  revert pos. induction text as [|c r IH]; intros pos.
  - cbn [occurrencesFrom]. rewrite app_nil_r. unfold occursAt, strlen. simpl String.length.
    destruct (JS.isPrefix sel "") eqn:E.
    + split.
      * intros [<-|[]]. replace (pos - pos) with 0 by lia. split; [lia|exact E].
      * intros [Hr _]. left. lia.
    + split; [intros []|].
      intros [Hr Hp]. replace (o - pos) with 0 in Hp by lia.
      simpl in Hp. congruence.
  - cbn [occurrencesFrom]. rewrite in_app_iff, IH.
    unfold occursAt, strlen. cbn [String.length].
    split.
    + intros [H|[Hr Hp]].
      * destruct (JS.isPrefix sel (String c r)) eqn:E; [|destruct H].
        destruct H as [<-|[]]. replace (pos - pos) with 0 by lia.
        split; [lia|exact E].
      * split; [lia|].
        replace (Z.to_nat (o - pos)) with (S (Z.to_nat (o - (pos + 1)))) by lia.
        exact Hp.
    + intros [Hr Hp]. destruct (Z.eq_dec o pos) as [->|Hne].
      * left. replace (pos - pos) with 0 in Hp by lia. simpl in Hp.
        rewrite Hp. now left.
      * right. split; [lia|].
        replace (Z.to_nat (o - pos)) with (S (Z.to_nat (o - (pos + 1)))) in Hp by lia.
        exact Hp.
Qed.

Lemma occurrencesFrom_sorted sel text pos :
  StronglySorted Z.lt (occurrencesFrom sel text pos).
Proof.
  revert pos. induction text as [|c r IH]; intros pos.
  - cbn [occurrencesFrom]. destruct (JS.isPrefix sel ""); repeat constructor.
  - cbn [occurrencesFrom].
    assert (Hall : Forall (Z.lt pos) (occurrencesFrom sel r (pos + 1))).
    { apply List.Forall_forall. intros o Ho.
      apply occurrencesFrom_spec in Ho as [Hr _]. lia. }
    destruct (JS.isPrefix sel (String c r)); cbn [app]; [|apply IH].
    constructor; [apply IH|exact Hall].
Qed.

Lemma In_firstn_In {A} (x : A) n l : In x (firstn n l) -> In x l.
Proof.
  revert n. induction l as [|a l IH]; intros [|n] H; simpl in *; try tauto.
  destruct H as [H|H]; eauto.
Qed.

Lemma occurrences_nonneg fileText sel o :
  In o (occurrences fileText sel) -> 0 <= o.
Proof.
  unfold occurrences. intros H. apply In_firstn_In in H.
  apply occurrencesFrom_spec in H as [Hr _]. lia.
Qed.

Lemma occurrences_capped fileText sel :
  (length (occurrences fileText sel) <= 50)%nat.
Proof. unfold occurrences. apply firstn_le_length. Qed.

End Occurrences.

Section Stability.
Local Open Scope Z_scope.
Import Relocate RelocateSpec.

(** The approximate line is the stored start line, or does not depend on
    the stored range at all. *)
Lemma getApproximateLine_spec hh :
  exists fixed : option Z,
    forall rng,
      getApproximateLine rng hh
      = match fixed with Some a => a | None => startLine rng end.
Proof.
  unfold getApproximateLine. destruct hh as [h|]; [|now exists None].
  destruct (String.eqb h ""); [now exists None|].
  destruct (approxSearch h) as [ns|]; [|now exists None].
  destruct (isFinite (JS.numberOfDigits ns)); [eexists (Some _)|exists None]; reflexivity.
Qed.

Lemma firstBest_In score distance occs o :
  firstBest score distance occs o -> In o occs.
Proof. intros (e & l & -> & _). apply in_or_app. right. now left. Qed.

Lemma bestOffset_Some_firstBest fileText ctx approx occs o :
  bestOffset fileText ctx approx occs = Some o ->
  firstBest (score fileText ctx approx) (distance fileText approx) occs o.
Proof.
  intros Hb. destruct occs as [|b l]; [discriminate|].
  destruct (bestOffset_firstBest fileText ctx approx (b :: l)) as (o' & Ho & Hf);
    [discriminate|].
  rewrite Hb in Ho. now inversion Ho.
Qed.

Lemma firstBest_bestOffset fileText ctx approx occs o :
  firstBest (score fileText ctx approx) (distance fileText approx) occs o ->
  bestOffset fileText ctx approx occs = Some o.
Proof.
  intros Hf. destruct occs as [|b l].
  - destruct Hf as (e & l & H & _). now destruct e.
  - destruct (bestOffset_firstBest fileText ctx approx (b :: l)) as (o' & Ho & Hf');
      [discriminate|].
    rewrite Ho. f_equal. eapply firstBest_unique; eauto.
Qed.

(** Moving the approximate line onto the winner keeps it the winner. *)
Lemma firstBest_recentred fileText ctx approx occs o :
  firstBest (score fileText ctx approx) (distance fileText approx) occs o ->
  firstBest (score fileText ctx (selectionStartLine fileText o))
            (distance fileText (selectionStartLine fileText o)) occs o.
Proof.
  intros (e & l & Heq & He & Hl). exists e, l. split; [exact Heq|].
  split; [eapply Forall_impl; [exact He|]|eapply Forall_impl; [exact Hl|]];
    intros x; unfold loses, noBetter, score, distance; lia.
Qed.

Lemma startLine_of_found fileText sel o :
  0 <= o ->
  startLine (toPersistedRange
               (mkRange (offsetToPosition (lineStarts fileText) o)
                        (offsetToPosition (lineStarts fileText) (o + strlen sel))))
  = selectionStartLine fileText o.
Proof.
  intros Ho. unfold mkRange.
  rewrite (locates_monotone (lineStarts fileText) o (o + strlen sel)).
  - reflexivity.
  - apply buildLineStarts_increasing.
  - now apply offsetToPosition_locates.
  - apply offsetToPosition_locates. unfold strlen. lia.
  - unfold strlen. lia.
Qed.

Lemma findAnchored_stable fileText ctx rng hh r1 :
  findAnchoredRangeInText fileText ctx rng hh = Some r1 ->
  findAnchoredRangeInText fileText ctx r1 hh = Some r1.
Proof.
  unfold findAnchoredRangeInText.
  destruct (String.eqb (JS.trim (selectionText ctx)) ""); [discriminate|].
  destruct (bestOffset fileText ctx (getApproximateLine rng hh)
              (occurrences fileText (selectionText ctx))) as [o|] eqn:Hb;
    [|discriminate].
  intros Hr. injection Hr as Hr.
  apply bestOffset_Some_firstBest in Hb.
  assert (Ho : 0 <= o).
  { eapply occurrences_nonneg, firstBest_In, Hb. }
  assert (Hbest : bestOffset fileText ctx (getApproximateLine r1 hh)
                    (occurrences fileText (selectionText ctx)) = Some o).
  { apply firstBest_bestOffset. destruct (getApproximateLine_spec hh) as [fixed Hf].
    rewrite (Hf rng) in Hb. rewrite (Hf r1).
    destruct fixed; [exact Hb|].
    rewrite <- Hr, startLine_of_found by exact Ho.
    eapply firstBest_recentred, Hb. }
  rewrite Hbest. now rewrite Hr.
Qed.

Lemma arePersistedRangesEqual_refl r : arePersistedRangesEqual r r = true.
Proof. unfold arePersistedRangesEqual. now rewrite !Z.eqb_refl. Qed.

Lemma arePersistedRangesEqual_eq a b :
  arePersistedRangesEqual a b = true <-> a = b.
Proof.
  split; [|intros ->; apply arePersistedRangesEqual_refl].
  unfold arePersistedRangesEqual. rewrite !andb_true_iff, !Z.eqb_eq.
  destruct a, b; simpl. intros [[[-> ->] ->] ->]. reflexivity.
Qed.

(** The three outcomes of [reanchorThreadIfNeeded]. *)
Lemma reanchor_cases ws now persisted :
  reanchorThreadIfNeeded ws now persisted = unchanged persisted
  \/ exists ctx rng uri text r1,
       context (anchor (target persisted)) = Some ctx
       /\ range (target persisted) = Some rng
       /\ String.eqb (JS.trim (selection ctx)) "" = false
       /\ resolveWorkspaceRelativePath (workspaceRelativePath (target persisted)) = Some uri
       /\ ws uri = Some text
       /\ findAnchoredRangeInText (JS.replaceCRLF text) ctx rng
            (match git (anchor (target persisted)) with
             | Some g => hunkHeader g | None => None end) = Some r1
       /\ arePersistedRangesEqual r1 rng = false
       /\ reanchorThreadIfNeeded ws now persisted
          = {| returned := with_updatedAt (with_range persisted (Some r1)) now;
               written := Some (with_updatedAt (with_range persisted (Some r1)) now) |}.
Proof.
  unfold reanchorThreadIfNeeded.
  destruct (context (anchor (target persisted))) as [ctx|]; [|now left].
  destruct (range (target persisted)) as [rng|]; [|now left].
  destruct (String.eqb (JS.trim (selection ctx)) "") eqn:Hs; [now left|].
  destruct (resolveWorkspaceRelativePath _) as [uri|]; [|now left].
  destruct (ws uri) as [text|] eqn:Hw; [|now left].
  destruct (findAnchoredRangeInText _ _ _ _) as [r1|] eqn:Hf; [|now left].
  destruct (arePersistedRangesEqual r1 rng) eqn:He; [now left|].
  right. exists ctx, rng, uri, text, r1. repeat split; auto.
Qed.

Lemma reanchor_unchanged_any_clock ws now now' persisted :
  reanchorThreadIfNeeded ws now persisted = unchanged persisted ->
  reanchorThreadIfNeeded ws now' persisted = unchanged persisted.
Proof.
  unfold reanchorThreadIfNeeded.
  destruct (context (anchor (target persisted))) as [ctx|]; [|reflexivity].
  destruct (range (target persisted)) as [rng|]; [|reflexivity].
  destruct (String.eqb (JS.trim (selection ctx)) ""); [reflexivity|].
  destruct (resolveWorkspaceRelativePath _) as [uri|]; [|reflexivity].
  destruct (ws uri) as [text|]; [|reflexivity].
  destruct (findAnchoredRangeInText _ _ _ _) as [r1|]; [|reflexivity].
  destruct (arePersistedRangesEqual r1 rng); [reflexivity|].
  unfold unchanged. intros H. discriminate.
Qed.

Lemma reanchor_moved_is_fixed ws now' persisted ctx rng uri text r1 now :
  context (anchor (target persisted)) = Some ctx ->
  String.eqb (JS.trim (selection ctx)) "" = false ->
  resolveWorkspaceRelativePath (workspaceRelativePath (target persisted)) = Some uri ->
  ws uri = Some text ->
  findAnchoredRangeInText (JS.replaceCRLF text) ctx rng
    (match git (anchor (target persisted)) with
     | Some g => hunkHeader g | None => None end) = Some r1 ->
  let moved := with_updatedAt (with_range persisted (Some r1)) now in
  reanchorThreadIfNeeded ws now' moved = unchanged moved.
Proof.
  intros Hc Hs Hu Hw Hf moved.
  unfold reanchorThreadIfNeeded. subst moved. cbn [with_updatedAt with_range target anchor context range workspaceRelativePath].
  rewrite Hc, Hs, Hu, Hw.
  rewrite (findAnchored_stable _ _ _ _ _ Hf).
  now rewrite arePersistedRangesEqual_refl.
Qed.

End Stability.

(** ** Thread codec: failure cases *)

Section ParseFailures.
Import Json Codec CodecSpec.

Lemma afterOpenMarker_found pre openLine post :
  Forall (fun l => ~ isOpen l) pre -> isOpen openLine ->
  afterOpenMarker (pre ++ openLine :: post) = Some post.
Proof.
  intros Hpre Ho. induction Hpre as [|l pre Hl Hpre IH]; cbn [app afterOpenMarker].
  - unfold isOpen in Ho. change ("<" +:+ THREAD_META_TAG +:+ ">") with OPEN_MARKER.
    rewrite Ho. now rewrite String.eqb_refl.
  - change ("<" +:+ THREAD_META_TAG +:+ ">") with OPEN_MARKER.
    destruct (String.eqb_spec (JS.trim l) OPEN_MARKER) as [E|E]; [contradiction|exact IH].
Qed.

Lemma afterOpenMarker_none lines :
  Forall (fun l => ~ isOpen l) lines -> afterOpenMarker lines = None.
Proof.
  intros H. induction H as [|l ls Hl Hls IH]; [reflexivity|].
  cbn [afterOpenMarker]. change ("<" +:+ THREAD_META_TAG +:+ ">") with OPEN_MARKER.
  destruct (String.eqb_spec (JS.trim l) OPEN_MARKER) as [E|E]; [contradiction|exact IH].
Qed.

Lemma untilCloseMarker_found metaLines closeLine rest :
  Forall (fun l => ~ isClose l) metaLines -> isClose closeLine ->
  untilCloseMarker (metaLines ++ closeLine :: rest) = Some (metaLines, rest).
Proof.
  intros Hm Hc. induction Hm as [|l ls Hl Hls IH]; cbn [app untilCloseMarker];
    change ("</" +:+ THREAD_META_TAG +:+ ">") with CLOSE_MARKER.
  - unfold isClose in Hc. rewrite Hc. now rewrite String.eqb_refl.
  - destruct (String.eqb_spec (JS.trim l) CLOSE_MARKER) as [E|E]; [contradiction|].
    now rewrite IH.
Qed.

Lemma untilCloseMarker_none lines :
  Forall (fun l => ~ isClose l) lines -> untilCloseMarker lines = None.
Proof.
  intros H. induction H as [|l ls Hl Hls IH]; [reflexivity|].
  cbn [untilCloseMarker]. change ("</" +:+ THREAD_META_TAG +:+ ">") with CLOSE_MARKER.
  destruct (String.eqb_spec (JS.trim l) CLOSE_MARKER) as [E|E]; [contradiction|].
  now rewrite IH.
Qed.

Lemma parse_of_block now markdown metaLines rest :
  metadataBlock markdown metaLines rest ->
  parseThreadMarkdown now markdown
  = match parse (metadataText metaLines) with
    | Thrown => Returned None
    | Returned metaObject =>
        match parsePersistedThreadMeta now (Some metaObject) with
        | None => Returned None
        | Some meta =>
            let meta' := match extractPatch rest with
                         | Some p => withPatch meta p
                         | None => meta
                         end in
            Returned (Some (withComments meta' (parseComments meta' 0 rest)))
        end
    end.
Proof.
  intros (pre & o & c & Heq & Hpre & Ho & Hm & Hc).
  unfold parseThreadMarkdown. rewrite Heq.
  rewrite (afterOpenMarker_found _ _ _ Hpre Ho).
  rewrite (untilCloseMarker_found _ _ _ Hm Hc). reflexivity.
Qed.

Lemma parseNonEmptyString_Some v k s :
  parseNonEmptyString (prop v k) = Some s <->
  prop v k = Some (JString s) /\ JS.trim s <> "".
Proof.
  unfold parseNonEmptyString, parseString.
  destruct (prop v k) as [[| | | |s'| |]|]; try (split; [discriminate|intros [H _]; discriminate]).
  destruct (String.eqb_spec (JS.trim s') "") as [E|E].
  - split; [discriminate|]. intros [H Hn]. inversion H; subst. contradiction.
  - split.
    + intros H. inversion H; subst. auto.
    + intros [H _]. inversion H; subst. reflexivity.
Qed.

Lemma parseNonEmptyString_None v k :
  ~ hasText v k -> parseNonEmptyString (prop v k) = None.
Proof.
  intros H. destruct (parseNonEmptyString (prop v k)) as [s|] eqn:E; [|reflexivity].
  apply parseNonEmptyString_Some in E. exfalso. apply H. exists s. exact E.
Qed.

Lemma meta_rejected now v :
  ~ schemaVersionOk v \/ ~ idOk v \/ ~ pathOk v ->
  parsePersistedThreadMeta now (Some v) = None.
Proof.
  intros H. unfold parsePersistedThreadMeta.
  destruct (isRecord (Some v)) eqn:Hr; [|reflexivity]. cbn [negb orb].
  destruct (prop (Some v) "schemaVersion") as [[| |n| | | |]|] eqn:Hs; try reflexivity.
  destruct (Z.eqb_spec n SCHEMA_VERSION) as [->|Hn]; [|reflexivity]. cbn [negb].
  destruct H as [H|[H|H]].
  - exfalso. apply H. exact Hs.
  - now rewrite (parseNonEmptyString_None _ _ H).
  - destruct (parseNonEmptyString (prop (Some v) "id")); [|reflexivity].
    destruct (isRecord (prop (Some v) "target")); [|reflexivity]. cbn [negb].
    now rewrite (parseNonEmptyString_None _ _ H).
Qed.

Lemma meta_accepted now v :
  schemaVersionOk v -> idOk v -> pathOk v ->
  exists meta,
    parsePersistedThreadMeta now (Some v) = Some meta
    /\ range (m_target meta)
       = parsePersistedRange (prop (prop (Some v) "target") "range").
Proof.
  intros Hs (i & Hi & Hin) (p & Hp & Hpn).
  unfold parsePersistedThreadMeta.
  assert (Hr : isRecord (Some v) = true).
  { unfold schemaVersionOk, prop in Hs. now destruct v. }
  rewrite Hr, Hs. cbn [negb orb Z.eqb SCHEMA_VERSION Pos.eqb].
  rewrite (proj2 (parseNonEmptyString_Some _ _ _) (conj Hi Hin)).
  assert (Ht : isRecord (prop (Some v) "target") = true).
  { destruct (prop (Some v) "target") as [[| | | | | |]|]; try discriminate. reflexivity. }
  rewrite Ht. cbn [negb].
  rewrite (proj2 (parseNonEmptyString_Some _ _ _) (conj Hp Hpn)).
  eexists. split; reflexivity.
Qed.

Lemma malformedRange_is_null v :
  malformedRange v ->
  parsePersistedRange (prop (prop (Some v) "target") "range") = None.
Proof.
  unfold malformedRange. set (r := prop (prop (Some v) "target") "range").
  intros (Hn & Hnull & Hc). unfold parsePersistedRange.
  destruct r as [rv|]; [|reflexivity].
  destruct (isRecord (Some rv)) eqn:Hr; [|now destruct rv].
  assert (Hgoal :
    match parseNonNegativeInteger (prop (Some rv) "startLine"),
          parseNonNegativeInteger (prop (Some rv) "startCharacter"),
          parseNonNegativeInteger (prop (Some rv) "endLine"),
          parseNonNegativeInteger (prop (Some rv) "endCharacter") with
    | Some sl, Some sc, Some el, Some ec =>
        Some {| startLine := sl; startCharacter := sc; endLine := el; endCharacter := ec |}
    | _, _, _, _ => None
    end = None).
  { assert (Hint : forall k n, parseNonNegativeInteger (prop (Some rv) k) = Some n ->
                               prop (Some rv) k = Some (JNumber n) /\ (0 <= n)%Z).
    { intros k n. unfold parseNonNegativeInteger.
      destruct (prop (Some rv) k) as [[| |m| | | |]|]; try discriminate.
      destruct (Z.ltb_spec m 0) as [Hm|Hm]; [discriminate|].
      intros Hx. inversion Hx; subst. auto. }
    destruct (parseNonNegativeInteger (prop (Some rv) "startLine")) as [sl|] eqn:E1; [|reflexivity].
    destruct (parseNonNegativeInteger (prop (Some rv) "startCharacter")) as [sc|] eqn:E2; [|reflexivity].
    destruct (parseNonNegativeInteger (prop (Some rv) "endLine")) as [el|] eqn:E3; [|reflexivity].
    destruct (parseNonNegativeInteger (prop (Some rv) "endCharacter")) as [ec|] eqn:E4; [|reflexivity].
    exfalso. apply Hc. exists sl, sc, el, ec.
    apply Hint in E1 as [? ?]. apply Hint in E2 as [? ?].
    apply Hint in E3 as [? ?]. apply Hint in E4 as [? ?]. auto 10. }
  destruct rv; try discriminate. exact Hgoal.
Qed.

End ParseFailures.

(** C3 (amended): [parseThreadMarkdown] never throws.  It returns
    [undefined] when no line is the opening marker, when the block is not
    terminated, when the collected text is not JSON, and when the parsed
    object has a wrong or missing [schemaVersion], no [id] or no
    [target.workspaceRelativePath].  A malformed [target.range] does not
    make it fail: with the other fields in place the thread is returned
    with a [null] range. *)
Theorem parse_degrades_to_undefined (now markdown : string) :
  (exists r, Codec.parseThreadMarkdown now markdown = Json.Returned r)
  /\ (CodecSpec.noOpenMarker markdown \/ CodecSpec.unterminated markdown ->
      Codec.parseThreadMarkdown now markdown = Json.Returned None)
  /\ (forall metaLines rest,
        CodecSpec.metadataBlock markdown metaLines rest ->
        (Json.parse (CodecSpec.metadataText metaLines) = Json.Thrown ->
         Codec.parseThreadMarkdown now markdown = Json.Returned None)
        /\ (forall v,
              Json.parse (CodecSpec.metadataText metaLines) = Json.Returned v ->
              (~ CodecSpec.schemaVersionOk v \/ ~ CodecSpec.idOk v
               \/ ~ CodecSpec.pathOk v ->
               Codec.parseThreadMarkdown now markdown = Json.Returned None)
              /\ (CodecSpec.schemaVersionOk v -> CodecSpec.idOk v ->
                  CodecSpec.pathOk v -> CodecSpec.malformedRange v ->
                  exists thread,
                    Codec.parseThreadMarkdown now markdown = Json.Returned (Some thread)
                    /\ range (target thread) = None))).
Proof.
  split; [|split].
  - unfold Codec.parseThreadMarkdown.
    destruct (Codec.afterOpenMarker _); [|eauto].
    destruct (Codec.untilCloseMarker _) as [[m r]|]; [|eauto].
    destruct (Json.parse _); [|eauto].
    destruct (Codec.parsePersistedThreadMeta _ _); eauto.
  - intros [H|(pre & o & post & Heq & Hpre & Ho & Hpost)];
      unfold Codec.parseThreadMarkdown.
    + now rewrite (afterOpenMarker_none _ H).
    + rewrite Heq, (afterOpenMarker_found _ _ _ Hpre Ho).
      now rewrite (untilCloseMarker_none _ Hpost).
  - intros metaLines rest Hb. rewrite (parse_of_block now _ _ _ Hb). split.
    + intros ->. reflexivity.
    + intros v ->. split.
      * intros H. now rewrite (meta_rejected now v H).
      * intros Hs Hi Hp Hr.
        destruct (meta_accepted now v Hs Hi Hp) as (meta & -> & Hrange).
        rewrite (malformedRange_is_null v Hr) in Hrange.
        eexists. split; [reflexivity|].
        destruct (Codec.extractPatch rest); exact Hrange.
Qed.

Lemma parse_degrades_to_undefined_witness :
  Codec.parseThreadMarkdown "2000-01-01T00:00:00.000Z" "# no metadata here"
  = Json.Returned None.
Proof.
  apply (parse_degrades_to_undefined "2000-01-01T00:00:00.000Z" "# no metadata here").
  left. repeat constructor. vm_compute. discriminate.
Defined.

(** C3 as stated fails: the range of [malformed_range_file] has a negative
    [startLine] and lacks the other three fields, and the file parses, as a
    whole-file thread. *)
Lemma malformed_range_still_parses :
  exists thread,
    Codec.parseThreadMarkdown "2000-01-01T00:00:00.000Z" malformed_range_file
    = Json.Returned (Some thread)
    /\ t_id thread = "t0003" /\ range (target thread) = None.
Proof. eexists. split; [vm_compute; reflexivity|]. split; reflexivity. Qed.

Example scenario_C_parses :
  option_map (fun t => map c_author (comments t))
    match Codec.parseThreadMarkdown "2000-01-01T00:00:00.000Z" scenarioC_file with
    | Json.Returned r => r
    | Json.Thrown => None
    end
  = Some ["A&B"].
Proof. vm_compute. reflexivity. Qed.

(** ** XML attribute escaping *)

Section XmlAttr.
Import Json Codec CodecSpec.

Lemma replaceAll_char_app c by_ a b :
  JS.replaceAll (String c "") by_ (a +:+ b)
  = JS.replaceAll (String c "") by_ a +:+ JS.replaceAll (String c "") by_ b.
Proof.
  unfold JS.replaceAll. induction a as [|d a IH]; [reflexivity|].
  cbn [String.append JS.replaceAllFrom JS.isPrefix String.length Nat.sub].
  rewrite andb_true_r. destruct (Ascii.eqb c d).
  - rewrite IH. now rewrite sapp_assoc.
  - now rewrite IH.
Qed.

Lemma escapeXmlAttr_app a b :
  escapeXmlAttr (a +:+ b) = escapeXmlAttr a +:+ escapeXmlAttr b.
Proof. unfold escapeXmlAttr. now rewrite !replaceAll_char_app. Qed.

Lemma escapeXmlAttr_char c : escapeXmlAttr (String c "") = xmlEscapeChar c.
Proof.
  destruct c as [[] [] [] [] [] [] [] []]; vm_compute; reflexivity.
Qed.

Lemma escapeXmlAttr_cons c s :
  escapeXmlAttr (String c s) = xmlEscapeChar c +:+ escapeXmlAttr s.
Proof.
  change (String c s) with (String c "" +:+ s).
  now rewrite escapeXmlAttr_app, escapeXmlAttr_char.
Qed.

Lemma includesChar_app c a b :
  JS.includesChar c (a +:+ b) = JS.includesChar c a || JS.includesChar c b.
Proof.
  induction a as [|d a IH]; [reflexivity|].
  cbn [String.append JS.includesChar]. rewrite IH. now rewrite orb_assoc.
Qed.

Lemma xmlEscapeChar_no_quote c : JS.includesChar QUOTE (xmlEscapeChar c) = false.
Proof.
  destruct c as [[] [] [] [] [] [] [] []]; vm_compute; reflexivity.
Qed.

Lemma escapeXmlAttr_no_quote s : JS.includesChar QUOTE (escapeXmlAttr s) = false.
Proof.
  induction s as [|c s IH]; [reflexivity|].
  now rewrite escapeXmlAttr_cons, includesChar_app, xmlEscapeChar_no_quote, IH.
Qed.

Lemma replaceAll_cons_other pat by_ c s p0 pr :
  pat = String p0 pr -> Ascii.eqb p0 c = false ->
  JS.replaceAll pat by_ (String c s) = String c (JS.replaceAll pat by_ s).
Proof.
  intros -> Hc. unfold JS.replaceAll.
  cbn [JS.replaceAllFrom JS.isPrefix]. now rewrite Hc.
Qed.

Lemma unescapeXmlAttr_escaped_char c s :
  unescapeXmlAttr (xmlEscapeChar c +:+ s) = String c (unescapeXmlAttr s).
Proof.
  unfold xmlEscapeChar.
  destruct (Ascii.eqb_spec c "&") as [->|Hamp]; [reflexivity|].
  destruct (Ascii.eqb_spec c QUOTE) as [->|Hq]; [reflexivity|].
  destruct (Ascii.eqb_spec c "<") as [->|Hlt]; [reflexivity|].
  destruct (Ascii.eqb_spec c ">") as [->|Hgt]; [reflexivity|].
  assert (Hc : Ascii.eqb "&" c = false).
  { destruct (Ascii.eqb_spec "&" c); congruence. }
  unfold unescapeXmlAttr. cbn [String.append].
  now rewrite !(replaceAll_cons_other _ _ c _ "&"%char _ eq_refl Hc).
Qed.

(** Unescaping undoes escaping. *)
Lemma unescape_escape s : unescapeXmlAttr (escapeXmlAttr s) = s.
Proof.
  induction s as [|c s IH]; [reflexivity|].
  now rewrite escapeXmlAttr_cons, unescapeXmlAttr_escaped_char, IH.
Qed.

End XmlAttr.

Section AttributeSearch.
Import Json Codec CodecSpec.

Lemma stripPrefix_to_quote pat b rest :
  JS.includesChar QUOTE pat = false -> JS.includesChar QUOTE b = false ->
  JS.stripPrefix (pat +:+ Q) (b +:+ String QUOTE rest)
  = if String.eqb b pat then Some rest else None.
Proof.
  revert b. induction pat as [|p pat IH]; intros b Hp Hb.
  - destruct b as [|c b].
    + cbn. now rewrite Ascii.eqb_refl.
    + cbn [String.append Q JS.stripPrefix String.eqb].
      cbn [JS.includesChar] in Hb. apply orb_false_iff in Hb as [Hc _].
      now rewrite Hc.
  - cbn [JS.includesChar] in Hp. apply orb_false_iff in Hp as [Hp0 Hp].
    destruct b as [|c b].
    + cbn [String.append JS.stripPrefix String.eqb].
      rewrite Ascii.eqb_sym in Hp0. now rewrite Hp0.
    + cbn [JS.includesChar] in Hb. apply orb_false_iff in Hb as [_ Hb].
      cbn [String.append JS.stripPrefix String.eqb].
      rewrite (Ascii.eqb_sym c p). destruct (Ascii.eqb p c); [|reflexivity].
      now apply IH.
Qed.

Lemma attrAt_to_quote name b rest :
  JS.includesChar QUOTE name = false -> JS.includesChar QUOTE b = false ->
  attrAt name (b +:+ String QUOTE rest)
  = if String.eqb b (name +:+ "=") then untilQuote rest else None.
Proof.
  intros Hn Hb. unfold attrAt.
  replace (name +:+ "=" +:+ Q) with ((name +:+ "=") +:+ Q) by apply sapp_assoc.
  rewrite stripPrefix_to_quote; [|rewrite includesChar_app, Hn; reflexivity|exact Hb].
  now destruct (String.eqb b (name +:+ "=")).
Qed.

Lemma endsWith_self_false s p : JS.endsWith s p = false -> String.eqb s p = false.
Proof. destruct s; cbn [JS.endsWith]; intros H; now apply orb_false_iff in H as [H _]. Qed.

(** No attribute starts in a stretch without quote that does not end in
    the name and the equals sign. *)
Lemma attrSearch_skip name afterWord a rest :
  JS.includesChar QUOTE name = false -> JS.includesChar QUOTE a = false ->
  JS.endsWith a (name +:+ "=") = false ->
  attrSearch name afterWord (a +:+ String QUOTE rest) = attrSearch name false rest.
Proof.
  intros Hn. revert afterWord. induction a as [|c a IH]; intros afterWord Ha He.
  - cbn [String.append attrSearch].
    change (String QUOTE rest) with ("" +:+ String QUOTE rest) at 1.
    rewrite attrAt_to_quote by auto.
    replace (String.eqb "" (name +:+ "=")) with false by (now destruct name).
    now destruct afterWord.
  - cbn [String.append attrSearch].
    change (String c (a +:+ String QUOTE rest)) with (String c a +:+ String QUOTE rest) at 1.
    rewrite attrAt_to_quote by auto.
    rewrite (endsWith_self_false _ _ He).
    cbn [JS.includesChar] in Ha. apply orb_false_iff in Ha as [_ Ha].
    cbn [JS.endsWith] in He. apply orb_false_iff in He as [_ He].
    rewrite <- (IH (JS.isWordChar c) Ha He). now destruct afterWord.
Qed.

Lemma untilQuote_value v rest :
  JS.includesChar QUOTE v = false -> untilQuote (v +:+ String QUOTE rest) = Some v.
Proof.
  induction v as [|c v IH]; intros Hv.
  - cbn. now rewrite Ascii.eqb_refl.
  - cbn [JS.includesChar] in Hv. apply orb_false_iff in Hv as [Hc Hv].
    cbn [String.append untilQuote]. rewrite Ascii.eqb_sym in Hc. rewrite Hc.
    now rewrite (IH Hv).
Qed.

Lemma eqb_longer_false pre p : pre <> "" -> String.eqb (pre +:+ p) p = false.
Proof.
  intros Hpre. destruct (String.eqb_spec (pre +:+ p) p) as [E|]; [|reflexivity].
  exfalso. apply (f_equal String.length) in E. rewrite sapp_length in E.
  destruct pre; [congruence|]. cbn [String.length] in E. lia.
Qed.

Lemma lastChar_cons c s :
  s <> "" -> PathResolver.lastChar (String c s) = PathResolver.lastChar s.
Proof. destruct s; [congruence|reflexivity]. Qed.

Lemma lastChar_nonempty c s : PathResolver.lastChar (String c s) <> None.
Proof.
  revert c. induction s as [|d s IH]; intros c; [discriminate|].
  rewrite lastChar_cons by discriminate. apply IH.
Qed.

Lemma attrSearch_hit name s v :
  attrAt name s = Some v -> attrSearch name false s = Some v.
Proof. intros H. destruct s; cbn [attrSearch]; now rewrite H. Qed.

Lemma attrSearch_miss name afterWord c s :
  attrAt name (String c s) = None ->
  attrSearch name afterWord (String c s) = attrSearch name (JS.isWordChar c) s.
Proof. intros H. cbn [attrSearch]. rewrite H. now destruct afterWord. Qed.

(** The attribute is found where it stands after a word boundary, when no
    quote comes before it. *)
Lemma attrSearch_found name afterWord pre v rest :
  JS.includesChar QUOTE name = false -> JS.includesChar QUOTE pre = false ->
  JS.includesChar QUOTE v = false -> boundaryBefore afterWord pre ->
  attrSearch name afterWord
    (pre +:+ (name +:+ "=") +:+ String QUOTE (v +:+ String QUOTE rest))
  = Some v.
Proof.
  intros Hn. revert afterWord. induction pre as [|c pre IH]; intros afterWord Hp Hv Hb.
  - unfold boundaryBefore in Hb. cbn [PathResolver.lastChar] in Hb. subst afterWord.
    cbn [String.append]. apply attrSearch_hit.
    rewrite attrAt_to_quote, String.eqb_refl.
    + now apply untilQuote_value.
    + exact Hn.
    + rewrite includesChar_app, Hn. reflexivity.
  - cbn [JS.includesChar] in Hp. apply orb_false_iff in Hp as [Hc Hp].
    cbn [String.append]. rewrite attrSearch_miss.
    + apply IH; auto.
      unfold boundaryBefore in *. destruct pre as [|d pre].
      * cbn [PathResolver.lastChar] in *. exact Hb.
      * rewrite lastChar_cons in Hb by discriminate.
        destruct (PathResolver.lastChar (String d pre)) eqn:E; [exact Hb|].
        now apply lastChar_nonempty in E.
    + change (String c (pre +:+ (name +:+ "=") +:+ String QUOTE (v +:+ String QUOTE rest)))
        with (String c pre +:+ (name +:+ "=") +:+ String QUOTE (v +:+ String QUOTE rest)).
      rewrite <- sapp_assoc, attrAt_to_quote.
      * now rewrite eqb_longer_false.
      * exact Hn.
      * rewrite includesChar_app, includesChar_app, Hn.
        cbn [JS.includesChar]. now rewrite Hc, Hp.
Qed.

Lemma trimEnd_nonblank_end s c :
  JS.isWhiteSpace c = false -> JS.trimEnd (s +:+ String c "") = s +:+ String c "".
Proof.
  intros Hc. induction s as [|d s IH].
  - cbn. now rewrite Hc.
  - cbn [String.append JS.trimEnd].
    assert (Hw : JS.allWhiteSpace (String d (s +:+ String c "")) = false).
    { clear IH. cbn [JS.allWhiteSpace]. apply andb_false_iff. right.
      induction s as [|e s IH]; cbn [String.append JS.allWhiteSpace].
      - now rewrite Hc.
      - rewrite IH. apply andb_false_r. }
    now rewrite Hw, IH.
Qed.

Lemma commentMetaLine_shape c :
  exists y, commentMetaLine c = String "<" y +:+ ">".
Proof.
  exists (COMMENT_TAG +:+ " id=" +:+ Q +:+ escapeXmlAttr (c_id c) +:+ Q
          +:+ " author=" +:+ Q +:+ escapeXmlAttr (c_author c) +:+ Q
          +:+ " createdAt=" +:+ Q +:+ escapeXmlAttr (c_createdAt c) +:+ Q +:+ "/").
  unfold commentMetaLine.
  match goal with
  | |- _ = String "<" ?y +:+ ">" =>
      change (String "<" y +:+ ">") with (String "<" (y +:+ ">"))
  end.
  rewrite !sapp_assoc. reflexivity.
Qed.

Lemma trim_bracketed y :
  JS.trim (String "<" y +:+ ">") = String "<" y +:+ ">".
Proof.
  unfold JS.trim. cbn [String.append JS.trimStart].
  change (JS.isWhiteSpace "<") with false. cbv iota.
  change (String "<" (y +:+ ">")) with (String "<" y +:+ ">").
  now apply trimEnd_nonblank_end.
Qed.

Lemma commentMetaLine_trimmed c : JS.trim (commentMetaLine c) = commentMetaLine c.
Proof.
  destruct (commentMetaLine_shape c) as [y ->]. apply trim_bracketed.
Qed.

(** The marker line, attribute by attribute. *)
Lemma commentMetaLine_parts c :
  commentMetaLine c
  = "<local-code-review-comment id="
    +:+ String QUOTE (escapeXmlAttr (c_id c)
    +:+ String QUOTE (" author="
    +:+ String QUOTE (escapeXmlAttr (c_author c)
    +:+ String QUOTE (" createdAt="
    +:+ String QUOTE (escapeXmlAttr (c_createdAt c)
    +:+ String QUOTE "/>"))))).
Proof. reflexivity. Qed.

Lemma attr_id_of_marker c :
  attr "id" (commentMetaLine c) = escapeXmlAttr (c_id c).
Proof.
  unfold attr. rewrite commentMetaLine_parts.
  change ("<local-code-review-comment id=" +:+ ?x)
    with ("<local-code-review-comment " +:+ ("id" +:+ "=") +:+ x).
  rewrite attrSearch_found;
    [reflexivity|reflexivity|reflexivity|apply escapeXmlAttr_no_quote|reflexivity].
Qed.

Lemma attr_author_of_marker c :
  JS.endsWith (escapeXmlAttr (c_id c)) "author=" = false ->
  attr "author" (commentMetaLine c) = escapeXmlAttr (c_author c).
Proof.
  intros Hid. unfold attr. rewrite commentMetaLine_parts.
  rewrite attrSearch_skip by reflexivity.
  rewrite attrSearch_skip;
    [|reflexivity|apply escapeXmlAttr_no_quote|assumption].
  change (" author=" +:+ ?x) with (" " +:+ ("author" +:+ "=") +:+ x).
  rewrite attrSearch_found;
    [reflexivity|reflexivity|reflexivity|apply escapeXmlAttr_no_quote|reflexivity].
Qed.

Lemma attr_createdAt_of_marker c :
  JS.endsWith (escapeXmlAttr (c_id c)) "createdAt=" = false ->
  JS.endsWith (escapeXmlAttr (c_author c)) "createdAt=" = false ->
  attr "createdAt" (commentMetaLine c) = escapeXmlAttr (c_createdAt c).
Proof.
  intros Hid Hau. unfold attr. rewrite commentMetaLine_parts.
  rewrite attrSearch_skip by reflexivity.
  rewrite attrSearch_skip;
    [|reflexivity|apply escapeXmlAttr_no_quote|assumption].
  rewrite attrSearch_skip by reflexivity.
  rewrite attrSearch_skip;
    [|reflexivity|apply escapeXmlAttr_no_quote|assumption].
  change (" createdAt=" +:+ ?x) with (" " +:+ ("createdAt" +:+ "=") +:+ x).
  rewrite attrSearch_found;
    [reflexivity|reflexivity|reflexivity|apply escapeXmlAttr_no_quote|reflexivity].
Qed.

End AttributeSearch.


(** ** JSON: numbers *)

Section JsonNumbers.
Local Open Scope Z_scope.
Import Json JsonSpec.

Lemma isDigit_digitChar d : 0 <= d < 10 -> JS.isDigit (digitChar d) = true.
Proof.
  intros H. assert (Hd : d = 0 \/ d = 1 \/ d = 2 \/ d = 3 \/ d = 4 \/ d = 5
                         \/ d = 6 \/ d = 7 \/ d = 8 \/ d = 9) by lia.
  repeat destruct Hd as [->|Hd]; try reflexivity. now subst.
Qed.

Lemma digitValue_digitChar d : 0 <= d < 10 -> JS.digitValue (digitChar d) = d.
Proof.
  intros H. assert (Hd : d = 0 \/ d = 1 \/ d = 2 \/ d = 3 \/ d = 4 \/ d = 5
                         \/ d = 6 \/ d = 7 \/ d = 8 \/ d = 9) by lia.
  repeat destruct Hd as [->|Hd]; try reflexivity. now subst.
Qed.

Lemma allDigits_app a b : allDigits (a +:+ b) = allDigits a && allDigits b.
Proof.
  induction a as [|c a IH]; [reflexivity|].
  cbn [String.append allDigits]. rewrite IH. now rewrite andb_assoc.
Qed.

Lemma numberOfDigitsFrom_app acc a b :
  JS.numberOfDigitsFrom acc (a +:+ b)
  = JS.numberOfDigitsFrom (JS.numberOfDigitsFrom acc a) b.
Proof.
  revert acc. induction a as [|c a IH]; intros acc; [reflexivity|].
  cbn [String.append JS.numberOfDigitsFrom]. apply IH.
Qed.

Lemma log2_div10 n : 10 <= n -> Z.log2 (n / 10) < Z.log2 n.
Proof.
  intros H. apply Z.le_lt_trans with (Z.log2 (n / 2)).
  - apply Z.log2_le_mono. apply Z.div_le_compat_l; lia.
  - rewrite <- Z.div2_div, Z.div2_spec, Z.log2_shiftr by lia.
    assert (1 <= Z.log2 n) by (apply Z.log2_le_pow2; simpl; lia). lia.
Qed.

Lemma leadingZero_single c : leadingZero (String c "") = false.
Proof. now destruct c as [[] [] [] [] [] [] [] []]. Qed.

Lemma digitsFuel_spec fuel n :
  0 <= n -> Z.log2 n < Z.of_nat fuel ->
  let d := digitsFuel fuel n in
  allDigits d = true /\ d <> "" /\ JS.numberOfDigitsFrom 0 d = n
  /\ (leadingZero d = false).
Proof.
  revert n. induction fuel as [|fuel IH]; intros n Hn Hf.
  - pose proof (Z.log2_nonneg n). lia.
  - cbn [digitsFuel]. destruct (Z.ltb_spec n 10) as [Hlt|Hge].
    + cbn [String.append]. assert (Hm : n mod 10 = n) by (apply Z.mod_small; lia).
      rewrite Hm. repeat split.
      * cbn [allDigits]. rewrite isDigit_digitChar by lia. reflexivity.
      * discriminate.
      * cbn [JS.numberOfDigitsFrom]. rewrite digitValue_digitChar by lia. lia.
      * apply leadingZero_single.
    + assert (Hq : 0 <= n / 10) by (apply Z.div_pos; lia).
      assert (Hl : Z.log2 (n / 10) < Z.of_nat fuel)
        by (pose proof (log2_div10 n Hge); lia).
      destruct (IH (n / 10) Hq Hl) as (Ha & Hne & Hv & Hz).
      pose proof (Z.mod_pos_bound n 10 ltac:(lia)) as Hmod.
      repeat split.
      * rewrite allDigits_app, Ha. cbn [allDigits].
        now rewrite isDigit_digitChar by lia.
      * destruct (digitsFuel fuel (n / 10)); [congruence|discriminate].
      * rewrite numberOfDigitsFrom_app, Hv. cbn [JS.numberOfDigitsFrom].
        rewrite digitValue_digitChar by lia.
        pose proof (Z.div_mod n 10 ltac:(lia)). lia.
      * destruct (digitsFuel fuel (n / 10)) as [|c [|c' r]] eqn:E; [congruence| |].
        -- cbn [String.append leadingZero].
           destruct (Ascii.eqb_spec c "0") as [->|Hc]; [|now destruct c as [[] [] [] [] [] [] [] []]].
           exfalso. change (JS.numberOfDigitsFrom 0 "0") with 0 in Hv.
           assert (1 <= n / 10) by (apply Z.div_le_lower_bound; lia). lia.
        -- cbn [String.append leadingZero] in *. exact Hz.
Qed.

Lemma digitsOf_spec n :
  0 <= n ->
  allDigits (digitsOf n) = true /\ digitsOf n <> ""
  /\ JS.numberOfDigits (digitsOf n) = n /\ leadingZero (digitsOf n) = false.
Proof.
  intros Hn. unfold digitsOf, JS.numberOfDigits. apply digitsFuel_spec; [exact Hn|].
  pose proof (Z.log2_nonneg n). lia.
Qed.

Lemma spanDigits_digits d rest :
  allDigits d = true ->
  match rest with String c _ => JS.isDigit c = false | EmptyString => True end ->
  JS.spanDigits (d +:+ rest) = (d, rest).
Proof.
  intros Hd Hr. induction d as [|c d IH].
  - cbn [String.append]. destruct rest as [|c r]; [reflexivity|].
    cbn [JS.spanDigits]. now rewrite Hr.
  - cbn [allDigits] in Hd. apply andb_true_iff in Hd as [Hc Hd].
    cbn [String.append JS.spanDigits]. rewrite Hc, (IH Hd). reflexivity.
Qed.

End JsonNumbers.

(** ** JSON: strings *)

Section JsonStrings.
Import Json JsonSpec JsonText.

Lemma parseStringBody_escapeChar c x :
  parseStringBody (escapeChar c +:+ x)
  = match parseStringBody x with
    | Some (body, rest) => Some (String c body, rest)
    | None => None
    end.
Proof. destruct c as [[] [] [] [] [] [] [] []]; reflexivity. Qed.

Lemma parseStringBody_escaped s rest :
  parseStringBody (escapeString s +:+ String QUOTE rest) = Some (s, rest).
Proof.
  induction s as [|c s IH].
  - cbn. reflexivity.
  - cbn [escapeString]. rewrite sapp_assoc, parseStringBody_escapeChar, IH. reflexivity.
Qed.

Lemma escapeChar_no_line_end c :
  JS.includesChar JS.LF (escapeChar c) = false
  /\ JS.includesChar JS.CR (escapeChar c) = false.
Proof. destruct c as [[] [] [] [] [] [] [] []]; split; reflexivity. Qed.

Lemma escapeString_no_line_end s :
  JS.includesChar JS.LF (escapeString s) = false
  /\ JS.includesChar JS.CR (escapeString s) = false.
Proof.
  induction s as [|c s [IH1 IH2]]; [split; reflexivity|].
  cbn [escapeString]. rewrite !includesChar_app, IH1, IH2.
  destruct (escapeChar_no_line_end c) as [-> ->]. split; reflexivity.
Qed.

Lemma quote_eq s : quote s = String QUOTE (escapeString s +:+ String QUOTE "").
Proof. reflexivity. Qed.

Lemma quote_app s rest :
  quote s +:+ rest = String QUOTE (escapeString s +:+ String QUOTE rest).
Proof. rewrite quote_eq. cbn [String.append]. now rewrite sapp_assoc. Qed.

Lemma quote_no_line_end s :
  JS.includesChar JS.LF (quote s) = false /\ JS.includesChar JS.CR (quote s) = false.
Proof.
  rewrite quote_eq. cbn [JS.includesChar]. rewrite !includesChar_app.
  destruct (escapeString_no_line_end s) as [-> ->]. split; reflexivity.
Qed.

Lemma skipWs_spaces n s : skipWs (spaces n +:+ s) = skipWs s.
Proof. induction n as [|n IH]; [reflexivity|]. cbn [spaces String.append skipWs]. exact IH. Qed.

Lemma skipWs_NL s : skipWs (NL +:+ s) = skipWs s.
Proof. reflexivity. Qed.

Lemma skipWs_start c r : isValueStart c = true -> skipWs (String c r) = String c r.
Proof.
  intros H. cbn [skipWs].
  replace (isJsonWhiteSpace c) with false; [reflexivity|].
  destruct c as [[] [] [] [] [] [] [] []]; try reflexivity; discriminate.
Qed.

End JsonStrings.

(** ** JSON: reading back what was written *)

Section JsonRoundTrip.
Import Json JsonSpec JsonText.

Lemma join_cons2 sep a b l :
  JS.join sep (a :: b :: l) = a +:+ sep +:+ JS.join sep (b :: l).
Proof. reflexivity. Qed.

Lemma elements_text depth x xs rest :
  JS.join ("," +:+ NL)
    (map (fun i => spaces (2 * S depth) +:+ stringifyAt (S depth) i) (x :: xs))
  +:+ NL +:+ spaces (2 * depth) +:+ "]" +:+ rest
  = inner depth +:+ stringifyAt (S depth) x +:+ elementsTail depth xs rest.
Proof.
  revert x. induction xs as [|y xs IH]; intros x.
  - cbn [map JS.join elementsTail]. unfold inner, outer. now rewrite ?sapp_assoc.
  - cbn [map]. rewrite join_cons2. cbn [elementsTail].
    rewrite ?sapp_assoc. f_equal. f_equal. f_equal. f_equal.
    specialize (IH y). cbn [map] in IH. rewrite <- IH. now rewrite ?sapp_assoc.
Qed.

Lemma stringifyAt_array depth x xs rest :
  stringifyAt depth (JArray (x :: xs)) +:+ rest
  = "[" +:+ NL +:+ inner depth +:+ stringifyAt (S depth) x
    +:+ elementsTail depth xs rest.
Proof.
  cbn [stringifyAt]. rewrite ?sapp_assoc. f_equal.
  change (NL +:+ ?a) with (String JS.LF a). f_equal.
  rewrite <- elements_text. now rewrite ?sapp_assoc.
Qed.

Lemma members_text depth m ms rest :
  JS.join ("," +:+ NL)
    (map (fun m => spaces (2 * S depth) +:+ quote (fst m) +:+ ": "
                   +:+ stringifyAt (S depth) (snd m)) (m :: ms))
  +:+ NL +:+ spaces (2 * depth) +:+ "}" +:+ rest
  = inner depth +:+ quote (fst m) +:+ ": " +:+ stringifyAt (S depth) (snd m)
    +:+ membersTail depth ms rest.
Proof.
  revert m. induction ms as [|y ms IH]; intros m.
  - cbn [map JS.join membersTail]. unfold inner, outer. now rewrite ?sapp_assoc.
  - cbn [map]. rewrite join_cons2. cbn [membersTail].
    rewrite ?sapp_assoc. do 6 f_equal.
    specialize (IH y). cbn [map] in IH. rewrite <- IH. now rewrite ?sapp_assoc.
Qed.

Lemma stringifyAt_object depth m ms rest :
  stringifyAt depth (JObject (m :: ms)) +:+ rest
  = "{" +:+ NL +:+ inner depth +:+ quote (fst m) +:+ ": "
    +:+ stringifyAt (S depth) (snd m) +:+ membersTail depth ms rest.
Proof.
  cbn [stringifyAt]. rewrite ?sapp_assoc. f_equal.
  change (NL +:+ ?a) with (String JS.LF a). f_equal.
  rewrite <- members_text. now rewrite ?sapp_assoc.
Qed.

Lemma digits_start d :
  allDigits d = true -> d <> "" ->
  exists c r, d = String c r /\ JS.isDigit c = true.
Proof.
  destruct d as [|c r]; [congruence|]. cbn [allDigits]. intros H _.
  apply andb_true_iff in H as [Hc _]. eauto.
Qed.

Lemma isDigit_start c : JS.isDigit c = true -> isValueStart c = true.
Proof. unfold isValueStart. intros ->. now rewrite !orb_true_r. Qed.

Lemma numberToString_start n :
  exists c r, numberToString n = String c r /\ isValueStart c = true.
Proof.
  unfold numberToString. destruct (Z.ltb_spec n 0).
  - eexists _, _. split; reflexivity.
  - destruct (digitsOf_spec n ltac:(lia)) as (Ha & Hne & _).
    destruct (digits_start _ Ha Hne) as (c & r & -> & Hc).
    exists c, r. split; [reflexivity|now apply isDigit_start].
Qed.

Lemma stringifyAt_start depth v :
  wellFormed v ->
  exists c r, stringifyAt depth v = String c r /\ isValueStart c = true.
Proof.
  destruct v as [|[]|n|numeral|s|[|x xs]|[|m ms]]; intros Hw;
    try (eexists _, _; split; reflexivity).
  - apply numberToString_start.
  - destruct Hw.
Qed.

Lemma parseValue_skip fuel ws s :
  skipWs ws = "" -> parseValue fuel (ws +:+ s) = parseValue fuel s.
Proof.
  intros Hws. assert (H : skipWs (ws +:+ s) = skipWs s).
  { induction ws as [|c ws IH]; [reflexivity|].
    cbn [skipWs String.append] in *. destruct (isJsonWhiteSpace c); [auto|discriminate]. }
  destruct fuel; [reflexivity|]. cbn [parseValue]. now rewrite H.
Qed.

Lemma skipWs_blank_spaces n : skipWs (spaces n) = "".
Proof. induction n; [reflexivity|]. exact IHn. Qed.

Lemma skipWs_NL_spaces n : skipWs (NL +:+ spaces n) = "".
Proof. cbn. apply skipWs_blank_spaces. Qed.

Lemma delimited_no_digit rest :
  delimited rest ->
  match rest with String c _ => JS.isDigit c = false | EmptyString => True end.
Proof.
  destruct rest as [|c r]; [trivial|]. cbn.
  intros [->|[->|[->|[->| ->]]]]; reflexivity.
Qed.

Lemma parseNumber_digits (neg : bool) d rest n :
  allDigits d = true -> d <> "" -> leadingZero d = false ->
  JS.numberOfDigits d = n -> delimited rest ->
  parseNumber ((if neg then "-" else "") +:+ d +:+ rest)
  = Some (JNumber (if neg then (- n)%Z else n), rest).
Proof.
  intros Ha Hne Hz Hn Hd.
  destruct (digits_start _ Ha Hne) as (c & r & -> & Hc).
  unfold parseNumber.
  assert (Hspan : JS.spanDigits (String c r +:+ rest) = (String c r, rest)).
  { apply spanDigits_digits; [exact Ha|now apply delimited_no_digit]. }
  assert (Hcm : c <> "-"%char) by (intros ->; discriminate).
  destruct neg; cbn [String.append].
  - change (String c (r +:+ rest)) with (String c r +:+ rest). rewrite Hspan.
    cbn [String.eqb orb]. rewrite Hz.
    assert (Hf : parseFraction rest = Some ("", rest)).
    { destruct rest as [|x rest']; [reflexivity|].
      destruct Hd as [->|[->|[->|[->| ->]]]]; reflexivity. }
    assert (He : parseExponent rest = Some ("", 0%Z, rest)).
    { destruct rest as [|x rest']; [reflexivity|].
      destruct Hd as [->|[->|[->|[->| ->]]]]; reflexivity. }
    rewrite Hf, He. rewrite sapp_nil_r, Hn. cbn [String.length Z.of_nat Z.sub Z.leb Z.compare].
    cbn. f_equal. f_equal. f_equal. lia.
  - destruct (Ascii.eqb_spec c "-") as [->|_]; [congruence|].
    assert (Hm : match String c (r +:+ rest) with
                 | String "-" r0 => (true, r0)
                 | _ => (false, String c (r +:+ rest))
                 end = (false, String c (r +:+ rest))).
    { destruct c as [[] [] [] [] [] [] [] []]; try reflexivity. congruence. }
    rewrite Hm.
    change (String c (r +:+ rest)) with (String c r +:+ rest). rewrite Hspan.
    cbn [String.eqb orb]. rewrite Hz.
    assert (Hf : parseFraction rest = Some ("", rest)).
    { destruct rest as [|x rest']; [reflexivity|].
      destruct Hd as [->|[->|[->|[->| ->]]]]; reflexivity. }
    assert (He : parseExponent rest = Some ("", 0%Z, rest)).
    { destruct rest as [|x rest']; [reflexivity|].
      destruct Hd as [->|[->|[->|[->| ->]]]]; reflexivity. }
    rewrite Hf, He. rewrite sapp_nil_r, Hn.
    cbn. f_equal. f_equal. f_equal. lia.
Qed.

End JsonRoundTrip.

Section JsonParse.
Import Json JsonSpec JsonText.

Lemma itemsSize_cons x xs : itemsSize (x :: xs) = S (size x) + itemsSize xs.
Proof. reflexivity. Qed.

Lemma membersSize_cons m ms : membersSize (m :: ms) = S (size (snd m)) + membersSize ms.
Proof. reflexivity. Qed.

Lemma size_array items : size (JArray items) = S (itemsSize items).
Proof.
  cbn [size]. f_equal.
  induction items as [|x xs IH]; [reflexivity|]. rewrite itemsSize_cons. now rewrite IH.
Qed.

Lemma size_object members : size (JObject members) = S (membersSize members).
Proof.
  cbn [size]. f_equal.
  induction members as [|x xs IH]; [reflexivity|]. rewrite membersSize_cons. now rewrite IH.
Qed.

Lemma size_pos v : 1 <= size v.
Proof. destruct v; cbn [size]; lia. Qed.

Lemma wellFormed_array items : wellFormed (JArray items) <-> Forall wellFormed items.
Proof.
  cbn [wellFormed]. induction items as [|x xs IH].
  - split; constructor.
  - split.
    + intros [Hx Hxs]. constructor; [exact Hx|now apply IH].
    + intros H. inversion H; subst. split; [assumption|now apply IH].
Qed.

Lemma wellFormed_object members :
  wellFormed (JObject members)
  <-> List.NoDup (map fst members) /\ Forall (fun m => wellFormed (snd m)) members.
Proof.
  cbn [wellFormed].
  assert (H : (fix all (l : list (string * value)) : Prop :=
                 match l with
                 | [] => True
                 | m :: r => wellFormed (snd m) /\ all r
                 end) members
              <-> Forall (fun m => wellFormed (snd m)) members).
  { induction members as [|x xs IH].
    - split; constructor.
    - split.
      + intros [Hx Hxs]. constructor; [exact Hx|now apply IH].
      + intros Hall. inversion Hall; subst. split; [assumption|now apply IH]. }
  now rewrite H.
Qed.

Lemma setMember_fresh k v acc :
  ~ In k (map fst acc) -> setMember k v acc = acc ++ [(k, v)].
Proof.
  induction acc as [|[k' v'] acc IH]; intros Hk; [reflexivity|].
  cbn [setMember map fst In app] in *.
  destruct (String.eqb_spec k' k) as [->|Hne]; [tauto|].
  rewrite IH by tauto. reflexivity.
Qed.

Lemma digit_dispatch fuel c r :
  JS.isDigit c = true -> parseValue (S fuel) (String c r) = parseNumber (String c r).
Proof.
  intros H. destruct c as [[] [] [] [] [] [] [] []]; try discriminate; reflexivity.
Qed.

Lemma array_not_empty c r (B : option (value * string)) :
  isValueStart c = true ->
  match String c r with
  | String "]" rest => Some (JArray [], rest)
  | _ => B
  end = B.
Proof.
  intros H. destruct c as [[] [] [] [] [] [] [] []]; try reflexivity; discriminate.
Qed.

Lemma object_not_empty r (B : option (value * string)) :
  match String QUOTE r with
  | String "}" rest => Some (JObject [], rest)
  | _ => B
  end = B.
Proof. reflexivity. Qed.

Lemma delimited_elementsTail depth xs rest : delimited (elementsTail depth xs rest).
Proof. destruct xs; cbn; auto. Qed.

Lemma delimited_membersTail depth ms rest : delimited (membersTail depth ms rest).
Proof. destruct ms; cbn; auto. Qed.

Lemma parseElements_tail depth rest xs :
  forall x acc fuel,
    readsBack x -> Forall readsBack xs -> itemsSize (x :: xs) <= fuel ->
    parseElements fuel
      (NL +:+ inner depth +:+ stringifyAt (S depth) x +:+ elementsTail depth xs rest) acc
    = Some (JArray (acc ++ x :: xs), rest).
Proof.
  induction xs as [|y ys IH]; intros x acc fuel Hx Hxs Hf;
    rewrite itemsSize_cons in Hf;
    (destruct fuel as [|fuel]; [lia|]); cbn [parseElements];
    rewrite <- sapp_assoc, parseValue_skip by apply skipWs_NL_spaces;
    rewrite (Hx (S depth) _ fuel (delimited_elementsTail _ _ _)) by lia.
  - cbn [elementsTail]. unfold outer. rewrite skipWs_NL, skipWs_spaces. reflexivity.
  - cbn [elementsTail]. cbn [String.append skipWs].
    change (isJsonWhiteSpace ",") with false. cbv iota.
    inversion Hxs; subst.
    rewrite IH; [|assumption|assumption|lia].
    now rewrite <- app_assoc.
Qed.

Lemma parseMembers_step fuel depth k x acc :
  parseMembers (S fuel) (NL +:+ inner depth +:+ quote k +:+ ": " +:+ x) acc
  = match parseValue fuel x with
    | Some (v, r3) =>
        match skipWs r3 with
        | String "," rest => parseMembers fuel rest (setMember k v acc)
        | String "}" rest => Some (JObject (setMember k v acc), rest)
        | _ => None
        end
    | None => None
    end.
Proof.
  cbn [parseMembers]. rewrite skipWs_NL. unfold inner. rewrite skipWs_spaces, quote_app.
  cbn [skipWs]. change (isJsonWhiteSpace QUOTE) with false. cbv iota.
  change (Ascii.eqb QUOTE QUOTE) with true. cbv iota.
  rewrite parseStringBody_escaped.
  change (skipWs (": " +:+ x)) with (String ":" (" " +:+ x)). cbv iota.
  now rewrite (parseValue_skip fuel " ") by reflexivity.
Qed.

Lemma parseMembers_tail depth rest ms :
  forall m acc fuel,
    readsBack (snd m) -> Forall (fun m => readsBack (snd m)) ms ->
    List.NoDup (map fst (acc ++ m :: ms)) ->
    membersSize (m :: ms) <= fuel ->
    parseMembers fuel
      (NL +:+ inner depth +:+ quote (fst m) +:+ ": " +:+ stringifyAt (S depth) (snd m)
       +:+ membersTail depth ms rest) acc
    = Some (JObject (acc ++ m :: ms), rest).
Proof.
  induction ms as [|y ys IH]; intros [k v] acc fuel Hx Hxs Hnd Hf;
    rewrite membersSize_cons in Hf; cbn [fst snd] in *;
    (destruct fuel as [|fuel]; [lia|]);
    rewrite parseMembers_step;
    rewrite (Hx (S depth) _ fuel (delimited_membersTail _ _ _)) by lia;
    (assert (Hfresh : ~ In k (map fst acc));
     [rewrite map_app in Hnd; cbn [map fst] in Hnd; apply NoDup_remove_2 in Hnd;
      intros Hin; apply Hnd; apply in_or_app; now left|]);
    rewrite (setMember_fresh _ _ _ Hfresh).
  - cbn [membersTail]. unfold outer. rewrite skipWs_NL, skipWs_spaces. reflexivity.
  - cbn [membersTail]. cbn [String.append skipWs].
    change (isJsonWhiteSpace ",") with false. cbv iota.
    inversion Hxs; subst.
    rewrite IH; [now rewrite <- app_assoc|assumption|assumption| |].
    + now rewrite <- app_assoc.
    + lia.
Qed.

Lemma parseValue_string fuel x :
  parseValue (S fuel) (String QUOTE x)
  = match parseStringBody x with
    | Some (str, rest) => Some (JString str, rest)
    | None => None
    end.
Proof. reflexivity. Qed.

Lemma parseValue_array fuel r :
  parseValue (S fuel) (String "[" r)
  = match skipWs r with
    | String "]" rest => Some (JArray [], rest)
    | _ => parseElements fuel r []
    end.
Proof. reflexivity. Qed.

Lemma parseValue_object fuel r :
  parseValue (S fuel) (String "{" r)
  = match skipWs r with
    | String "}" rest => Some (JObject [], rest)
    | _ => parseMembers fuel r []
    end.
Proof. reflexivity. Qed.

Lemma parseValue_stringify v : wellFormed v -> readsBack v.
Proof.
  induction v as [|b|n|numeral|s|items IH|members IH] using Json.value_ind;
    intros Hw depth rest fuel Hd Hf.
  - destruct fuel; [cbn in Hf; lia|]. reflexivity.
  - destruct fuel; [cbn in Hf; lia|]. now destruct b.
  - destruct fuel; [cbn in Hf; lia|]. cbn [stringifyAt]. unfold numberToString.
    destruct (Z.ltb_spec n 0).
    + destruct (digitsOf_spec (- n)%Z ltac:(lia)) as (Ha & Hne & Hv & Hz).
      rewrite sapp_assoc.
      change (parseValue (S fuel) ("-" +:+ ?s)) with (parseNumber ("-" +:+ s)).
      rewrite (parseNumber_digits true _ rest (- n)%Z Ha Hne Hz Hv Hd).
      do 3 f_equal. lia.
    + destruct (digitsOf_spec n ltac:(lia)) as (Ha & Hne & Hv & Hz).
      destruct (digits_start _ Ha Hne) as (c & r & Heq & Hc).
      rewrite Heq in *. cbn [String.append]. rewrite digit_dispatch by exact Hc.
      exact (parseNumber_digits false _ rest n Ha Hne Hz Hv Hd).
  - destruct Hw.
  - destruct fuel; [cbn in Hf; lia|]. cbn [stringifyAt]. rewrite quote_app.
    now rewrite parseValue_string, parseStringBody_escaped.
  - destruct items as [|x xs].
    + destruct fuel; [cbn in Hf; lia|]. reflexivity.
    + rewrite size_array in Hf. destruct fuel as [|fuel]; [lia|].
      apply wellFormed_array in Hw.
      assert (Hall : Forall readsBack (x :: xs)).
      { rewrite List.Forall_forall in *. intros y Hy. apply IH; auto. }
      inversion Hall; subst. inversion Hw; subst.
      rewrite stringifyAt_array.
      destruct (stringifyAt_start (S depth) x) as (c & r & Hs & Hc); [assumption|].
      change ("[" +:+ ?a) with (String "[" a). rewrite parseValue_array.
      assert (Hsk : skipWs (NL +:+ inner depth +:+ stringifyAt (S depth) x
                            +:+ elementsTail depth xs rest)
                    = String c (r +:+ elementsTail depth xs rest)).
      { rewrite skipWs_NL. unfold inner. rewrite skipWs_spaces, Hs.
        cbn [String.append]. now apply skipWs_start. }
      rewrite Hsk, array_not_empty by exact Hc.
      apply (parseElements_tail depth rest xs x []); auto. lia.
  - destruct members as [|m ms].
    + destruct fuel; [cbn in Hf; lia|]. reflexivity.
    + rewrite size_object in Hf. destruct fuel as [|fuel]; [lia|].
      apply wellFormed_object in Hw as [Hnd Hw].
      assert (Hall : Forall (fun m => readsBack (snd m)) (m :: ms)).
      { rewrite List.Forall_forall in *. intros y Hy. apply IH; auto. }
      inversion Hall; subst.
      rewrite stringifyAt_object.
      change ("{" +:+ ?a) with (String "{" a). rewrite parseValue_object.
      assert (Hsk : skipWs (NL +:+ inner depth +:+ quote (fst m) +:+ ": "
                            +:+ stringifyAt (S depth) (snd m) +:+ membersTail depth ms rest)
                    = String QUOTE (escapeString (fst m) +:+ String QUOTE (": "
                            +:+ stringifyAt (S depth) (snd m) +:+ membersTail depth ms rest))).
      { rewrite skipWs_NL. unfold inner. rewrite skipWs_spaces, quote_app. reflexivity. }
      rewrite Hsk, object_not_empty.
      apply (parseMembers_tail depth rest ms m []); auto. lia.
Qed.

End JsonParse.

(** ** Lines *)

Section Lines.

Lemma JS_join_cons2_eq sep a b l :
  JS.join sep (a :: b :: l) = a +:+ sep +:+ JS.join sep (b :: l).
Proof. reflexivity. Qed.

Lemma splitLF_nonempty s : JS.splitLF s <> [].
Proof.
  unfold JS.splitLF. destruct s as [|c r]; cbn [JS.splitChar]; [discriminate|].
  destruct (Ascii.eqb c JS.LF); [discriminate|].
  destruct (JS.splitChar JS.LF r); discriminate.
Qed.

Lemma splitLF_cons_other c r :
  Ascii.eqb c JS.LF = false ->
  exists l ls, JS.splitLF r = l :: ls /\ JS.splitLF (String c r) = String c l :: ls.
Proof.
  intros Hc. unfold JS.splitLF in *. cbn [JS.splitChar]. rewrite Hc.
  destruct (JS.splitChar JS.LF r) as [|l ls] eqn:E.
  - now apply splitLF_nonempty in E.
  - eauto.
Qed.

Lemma splitLF_LF r : JS.splitLF (String JS.LF r) = "" :: JS.splitLF r.
Proof. reflexivity. Qed.

Lemma splitLF_noLF s : JS.includesChar JS.LF s = false -> JS.splitLF s = [s].
Proof.
  induction s as [|c r IH]; [reflexivity|]. cbn [JS.includesChar].
  intros H. apply orb_false_iff in H as [Hc Hr].
  rewrite Ascii.eqb_sym in Hc.
  destruct (splitLF_cons_other c r Hc) as (l & ls & E & ->).
  rewrite (IH Hr) in E. now inversion E.
Qed.

Lemma splitLF_app_NL a b :
  JS.splitLF (a +:+ String JS.LF b) = JS.splitLF a ++ JS.splitLF b.
Proof.
  induction a as [|c a IH]; [reflexivity|]. cbn [String.append].
  destruct (Ascii.eqb c JS.LF) eqn:Hc.
  - apply Ascii.eqb_eq in Hc. subst c. rewrite !splitLF_LF, IH. reflexivity.
  - destruct (splitLF_cons_other c a Hc) as (l & ls & E & ->).
    destruct (splitLF_cons_other c (a +:+ String JS.LF b) Hc) as (l' & ls' & E' & ->).
    rewrite IH, E in E'. cbn [app] in E'. inversion E'; subst. reflexivity.
Qed.

Lemma join_splitLF s : JS.join Json.NL (JS.splitLF s) = s.
Proof.
  induction s as [|c r IH]; [reflexivity|].
  destruct (Ascii.eqb c JS.LF) eqn:Hc.
  - apply Ascii.eqb_eq in Hc. subst c. rewrite splitLF_LF.
    destruct (JS.splitLF r) as [|l ls] eqn:E; [now apply splitLF_nonempty in E|].
    rewrite JS_join_cons2_eq. rewrite IH. reflexivity.
  - destruct (splitLF_cons_other c r Hc) as (l & ls & E & ->).
    rewrite E in IH. destruct ls as [|l2 ls].
    + cbn [JS.join] in *. now rewrite IH.
    + rewrite JS_join_cons2_eq in *. cbn [String.append]. now rewrite IH.
Qed.

End Lines.

Section MoreLines.
Import Json JsonSpec JsonText.

Lemma splitLF_join l ls :
  JS.splitLF (JS.join NL (l :: ls)) = concat (map JS.splitLF (l :: ls)).
Proof.
  revert l. induction ls as [|l2 ls IH]; intros l.
  - cbn [JS.join map concat]. now rewrite app_nil_r.
  - rewrite JS_join_cons2_eq. change (NL +:+ ?x) with (String JS.LF x).
    rewrite splitLF_app_NL, IH. reflexivity.
Qed.

Lemma splitLF_join_NL l ls :
  JS.splitLF (JS.join NL (l :: ls) +:+ NL) = concat (map JS.splitLF (l :: ls)) ++ [""].
Proof.
  unfold NL. rewrite splitLF_app_NL, splitLF_join. reflexivity.
Qed.

Lemma replaceCRLF_noCR s : JS.includesChar JS.CR s = false -> JS.replaceCRLF s = s.
Proof.
  induction s as [|c r IH]; [reflexivity|]. cbn [JS.includesChar].
  intros H. apply orb_false_iff in H as [Hc Hr].
  cbn [JS.replaceCRLF]. destruct r as [|d r']; [reflexivity|].
  rewrite Ascii.eqb_sym in Hc. rewrite Hc. cbn [andb]. now rewrite (IH Hr).
Qed.

Lemma includesChar_join c sep ls :
  JS.includesChar c sep = false -> Forall (fun l => JS.includesChar c l = false) ls ->
  JS.includesChar c (JS.join sep ls) = false.
Proof.
  intros Hs H. induction H as [|l ls Hl Hls IH]; [reflexivity|].
  destruct ls as [|l2 ls]; [exact Hl|].
  rewrite JS_join_cons2_eq, !includesChar_app, Hl, Hs, IH. reflexivity.
Qed.

Lemma includesChar_splitLF c s :
  JS.includesChar c s = false ->
  Forall (fun l => JS.includesChar c l = false) (JS.splitLF s).
Proof.
  induction s as [|d r IH]; intros H.
  - repeat constructor.
  - cbn [JS.includesChar] in H. apply orb_false_iff in H as [Hd Hr].
    destruct (Ascii.eqb d JS.LF) eqn:E.
    + apply Ascii.eqb_eq in E. subst d. rewrite splitLF_LF.
      constructor; [reflexivity|auto].
    + destruct (splitLF_cons_other d r E) as (l & ls & El & ->).
      specialize (IH Hr). rewrite El in IH. inversion IH; subst.
      constructor; [|assumption]. cbn [JS.includesChar]. now rewrite Hd.
Qed.

Lemma splitLF_lines_noLF s :
  Forall (fun l => JS.includesChar JS.LF l = false) (JS.splitLF s).
Proof.
  induction s as [|d r IH]; [repeat constructor|].
  destruct (Ascii.eqb d JS.LF) eqn:E.
  - apply Ascii.eqb_eq in E. subst d. rewrite splitLF_LF. constructor; [reflexivity|auto].
  - destruct (splitLF_cons_other d r E) as (l & ls & El & ->).
    rewrite El in IH. inversion IH; subst.
    constructor; [|assumption]. cbn [JS.includesChar].
    rewrite Ascii.eqb_sym, E. assumption.
Qed.

(** *** The lines of written JSON *)

Lemma jsonLines_single s c r n :
  JS.includesChar JS.LF s = false -> JS.includesChar JS.CR s = false ->
  s = spaces n +:+ String c r -> isLineStart c = true -> jsonLines s.
Proof.
  intros Hlf Hcr Hs Hc. unfold jsonLines. rewrite (splitLF_noLF _ Hlf).
  constructor; [|constructor]. split; [exact Hcr|]. eauto.
Qed.

Lemma jsonLines_app_NL a b : jsonLines a -> jsonLines b -> jsonLines (a +:+ NL +:+ b).
Proof.
  unfold jsonLines. intros Ha Hb. change (NL +:+ b) with (String JS.LF b).
  rewrite splitLF_app_NL. apply Forall_app. split; assumption.
Qed.

Lemma includesChar_spaces c n :
  Ascii.eqb c " " = false -> JS.includesChar c (spaces n) = false.
Proof. intros H. induction n; [reflexivity|]. cbn [spaces JS.includesChar]. now rewrite H. Qed.

Lemma spaces_add n m : spaces n +:+ spaces m = spaces (n + m).
Proof. induction n; [reflexivity|]. cbn [spaces String.append Nat.add]. now rewrite IHn. Qed.

Lemma splitLF_prefix p s :
  JS.includesChar JS.LF p = false ->
  exists l ls, JS.splitLF s = l :: ls /\ JS.splitLF (p +:+ s) = (p +:+ l) :: ls.
Proof.
  intros Hp. induction p as [|c p IH].
  - destruct (JS.splitLF s) as [|l ls] eqn:E; [now apply splitLF_nonempty in E|].
    exists l, ls. split; [reflexivity|exact E].
  - cbn [JS.includesChar] in Hp. apply orb_false_iff in Hp as [Hc Hp].
    destruct (IH Hp) as (l & ls & E & E'). exists l, ls. split; [exact E|].
    cbn [String.append]. rewrite Ascii.eqb_sym in Hc.
    destruct (splitLF_cons_other c (p +:+ s) Hc) as (l' & ls' & E1 & ->).
    rewrite E' in E1. now inversion E1.
Qed.

Lemma jsonLines_indent n s : jsonLines s -> jsonLines (spaces n +:+ s).
Proof.
  unfold jsonLines. intros H.
  destruct (splitLF_prefix (spaces n) s) as (l & ls & E & ->);
    [now apply includesChar_spaces|].
  rewrite E in H. inversion H as [|? ? [Hcr (m & c & r & -> & Hc)] Hls]; subst.
  constructor; [|assumption]. split.
  - rewrite includesChar_app, Hcr, includesChar_spaces; reflexivity.
  - exists (n + m), c, r. split; [|exact Hc]. now rewrite <- sapp_assoc, spaces_add.
Qed.

Lemma splitLF_suffix s q :
  JS.includesChar JS.LF q = false ->
  exists ls l, JS.splitLF s = ls ++ [l] /\ JS.splitLF (s +:+ q) = ls ++ [l +:+ q].
Proof.
  intros Hq. induction s as [|c s IH].
  - exists [], "". split; [reflexivity|]. cbn [String.append app]. now apply splitLF_noLF.
  - destruct IH as (ls & l & E & E'). cbn [String.append].
    destruct (Ascii.eqb c JS.LF) eqn:Hc.
    + apply Ascii.eqb_eq in Hc. subst c. rewrite !splitLF_LF, E, E'.
      exists ("" :: ls), l. split; reflexivity.
    + destruct (splitLF_cons_other c s Hc) as (l1 & ls1 & E1 & ->).
      destruct (splitLF_cons_other c (s +:+ q) Hc) as (l2 & ls2 & E2 & ->).
      rewrite E in E1. rewrite E' in E2. destruct ls as [|l0 ls].
      * cbn [app] in *. injection E1 as <- <-. injection E2 as <- <-.
        exists [], (String c l). split; reflexivity.
      * cbn [app] in *. injection E1 as <- <-. injection E2 as <- <-.
        exists (String c l0 :: ls), l. split; reflexivity.
Qed.

Lemma jsonLines_suffix s q :
  JS.includesChar JS.LF q = false -> JS.includesChar JS.CR q = false ->
  jsonLines s -> jsonLines (s +:+ q).
Proof.
  unfold jsonLines. intros Hlf Hcr H.
  destruct (splitLF_suffix s q Hlf) as (ls & l & E & ->).
  rewrite E in H. apply Forall_app in H as [Hls Hl].
  apply Forall_app. split; [exact Hls|].
  inversion Hl as [|? ? [Hc (m & c & r & -> & Hs)] _]; subst.
  constructor; [|constructor]. split.
  - now rewrite includesChar_app, Hc, Hcr.
  - exists m, c, (r +:+ q). split; [|exact Hs].
    rewrite sapp_assoc. reflexivity.
Qed.

End MoreLines.

Section JsonLayout.
Import Json JsonSpec JsonText.

Lemma allDigits_excludes c d :
  JS.isDigit c = false -> allDigits d = true -> JS.includesChar c d = false.
Proof.
  intros Hc. induction d as [|x d IH]; [reflexivity|].
  cbn [allDigits JS.includesChar]. intros H. apply andb_true_iff in H as [Hx Hd].
  rewrite (IH Hd), orb_false_r.
  destruct (Ascii.eqb_spec c x) as [->|]; [congruence|reflexivity].
Qed.

Lemma numberToString_no_line_end n :
  JS.includesChar JS.LF (numberToString n) = false
  /\ JS.includesChar JS.CR (numberToString n) = false.
Proof.
  unfold numberToString. destruct (Z.ltb_spec n 0).
  - destruct (digitsOf_spec (- n)%Z ltac:(lia)) as (Ha & _).
    cbn [String.append JS.includesChar].
    rewrite (allDigits_excludes JS.LF _ eq_refl Ha).
    rewrite (allDigits_excludes JS.CR _ eq_refl Ha). split; reflexivity.
  - destruct (digitsOf_spec n ltac:(lia)) as (Ha & _).
    rewrite (allDigits_excludes JS.LF _ eq_refl Ha).
    rewrite (allDigits_excludes JS.CR _ eq_refl Ha). split; reflexivity.
Qed.

Lemma isValueStart_lineStart c : isValueStart c = true -> isLineStart c = true.
Proof. unfold isLineStart. now intros ->. Qed.

Lemma jsonLines_prefix p c r s :
  JS.includesChar JS.LF p = false -> JS.includesChar JS.CR p = false ->
  p = String c r -> isLineStart c = true ->
  jsonLines s -> jsonLines (p +:+ s).
Proof.
  unfold jsonLines. intros Hlf Hcr Hp Hc H.
  destruct (splitLF_prefix p s Hlf) as (l & ls & E & ->).
  rewrite E in H. inversion H as [|? ? [Hl _] Hls]; subst.
  constructor; [|assumption]. split.
  - now rewrite includesChar_app, Hcr, Hl.
  - exists 0, c, (r +:+ l). split; [reflexivity|exact Hc].
Qed.

Lemma jsonLines_closing n c :
  isLineStart c = true -> Ascii.eqb JS.LF c = false -> Ascii.eqb JS.CR c = false ->
  jsonLines (spaces n +:+ String c "").
Proof.
  intros Hc Hlf Hcr. apply (jsonLines_single _ c "" n); auto.
  - rewrite includesChar_app, includesChar_spaces by reflexivity.
    cbn [JS.includesChar]. now rewrite Hlf.
  - rewrite includesChar_app, includesChar_spaces by reflexivity.
    cbn [JS.includesChar]. now rewrite Hcr.
Qed.

Lemma jsonLines_elements depth xs :
  forall x,
    jsonLines (stringifyAt (S depth) x) ->
    Forall (fun y => jsonLines (stringifyAt (S depth) y)) xs ->
    jsonLines (inner depth +:+ stringifyAt (S depth) x +:+ elementsTail depth xs "").
Proof.
  induction xs as [|y ys IH]; intros x Hx Hxs; cbn [elementsTail].
  - replace (inner depth +:+ stringifyAt (S depth) x +:+ NL +:+ outer depth +:+ "]" +:+ "")
      with ((inner depth +:+ stringifyAt (S depth) x) +:+ NL +:+ (outer depth +:+ "]"))
      by (rewrite ?sapp_assoc; reflexivity).
    apply jsonLines_app_NL; [now apply jsonLines_indent|].
    now apply jsonLines_closing.
  - inversion Hxs; subst.
    replace (inner depth +:+ stringifyAt (S depth) x +:+ "," +:+ NL +:+ inner depth
             +:+ stringifyAt (S depth) y +:+ elementsTail depth ys "")
      with (((inner depth +:+ stringifyAt (S depth) x) +:+ ",") +:+ NL
            +:+ (inner depth +:+ stringifyAt (S depth) y +:+ elementsTail depth ys ""))
      by (rewrite ?sapp_assoc; reflexivity).
    apply jsonLines_app_NL; [|now apply IH].
    apply jsonLines_suffix; [reflexivity|reflexivity|now apply jsonLines_indent].
Qed.

Lemma jsonLines_member depth k v :
  jsonLines (stringifyAt (S depth) v) ->
  jsonLines (inner depth +:+ quote k +:+ ": " +:+ stringifyAt (S depth) v).
Proof.
  intros Hv. apply jsonLines_indent.
  replace (quote k +:+ ": " +:+ stringifyAt (S depth) v)
    with ((quote k +:+ ": ") +:+ stringifyAt (S depth) v) by apply sapp_assoc.
  destruct (quote_no_line_end k) as [Hlf Hcr].
  eapply jsonLines_prefix; [| |rewrite quote_eq; cbn [String.append]; reflexivity|reflexivity|exact Hv].
  - rewrite includesChar_app, Hlf. reflexivity.
  - rewrite includesChar_app, Hcr. reflexivity.
Qed.

Lemma jsonLines_members depth ms :
  forall m,
    jsonLines (stringifyAt (S depth) (snd m)) ->
    Forall (fun y => jsonLines (stringifyAt (S depth) (snd y))) ms ->
    jsonLines (inner depth +:+ quote (fst m) +:+ ": " +:+ stringifyAt (S depth) (snd m)
               +:+ membersTail depth ms "").
Proof.
  induction ms as [|y ys IH]; intros m Hm Hms; cbn [membersTail].
  - replace (inner depth +:+ quote (fst m) +:+ ": " +:+ stringifyAt (S depth) (snd m)
             +:+ NL +:+ outer depth +:+ "}" +:+ "")
      with ((inner depth +:+ quote (fst m) +:+ ": " +:+ stringifyAt (S depth) (snd m))
            +:+ NL +:+ (outer depth +:+ "}"))
      by (rewrite ?sapp_assoc; reflexivity).
    apply jsonLines_app_NL; [now apply jsonLines_member|].
    now apply jsonLines_closing.
  - inversion Hms; subst.
    replace (inner depth +:+ quote (fst m) +:+ ": " +:+ stringifyAt (S depth) (snd m)
             +:+ "," +:+ NL +:+ inner depth +:+ quote (fst y) +:+ ": "
             +:+ stringifyAt (S depth) (snd y) +:+ membersTail depth ys "")
      with (((inner depth +:+ quote (fst m) +:+ ": " +:+ stringifyAt (S depth) (snd m))
             +:+ ",") +:+ NL
            +:+ (inner depth +:+ quote (fst y) +:+ ": "
                 +:+ stringifyAt (S depth) (snd y) +:+ membersTail depth ys ""))
      by (rewrite ?sapp_assoc; reflexivity).
    apply jsonLines_app_NL; [|now apply IH].
    apply jsonLines_suffix; [reflexivity|reflexivity|now apply jsonLines_member].
Qed.

Lemma jsonLines_stringify v : wellFormed v -> forall depth, jsonLines (stringifyAt depth v).
Proof.
  induction v as [|b|n|numeral|s|items IH|members IH] using Json.value_ind;
    intros Hw depth.
  - now apply (jsonLines_single _ "n" "ull" 0).
  - destruct b; [now apply (jsonLines_single _ "t" "rue" 0)
                |now apply (jsonLines_single _ "f" "alse" 0)].
  - destruct (numberToString_start n) as (c & r & E & Hc).
    destruct (numberToString_no_line_end n) as [Hlf Hcr].
    apply (jsonLines_single _ c r 0); auto using isValueStart_lineStart.
  - destruct Hw.
  - destruct (quote_no_line_end s) as [Hlf Hcr].
    apply (jsonLines_single _ QUOTE (escapeString s +:+ String QUOTE "") 0); auto.
  - destruct items as [|x xs]; [now apply (jsonLines_single _ "[" "]" 0)|].
    apply wellFormed_array in Hw.
    assert (Hall : Forall (fun y => jsonLines (stringifyAt (S depth) y)) (x :: xs)).
    { rewrite List.Forall_forall in *. intros y Hy. apply IH; auto. }
    inversion Hall; subst.
    rewrite <- (sapp_nil_r (stringifyAt depth (JArray (x :: xs)))), stringifyAt_array.
    apply (jsonLines_app_NL "["); [now apply (jsonLines_single _ "[" "" 0)|].
    now apply jsonLines_elements.
  - destruct members as [|m ms]; [now apply (jsonLines_single _ "{" "}" 0)|].
    apply wellFormed_object in Hw as [_ Hw].
    assert (Hall : Forall (fun y => jsonLines (stringifyAt (S depth) (snd y))) (m :: ms)).
    { rewrite List.Forall_forall in *. intros y Hy. apply IH; auto. }
    inversion Hall; subst.
    rewrite <- (sapp_nil_r (stringifyAt depth (JObject (m :: ms)))), stringifyAt_object.
    apply (jsonLines_app_NL "{"); [now apply (jsonLines_single _ "{" "" 0)|].
    now apply jsonLines_members.
Qed.

(** *** Enough fuel *)

Lemma itemsSize_le_tail depth rest xs :
  Forall (fun y => forall d, size y <= String.length (stringifyAt d y)) xs ->
  itemsSize xs <= String.length (elementsTail depth xs rest).
Proof.
  induction 1 as [|y ys Hy Hys IH]; [cbn; lia|].
  rewrite itemsSize_cons. cbn [elementsTail]. rewrite !sapp_length.
  specialize (Hy (S depth)). change (String.length NL) with 1. cbn [String.length]. lia.
Qed.

Lemma membersSize_le_tail depth rest ms :
  Forall (fun y => forall d, size (snd y) <= String.length (stringifyAt d (snd y))) ms ->
  membersSize ms <= String.length (membersTail depth ms rest).
Proof.
  induction 1 as [|y ys Hy Hys IH]; [cbn; lia|].
  rewrite membersSize_cons. cbn [membersTail]. rewrite !sapp_length.
  specialize (Hy (S depth)). change (String.length NL) with 1. cbn [String.length]. lia.
Qed.

Lemma size_le_length v :
  wellFormed v -> forall depth, size v <= String.length (stringifyAt depth v).
Proof.
  induction v as [|b|n|numeral|s|items IH|members IH] using Json.value_ind;
    intros Hw depth.
  - cbn. lia.
  - destruct b; cbn; lia.
  - destruct (numberToString_start n) as (c & r & E & _).
    cbn [size stringifyAt]. rewrite E. cbn [String.length]. lia.
  - destruct Hw.
  - cbn [size stringifyAt]. rewrite quote_eq. cbn [String.length]. lia.
  - destruct items as [|x xs]; [cbn; lia|].
    apply wellFormed_array in Hw.
    assert (Hall : Forall (fun y => forall d, size y <= String.length (stringifyAt d y)) (x :: xs)).
    { rewrite List.Forall_forall in *. intros y Hy. apply IH; auto. }
    inversion Hall as [|? ? Hx Hxs]; subst.
    rewrite <- (sapp_nil_r (stringifyAt depth (JArray (x :: xs)))), stringifyAt_array.
    rewrite size_array, itemsSize_cons, !sapp_length.
    pose proof (itemsSize_le_tail depth "" xs Hxs). specialize (Hx (S depth)).
    change (String.length NL) with 1. cbn [String.length]. lia.
  - destruct members as [|m ms]; [cbn; lia|].
    apply wellFormed_object in Hw as [_ Hw].
    assert (Hall : Forall (fun y => forall d, size (snd y) <= String.length (stringifyAt d (snd y))) (m :: ms)).
    { rewrite List.Forall_forall in *. intros y Hy. apply IH; auto. }
    inversion Hall as [|? ? Hx Hxs]; subst.
    rewrite <- (sapp_nil_r (stringifyAt depth (JObject (m :: ms)))), stringifyAt_object.
    rewrite size_object, membersSize_cons, !sapp_length.
    pose proof (membersSize_le_tail depth "" ms Hxs). specialize (Hx (S depth)).
    change (String.length NL) with 1. cbn [String.length]. lia.
Qed.

End JsonLayout.

Section PhysicalLines.
Import Json Codec RoundTrip.

Lemma physical_app a b : physical (a ++ b) = physical a ++ physical b.
Proof. unfold physical. now rewrite map_app, concat_app. Qed.

Lemma physical_cons s ls : physical (s :: ls) = JS.splitLF s ++ physical ls.
Proof. reflexivity. Qed.

Lemma physical_nil : physical [] = [].
Proof. reflexivity. Qed.

Lemma physical_singleLine s ls :
  JS.includesChar JS.LF s = false -> physical (s :: ls) = s :: physical ls.
Proof. intros H. now rewrite physical_cons, (splitLF_noLF s H). Qed.

Lemma physical_noLF ls :
  Forall (fun l => JS.includesChar JS.LF l = false) ls -> physical ls = ls.
Proof.
  induction 1 as [|l ls Hl Hls IH]; [reflexivity|].
  now rewrite physical_singleLine, IH.
Qed.

Lemma physical_splitLF s : physical (JS.splitLF s) = JS.splitLF s.
Proof. apply physical_noLF, splitLF_lines_noLF. Qed.

Lemma includesChar_of_lines c s :
  Ascii.eqb c JS.LF = false ->
  Forall (fun l => JS.includesChar c l = false) (JS.splitLF s) ->
  JS.includesChar c s = false.
Proof.
  intros Hc H. rewrite <- (join_splitLF s). apply includesChar_join; [|exact H].
  cbn [NL JS.includesChar]. now rewrite Hc.
Qed.

(** The lines of a serialized thread. *)
Lemma splitText_serialize l ls :
  Forall (fun s => JS.includesChar JS.CR s = false) (l :: ls) ->
  splitText (JS.join NL (l :: ls) +:+ NL) = physical (l :: ls) ++ [""].
Proof.
  intros H. unfold splitText. rewrite replaceCRLF_noCR.
  - apply splitLF_join_NL.
  - rewrite includesChar_app. rewrite includesChar_join; [reflexivity|reflexivity|exact H].
Qed.

Lemma splitText_noCR s : JS.includesChar JS.CR s = false -> splitText s = JS.splitLF s.
Proof. intros H. unfold splitText. now rewrite replaceCRLF_noCR. Qed.

(** *** Plain lines *)

Lemma startsWith_other_head c r p0 p :
  Ascii.eqb p0 c = false -> JS.startsWith (String c r) (String p0 p) = false.
Proof. intros H. unfold JS.startsWith. cbn [JS.isPrefix]. now rewrite H. Qed.

Lemma plainLine_head c r :
  JS.isWhiteSpace c = false -> Ascii.eqb "<" c = false -> plainLine (String c r).
Proof.
  intros Hw Hc. destruct (trim_keeps_head c r Hw) as [r' E].
  unfold plainLine, isPatchMarker, isCommentMarker. rewrite E.
  split; apply startsWith_other_head; exact Hc.
Qed.

Lemma plainLine_blank s : JS.trim s = "" -> plainLine s.
Proof.
  intros E. unfold plainLine, isPatchMarker, isCommentMarker. rewrite E. split; reflexivity.
Qed.

Lemma plainText_singleLine s : singleLine s -> plainLine s -> plainText s.
Proof.
  intros [Hlf Hcr] Hp. split; [exact Hcr|]. rewrite (splitLF_noLF s Hlf).
  now constructor.
Qed.

Lemma plainText_head c r :
  JS.isWhiteSpace c = false -> Ascii.eqb "<" c = false -> singleLine (String c r) ->
  plainText (String c r).
Proof. intros. apply plainText_singleLine; [assumption|now apply plainLine_head]. Qed.

Lemma plainText_lines s :
  plainText s -> Forall plainText (JS.splitLF s).
Proof.
  intros [Hcr Hp]. pose proof (includesChar_splitLF JS.CR s Hcr) as Hc.
  pose proof (splitLF_lines_noLF s) as Hl.
  induction Hp as [|l ls Hpl Hpls IH]; [constructor|].
  inversion Hc; inversion Hl; subst.
  constructor; [|now apply IH].
  apply plainText_singleLine; [split|]; assumption.
Qed.

Lemma plainText_physical ls : Forall plainText ls -> Forall plainLine (physical ls).
Proof.
  induction 1 as [|l ls [_ Hl] Hls IH]; [constructor|].
  rewrite physical_cons. apply List.Forall_app. now split.
Qed.

Lemma plainText_noCR ls :
  Forall plainText ls -> Forall (fun s => JS.includesChar JS.CR s = false) ls.
Proof. induction 1 as [|l ls [Hl _] Hls IH]; constructor; assumption. Qed.

Lemma singleLine_app a b : singleLine a -> singleLine b -> singleLine (a +:+ b).
Proof.
  intros [Ha1 Ha2] [Hb1 Hb2]. split; rewrite includesChar_app.
  - now rewrite Ha1, Hb1.
  - now rewrite Ha2, Hb2.
Qed.

End PhysicalLines.

Section CommentScan.
Import Json Codec CodecSpec RoundTrip.

Lemma includesChar_xmlEscapeChar c x :
  Ascii.eqb c "&" = false -> Ascii.eqb c "a" = false -> Ascii.eqb c "m" = false ->
  Ascii.eqb c "p" = false -> Ascii.eqb c ";" = false -> Ascii.eqb c "q" = false ->
  Ascii.eqb c "u" = false -> Ascii.eqb c "o" = false -> Ascii.eqb c "t" = false ->
  Ascii.eqb c "l" = false -> Ascii.eqb c "g" = false ->
  JS.includesChar c (String x "") = false ->
  JS.includesChar c (xmlEscapeChar x) = false.
Proof.
  intros. unfold xmlEscapeChar.
  repeat match goal with
         | |- context [if ?b then _ else _] => destruct b
         end; cbn [JS.includesChar];
    repeat match goal with
           | H : Ascii.eqb c _ = false |- _ => rewrite H; clear H
           end; auto.
Qed.

Lemma escapeXmlAttr_singleLine s : singleLine s -> singleLine (escapeXmlAttr s).
Proof.
  intros [Hlf Hcr]. induction s as [|x s IH]; [split; reflexivity|].
  cbn [JS.includesChar] in Hlf, Hcr.
  apply orb_false_iff in Hlf as [Hx1 Hs1]. apply orb_false_iff in Hcr as [Hx2 Hs2].
  rewrite escapeXmlAttr_cons. apply singleLine_app; [|now apply IH].
  split; apply includesChar_xmlEscapeChar; try reflexivity;
    cbn [JS.includesChar]; [now rewrite Hx1|now rewrite Hx2].
Qed.

Lemma commentMetaLine_singleLine c :
  singleLine (c_id c) -> singleLine (c_author c) -> singleLine (c_createdAt c) ->
  singleLine (commentMetaLine c).
Proof.
  intros Hi Ha Hc. unfold commentMetaLine.
  repeat (apply singleLine_app;
          [first [now apply escapeXmlAttr_singleLine | split; reflexivity]|]).
  split; reflexivity.
Qed.

Lemma commentMetaLine_isCommentMarker c : isCommentMarker (commentMetaLine c) = true.
Proof.
  unfold isCommentMarker. rewrite commentMetaLine_trimmed, commentMetaLine_parts.
  reflexivity.
Qed.

Lemma commentMetaLine_noPatchMarker c : isPatchMarker (commentMetaLine c) = false.
Proof.
  unfold isPatchMarker. rewrite commentMetaLine_trimmed, commentMetaLine_parts.
  reflexivity.
Qed.

Lemma parseComments_skip meta i pre more :
  Forall (fun l => isCommentMarker l = false) pre ->
  parseComments meta i (pre ++ more) = parseComments meta i more.
Proof.
  induction 1 as [|l ls Hl Hls IH]; [reflexivity|].
  cbn [app parseComments]. now rewrite Hl.
Qed.

Lemma bodyLines_app pre more :
  Forall (fun l => isCommentMarker l = false) pre ->
  bodyLines (pre ++ more) = pre ++ bodyLines more.
Proof.
  induction 1 as [|l ls Hl Hls IH]; [reflexivity|].
  cbn [app bodyLines]. now rewrite Hl, IH.
Qed.

Lemma afterPatchMarker_skip pre more :
  Forall (fun l => isPatchMarker l = false) pre ->
  afterPatchMarker (pre ++ more) = afterPatchMarker more.
Proof.
  induction 1 as [|l ls Hl Hls IH]; [reflexivity|].
  cbn [app afterPatchMarker]. now rewrite Hl.
Qed.

Lemma afterPatchMarker_none lines :
  Forall (fun l => isPatchMarker l = false) lines -> afterPatchMarker lines = None.
Proof.
  induction 1 as [|l ls Hl Hls IH]; [reflexivity|].
  cbn [afterPatchMarker]. now rewrite Hl.
Qed.

Lemma join_snoc sep l ls x :
  JS.join sep ((l :: ls) ++ [x]) = JS.join sep (l :: ls) +:+ sep +:+ x.
Proof.
  revert l. induction ls as [|l2 ls IH]; intros l; [reflexivity|].
  change ((l :: l2 :: ls) ++ [x]) with (l :: ((l2 :: ls) ++ [x])).
  cbn [app]. rewrite !JS_join_cons2_eq.
  change (l2 :: ls ++ [x]) with ((l2 :: ls) ++ [x]). rewrite IH.
  now rewrite !sapp_assoc.
Qed.

Lemma allWhiteSpace_app a b :
  JS.allWhiteSpace (a +:+ b) = JS.allWhiteSpace a && JS.allWhiteSpace b.
Proof.
  induction a as [|c a IH]; [reflexivity|].
  cbn [String.append JS.allWhiteSpace]. now rewrite IH, andb_assoc.
Qed.

Lemma trimEnd_blank s : JS.allWhiteSpace s = true -> JS.trimEnd s = "".
Proof. intros H. destruct s; [reflexivity|]. cbn [JS.trimEnd]. now rewrite H. Qed.

Lemma trimEnd_app_blank s w :
  JS.allWhiteSpace w = true -> JS.trimEnd (s +:+ w) = JS.trimEnd s.
Proof.
  intros Hw. induction s as [|c s IH]; [now apply trimEnd_blank|].
  cbn [String.append JS.trimEnd].
  change (String c (s +:+ w)) with (String c s +:+ w).
  rewrite allWhiteSpace_app, Hw, andb_true_r, IH. reflexivity.
Qed.

End CommentScan.

Section CommentsRoundTrip.
Import Json Codec CodecSpec RoundTrip.

Lemma writtenBody_noMarker c :
  plainText (c_bodyMarkdown c) ->
  Forall (fun l => isCommentMarker l = false) (writtenBody c)
  /\ Forall (fun l => isPatchMarker l = false) (writtenBody c).
Proof.
  intros [_ H]. unfold writtenBody.
  destruct (String.eqb (c_bodyMarkdown c) ""); [split; constructor|].
  split; eapply List.Forall_impl; try exact H; intros l [? ?]; assumption.
Qed.

Lemma physical_commentLines c :
  commentOk c -> physical (commentLines c) = writtenComment c.
Proof.
  intros (Hi & _ & _ & _ & Ha & _ & Hc & _ & Hb & Hp).
  unfold commentLines, writtenComment, writtenBody. cbv zeta. rewrite Hb.
  destruct Hi as (_ & _ & Hi), Ha as (_ & _ & Ha), Hc as (_ & _ & Hc).
  destruct (commentMetaLine_singleLine c Hi Ha Hc) as [Hlf _].
  cbn [app]. rewrite physical_singleLine by reflexivity.
  rewrite physical_singleLine by exact Hlf.
  rewrite physical_singleLine by reflexivity.
  destruct (String.eqb (c_bodyMarkdown c) ""); [reflexivity|].
  rewrite (splitText_noCR _ (proj1 Hp)). now rewrite physical_splitLF.
Qed.

Lemma physical_comments cs :
  Forall commentOk cs ->
  physical (concat (map commentLines cs)) ++ [""] = writtenComments cs.
Proof.
  unfold writtenComments. intros H. f_equal.
  induction H as [|c cs Hc Hcs IH]; [reflexivity|].
  cbn [map concat]. now rewrite physical_app, IH, physical_commentLines.
Qed.

Lemma commentLines_noCR c :
  commentOk c -> Forall (fun s => JS.includesChar JS.CR s = false) (commentLines c).
Proof.
  intros (Hi & _ & _ & _ & Ha & _ & Hc & _ & Hb & Hp).
  destruct Hi as (_ & _ & Hi), Ha as (_ & _ & Ha), Hc as (_ & _ & Hc).
  destruct (commentMetaLine_singleLine c Hi Ha Hc) as [_ Hcr].
  unfold commentLines. cbv zeta. rewrite Hb.
  repeat constructor; [exact Hcr|].
  destruct (String.eqb (c_bodyMarkdown c) ""); [constructor|].
  rewrite (splitText_noCR _ (proj1 Hp)). apply includesChar_splitLF, Hp.
Qed.

Lemma comments_noCR cs :
  Forall commentOk cs ->
  Forall (fun s => JS.includesChar JS.CR s = false) (concat (map commentLines cs)).
Proof.
  induction 1 as [|c cs Hc Hcs IH]; [constructor|].
  cbn [map concat]. apply List.Forall_app. split; [now apply commentLines_noCR|exact IH].
Qed.

Lemma writtenComments_noPatchMarker cs :
  Forall commentOk cs -> Forall (fun l => isPatchMarker l = false) (writtenComments cs).
Proof.
  unfold writtenComments. intros H. apply List.Forall_app. split; [|now repeat constructor].
  induction H as [|c cs Hc Hcs IH]; [constructor|].
  cbn [map concat]. apply List.Forall_app. split; [|exact IH].
  unfold writtenComment. constructor; [reflexivity|].
  constructor; [apply commentMetaLine_noPatchMarker|]. constructor; [reflexivity|].
  apply writtenBody_noMarker, Hc.
Qed.

Lemma bodyLines_writtenComments cs : bodyLines (writtenComments cs) = [""].
Proof.
  unfold writtenComments. destruct cs as [|c cs]; [reflexivity|].
  cbn [map concat writtenComment app bodyLines].
  change (isCommentMarker "") with false. cbv iota.
  now rewrite commentMetaLine_isCommentMarker.
Qed.

Lemma body_read_back c more :
  commentOk c ->
  JS.trimEnd (JS.join NL (bodyLines (writtenBody c ++ writtenComments more)))
  = c_bodyMarkdown c.
Proof.
  intros Hc. destruct (writtenBody_noMarker c) as [Hm _]; [apply Hc|].
  rewrite (bodyLines_app _ _ Hm), bodyLines_writtenComments.
  destruct Hc as (_ & _ & _ & _ & _ & _ & _ & _ & Hb & _).
  unfold writtenBody. destruct (String.eqb_spec (c_bodyMarkdown c) "") as [E|E].
  - now rewrite E.
  - destruct (JS.splitLF (c_bodyMarkdown c)) as [|l ls] eqn:El;
      [now apply splitLF_nonempty in El|].
    rewrite join_snoc, <- El, join_splitLF.
    rewrite trimEnd_app_blank by reflexivity. exact Hb.
Qed.

Lemma orElse_nonempty a b : a <> "" -> orElse a b = a.
Proof. intros H. unfold orElse. destruct (String.eqb_spec a ""); congruence. Qed.

Lemma parseComment_written meta i c more :
  commentOk c ->
  parseComment meta i (JS.trim (commentMetaLine c))
    ("" :: writtenBody c ++ writtenComments more) = c.
Proof.
  intros Hc. pose proof (body_read_back c more Hc) as Hbody.
  destruct Hc as ((Hi1 & Hi2 & _) & Hi & Hia & Hic & (Ha1 & Ha2 & _) & Hac
                  & (Hc1 & Hc2 & _) & Hce & _).
  unfold parseComment. cbv zeta. cbn [skipBlankLine]. rewrite Hbody.
  rewrite commentMetaLine_trimmed.
  rewrite attr_id_of_marker, attr_author_of_marker, attr_createdAt_of_marker;
    rewrite ?Hi; try assumption.
  rewrite Hce, unescape_escape, Hi2, Ha2, Hc2.
  rewrite !orElse_nonempty by assumption. now destruct c.
Qed.

Lemma parseComments_written meta cs :
  Forall commentOk cs -> forall i, parseComments meta i (writtenComments cs) = cs.
Proof.
  induction 1 as [|c cs Hc Hcs IH]; intros i; [reflexivity|].
  unfold writtenComments. cbn [map concat].
  change (writtenComment c ++ concat (map writtenComment cs))
    with ("" :: commentMetaLine c :: "" :: writtenBody c ++ concat (map writtenComment cs)).
  cbn [app parseComments]. change (isCommentMarker "") with false. cbv iota.
  rewrite commentMetaLine_isCommentMarker.
  rewrite <- !app_assoc. fold (writtenComments cs).
  rewrite (parseComment_written meta i c cs Hc). f_equal.
  rewrite parseComments_skip; [apply IH|].
  destruct Hc as (_ & _ & _ & _ & _ & _ & _ & _ & _ & Hp).
  exact (proj1 (writtenBody_noMarker c Hp)).
Qed.

End CommentsRoundTrip.

Section PatchScan.
Import Json Codec CodecSpec RoundTrip.

Lemma fencedLines_closed ls more :
  Forall (fun l => JS.trimEnd l <> "```") ls ->
  fencedLines (ls ++ "```" :: more) = ls.
Proof.
  induction 1 as [|l ls Hl Hls IH]; [reflexivity|].
  cbn [app fencedLines]. destruct (String.eqb_spec (JS.trimEnd l) "```"); [contradiction|].
  now rewrite IH.
Qed.

Lemma patchText_gitOk g :
  gitOk g -> optionally patchOk (patchText g)
             /\ patchText g = match g with Some g' => hunkPatch g' | None => None end.
Proof.
  destruct g as [g|]; [|now split]. intros (_ & _ & Hp & _). cbn [patchText].
  destruct (hunkPatch g) as [p|]; [|now split]. cbn [option_map optionally] in *.
  destruct Hp as (E & ?). rewrite E. now split.
Qed.

Lemma physical_patchLines g :
  gitOk g -> physical (patchLines g) = writtenPatch (patchText g).
Proof.
  intros Hg. destruct (patchText_gitOk g Hg) as [Hp _]. unfold patchLines.
  destruct (patchText g) as [p|]; [|reflexivity].
  destruct Hp as (_ & Hne & Hcr & _). cbn [truthy].
  destruct (String.eqb_spec p ""); [contradiction|]. cbn [negb].
  rewrite (splitText_noCR p Hcr). unfold writtenPatch.
  rewrite physical_app, physical_app, physical_splitLF. reflexivity.
Qed.

Lemma patchLines_noCR g :
  gitOk g -> Forall (fun s => JS.includesChar JS.CR s = false) (patchLines g).
Proof.
  intros Hg. destruct (patchText_gitOk g Hg) as [Hp _]. unfold patchLines.
  destruct (patchText g) as [p|]; [|constructor].
  destruct Hp as (_ & Hne & Hcr & _). cbn [truthy].
  destruct (String.eqb_spec p ""); [contradiction|]. cbn [negb].
  rewrite (splitText_noCR p Hcr).
  apply List.Forall_app. split; [now repeat constructor|].
  apply List.Forall_app. split; [now apply includesChar_splitLF|now repeat constructor].
Qed.

Lemma writtenPatch_noCommentMarker o :
  optionally patchOk o -> Forall (fun l => isCommentMarker l = false) (writtenPatch o).
Proof.
  destruct o as [p|]; [|constructor]. intros (_ & _ & _ & H). unfold writtenPatch.
  apply List.Forall_app. split; [now repeat constructor|].
  apply List.Forall_app. split; [|now repeat constructor].
  eapply List.Forall_impl; [|exact H]. now intros l [? _].
Qed.

Lemma extractPatch_written pre o more :
  Forall (fun l => isPatchMarker l = false) pre ->
  optionally patchOk o ->
  Forall (fun l => isPatchMarker l = false) more ->
  extractPatch (pre ++ writtenPatch o ++ more) = o.
Proof.
  intros Hpre Ho Hmore. unfold extractPatch. rewrite (afterPatchMarker_skip _ _ Hpre).
  destruct o as [p|]; cbn [writtenPatch app].
  - destruct Ho as (Ht & Hne & _ & Hl).
    change (afterPatchMarker ("" :: "## Patch" :: ?m :: ?r)) with (Some r).
    cbv iota. change (afterPatchFence ("" :: "```diff" :: ?r)) with (Some r).
    cbv iota zeta. rewrite <- app_assoc. cbn [app].
    rewrite fencedLines_closed.
    + rewrite join_splitLF, Ht. destruct (String.eqb_spec p ""); congruence.
    + eapply List.Forall_impl; [|exact Hl]. now intros l [_ ?].
  - now rewrite (afterPatchMarker_none _ Hmore).
Qed.

End PatchScan.

Section JsonBlock.
Import Json JsonSpec JsonText.

Lemma parse_stringify v : wellFormed v -> parse (stringify v) = Returned v.
Proof.
  intros Hw. unfold parse.
  pose proof (size_le_length v Hw 0) as Hs. fold (stringify v) in Hs.
  pose proof (parseValue_stringify v Hw 0 "" (2 * String.length (stringify v) + 2)
                I ltac:(lia)) as E.
  fold (stringify v) in E. rewrite sapp_nil_r in E. rewrite E. reflexivity.
Qed.

Lemma valueStart_not_blank c : isValueStart c = true -> JS.isWhiteSpace c = false.
Proof.
  destruct c as [[] [] [] [] [] [] [] []]; intros H; try reflexivity; discriminate H.
Qed.

Lemma digit_not_blank c : JS.isDigit c = true -> JS.isWhiteSpace c = false.
Proof.
  destruct c as [[] [] [] [] [] [] [] []]; intros H; try reflexivity; discriminate H.
Qed.

Lemma last_split c s :
  exists r d, String c s = r +:+ String d "" /\ JS.includesChar d (String c s) = true.
Proof.
  revert c. induction s as [|e s IH]; intros c.
  - exists "", c. split; [reflexivity|]. cbn [JS.includesChar].
    now rewrite Ascii.eqb_refl.
  - destruct (IH e) as (r & d & E & Hd). exists (String c r), d. split.
    + cbn [String.append]. now rewrite <- E.
    + cbn [JS.includesChar] in *. rewrite Hd. apply orb_true_r.
Qed.

Lemma numberToString_end n :
  exists r c, numberToString n = r +:+ String c "" /\ JS.isWhiteSpace c = false.
Proof.
  destruct (numberToString_start n) as (c0 & r0 & E & _).
  destruct (last_split c0 r0) as (r & d & E' & Hd). rewrite <- E in *.
  exists r, d. split; [exact E'|].
  destruct (JS.isWhiteSpace d) eqn:Hw; [|reflexivity]. exfalso.
  assert (Hnd : JS.isDigit d = false).
  { destruct (JS.isDigit d) eqn:Hdig; [|reflexivity].
    apply digit_not_blank in Hdig. congruence. }
  unfold numberToString in Hd. destruct (Z.ltb_spec n 0).
  - destruct (digitsOf_spec (- n)%Z ltac:(lia)) as (Ha & _).
    cbn [String.append JS.includesChar] in Hd.
    rewrite (allDigits_excludes d _ Hnd Ha), orb_false_r in Hd.
    apply Ascii.eqb_eq in Hd. subst d. discriminate Hw.
  - destruct (digitsOf_spec n ltac:(lia)) as (Ha & _).
    rewrite (allDigits_excludes d _ Hnd Ha) in Hd. discriminate.
Qed.

Lemma elementsTail_end depth xs :
  exists r, elementsTail depth xs "" = r +:+ "]".
Proof.
  induction xs as [|x xs [r IH]]; cbn [elementsTail].
  - exists (NL +:+ outer depth). now rewrite ?sapp_assoc.
  - rewrite IH. eexists. rewrite <- !sapp_assoc. reflexivity.
Qed.

Lemma membersTail_end depth ms :
  exists r, membersTail depth ms "" = r +:+ "}".
Proof.
  induction ms as [|m ms [r IH]]; cbn [membersTail].
  - exists (NL +:+ outer depth). now rewrite ?sapp_assoc.
  - rewrite IH. eexists. rewrite <- !sapp_assoc. reflexivity.
Qed.

Lemma stringifyAt_end depth v :
  wellFormed v ->
  exists r c, stringifyAt depth v = r +:+ String c "" /\ JS.isWhiteSpace c = false.
Proof.
  destruct v as [|[]|n|numeral|s|[|x xs]|[|m ms]]; intros Hw.
  - now exists "nul", "l"%char.
  - now exists "tru", "e"%char.
  - now exists "fals", "e"%char.
  - apply numberToString_end.
  - destruct Hw.
  - exists (String QUOTE (escapeString s)), QUOTE. now split.
  - now exists "[", "]"%char.
  - rewrite <- (sapp_nil_r (stringifyAt depth (JArray (x :: xs)))), stringifyAt_array.
    destruct (elementsTail_end depth xs) as [r ->].
    eexists _, "]"%char. split; [|reflexivity]. rewrite <- !sapp_assoc. reflexivity.
  - now exists "{", "}"%char.
  - rewrite <- (sapp_nil_r (stringifyAt depth (JObject (m :: ms)))), stringifyAt_object.
    destruct (membersTail_end depth ms) as [r ->].
    eexists _, "}"%char. split; [|reflexivity]. rewrite <- !sapp_assoc. reflexivity.
Qed.

Lemma trim_stringify v : wellFormed v -> JS.trim (stringify v) = stringify v.
Proof.
  intros Hw. unfold stringify, JS.trim.
  destruct (stringifyAt_start 0 v Hw) as (c & r & E & Hc).
  destruct (stringifyAt_end 0 v Hw) as (r' & c' & E' & Hc').
  rewrite E. cbn [JS.trimStart]. rewrite (valueStart_not_blank c Hc).
  rewrite <- E, E'. now apply trimEnd_nonblank_end.
Qed.

Lemma jsonLine_not_close l : jsonLine l -> ~ CodecSpec.isClose l.
Proof.
  intros (_ & n & c & r & -> & Hc) E. unfold CodecSpec.isClose, JS.trim in E.
  assert (Hs : JS.trimStart (spaces n +:+ String c r) = String c r).
  { assert (Hw : JS.isWhiteSpace c = false)
      by (destruct c as [[] [] [] [] [] [] [] []]; try reflexivity; discriminate Hc).
    clear E. induction n as [|n IH]; [cbn; now rewrite Hw|exact IH]. }
  rewrite Hs in E. cbn [JS.trimEnd] in E.
  destruct (JS.allWhiteSpace (String c r)); [discriminate|].
  injection E as E _. subst c. discriminate Hc.
Qed.

End JsonBlock.

Section MetadataRoundTrip.
Import Json JsonSpec Codec CodecSpec RoundTrip.

Lemma allStrings_map l : allStrings (map JString l) = Some l.
Proof. induction l as [|s l IH]; [reflexivity|]. cbn [map allStrings]. now rewrite IH. Qed.

Lemma wellFormed_strings l : wellFormed (JArray (map JString l)).
Proof.
  apply wellFormed_array. induction l as [|s l IH]; constructor; [exact I|exact IH].
Qed.

Ltac distinct_keys :=
  repeat (apply List.NoDup_cons; [cbn [In]; intuition discriminate|]);
  apply List.NoDup_nil.

Lemma wellFormed_rangeJson r : wellFormed (rangeJson r).
Proof.
  destruct r as [r|]; [|exact I]. apply wellFormed_object. split.
  - cbn [map fst]. distinct_keys.
  - repeat constructor.
Qed.

Lemma wellFormed_contextJson c : wellFormed (contextJson c).
Proof.
  apply wellFormed_object. split.
  - cbn [map fst]. distinct_keys.
  - repeat constructor; apply wellFormed_strings.
Qed.

Lemma wellFormed_optional k o :
  match o with Some v => wellFormed v | None => True end ->
  Forall (fun m => wellFormed (snd m)) (optionalMember k o).
Proof. destruct o; intros H; repeat constructor. exact H. Qed.

Lemma wellFormed_metaGit a :
  match metaGit a with Some v => wellFormed v | None => True end.
Proof.
  unfold metaGit. destruct (git a) as [g|]; [|exact I].
  destruct (truthy (baseRef g) || truthy (hunkHeader g)); [|exact I].
  apply wellFormed_object. split.
  - destruct (baseRef g), (hunkHeader g); cbn [option_map optionalMember app map fst];
      distinct_keys.
  - apply List.Forall_app. split; apply wellFormed_optional.
    + now destruct (baseRef g).
    + now destruct (hunkHeader g).
Qed.

Lemma wellFormed_anchorJson a : wellFormed (anchorJson a).
Proof.
  unfold anchorJson. apply wellFormed_object. split.
  - destruct (context a), (metaGit a); cbn [option_map optionalMember app map fst];
      distinct_keys.
  - apply List.Forall_app. split; [now repeat constructor|].
    apply List.Forall_app. split; apply wellFormed_optional.
    + destruct (context a); [apply wellFormed_contextJson|exact I].
    + apply wellFormed_metaGit.
Qed.

Lemma wellFormed_metaJson thread : wellFormed (metaJson thread).
Proof.
  unfold metaJson. apply wellFormed_object. split; [cbn [map fst]; distinct_keys|].
  do 2 (constructor; [exact I|]). constructor; [|now repeat constructor].
  cbn [snd]. apply wellFormed_object. split; [cbn [map fst]; distinct_keys|].
  constructor; [exact I|]. constructor; [apply wellFormed_rangeJson|].
  constructor; [apply wellFormed_anchorJson|constructor].
Qed.

Lemma parsePersistedRange_rangeJson r :
  rangeOk r -> parsePersistedRange (Some (rangeJson r)) = r.
Proof.
  destruct r as [[sl sc el ec]|]; [|reflexivity]. cbn [rangeOk startLine startCharacter endLine endCharacter].
  intros (H1 & H2 & H3 & H4).
  unfold parsePersistedRange, rangeJson.
  cbn [isRecord negb prop lookup String.eqb Ascii.eqb Bool.eqb parseNonNegativeInteger
       startLine startCharacter endLine endCharacter].
  destruct (Z.ltb_spec sl 0); [lia|]. destruct (Z.ltb_spec sc 0); [lia|].
  destruct (Z.ltb_spec el 0); [lia|]. destruct (Z.ltb_spec ec 0); [lia|].
  reflexivity.
Qed.

Lemma parsePersistedAnchorContext_contextJson c :
  parsePersistedAnchorContext (Some (contextJson c)) = Some c.
Proof.
  unfold parsePersistedAnchorContext, contextJson.
  cbn [isRecord negb prop lookup String.eqb Ascii.eqb Bool.eqb parseStringArray parseString].
  rewrite !allStrings_map. now destruct c.
Qed.

End MetadataRoundTrip.

Section MetadataDecode.
Import Json JsonSpec Codec CodecSpec RoundTrip.

Lemma parseAnchor_anchorJson a :
  parseAnchor (Some (anchorJson a))
  = {| context := context a; git := metaGitOf (git a) |}.
Proof.
  unfold parseAnchor, anchorJson, metaGit, metaGitOf.
  destruct (context a) as [c|], (git a) as [[[b|] [h|] p]|];
    cbn [baseRef hunkHeader hunkPatch truthy orb negb];
    try destruct (String.eqb b "") eqn:Eb; try destruct (String.eqb h "") eqn:Eh;
    cbn [option_map optionalMember app isRecord andb prop lookup String.eqb Ascii.eqb
         Bool.eqb negb orb parseString baseRef hunkHeader hunkPatch truthy];
    rewrite ?parsePersistedAnchorContext_contextJson, ?Eb, ?Eh;
    reflexivity.
Qed.

Lemma parseNonEmptyString_text s :
  JS.trim s <> "" -> parseNonEmptyString (Some (JString s)) = Some s.
Proof.
  intros H. unfold parseNonEmptyString. cbn [parseString].
  destruct (String.eqb_spec (JS.trim s) ""); congruence.
Qed.

Lemma parsePersistedThreadStatus_statusText s legacy :
  parsePersistedThreadStatus (Some (JString (statusText s))) legacy = s.
Proof. now destruct s. Qed.

Lemma parsePersistedThreadMeta_metaJson now thread :
  JS.trim (t_id thread) <> "" ->
  JS.trim (workspaceRelativePath (target thread)) <> "" ->
  rangeOk (range (target thread)) ->
  parsePersistedThreadMeta now (Some (metaJson thread)) = Some (metaOf thread).
Proof.
  intros Hid Hpath Hrange. unfold parsePersistedThreadMeta, metaJson.
  cbn [isRecord negb orb prop lookup String.eqb Ascii.eqb Bool.eqb].
  change (Z.eqb SCHEMA_VERSION SCHEMA_VERSION) with true. cbn [negb].
  rewrite (parseNonEmptyString_text _ Hid), (parseNonEmptyString_text _ Hpath).
  rewrite (parsePersistedRange_rangeJson _ Hrange), parseAnchor_anchorJson.
  rewrite parsePersistedThreadStatus_statusText. reflexivity.
Qed.


Lemma threadLines_sections thread :
  threadLines thread
  = [OPEN_MARKER; stringify (metaJson thread); CLOSE_MARKER]
    ++ pushedHead thread
    ++ patchLines (git (anchor (target thread)))
    ++ [""; "## Comments"] ++ concat (map commentLines (comments thread)).
Proof.
  unfold threadLines, pushedHead, headingLine. cbv zeta.
  cbn [app]. rewrite <- !app_assoc. reflexivity.
Qed.

Ltac fixed_plain := split; [reflexivity|repeat constructor].

Lemma formatRangeLabel_singleLine r : singleLine (formatRangeLabel r).
Proof.
  assert (Hn : forall n, singleLine (numberToString n))
    by (intros n; apply numberToString_no_line_end).
  destruct r as [r|]; [|split; reflexivity]. unfold formatRangeLabel. cbv zeta.
  destruct (Z.eqb _ _);
    repeat (apply singleLine_app; [first [apply Hn|split; reflexivity]|]); apply Hn.
Qed.

Lemma headingLine_plain thread :
  singleLine (workspaceRelativePath (target thread)) -> plainText (headingLine thread).
Proof.
  intros Hp. unfold headingLine.
  change ("# " +:+ ?x) with (String "#" (" " +:+ x)).
  apply plainText_head; [reflexivity|reflexivity|].
  change (String "#" (" " +:+ ?x)) with ("# " +:+ x).
  apply singleLine_app; [split; reflexivity|].
  apply singleLine_app; [exact Hp|].
  apply singleLine_app; [split; reflexivity|].
  apply singleLine_app; [apply formatRangeLabel_singleLine|].
  apply singleLine_app; [split; reflexivity|].
  destruct (status thread); split; reflexivity.
Qed.

Lemma contextLines_plain c : contextOk (Some c) -> Forall plainText (contextLines c).
Proof.
  intros (Hb & Hs & Ha). unfold contextLines.
  rewrite (splitText_noCR _ (proj1 Hs)).
  repeat (apply List.Forall_app; split);
    try assumption; try (now apply plainText_lines);
    repeat (constructor; [fixed_plain|]); constructor.
Qed.

Lemma gitLines_plain g : gitOk g -> Forall plainText (gitLines g).
Proof.
  destruct g as [g|]; [|constructor]. intros (Hb & Hh & _ & _). unfold gitLines.
  destruct (truthy (baseRef g) || truthy (hunkHeader g)); [|constructor].
  apply List.Forall_app. split; [repeat (constructor; [fixed_plain|]); constructor|].
  apply List.Forall_app. split.
  - destruct (baseRef g) as [b|]; [|constructor].
    destruct (String.eqb b ""); [constructor|]. constructor; [|constructor].
    change ("- baseRef: " +:+ b) with (String "-" (" baseRef: " +:+ b)).
    apply plainText_head; [reflexivity|reflexivity|].
    change (String "-" (" baseRef: " +:+ b)) with ("- baseRef: " +:+ b).
    apply singleLine_app; [split; reflexivity|exact Hb].
  - destruct (hunkHeader g) as [h|]; [|constructor].
    destruct (String.eqb h ""); [constructor|]. constructor; [|constructor].
    change ("- hunkHeader: " +:+ h) with (String "-" (" hunkHeader: " +:+ h)).
    apply plainText_head; [reflexivity|reflexivity|].
    change (String "-" (" hunkHeader: " +:+ h)) with ("- hunkHeader: " +:+ h).
    apply singleLine_app; [split; reflexivity|exact Hh].
Qed.

Lemma pushedHead_plain thread : canonical thread -> Forall plainText (pushedHead thread).
Proof.
  intros (_ & _ & Hp & _ & Hc & Hg & _). unfold pushedHead.
  apply List.Forall_app. split.
  - constructor; [fixed_plain|]. constructor; [now apply headingLine_plain|constructor].
  - apply List.Forall_app. split; [|now apply gitLines_plain].
    destruct (context (anchor (target thread))) as [c|]; [|constructor].
    now apply contextLines_plain.
Qed.

End MetadataDecode.

Section ThreadRoundTrip.
Import Json JsonSpec JsonText Codec CodecSpec RoundTrip.

Lemma stringify_noCR v : wellFormed v -> JS.includesChar JS.CR (stringify v) = false.
Proof.
  intros Hw. apply includesChar_of_lines; [reflexivity|].
  eapply List.Forall_impl; [|exact (jsonLines_stringify v Hw 0)].
  now intros l [H _].
Qed.

Lemma threadLines_noCR thread :
  canonical thread ->
  Forall (fun s => JS.includesChar JS.CR s = false) (threadLines thread).
Proof.
  intros Hc. rewrite threadLines_sections.
  pose proof Hc as (H1 & H2 & H3 & H4 & H5 & H6 & H7).
  apply List.Forall_app. split.
  - constructor; [reflexivity|]. constructor; [|now repeat constructor].
    apply stringify_noCR, wellFormed_metaJson.
  - apply List.Forall_app. split.
    + apply plainText_noCR, pushedHead_plain, Hc.
    + apply List.Forall_app. split; [now apply patchLines_noCR|].
      apply List.Forall_app. split; [now repeat constructor|now apply comments_noCR].
Qed.

Lemma splitText_thread thread :
  canonical thread ->
  splitText (serializeThreadMarkdown thread)
  = [] ++ OPEN_MARKER :: JS.splitLF (stringify (metaJson thread))
    ++ CLOSE_MARKER :: writtenRest thread.
Proof.
  intros Hc. pose proof (threadLines_noCR thread Hc) as Hcr.
  unfold serializeThreadMarkdown. rewrite threadLines_sections in *. cbn [app] in *.
  rewrite (splitText_serialize _ _ Hcr).
  rewrite physical_singleLine by reflexivity. rewrite physical_cons.
  rewrite physical_singleLine by reflexivity.
  rewrite !physical_app. unfold writtenRest.
  destruct Hc as (H1 & H2 & H3 & H4 & H5 & H6 & H7).
  rewrite (physical_patchLines _ H6), <- (physical_comments _ H7).
  cbn [app]. rewrite <- !app_assoc. cbn [app]. rewrite <- !app_assoc. reflexivity.
Qed.

Lemma metadataBlock_thread thread :
  canonical thread ->
  metadataBlock (serializeThreadMarkdown thread)
    (JS.splitLF (stringify (metaJson thread))) (writtenRest thread).
Proof.
  intros Hc. exists [], OPEN_MARKER, CLOSE_MARKER.
  split; [now apply splitText_thread|]. split; [constructor|].
  split; [reflexivity|]. split; [|reflexivity].
  eapply List.Forall_impl; [|exact (jsonLines_stringify _ (wellFormed_metaJson thread) 0)].
  intros l. apply jsonLine_not_close.
Qed.

Lemma extractPatch_thread thread :
  canonical thread ->
  extractPatch (writtenRest thread) = patchText (git (anchor (target thread))).
Proof.
  intros Hc. unfold writtenRest. apply extractPatch_written.
  - eapply List.Forall_impl; [|apply plainText_physical, pushedHead_plain, Hc].
    now intros l [? _].
  - apply patchText_gitOk, Hc.
  - apply List.Forall_app. split; [now repeat constructor|].
    apply writtenComments_noPatchMarker, Hc.
Qed.

Lemma parseComments_thread meta thread :
  canonical thread ->
  parseComments meta 0 (writtenRest thread) = comments thread.
Proof.
  intros Hc. unfold writtenRest.
  rewrite parseComments_skip.
  2:{ eapply List.Forall_impl; [|apply plainText_physical, pushedHead_plain, Hc].
      now intros l [_ ?]. }
  rewrite parseComments_skip by (apply writtenPatch_noCommentMarker, patchText_gitOk, Hc).
  rewrite parseComments_skip by now repeat constructor.
  apply parseComments_written, Hc.
Qed.

(** The thread the parser rebuilds from the metadata and the patch. *)
Lemma withPatch_thread thread :
  gitOk (git (anchor (target thread))) ->
  withComments
    match patchText (git (anchor (target thread))) with
    | Some p => withPatch (metaOf thread) p
    | None => metaOf thread
    end (comments thread) = thread.
Proof.
  intros Hg. destruct (patchText_gitOk _ Hg) as [_ ->].
  destruct thread as [id_ [path rng [ctx [[b h p]|]]] st cs ca ua]; [|reflexivity].
  cbn [target anchor git gitOk baseRef hunkHeader hunkPatch] in *.
  destruct Hg as (_ & _ & _ & [Ht|(-> & -> & Hp)]).
  - destruct p as [p|]; unfold withPatch, metaOf, withComments, metaGitOf;
      cbn [target anchor git context baseRef hunkHeader hunkPatch m_target m_id m_status
           m_createdAt m_updatedAt t_id status createdAt updatedAt comments
           workspaceRelativePath range];
      rewrite Ht; reflexivity.
  - destruct p as [p|]; [reflexivity|congruence].
Qed.

Lemma parse_serialize now thread :
  canonical thread ->
  parseThreadMarkdown now (serializeThreadMarkdown thread) = Returned (Some thread).
Proof.
  intros Hc. rewrite (parse_of_block now _ _ _ (metadataBlock_thread thread Hc)).
  unfold metadataText. rewrite join_splitLF.
  rewrite (trim_stringify _ (wellFormed_metaJson thread)).
  rewrite (parse_stringify _ (wellFormed_metaJson thread)).
  pose proof Hc as (H1 & H2 & H3 & H4 & H5 & H6 & H7).
  rewrite (parsePersistedThreadMeta_metaJson now thread H1 H2 H4).
  cbv zeta. rewrite (extractPatch_thread thread Hc), (parseComments_thread _ thread Hc).
  now rewrite (withPatch_thread thread H6).
Qed.

End ThreadRoundTrip.

Section Trimmed.
Import Json JsonSpec JsonText Codec CodecSpec RoundTrip.

Lemma allWhiteSpace_trimEnd s : JS.allWhiteSpace (JS.trimEnd s) = JS.allWhiteSpace s.
Proof.
  induction s as [|c s IH]; [reflexivity|]. cbn [JS.trimEnd].
  destruct (JS.allWhiteSpace (String c s)) eqn:E; [reflexivity|].
  cbn [JS.allWhiteSpace] in *. now rewrite IH.
Qed.

Lemma trimEnd_idempotent s : JS.trimEnd (JS.trimEnd s) = JS.trimEnd s.
Proof.
  induction s as [|c s IH]; [reflexivity|]. cbn [JS.trimEnd].
  destruct (JS.allWhiteSpace (String c s)) eqn:E; [reflexivity|].
  cbn [JS.trimEnd]. cbn [JS.allWhiteSpace] in *.
  now rewrite allWhiteSpace_trimEnd, E, IH.
Qed.

Lemma commentLines_trimBody c : commentLines (trimBody c) = commentLines c.
Proof.
  unfold commentLines, trimBody, commentMetaLine. cbn [c_id c_author c_bodyMarkdown c_createdAt].
  now rewrite trimEnd_idempotent.
Qed.

Lemma patchText_trimPatch g : patchText (option_map trimPatch g) = patchText g.
Proof.
  destruct g as [[b h [p|]]|]; try reflexivity.
  cbn [option_map trimPatch patchText hunkPatch]. now rewrite trimEnd_idempotent.
Qed.

Lemma metaJson_trimmed thread : metaJson (trimmed thread) = metaJson thread.
Proof.
  unfold metaJson, trimmed, anchorJson, metaGit.
  cbn [t_id target status createdAt updatedAt workspaceRelativePath range anchor context git].
  now destruct (git (anchor (target thread))).
Qed.

Lemma serialize_trimmed thread :
  serializeThreadMarkdown (trimmed thread) = serializeThreadMarkdown thread.
Proof.
  unfold serializeThreadMarkdown, threadLines. cbv zeta.
  rewrite metaJson_trimmed. unfold patchLines.
  unfold trimmed.
  cbn [t_id target status createdAt updatedAt workspaceRelativePath range anchor context
       git comments].
  rewrite !patchText_trimPatch, map_map.
  rewrite (map_ext _ _ commentLines_trimBody).
  now destruct (git (anchor (target thread))).
Qed.

Lemma metaHunkPatch_none thread : metaHunkPatch thread = None.
Proof.
  unfold metaHunkPatch, metaJson, anchorJson, metaGit.
  cbn [prop lookup String.eqb Ascii.eqb Bool.eqb].
  destruct (context (anchor (target thread))), (git (anchor (target thread))) as [[[b|] [h|] hp]|];
    cbn [baseRef hunkHeader hunkPatch truthy orb negb];
    try destruct (String.eqb b ""); try destruct (String.eqb h ""); reflexivity.
Qed.

Lemma trimPatch_gitOk g : gitOk g -> option_map trimPatch g = g.
Proof.
  destruct g as [[b h [p|]]|]; try reflexivity.
  cbn [gitOk hunkPatch optionally]. intros (_ & _ & (E & _) & _).
  unfold trimPatch. cbn [option_map baseRef hunkHeader hunkPatch]. now rewrite E.
Qed.

Lemma trimBody_commentOk cs : Forall commentOk cs -> map trimBody cs = cs.
Proof.
  induction 1 as [|c cs Hc Hcs IH]; [reflexivity|]. cbn [map]. rewrite IH. f_equal.
  destruct Hc as (_ & _ & _ & _ & _ & _ & _ & _ & E & _).
  destruct c as [i a b d]. unfold trimBody.
  cbn [c_id c_author c_bodyMarkdown c_createdAt] in *. now rewrite E.
Qed.

Lemma trimmed_canonical thread : canonical thread -> trimmed thread = thread.
Proof.
  intros (_ & _ & _ & _ & _ & Hg & Hc). unfold trimmed.
  rewrite (trimPatch_gitOk _ Hg), (trimBody_commentOk _ Hc).
  now destruct thread as [id_ [path rng [ctx g]] st cs ca ua].
Qed.

End Trimmed.

(** ** The round trip of a thread file *)

Ltac canonical_by_computation :=
  apply (@bool_decide_unpack _ (RoundTrip.canonical_dec _)); vm_compute; exact I.

(** C1, amended.  For every thread that is canonical once the trailing
    white space of its comment bodies and of its patch is removed,
    [parseThreadMarkdown (serializeThreadMarkdown thread)] returns that
    trimmed thread; the metadata block has no [hunkPatch] member, and the
    patch is read back from the patch section into
    [target.anchor.git.hunkPatch].  A canonical thread is reproduced
    exactly. *)
Theorem thread_round_trip (now : string) (thread : PersistedThread) :
  RoundTrip.canonical (RoundTrip.trimmed thread) ->
  Codec.parseThreadMarkdown now (Codec.serializeThreadMarkdown thread)
  = Json.Returned (Some (RoundTrip.trimmed thread))
  /\ RoundTrip.metaHunkPatch thread = None
  /\ (RoundTrip.canonical thread ->
      Codec.parseThreadMarkdown now (Codec.serializeThreadMarkdown thread)
      = Json.Returned (Some thread)).
Proof.
  intros Hc. split; [|split].
  - rewrite <- serialize_trimmed. now apply parse_serialize.
  - apply metaHunkPatch_none.
  - intros Hc'. now apply parse_serialize.
Qed.

Lemma thread_round_trip_witness :
  Codec.parseThreadMarkdown "2000-01-03T00:00:00.000Z"
    (Codec.serializeThreadMarkdown patched_thread)
  = Json.Returned (Some patched_thread).
Proof.
  refine (proj1 (thread_round_trip "2000-01-03T00:00:00.000Z" patched_thread _)).
  canonical_by_computation.
Defined.

(** C1 as stated fails: the line break that ends the comment of
    [trailing_thread] is not written, so the file reads back as the thread
    of scenario A. *)
Lemma trailing_line_break_is_lost :
  Codec.parseThreadMarkdown "2000-01-03T00:00:00.000Z"
    (Codec.serializeThreadMarkdown trailing_thread)
  = Json.Returned (Some scenarioA_thread)
  /\ scenarioA_thread <> trailing_thread.
Proof. split; [vm_compute; reflexivity|]. vm_compute. discriminate. Qed.

(** C7, amended.  For every thread that is canonical once the trailing
    white space of its comment bodies and of its patch is removed, the
    serialized file parses to a thread, and serializing that thread gives
    the same file again. *)
Theorem serialize_idempotent (now : string) (thread : PersistedThread) :
  RoundTrip.canonical (RoundTrip.trimmed thread) ->
  exists parsed,
    Codec.parseThreadMarkdown now (Codec.serializeThreadMarkdown thread)
    = Json.Returned (Some parsed)
    /\ Codec.serializeThreadMarkdown parsed = Codec.serializeThreadMarkdown thread.
Proof.
  intros Hc. exists (RoundTrip.trimmed thread). split.
  - rewrite <- serialize_trimmed. now apply parse_serialize.
  - apply serialize_trimmed.
Qed.

Lemma serialize_idempotent_witness :
  exists parsed,
    Codec.parseThreadMarkdown "2000-01-03T00:00:00.000Z"
      (Codec.serializeThreadMarkdown trailing_thread)
    = Json.Returned (Some parsed)
    /\ Codec.serializeThreadMarkdown parsed = Codec.serializeThreadMarkdown trailing_thread.
Proof.
  apply (serialize_idempotent "2000-01-03T00:00:00.000Z" trailing_thread).
  canonical_by_computation.
Defined.

(** C7 as stated fails: the comment of [anonymous_thread] is written with
    an empty author and read back with the author [unknown], which the
    second serialization writes out. *)
Lemma anonymous_author_is_rewritten :
  exists parsed,
    Codec.parseThreadMarkdown "2000-01-03T00:00:00.000Z"
      (Codec.serializeThreadMarkdown anonymous_thread)
    = Json.Returned (Some parsed)
    /\ Codec.serializeThreadMarkdown parsed
       <> Codec.serializeThreadMarkdown anonymous_thread.
Proof.
  eexists. split; [vm_compute; reflexivity|]. vm_compute. discriminate.
Qed.

(** ** The store *)

Section Sorting.
Context {A : Type} (le : A -> A -> bool).

Lemma insertBy_Permutation x l : Permutation (x :: l) (insertBy le x l).
Proof.
  induction l as [|y l IH]; [reflexivity|]. cbn [insertBy].
  destruct (le x y); [reflexivity|].
  rewrite perm_swap. now constructor.
Qed.

Lemma sortBy_Permutation l : Permutation l (sortBy le l).
Proof.
  induction l as [|x l IH]; [reflexivity|]. cbn [sortBy fold_right].
  rewrite <- insertBy_Permutation. now constructor.
Qed.

Lemma sortBy_In x l : In x (sortBy le l) <-> In x l.
Proof.
  split; apply Permutation_in; [symmetry|]; apply sortBy_Permutation.
Qed.

Lemma sortBy_NoDup l : List.NoDup l -> List.NoDup (sortBy le l).
Proof. apply Permutation_NoDup, sortBy_Permutation. Qed.

Hypothesis le_total : forall a b, le a b = false -> le b a = true.

Lemma insertBy_HdRel x a l :
  le a x = true -> HdRel (fun u v => le u v = true) a l ->
  HdRel (fun u v => le u v = true) a (insertBy le x l).
Proof.
  intros Hax Hl. destruct l as [|y l]; cbn [insertBy]; [now constructor|].
  destruct (le x y); constructor; [assumption|]. now inversion Hl.
Qed.

Lemma insertBy_Sorted x l :
  Sorted (fun u v => le u v = true) l ->
  Sorted (fun u v => le u v = true) (insertBy le x l).
Proof.
  induction 1 as [|y l Hl IH Hy]; cbn [insertBy]; [now repeat constructor|].
  destruct (le x y) eqn:E.
  - constructor; [now constructor|]. now constructor.
  - constructor; [exact IH|]. apply insertBy_HdRel; [now apply le_total|exact Hy].
Qed.

Lemma sortBy_Sorted l : Sorted (fun u v => le u v = true) (sortBy le l).
Proof.
  induction l as [|x l IH]; [constructor|]. cbn [sortBy fold_right].
  now apply insertBy_Sorted.
Qed.

End Sorting.

Section Names.

Lemma endsWith_app s p : JS.endsWith (s +:+ p) p = true.
Proof.
  induction s as [|c s IH]; cbn [String.append].
  - destruct p; cbn [JS.endsWith]; now rewrite String.eqb_refl.
  - cbn [JS.endsWith]. rewrite IH. apply orb_true_r.
Qed.

Lemma substring_prefix s p : String.substring 0 (String.length s) (s +:+ p) = s.
Proof.
  induction s as [|c s IH]; cbn [String.length String.append].
  - now destruct p.
  - cbn [String.substring]. now rewrite IH.
Qed.

Lemma sliceEnd_app s p : Store.sliceEnd (String.length p) (s +:+ p) = s.
Proof.
  unfold Store.sliceEnd. rewrite sapp_length.
  replace (String.length s + String.length p - String.length p) with (String.length s)
    by lia.
  apply substring_prefix.
Qed.

Lemma sapp_inj_prefix s a b : s +:+ a = s +:+ b -> a = b.
Proof.
  induction s as [|c s IH]; cbn [String.append]; [auto|].
  intros H. injection H as H. auto.
Qed.

Lemma threadFile_not_legacy a b : Store.threadFile a <> Store.legacyThreadFile b.
Proof.
  unfold Store.threadFile, Store.legacyThreadFile, Store.THREAD_MARKDOWN_EXTENSION.
  intros E.
  assert (H : JS.endsWith (a +:+ ".md") ".json" = true)
    by (rewrite E; apply endsWith_app).
  clear E. induction a as [|c a IH]; [discriminate H|].
  cbn [String.append JS.endsWith] in H. apply orb_true_iff in H as [H|H]; [|auto].
  apply String.eqb_eq in H.
  assert (L : String.length (String c (a +:+ ".md")) = 5) by now rewrite H.
  cbn [String.length] in L. rewrite sapp_length in L. cbn [String.length] in L.
  assert (La : String.length a = 1) by lia.
  destruct a as [|d [|e a]]; try discriminate La. discriminate H.
Qed.

Lemma stemOf_threadFile threadId content :
  Store.stemOf (Store.threadFile threadId, Store.File content) = Some threadId.
Proof.
  unfold Store.stemOf, Store.threadFile. cbn [fst snd Store.isFile].
  rewrite endsWith_app. f_equal.
  exact (sliceEnd_app threadId Store.THREAD_MARKDOWN_EXTENSION).
Qed.

End Names.

Section JoinPath.
Import Store PathResolver.

Lemma splitChar_none sep s : JS.includesChar sep s = false -> JS.splitChar sep s = [s].
Proof.
  induction s as [|c r IH]; [reflexivity|].
  cbn [JS.includesChar JS.splitChar]. intros H.
  apply orb_false_iff in H as [Hc Hr].
  rewrite Ascii.eqb_sym, Hc, (IH Hr). reflexivity.
Qed.

(** An extension without separator goes to the last segment. *)
Lemma splitChar_ext sep x ext :
  JS.includesChar sep ext = false ->
  exists init last,
    JS.splitChar sep x = init ++ [last]
    /\ JS.splitChar sep (x +:+ ext) = init ++ [last +:+ ext].
Proof.
  intros Hext. induction x as [|c r (init & last & E1 & E2)].
  - exists [], "". split; [reflexivity|]. now apply splitChar_none.
  - cbn [String.append JS.splitChar]. destruct (Ascii.eqb c sep).
    + exists ("" :: init), last. now rewrite E1, E2.
    + rewrite E1, E2. destruct init as [|i init].
      * now exists [], (String c last).
      * now exists (String c i :: init), last.
Qed.

Lemma pushSegment_name stack seg :
  seg <> "" -> seg <> "." -> seg <> ".." ->
  pushSegment true stack seg = seg :: stack.
Proof.
  intros H1 H2 H3. unfold pushSegment.
  destruct (String.eqb_spec seg ""); [contradiction|].
  destruct (String.eqb_spec seg "."); [contradiction|].
  destruct (String.eqb_spec seg ".."); [contradiction|reflexivity].
Qed.

Lemma long_name s ext :
  3 <= String.length ext -> s +:+ ext <> "" /\ s +:+ ext <> "." /\ s +:+ ext <> "..".
Proof.
  intros H. repeat split; intros E; apply (f_equal String.length) in E;
    rewrite sapp_length in E; cbn [String.length] in E; lia.
Qed.

(** A name without separator is the name of the entry. *)
Lemma entryName_plain s ext :
  JS.includesChar SLASH (s +:+ ext) = false ->
  JS.includesChar BACKSLASH (s +:+ ext) = false ->
  3 <= String.length ext ->
  entryName (s +:+ ext) = Some (s +:+ ext).
Proof.
  intros Hs Hb Hl. unfold entryName. rewrite Hb, (splitChar_none _ _ Hs).
  destruct (long_name s ext Hl) as (H1 & H2 & H3).
  cbn [fold_left]. rewrite (pushSegment_name _ _ H1 H2 H3). cbn [rev app].
  destruct (String.eqb_spec (s +:+ ext) ".."); [contradiction|reflexivity].
Qed.

(** The entry a name resolves to keeps the extension of the name. *)
Lemma entryName_ext x ext n :
  JS.includesChar SLASH ext = false -> 3 <= String.length ext ->
  entryName (x +:+ ext) = Some n -> exists stem, n = stem +:+ ext.
Proof.
  intros Hs Hl. unfold entryName.
  destruct (JS.includesChar BACKSLASH (x +:+ ext)); [discriminate|].
  destruct (splitChar_ext SLASH x ext Hs) as (init & last & _ & ->).
  rewrite fold_left_app. cbn [fold_left].
  destruct (long_name last ext Hl) as (H1 & H2 & H3).
  rewrite (pushSegment_name _ _ H1 H2 H3). cbn [rev].
  destruct (rev (fold_left (pushSegment true) init [])) as [|a l]; cbn [app].
  - destruct (String.eqb (last +:+ ext) ".."); [discriminate|].
    intros [= <-]. now exists last.
  - destruct l; discriminate.
Qed.

Lemma plainName_spec threadId :
  plainName threadId = true
  <-> JS.includesChar SLASH threadId = false /\ JS.includesChar BACKSLASH threadId = false.
Proof.
  unfold plainName. rewrite andb_true_iff, !negb_true_iff. reflexivity.
Qed.

(** The files of an id that is a file name as it stands. *)
Lemma entryName_threadFile threadId :
  plainName threadId = true ->
  entryName (threadFile threadId) = Some (threadFile threadId)
  /\ entryName (legacyThreadFile threadId) = Some (legacyThreadFile threadId).
Proof.
  intros H. apply plainName_spec in H as [Hs Hb].
  unfold threadFile, legacyThreadFile, THREAD_MARKDOWN_EXTENSION.
  split; apply entryName_plain; cbn [String.length]; try lia;
    rewrite includesChar_app; [rewrite Hs|rewrite Hb|rewrite Hs|rewrite Hb]; reflexivity.
Qed.

(** The two entries an id resolves to are different files. *)
Lemma entryName_apart a b md js :
  entryName (threadFile a) = Some md -> entryName (legacyThreadFile b) = Some js ->
  md <> js.
Proof.
  unfold threadFile, legacyThreadFile, THREAD_MARKDOWN_EXTENSION. intros Hm Hj.
  apply entryName_ext in Hm as [m ->]; [|reflexivity|cbn [String.length]; lia].
  apply entryName_ext in Hj as [j ->]; [|reflexivity|cbn [String.length]; lia].
  apply threadFile_not_legacy.
Qed.

End JoinPath.

Section Listing.
Import Store.

Lemma existsb_eqb_In x ids : existsb (String.eqb x) ids = true <-> In x ids.
Proof.
  rewrite existsb_exists. split.
  - intros (y & Hy & E). apply String.eqb_eq in E. now subst.
  - intros H. exists x. split; [exact H|apply String.eqb_refl].
Qed.

Lemma setAdd_In ids x y : In y (setAdd ids x) <-> In y ids \/ y = x.
Proof.
  unfold setAdd. destruct (existsb (String.eqb x) ids) eqn:E.
  - apply existsb_eqb_In in E. split; [auto|]. intros [H | ->]; assumption.
  - rewrite in_app_iff. cbn [In]. intuition.
Qed.

Lemma setAdd_NoDup ids x : List.NoDup ids -> List.NoDup (setAdd ids x).
Proof.
  intros H. unfold setAdd. destruct (existsb (String.eqb x) ids) eqn:E; [exact H|].
  apply List.NoDup_app; [exact H|repeat constructor; intros []|].
  intros y Hy [<- | []]. apply existsb_eqb_In in Hy. congruence.
Qed.

Lemma fold_addStem_NoDup es acc :
  List.NoDup acc -> List.NoDup (fold_left addStem es acc).
Proof.
  revert acc. induction es as [|e es IH]; intros acc H; [exact H|].
  cbn [fold_left]. apply IH. unfold addStem.
  destruct (stemOf e); [now apply setAdd_NoDup|exact H].
Qed.

Lemma fold_addStem_In es acc x :
  In x (fold_left addStem es acc)
  <-> In x acc \/ exists e, In e es /\ stemOf e = Some x.
Proof.
  revert acc. induction es as [|e es IH]; intros acc; cbn [fold_left].
  - split; [auto|]. intros [H|(e & [] & _)]. exact H.
  - rewrite IH. unfold addStem. split.
    + intros [H|(e' & He' & Hs)].
      * destruct (stemOf e) as [y|] eqn:Ey; [|auto].
        apply setAdd_In in H as [H | ->]; [auto|]. right. exists e. cbn [In]. auto.
      * right. exists e'. cbn [In]. auto.
    + intros [H|(e' & [<- | He'] & Hs)].
      * left. destruct (stemOf e); [apply setAdd_In|]; auto.
      * left. rewrite Hs. apply setAdd_In. auto.
      * right. eauto.
Qed.

(** No id is listed twice. *)
Lemma listThreadIds_NoDup s : List.NoDup (listThreadIds s).
Proof.
  unfold listThreadIds. destruct (threadsDir (theRoot s)); [|constructor].
  apply sortBy_NoDup, fold_addStem_NoDup. constructor.
Qed.

(** An id is listed when, and only when, the directory holds a file whose
    stem it is. *)
Lemma listThreadIds_In s x :
  In x (listThreadIds s)
  <-> exists d name node,
        threadsDir (theRoot s) = Some d /\ d !! name = Some node
        /\ stemOf (name, node) = Some x.
Proof.
  unfold listThreadIds. destruct (threadsDir (theRoot s)) as [d|].
  - rewrite sortBy_In, fold_addStem_In. split.
    + intros [[]|([name node] & He & Hs)].
      exists d, name, node. split; [reflexivity|]. split; [|exact Hs].
      apply elem_of_map_to_list. now apply list_elem_of_In.
    + intros (d' & name & node & [= <-] & Hl & Hs). right.
      exists (name, node). split; [|exact Hs].
      apply list_elem_of_In. now apply elem_of_map_to_list.
  - split; [intros []|]. intros (d & _ & _ & [=] & _).
Qed.

End Listing.

Section StoreSteps.
Import Json Store.
Variable localeCompare : string -> string -> Z.

Lemma readIndex_indexFile a b :
  indexFile (theRoot a) = indexFile (theRoot b) -> readIndex a = readIndex b.
Proof. unfold readIndex. now intros ->. Qed.

Lemma tryDeleteThreadFile_indexFile name s :
  indexFile (theRoot (tryDeleteThreadFile name s)) = indexFile (theRoot s).
Proof.
  unfold tryDeleteThreadFile. destruct (threadsDir (theRoot s)) as [d|]; [|reflexivity].
  destruct (d !! name) as [[c|[]]|]; reflexivity.
Qed.

(** What [tryDelete] leaves of a directory. *)
Lemma tryDeleteThreadFile_threads name s d :
  threadsDir (theRoot s) = Some d ->
  exists d',
    threadsDir (theRoot (tryDeleteThreadFile name s)) = Some d'
    /\ (forall content, d' !! name <> Some (File content))
    /\ (forall other, other <> name -> d' !! other = d !! other).
Proof.
  intros Hd. unfold tryDeleteThreadFile. rewrite Hd.
  destruct (d !! name) as [[c|[]]|] eqn:E.
  - exists (delete name d). split; [reflexivity|]. split.
    + intros content. now rewrite lookup_delete_eq.
    + intros other Ho. now apply lookup_delete_ne.
  - exists (delete name d). split; [reflexivity|]. split.
    + intros content. now rewrite lookup_delete_eq.
    + intros other Ho. now apply lookup_delete_ne.
  - exists d. split; [exact Hd|]. split; [|reflexivity].
    intros content. now rewrite E.
  - exists d. split; [exact Hd|]. split; [|reflexivity].
    intros content. now rewrite E.
Qed.

Lemma writeIndex_indexFile threads s :
  indexFile (theRoot (writeIndex threads s)) = Some (indexText threads).
Proof. reflexivity. Qed.

Lemma writeIndex_threadsDir threads s :
  threadsDir (theRoot (writeIndex threads s)) = threadsDir (theRoot s).
Proof. reflexivity. Qed.

Lemma withThreads_threadsDir d s : threadsDir (theRoot (withThreads d s)) = d.
Proof. reflexivity. Qed.

Lemma withThreads_indexFile d s :
  indexFile (theRoot (withThreads d s)) = indexFile (theRoot s).
Proof. reflexivity. Qed.

Lemma writeThreadFile_Fulfilled name text s s' :
  writeThreadFile name text s = Fulfilled s' ->
  s' = withThreads (Some (<[name := File text]> (default ∅ (threadsDir (theRoot s))))) s.
Proof.
  unfold writeThreadFile.
  destruct (default ∅ (threadsDir (theRoot s)) !! name) as [[c|e]|];
    intros [= <-] || discriminate; reflexivity.
Qed.

(** The task of [writeThread] after its initialization, when it is
    fulfilled. *)
Lemma storeThread_Fulfilled thread s0 s' :
  storeThread localeCompare thread s0 = Fulfilled s' ->
  exists md js index,
    entryName (threadFile (t_id thread)) = Some md
    /\ entryName (legacyThreadFile (t_id thread)) = Some js
    /\ readIndex s0 = Returned index
    /\ indexFile (theRoot s')
       = Some (indexText
                 (sortEntries localeCompare
                    (List.filter (otherThan (t_id thread)) index ++ [entryOf thread])))
    /\ exists d,
         threadsDir (theRoot s') = Some d
         /\ d !! md = Some (File (Codec.serializeThreadMarkdown thread))
         /\ (forall content, d !! js <> Some (File content))
         /\ (forall other,
               other <> md -> other <> js ->
               d !! other = default ∅ (threadsDir (theRoot s0)) !! other).
Proof.
  unfold storeThread.
  destruct (entryName (threadFile (t_id thread))) as [md|] eqn:Em; [|discriminate].
  destruct (entryName (legacyThreadFile (t_id thread))) as [js|] eqn:Ej; [|discriminate].
  destruct (writeThreadFile _ _ s0) as [s1| | |] eqn:Hw; try discriminate.
  apply writeThreadFile_Fulfilled in Hw. cbn [andThen]. cbv zeta.
  assert (Hi : readIndex (tryDeleteThreadFile js s1) = readIndex s0).
  { apply readIndex_indexFile.
    rewrite tryDeleteThreadFile_indexFile, Hw. apply withThreads_indexFile. }
  rewrite Hi. destruct (readIndex s0) as [index|]; [|discriminate].
  intros [= <-]. exists md, js, index.
  split; [reflexivity|]. split; [reflexivity|]. split; [reflexivity|].
  split; [apply writeIndex_indexFile|].
  rewrite writeIndex_threadsDir.
  destruct (tryDeleteThreadFile_threads js s1 _
              (eq_trans (f_equal (fun s => threadsDir (theRoot s)) Hw)
                        (withThreads_threadsDir _ _)))
    as (d' & Hd' & Hno & Hother).
  exists d'. split; [exact Hd'|]. split; [|split; [exact Hno|]].
  - rewrite (Hother _ (entryName_apart _ _ _ _ Em Ej)). apply lookup_insert_eq.
  - intros other H1 H2. rewrite (Hother other H2). now apply lookup_insert_ne.
Qed.

(** When it is fulfilled for an id that is a file name as it stands. *)
Lemma storeThread_plain thread s0 s' :
  plainName (t_id thread) = true ->
  storeThread localeCompare thread s0 = Fulfilled s' ->
  exists d,
    threadsDir (theRoot s') = Some d
    /\ d !! threadFile (t_id thread) = Some (File (Codec.serializeThreadMarkdown thread))
    /\ (forall content, d !! legacyThreadFile (t_id thread) <> Some (File content))
    /\ (forall other,
          other <> threadFile (t_id thread) -> other <> legacyThreadFile (t_id thread) ->
          d !! other = default ∅ (threadsDir (theRoot s0)) !! other).
Proof.
  intros Hp H. destruct (entryName_threadFile _ Hp) as [Em Ej].
  destruct (storeThread_Fulfilled thread s0 s' H) as (md & js & index & Em' & Ej' & _ & _ & Hd).
  rewrite Em in Em'. rewrite Ej in Ej'. injection Em' as <-. injection Ej' as <-.
  exact Hd.
Qed.

Lemma deleteThread_Fulfilled now threadId s s' :
  deleteThread localeCompare now threadId s = Fulfilled s' ->
  exists s0 index,
    initialized localeCompare now s = Fulfilled s0
    /\ plainName threadId = true
    /\ readIndex s0 = Returned index
    /\ s' = writeIndex (List.filter (otherThan threadId) index)
              (tryDeleteThreadFile (legacyThreadFile threadId)
                 (tryDeleteThreadFile (threadFile threadId) s0)).
Proof.
  unfold deleteThread. intros H.
  destruct (initialized localeCompare now s) as [s0| | |]; try discriminate H.
  cbn [andThen] in H. destruct (plainName threadId); [|discriminate H].
  cbv zeta in H.
  assert (Hi : readIndex (tryDeleteThreadFile (legacyThreadFile threadId)
                            (tryDeleteThreadFile (threadFile threadId) s0))
               = readIndex s0).
  { apply readIndex_indexFile. now rewrite !tryDeleteThreadFile_indexFile. }
  rewrite Hi in H. clear Hi.
  destruct (readIndex s0) as [index|] eqn:Er; [|discriminate H].
  injection H as <-. exists s0, index. repeat split; auto.
Qed.

End StoreSteps.

Section EntryOrder.
Import Store StoreSpec.
Local Open Scope Z_scope.
Variable localeCompare : string -> string -> Z.
Hypothesis localeCompare_collation : collation localeCompare.

Lemma compareEntries_inOrder a b :
  Z.leb (compareEntries localeCompare a b) 0 = true <-> inOrder localeCompare a b.
Proof.
  unfold compareEntries, inOrder. rewrite Z.leb_le.
  destruct (Z.eqb_spec (localeCompare (e_file a) (e_file b)) 0); lia.
Qed.

Lemma compareEntries_total a b :
  Z.leb (compareEntries localeCompare a b) 0 = false ->
  Z.leb (compareEntries localeCompare b a) 0 = true.
Proof.
  destruct localeCompare_collation as [Hsym _].
  rewrite Z.leb_gt, Z.leb_le. unfold compareEntries.
  pose proof (Hsym (e_file a) (e_file b)). pose proof (Hsym (e_id a) (e_id b)).
  destruct (Z.eqb_spec (localeCompare (e_file a) (e_file b)) 0);
    destruct (Z.eqb_spec (localeCompare (e_file b) (e_file a)) 0); lia.
Qed.

Lemma before_notAfter a b c :
  localeCompare a b < 0 -> localeCompare b c <= 0 -> localeCompare a c < 0.
Proof.
  destruct localeCompare_collation as [Hsym Htrans]. intros H1 H2.
  pose proof (Htrans a b c ltac:(lia) H2) as H3.
  destruct (Z.eq_dec (localeCompare a c) 0) as [E|E]; [|lia].
  pose proof (Hsym a c). pose proof (Hsym a b).
  pose proof (Htrans b c a H2 ltac:(lia)). lia.
Qed.

Lemma notAfter_before a b c :
  localeCompare a b <= 0 -> localeCompare b c < 0 -> localeCompare a c < 0.
Proof.
  destruct localeCompare_collation as [Hsym Htrans]. intros H1 H2.
  pose proof (Htrans a b c H1 ltac:(lia)) as H3.
  destruct (Z.eq_dec (localeCompare a c) 0) as [E|E]; [|lia].
  pose proof (Hsym a c). pose proof (Hsym b c).
  pose proof (Htrans c a b ltac:(lia) H1). lia.
Qed.

Lemma inOrder_trans a b c :
  inOrder localeCompare a b -> inOrder localeCompare b c -> inOrder localeCompare a c.
Proof.
  destruct localeCompare_collation as [Hsym Htrans].
  unfold inOrder. intros [H1|[H1 H1']] [H2|[H2 H2']].
  - left. apply (before_notAfter _ (e_file b)); lia.
  - left. apply (before_notAfter _ (e_file b)); lia.
  - left. apply (notAfter_before _ (e_file b)); lia.
  - right. split.
    + pose proof (Htrans (e_file a) (e_file b) (e_file c) ltac:(lia) ltac:(lia)).
      pose proof (Hsym (e_file a) (e_file b)). pose proof (Hsym (e_file b) (e_file c)).
      pose proof (Hsym (e_file a) (e_file c)).
      pose proof (Htrans (e_file c) (e_file b) (e_file a) ltac:(lia) ltac:(lia)). lia.
    + now apply (Htrans _ (e_id b)).
Qed.

(** The sorted index is in order, each entry against all the later ones. *)
Lemma sortEntries_sorted threads :
  StronglySorted (inOrder localeCompare) (sortEntries localeCompare threads).
Proof.
  apply Sorted_StronglySorted; [exact inOrder_trans|].
  eapply Sorted_ind with (P := Sorted (inOrder localeCompare)).
  - constructor.
  - intros a l _ IH Ha. constructor; [exact IH|].
    destruct Ha as [|b l' Hab]; constructor. apply compareEntries_inOrder. exact Hab.
  - apply (sortBy_Sorted (fun a b => Z.leb (compareEntries localeCompare a b) 0)).
    exact compareEntries_total.
Qed.

End EntryOrder.

Section CodeUnits.
Import StoreSpec.
Local Open Scope Z_scope.

Lemma codeUnits_sign a b :
  (codeUnits a b < 0 <-> String.compare a b = Lt)
  /\ (codeUnits a b = 0 <-> String.compare a b = Eq)
  /\ (0 < codeUnits a b <-> String.compare a b = Gt).
Proof. unfold codeUnits. destruct (String.compare a b); repeat split; (lia || discriminate || reflexivity). Qed.

(** The order of the code units is a collation. *)
Lemma codeUnits_collation : collation codeUnits.
Proof.
  split.
  - intros a b. unfold codeUnits. rewrite (String.compare_antisym a b).
    destruct (String.compare b a); reflexivity.
  - intros a b c Hab Hbc.
    assert (Hle : forall x y, codeUnits x y <= 0 -> x = y \/ String.compare x y = Lt).
    { intros x y H. unfold codeUnits in H. destruct (String.compare x y) eqn:E.
      - left. now apply String.compare_eq_iff.
      - now right.
      - lia. }
    destruct (Hle _ _ Hab) as [->|H1]; [exact Hbc|].
    destruct (Hle _ _ Hbc) as [<-|H2]; [exact Hab|].
    apply (proj1 (OrderedTypeEx.String_as_OT.cmp_lt _ _)) in H1, H2.
    pose proof (OrderedTypeEx.String_as_OT.lt_trans _ _ _ H1 H2) as H3.
    apply (proj2 (OrderedTypeEx.String_as_OT.cmp_lt _ _)) in H3.
    unfold codeUnits. unfold OrderedTypeEx.String_as_OT.cmp in H3. rewrite H3. lia.
Qed.

End CodeUnits.

(** ** Writing and deleting threads *)

(** C10, amended.  When [writeThread] is fulfilled for a thread whose id is
    a file name as it stands (it has no slash and no backslash), the
    threads directory holds the file [<id>.md] with the serialized thread as
    its text and no file [<id>.json]; [listThreadIds] lists no id twice, and
    lists the id of the thread once. *)
Theorem write_leaves_one_representation (localeCompare : string -> string -> Z)
  (now : string) (thread : PersistedThread) (s s' : Store.State) :
  StoreSpec.fileName (t_id thread) ->
  Store.writeThread localeCompare now thread s = Store.Fulfilled s' ->
  StoreSpec.filesOf s' !! (t_id thread +:+ ".md")
  = Some (Store.File (Codec.serializeThreadMarkdown thread))
  /\ StoreSpec.fileText (StoreSpec.filesOf s' !! (t_id thread +:+ ".json")) = None
  /\ List.NoDup (Store.listThreadIds s')
  /\ count_occ String.string_dec (Store.listThreadIds s') (t_id thread) = 1.
Proof.
  unfold Store.writeThread. intros Hp H. apply plainName_spec in Hp.
  destruct (Store.initialized localeCompare now s) as [s0| | |]; try discriminate H.
  cbn [Store.andThen] in H.
  destruct (storeThread_plain localeCompare thread s0 s' Hp H) as (d & Hd & Hmd & Hjson & _).
  unfold StoreSpec.filesOf. rewrite Hd. cbv [default from_option id].
  split; [exact Hmd|]. split.
  { change (t_id thread +:+ ".json") with (Store.legacyThreadFile (t_id thread)).
    destruct (d !! Store.legacyThreadFile (t_id thread)) as [[c|e]|] eqn:E; try reflexivity.
    now destruct (Hjson c). }
  split; [apply listThreadIds_NoDup|].
  apply (proj1 (NoDup_count_occ' String.string_dec _) (listThreadIds_NoDup s')).
  apply listThreadIds_In.
  exists d, (Store.threadFile (t_id thread)), (Store.File (Codec.serializeThreadMarkdown thread)).
  split; [exact Hd|]. split; [exact Hmd|apply stemOf_threadFile].
Qed.

Lemma write_leaves_one_representation_witness :
  exists s',
    Store.writeThread StoreSpec.codeUnits "2000-01-03T00:00:00.000Z" patched_thread
      doubled_store
    = Store.Fulfilled s'
    /\ StoreSpec.fileText (StoreSpec.filesOf s' !! "t0004.json") = None
    /\ count_occ String.string_dec (Store.listThreadIds s') "t0004" = 1.
Proof.
  eexists. split; [vm_compute; reflexivity|].
  refine ((fun H => conj (proj1 (proj2 H)) (proj2 (proj2 (proj2 H))))
            (write_leaves_one_representation StoreSpec.codeUnits
               "2000-01-03T00:00:00.000Z" patched_thread doubled_store _ _ _)).
  - split; reflexivity.
  - vm_compute. reflexivity.
Defined.

(** C10 as stated fails for an id that is no file name: the thread of id
    [./t0004] is written to the file [t0004.md], and [listThreadIds] lists
    [t0004], not the id of the thread. *)
Lemma dotted_id_is_not_listed :
  exists s',
    Store.writeThread StoreSpec.codeUnits "2000-01-03T00:00:00.000Z" dotted_thread
      quiet_store
    = Store.Fulfilled s'
    /\ Store.listThreadIds s' = ["t0001"; "t0004"]
    /\ count_occ String.string_dec (Store.listThreadIds s') (t_id dotted_thread) = 0.
Proof.
  eexists. split; [vm_compute; reflexivity|]. split; vm_compute; reflexivity.
Qed.



(** The index of [stale_store] does not list the thread file [t0001.md];
    after [writeThread] for another thread the index lists that thread
    alone, and the index recomputed from the thread files lists both,
    whatever the comparison. *)
Lemma stale_index_after_write (localeCompare : string -> string -> Z) :
  exists s',
    Store.writeThread localeCompare "2000-01-03T00:00:00.000Z" patched_thread stale_store
    = Store.Fulfilled s'
    /\ Store.readIndex s' = Json.Returned [Store.entryOf patched_thread]
    /\ Permutation
         (StoreSpec.recomputedIndex localeCompare "2000-01-03T00:00:00.000Z" s')
         [Store.entryOf scenarioA_thread; Store.entryOf patched_thread].
Proof.
  eexists. split; [vm_compute; reflexivity|].
  split; [vm_compute; reflexivity|].
  unfold StoreSpec.recomputedIndex, Store.sortEntries.
  eapply Permutation_trans; [apply Permutation_sym, sortBy_Permutation|].
  vm_compute. reflexivity.
Qed.


(** ** More on the diff parser *)

Section DiffFacts.
Import Diff.

Lemma spanDigits_allDigits s :
  JsonSpec.allDigits (fst (JS.spanDigits s)) = true.
Proof.
  induction s as [|c r IH]; [reflexivity|]. cbn [JS.spanDigits].
  destruct (JS.isDigit c) eqn:Hc; [|reflexivity].
  destruct (JS.spanDigits r) as [d rest]. cbn [fst JsonSpec.allDigits] in *.
  now rewrite Hc, IH.
Qed.

Lemma digitValue_nonneg c : JS.isDigit c = true -> (0 <= JS.digitValue c)%Z.
Proof.
  unfold JS.isDigit, JS.digitValue. cbv zeta. intros H.
  apply andb_true_iff in H as [H _]. apply Nat.leb_le in H. lia.
Qed.

Lemma numberOfDigitsFrom_nonneg d acc :
  JsonSpec.allDigits d = true -> (0 <= acc)%Z -> (0 <= JS.numberOfDigitsFrom acc d)%Z.
Proof.
  revert acc. induction d as [|c d IH]; intros acc Hd Ha; [exact Ha|].
  cbn [JsonSpec.allDigits] in Hd. apply andb_true_iff in Hd as [Hc Hd].
  cbn [JS.numberOfDigitsFrom]. apply IH; [exact Hd|].
  pose proof (digitValue_nonneg c Hc). lia.
Qed.

Lemma matchStartCount_digits s d c r :
  matchStartCount s = Some (d, c, r) ->
  JsonSpec.allDigits d = true
  /\ match c with Some d' => JsonSpec.allDigits d' = true | None => True end.
Proof.
  unfold matchStartCount. pose proof (spanDigits_allDigits s) as Hs.
  destruct (JS.spanDigits s) as [d0 r0]. cbn [fst] in Hs.
  destruct (String.eqb d0 ""); [discriminate|].
  destruct r0 as [|x r0]; [intros [= <- <- <-]; now split|].
  destruct (Ascii.eqb_spec x ",") as [->|Hx].
  - pose proof (spanDigits_allDigits r0) as Hr.
    destruct (JS.spanDigits r0) as [d1 r1]. cbn [fst] in Hr.
    destruct (String.eqb d1 ""); intros [= <- <- <-]; now split.
  - destruct x as [[] [] [] [] [] [] [] []]; try (intros [= <- <- <-]; now split).
    now contradiction Hx.
Qed.

(** The numbers of a hunk header are written in digits. *)
Lemma HUNK_RE_digits line m :
  HUNK_RE line = Some m ->
  JsonSpec.allDigits (m_oldStart m) = true /\ JsonSpec.allDigits (m_newStart m) = true
  /\ match m_oldLines m with Some d => JsonSpec.allDigits d = true | None => True end
  /\ match m_newLines m with Some d => JsonSpec.allDigits d = true | None => True end.
Proof.
  unfold HUNK_RE. destruct (JS.stripPrefix "@@ -" line) as [s1|]; [|discriminate].
  destruct (matchStartCount s1) as [[[os ol] s2]|] eqn:E1; [|discriminate].
  destruct (JS.stripPrefix " +" s2) as [s3|]; [|discriminate].
  destruct (matchStartCount s3) as [[[ns nl] s4]|] eqn:E2; [|discriminate].
  destruct (JS.stripPrefix " @@" s4) as [rest|]; [|discriminate].
  destruct (noLineTerminator rest); [|discriminate]. intros [= <-].
  cbn [m_oldStart m_newStart m_oldLines m_newLines].
  destruct (matchStartCount_digits _ _ _ _ E1), (matchStartCount_digits _ _ _ _ E2).
  auto.
Qed.

End DiffFacts.

Section RangeScanFacts.
Import Diff DiffSpec.

Lemma flush_scanOk st : scanOk st -> scanOk (flush st).
Proof.
  intros (Hr & Hc & Hn). unfold flush. destruct (current st) as [c|] eqn:E.
  - split; [|split]; cbn [ranges current newLine]; [|exact I|exact Hn].
    apply List.Forall_app. split; [exact Hr|now constructor].
  - split; [exact Hr|]. split; [now rewrite E|exact Hn].
Qed.

Lemma flush_current st : current (flush st) = None.
Proof. unfold flush. destruct (current st) eqn:E; [reflexivity|exact E]. Qed.

Lemma flush_newLine st : newLine (flush st) = newLine st.
Proof. unfold flush. now destruct (current st). Qed.

Lemma rangeStep_scanOk st line : scanOk st -> scanOk (rangeStep st line).
Proof.
  intros H. pose proof (flush_scanOk st H) as (Fr & Fc & Fn).
  rewrite flush_newLine in Fn. pose proof H as (Hr & Hc & Hn).
  unfold rangeStep. destruct (HUNK_RE line) as [m|] eqn:Em.
  - split; [exact Fr|]. split; [exact Fc|]. cbn [newLine].
    destruct (HUNK_RE_digits line m Em) as (_ & Hd & _).
    now apply numberOfDigitsFrom_nonneg.
  - destruct (inHunk st); cbn [negb]; [|exact H].
    destruct (JS.startsWith line "+" && negb (JS.startsWith line "+++")).
    { destruct (current st) as [c|] eqn:E.
      - destruct Hc as [H0 H1].
        destruct (Z.eqb_spec (newLine st) (end_ c + 1)) as [Q|Q];
          unfold scanOk, orderedRange; cbn [ranges current newLine start end_];
          rewrite ?flush_newLine; (split; [first [exact Hr|exact Fr]|]); lia.
      - unfold scanOk, orderedRange; cbn [ranges current newLine start end_].
        split; [exact Hr|]. lia. }
    destruct (JS.startsWith line "-" && negb (JS.startsWith line "---"));
      [now apply flush_scanOk|].
    destruct (JS.startsWith line " ").
    { unfold scanOk. cbn [ranges current newLine]. rewrite flush_newLine.
      split; [exact Fr|]. split; [exact Fc|lia]. }
    destruct (JS.startsWith line "\"); [exact H|].
    destruct (isFileHeader line); [|exact H].
    unfold scanOk. cbn [ranges current newLine]. split; [exact Fr|]. split; [exact Fc|lia].
Qed.

Lemma fold_rangeStep_scanOk lines st :
  scanOk st -> scanOk (fold_left rangeStep lines st).
Proof.
  revert st. induction lines as [|l lines IH]; intros st H; [exact H|].
  cbn [fold_left]. now apply IH, rangeStep_scanOk.
Qed.

(** Outside a hunk a line that is no hunk header changes nothing. *)
Lemma fold_rangeStep_outside lines st :
  inHunk st = false -> Forall (fun l => isHunkHeader l = false) lines ->
  fold_left rangeStep lines st = st.
Proof.
  intros Hi H. induction H as [|l lines Hl Hls IH]; [reflexivity|].
  cbn [fold_left]. unfold rangeStep at 2. unfold isHunkHeader in Hl.
  destruct (HUNK_RE l); [discriminate|]. rewrite Hi. cbn [negb]. exact IH.
Qed.

End RangeScanFacts.

(** X2.  Every range [parseUnifiedDiffChangedLineRanges] returns is
    ordered: its start is not negative and not after its end. *)
Theorem changed_ranges_are_ordered (diffText : string) :
  Forall DiffSpec.orderedRange (Diff.parseUnifiedDiffChangedLineRanges diffText).
Proof.
  unfold Diff.parseUnifiedDiffChangedLineRanges. cbv zeta.
  apply flush_scanOk, fold_rangeStep_scanOk.
  split; [constructor|]. split; [exact I|]. cbn. lia.
Qed.

(** X3.  A text none of whose lines is a hunk header has no changed range:
    the lines before the first hunk header are not counted. *)
Theorem no_hunk_no_changed_range (diffText : string) :
  Forall (fun l => DiffSpec.isHunkHeader l = false) (JS.splitLines diffText) ->
  Diff.parseUnifiedDiffChangedLineRanges diffText = [].
Proof.
  intros H. unfold Diff.parseUnifiedDiffChangedLineRanges. cbv zeta.
  match goal with
  | |- Diff.ranges (Diff.flush (fold_left _ _ ?st0)) = _ =>
      now rewrite (fold_rangeStep_outside _ st0 eq_refl H)
  end.
Qed.

Lemma no_hunk_no_changed_range_witness :
  Diff.parseUnifiedDiffChangedLineRanges headers_only_diff = [].
Proof.
  apply (no_hunk_no_changed_range headers_only_diff).
  vm_compute. repeat constructor.
Defined.

(** ** What a parsed thread always has *)

Section ParsedThreads.
Import Json Codec CodecSpec RoundTrip.

Lemma parseNonEmptyString_not_blank v s :
  parseNonEmptyString v = Some s -> JS.trim s <> "".
Proof.
  unfold parseNonEmptyString. destruct (parseString v) as [x|]; [|discriminate].
  destruct (String.eqb_spec (JS.trim x) ""); [discriminate|]. now intros [= <-].
Qed.

Lemma parseNonNegativeInteger_nonneg v n :
  parseNonNegativeInteger v = Some n -> (0 <= n)%Z.
Proof.
  unfold parseNonNegativeInteger. destruct v as [[| |m| | | |]|]; try discriminate.
  destruct (Z.ltb_spec m 0); [discriminate|]. intros [= <-]. lia.
Qed.

Lemma parsePersistedRange_rangeOk v : rangeOk (parsePersistedRange v).
Proof.
  unfold parsePersistedRange.
  destruct v as [[| | | | | |]|]; try exact I;
    (destruct (negb (isRecord _)); [exact I|]);
    destruct (parseNonNegativeInteger (prop _ "startLine")) as [a|] eqn:Ea; try exact I;
    destruct (parseNonNegativeInteger (prop _ "startCharacter")) as [b|] eqn:Eb;
    try exact I;
    destruct (parseNonNegativeInteger (prop _ "endLine")) as [c|] eqn:Ec; try exact I;
    destruct (parseNonNegativeInteger (prop _ "endCharacter")) as [d|] eqn:Ed;
    try exact I;
    cbn [rangeOk startLine startCharacter endLine endCharacter];
    repeat split; eapply parseNonNegativeInteger_nonneg; eassumption.
Qed.

(** The metadata the decoder accepts. *)
Lemma parsePersistedThreadMeta_valid now v meta :
  parsePersistedThreadMeta now v = Some meta ->
  JS.trim (m_id meta) <> ""
  /\ JS.trim (workspaceRelativePath (m_target meta)) <> ""
  /\ rangeOk (range (m_target meta)).
Proof.
  unfold parsePersistedThreadMeta.
  destruct (negb (isRecord v) || _); [discriminate|].
  destruct (parseNonEmptyString (prop v "id")) as [i|] eqn:Ei; [|discriminate].
  destruct (negb (isRecord (prop v "target"))); [discriminate|].
  destruct (parseNonEmptyString (prop (prop v "target") "workspaceRelativePath"))
    as [p|] eqn:Ep; [|discriminate].
  intros [= <-]. cbn [m_id m_target workspaceRelativePath range].
  split; [now apply parseNonEmptyString_not_blank in Ei|].
  split; [now apply parseNonEmptyString_not_blank in Ep|].
  apply parsePersistedRange_rangeOk.
Qed.

Lemma orElse_fallback a b : b <> "" -> orElse a b <> "".
Proof. intros H. unfold orElse. destruct (String.eqb_spec a ""); congruence. Qed.

Lemma app_colon_nonempty a b : a +:+ ":" +:+ b <> "".
Proof. destruct a; discriminate. Qed.

Lemma parseComments_named meta lines :
  forall i, Forall (fun c => c_id c <> "" /\ c_author c <> "") (parseComments meta i lines).
Proof.
  induction lines as [|l lines IH]; intros i; cbn [parseComments]; [constructor|].
  destruct (isCommentMarker l); [|apply IH]. constructor; [|apply IH].
  unfold parseComment. cbv zeta. cbn [c_id c_author]. split.
  - apply orElse_fallback, app_colon_nonempty.
  - now apply orElse_fallback.
Qed.

End ParsedThreads.

(** X4.  A thread that [parseThreadMarkdown] returns has an id and a path
    that are not blank, a range that is null or made of four integers that
    are not negative, and comments whose id and author are not empty. *)
Theorem parsed_thread_is_valid (now markdown : string) (thread : PersistedThread) :
  Codec.parseThreadMarkdown now markdown = Json.Returned (Some thread) ->
  JS.trim (t_id thread) <> ""
  /\ JS.trim (workspaceRelativePath (target thread)) <> ""
  /\ RoundTrip.rangeOk (range (target thread))
  /\ Forall (fun c => c_id c <> "" /\ c_author c <> "") (comments thread).
Proof.
  unfold Codec.parseThreadMarkdown. cbv zeta.
  destruct (Codec.afterOpenMarker _) as [l1|]; [|discriminate].
  destruct (Codec.untilCloseMarker l1) as [[metaLines rest]|]; [|discriminate].
  destruct (Json.parse _) as [metaObject|]; [|discriminate].
  destruct (Codec.parsePersistedThreadMeta now (Some metaObject)) as [meta|] eqn:Em;
    [|discriminate].
  apply parsePersistedThreadMeta_valid in Em as (Hi & Hp & Hr).
  intros [= <-]. cbn [t_id target comments Codec.withComments].
  destruct (Codec.extractPatch rest) as [p|];
    cbn [Codec.withPatch Codec.m_id Codec.m_target workspaceRelativePath range];
    repeat split; auto using parseComments_named.
Qed.

Lemma parsed_thread_is_valid_witness :
  exists thread,
    Codec.parseThreadMarkdown "2000-01-03T00:00:00.000Z" scenarioC_file
    = Json.Returned (Some thread)
    /\ JS.trim (t_id thread) <> ""
    /\ Forall (fun c => c_id c <> "" /\ c_author c <> "") (comments thread).
Proof.
  eexists. split; [vm_compute; reflexivity|].
  match goal with
  | |- JS.trim (t_id ?t) <> "" /\ _ =>
      pose proof (parsed_thread_is_valid "2000-01-03T00:00:00.000Z" scenarioC_file t)
        as H
  end.
  destruct H as (H1 & _ & _ & H4); [vm_compute; reflexivity|]. split; assumption.
Defined.

(** ** The metadata of a written thread *)

Section MetadataSurvive.
Import Json JsonSpec JsonText Codec CodecSpec RoundTrip.

Lemma replaceCRLF_app_LF a b :
  JS.includesChar JS.CR a = false ->
  JS.replaceCRLF (a +:+ String JS.LF b) = a +:+ String JS.LF (JS.replaceCRLF b).
Proof.
  induction a as [|c a IH]; intros Ha.
  - cbn [String.append JS.replaceCRLF]. destruct b as [|d b]; reflexivity.
  - cbn [JS.includesChar] in Ha. apply orb_false_iff in Ha as [Hc Ha].
    cbn [String.append]. rewrite <- (IH Ha). cbn [JS.replaceCRLF].
    rewrite Ascii.eqb_sym in Hc.
    destruct (a +:+ String JS.LF b) as [|d r] eqn:E.
    + destruct a; discriminate E.
    + now rewrite Hc.
Qed.

(** The lines of a serialized thread: the metadata block, and the lines of
    the text that follows it. *)
Lemma splitText_block thread :
  exists rest,
    splitText (serializeThreadMarkdown thread)
    = [] ++ OPEN_MARKER :: JS.splitLF (stringify (metaJson thread))
      ++ CLOSE_MARKER :: rest.
Proof.
  unfold serializeThreadMarkdown. rewrite threadLines_sections.
  unfold pushedHead. cbn [app]. do 3 rewrite JS_join_cons2_eq.
  match goal with
  | |- context [JS.join NL ("" :: ?x)] => set (tail_ := JS.join NL ("" :: x))
  end.
  exists (splitText (tail_ +:+ NL)).
  set (block := OPEN_MARKER +:+ NL +:+ stringify (metaJson thread) +:+ NL +:+ CLOSE_MARKER).
  assert (E : (OPEN_MARKER +:+ NL +:+ stringify (metaJson thread) +:+ NL +:+ CLOSE_MARKER
               +:+ NL +:+ tail_) +:+ NL
              = block +:+ String JS.LF (tail_ +:+ NL))
    by (unfold block; rewrite ?sapp_assoc; reflexivity).
  rewrite E. unfold splitText at 1. rewrite replaceCRLF_app_LF.
  - rewrite splitLF_app_NL. fold (splitText (tail_ +:+ NL)).
    unfold block.
    change (OPEN_MARKER +:+ NL +:+ stringify (metaJson thread) +:+ NL +:+ CLOSE_MARKER)
      with (OPEN_MARKER
            +:+ String JS.LF (stringify (metaJson thread) +:+ String JS.LF CLOSE_MARKER)).
    rewrite !splitLF_app_NL.
    change (JS.splitLF OPEN_MARKER) with [OPEN_MARKER].
    change (JS.splitLF CLOSE_MARKER) with [CLOSE_MARKER].
    rewrite <- !app_assoc. reflexivity.
  - unfold block. rewrite !includesChar_app.
    rewrite (stringify_noCR _ (wellFormed_metaJson thread)). reflexivity.
Qed.

Lemma parse_serialize_metadata now thread :
  JS.trim (t_id thread) <> "" ->
  JS.trim (workspaceRelativePath (target thread)) <> "" ->
  rangeOk (range (target thread)) ->
  exists parsed,
    parseThreadMarkdown now (serializeThreadMarkdown thread) = Returned (Some parsed)
    /\ sameMetadata parsed thread.
Proof.
  intros Hi Hp Hr. destruct (splitText_block thread) as [rest Hs].
  assert (Hb : metadataBlock (serializeThreadMarkdown thread)
                 (JS.splitLF (stringify (metaJson thread))) rest).
  { exists [], OPEN_MARKER, CLOSE_MARKER. split; [exact Hs|]. split; [constructor|].
    split; [reflexivity|]. split; [|reflexivity].
    eapply List.Forall_impl;
      [|exact (jsonLines_stringify _ (wellFormed_metaJson thread) 0)].
    intros l. apply jsonLine_not_close. }
  rewrite (parse_of_block now _ _ _ Hb). unfold metadataText.
  rewrite join_splitLF, (trim_stringify _ (wellFormed_metaJson thread)).
  rewrite (parse_stringify _ (wellFormed_metaJson thread)).
  rewrite (parsePersistedThreadMeta_metaJson now thread Hi Hp Hr). cbv zeta.
  eexists. split; [reflexivity|].
  destruct (extractPatch rest); repeat split.
Qed.

End MetadataSurvive.

(** X5.  Whatever its comments, its context and its patch contain, a thread
    with an id and a path that are not blank and a range that is null or
    made of integers that are not negative is read back from the file
    [serializeThreadMarkdown] writes, with the id, path, range, context,
    status and dates it had. *)
Theorem written_thread_keeps_metadata (now : string) (thread : PersistedThread) :
  JS.trim (t_id thread) <> "" ->
  JS.trim (workspaceRelativePath (target thread)) <> "" ->
  RoundTrip.rangeOk (range (target thread)) ->
  exists parsed,
    Codec.parseThreadMarkdown now (Codec.serializeThreadMarkdown thread)
    = Json.Returned (Some parsed)
    /\ RoundTrip.sameMetadata parsed thread.
Proof. apply parse_serialize_metadata. Qed.

Lemma written_thread_keeps_metadata_witness :
  exists parsed,
    Codec.parseThreadMarkdown "2000-01-03T00:00:00.000Z"
      (Codec.serializeThreadMarkdown anonymous_thread)
    = Json.Returned (Some parsed)
    /\ RoundTrip.sameMetadata parsed anonymous_thread.
Proof.
  apply (written_thread_keeps_metadata "2000-01-03T00:00:00.000Z" anonymous_thread).
  - vm_compute. discriminate.
  - vm_compute. discriminate.
  - vm_compute. repeat split; discriminate.
Defined.

Section EscapedAttribute.
Import Json Codec CodecSpec.

Lemma xmlEscapeChar_no_angle c :
  JS.includesChar "<" (xmlEscapeChar c) = false
  /\ JS.includesChar ">" (xmlEscapeChar c) = false.
Proof. destruct c as [[] [] [] [] [] [] [] []]; vm_compute; split; reflexivity. Qed.

Lemma escapeXmlAttr_no_angle s :
  JS.includesChar "<" (escapeXmlAttr s) = false
  /\ JS.includesChar ">" (escapeXmlAttr s) = false.
Proof.
  induction s as [|c s [IH1 IH2]]; [split; reflexivity|].
  destruct (xmlEscapeChar_no_angle c) as [H1 H2].
  rewrite escapeXmlAttr_cons, !includesChar_app, H1, H2, IH1, IH2. split; reflexivity.
Qed.

End EscapedAttribute.

(** X6.  The text [escapeXmlAttr] gives has no double quote, no [<] and no
    [>], whatever the value: written between double quotes, it is read as a
    whole up to its own closing quote. *)
Theorem escaped_attribute_has_no_delimiter (value rest : string) :
  JS.includesChar Json.QUOTE (Codec.escapeXmlAttr value) = false
  /\ JS.includesChar "<" (Codec.escapeXmlAttr value) = false
  /\ JS.includesChar ">" (Codec.escapeXmlAttr value) = false
  /\ Codec.untilQuote (Codec.escapeXmlAttr value +:+ String Json.QUOTE rest)
     = Some (Codec.escapeXmlAttr value).
Proof.
  destruct (escapeXmlAttr_no_angle value) as [H1 H2].
  pose proof (escapeXmlAttr_no_quote value) as H0.
  repeat split; try assumption. now apply untilQuote_value.
Qed.

(** ** The index file, written and read *)

Section IndexRoundTrip.
Import Json JsonSpec JsonText Store.

Lemma parse_stringify_line v : wellFormed v -> parse (stringify v +:+ NL) = Returned v.
Proof.
  intros Hw. unfold parse.
  pose proof (size_le_length v Hw 0) as Hs. fold (stringify v) in Hs.
  rewrite (parseValue_stringify v Hw 0 NL).
  - reflexivity.
  - cbn. auto.
  - rewrite sapp_length. lia.
Qed.

Lemma wellFormed_entryJson e : wellFormed (e_range e) -> wellFormed (entryJson e).
Proof.
  intros H. apply wellFormed_object. split.
  - cbn [map fst entryJson].
    repeat (apply List.NoDup_cons; [cbn [In]; intuition discriminate|]).
    apply List.NoDup_nil.
  - repeat constructor. exact H.
Qed.

Lemma wellFormed_indexJson threads :
  Forall (fun e => wellFormed (e_range e)) threads -> wellFormed (indexJson threads).
Proof.
  intros H. apply wellFormed_object. split.
  - cbn [map fst indexJson].
    repeat (apply List.NoDup_cons; [cbn [In]; intuition discriminate|]).
    apply List.NoDup_nil.
  - constructor; [exact I|]. constructor; [|constructor]. cbn [snd].
    apply wellFormed_array. induction H; constructor; auto using wellFormed_entryJson.
Qed.

Lemma readEntry_entryJson e : readEntry (entryJson e) = Some e.
Proof. now destruct e as [i f r st u]. Qed.

Lemma mapEntries_entryJson threads : mapEntries (map entryJson threads) = Some threads.
Proof.
  induction threads as [|e threads IH]; [reflexivity|].
  cbn [map mapEntries]. now rewrite readEntry_entryJson, IH.
Qed.

Lemma readIndex_writeIndex threads s :
  Forall (fun e => wellFormed (e_range e)) threads ->
  readIndex (writeIndex threads s) = Returned (List.filter listed threads).
Proof.
  intros H. unfold readIndex. rewrite writeIndex_indexFile. unfold indexText.
  rewrite (parse_stringify_line _ (wellFormed_indexJson threads H)).
  cbn [indexJson prop lookup String.eqb Ascii.eqb Bool.eqb].
  change SCHEMA_VERSION with 1%Z. cbv iota.
  now rewrite mapEntries_entryJson.
Qed.

End IndexRoundTrip.

(** X7.  An index written by [writeIndex] is read back by [readIndex] entry
    for entry, without the entries whose id or file is empty, when every
    range is written as JSON that is read back (integers, no key twice). *)
Theorem index_round_trip (threads : list Store.IndexEntry) (s : Store.State) :
  Forall (fun e => JsonSpec.wellFormed (Store.e_range e)) threads ->
  Store.readIndex (Store.writeIndex threads s)
  = Json.Returned (List.filter Store.listed threads).
Proof. apply readIndex_writeIndex. Qed.

Lemma index_round_trip_witness :
  Store.readIndex
    (Store.writeIndex [Store.entryOf scenarioA_thread; Store.entryOf patched_thread]
       stale_store)
  = Json.Returned [Store.entryOf scenarioA_thread; Store.entryOf patched_thread].
Proof.
  apply (index_round_trip [Store.entryOf scenarioA_thread; Store.entryOf patched_thread]
           stale_store).
  repeat constructor; vm_compute; repeat constructor; intuition discriminate.
Defined.

(** ** Reading what was written *)

Section ReadThread.
Import Json Store StoreSpec.
Variable localeCompare : string -> string -> Z.

(** [readThread] looks at two entries of the threads directory. *)
Lemma readThread_files now threadId s md js :
  entryName (threadFile threadId) = Some md ->
  entryName (legacyThreadFile threadId) = Some js ->
  readThread now threadId s
  = Known
      match match fileText (filesOf s !! md) with
            | Some raw => Some (Codec.parseThreadMarkdown now raw)
            | None => None
            end with
      | Some (Returned (Some parsed)) => Some parsed
      | Some Thrown => None
      | _ =>
          match fileText (filesOf s !! js) with
          | Some raw =>
              match parse raw with
              | Returned parsed => Codec.parsePersistedThread now (Some parsed)
              | Thrown => None
              end
          | None => None
          end
      end.
Proof.
  intros Em Ej. unfold readThread, readLegacyFile, filesOf, fileText. rewrite Em, Ej.
  destruct (threadsDir (theRoot s)) as [d|]; cbv [default from_option id].
  - destruct (d !! md) as [[raw|e]|]; destruct (d !! js) as [[raw'|e']|]; reflexivity.
  - rewrite !lookup_empty. reflexivity.
Qed.

Lemma readThread_same_files now threadId s s' :
  plainName threadId = true ->
  filesOf s' !! threadFile threadId = filesOf s !! threadFile threadId ->
  filesOf s' !! legacyThreadFile threadId = filesOf s !! legacyThreadFile threadId ->
  readThread now threadId s' = readThread now threadId s.
Proof.
  intros Hp H1 H2. destruct (entryName_threadFile _ Hp) as [Em Ej].
  now rewrite !(readThread_files _ _ _ _ _ Em Ej), H1, H2.
Qed.

Lemma sapp_inj_suffix a b p : a +:+ p = b +:+ p -> a = b.
Proof.
  revert b. induction a as [|c a IH]; intros [|d b] E; cbn [String.append] in E.
  - reflexivity.
  - apply (f_equal String.length) in E. cbn [String.length] in E.
    rewrite sapp_length in E. lia.
  - apply (f_equal String.length) in E. cbn [String.length] in E.
    rewrite sapp_length in E. lia.
  - injection E as -> E. f_equal. now apply IH.
Qed.

Lemma threadFile_inj a b : threadFile a = threadFile b -> a = b.
Proof. apply sapp_inj_suffix. Qed.

Lemma legacyThreadFile_inj a b : legacyThreadFile a = legacyThreadFile b -> a = b.
Proof. apply sapp_inj_suffix. Qed.

Lemma filesOf_threadsDir s d : threadsDir (theRoot s) = Some d -> filesOf s = d.
Proof. unfold filesOf. now intros ->. Qed.

(** The files after the task of [writeThread]. *)
Lemma storeThread_files thread s0 s' :
  storeThread localeCompare thread s0 = Fulfilled s' ->
  exists md js,
    entryName (threadFile (t_id thread)) = Some md
    /\ entryName (legacyThreadFile (t_id thread)) = Some js
    /\ filesOf s' !! md = Some (File (Codec.serializeThreadMarkdown thread))
    /\ fileText (filesOf s' !! js) = None
    /\ forall other,
         other <> md -> other <> js -> filesOf s' !! other = filesOf s0 !! other.
Proof.
  intros H. destruct (storeThread_Fulfilled localeCompare thread s0 s' H)
    as (md & js & index & Em & Ej & _ & _ & d & Hd & Hmd & Hjson & Hother).
  exists md, js. split; [exact Em|]. split; [exact Ej|].
  rewrite (filesOf_threadsDir s' d Hd). split; [exact Hmd|]. split; [|exact Hother].
  destruct (d !! js) as [[c|e]|] eqn:E; try reflexivity.
  now destruct (Hjson c).
Qed.

End ReadThread.

(** X8.  A thread that [writeThread] has written is read back by
    [readThread]: as it is, but for the trailing white space of its comment
    bodies and of its patch, when it is canonical once that is removed. *)
Theorem written_thread_is_read_back (localeCompare : string -> string -> Z)
  (now now' : string) (thread : PersistedThread) (s s' : Store.State) :
  Store.writeThread localeCompare now thread s = Store.Fulfilled s' ->
  RoundTrip.canonical (RoundTrip.trimmed thread) ->
  Store.readThread now' (t_id thread) s'
  = Store.Known (Some (RoundTrip.trimmed thread)).
Proof.
  unfold Store.writeThread. intros H Hc.
  destruct (Store.initialized localeCompare now s) as [s0| | |]; try discriminate H.
  cbn [Store.andThen] in H.
  destruct (storeThread_files localeCompare thread s0 s' H) as (md & js & Em & Ej & Hmd & _ & _).
  rewrite (readThread_files _ _ _ _ _ Em Ej), Hmd. cbn [StoreSpec.fileText].
  rewrite <- serialize_trimmed. now rewrite (parse_serialize now' _ Hc).
Qed.

Lemma written_thread_is_read_back_witness :
  exists s',
    Store.writeThread StoreSpec.codeUnits "2000-01-03T00:00:00.000Z" patched_thread
      doubled_store
    = Store.Fulfilled s'
    /\ Store.readThread "2000-01-04T00:00:00.000Z" "t0004" s'
       = Store.Known (Some patched_thread).
Proof.
  eexists. split; [vm_compute; reflexivity|].
  apply (written_thread_is_read_back StoreSpec.codeUnits "2000-01-03T00:00:00.000Z"
           "2000-01-04T00:00:00.000Z" patched_thread doubled_store).
  - vm_compute. reflexivity.
  - canonical_by_computation.
Defined.

(** X9.  [writeThread] leaves the other threads as they are: when the id of
    the thread is a file name as it stands (it has no slash and no
    backslash), [readThread] returns for every other such id, after the
    write, what it returned after the initialization of the task. *)
Theorem write_leaves_other_threads (localeCompare : string -> string -> Z)
  (now now' : string) (thread : PersistedThread) (s s' : Store.State) :
  StoreSpec.fileName (t_id thread) ->
  Store.writeThread localeCompare now thread s = Store.Fulfilled s' ->
  exists s0,
    Store.initialized localeCompare now s = Store.Fulfilled s0
    /\ forall other,
         StoreSpec.fileName other ->
         other <> t_id thread ->
         Store.readThread now' other s' = Store.readThread now' other s0.
Proof.
  unfold Store.writeThread. intros Hp H. apply plainName_spec in Hp.
  destruct (Store.initialized localeCompare now s) as [s0| | |]; try discriminate H.
  cbn [Store.andThen] in H.
  destruct (storeThread_files localeCompare thread s0 s' H) as (md & js & Em & Ej & _ & _ & Ho).
  destruct (entryName_threadFile _ Hp) as [Em' Ej'].
  rewrite Em' in Em. rewrite Ej' in Ej. injection Em as <-. injection Ej as <-.
  exists s0. split; [reflexivity|]. intros other Hq Hne. apply plainName_spec in Hq.
  apply (readThread_same_files _ _ _ _ Hq); apply Ho.
  - intros E. now apply threadFile_inj in E.
  - apply threadFile_not_legacy.
  - intros E. symmetry in E. now apply threadFile_not_legacy in E.
  - intros E. now apply legacyThreadFile_inj in E.
Qed.

Lemma write_leaves_other_threads_witness :
  exists s',
    Store.writeThread StoreSpec.codeUnits "2000-01-03T00:00:00.000Z" patched_thread
      quiet_store
    = Store.Fulfilled s'
    /\ exists s0,
         Store.initialized StoreSpec.codeUnits "2000-01-03T00:00:00.000Z" quiet_store
         = Store.Fulfilled s0
         /\ forall other,
              StoreSpec.fileName other ->
              other <> "t0004" ->
              Store.readThread "2000-01-04T00:00:00.000Z" other s'
              = Store.readThread "2000-01-04T00:00:00.000Z" other s0.
Proof.
  eexists. split; [vm_compute; reflexivity|].
  apply (write_leaves_other_threads StoreSpec.codeUnits "2000-01-03T00:00:00.000Z"
           "2000-01-04T00:00:00.000Z" patched_thread quiet_store).
  - split; reflexivity.
  - vm_compute. reflexivity.
Defined.

(** ** Deleting and listing *)

Section DeleteThread.
Import Json Store StoreSpec.
Variable localeCompare : string -> string -> Z.

Lemma tryDeleteThreadFile_files name s :
  fileText (filesOf (tryDeleteThreadFile name s) !! name) = None
  /\ forall other,
       other <> name -> filesOf (tryDeleteThreadFile name s) !! other = filesOf s !! other.
Proof.
  destruct (threadsDir (theRoot s)) as [d|] eqn:Hd.
  - destruct (tryDeleteThreadFile_threads name s d Hd) as (d' & Hd' & Hno & Ho).
    rewrite (filesOf_threadsDir _ _ Hd'), (filesOf_threadsDir _ _ Hd).
    split; [|exact Ho].
    destruct (d' !! name) as [[c|e]|] eqn:E; try reflexivity. now destruct (Hno c).
  - unfold tryDeleteThreadFile. rewrite Hd. unfold filesOf. rewrite Hd.
    cbv [default from_option]. split; [now rewrite lookup_empty|reflexivity].
Qed.

Lemma endsWith_length s p : JS.endsWith s p = true -> String.length p <= String.length s.
Proof.
  induction s as [|c s IH]; cbn [JS.endsWith]; intros H.
  - rewrite orb_false_r in H. apply String.eqb_eq in H. now subst.
  - apply orb_true_iff in H as [H|H].
    + apply String.eqb_eq in H. now subst.
    + apply IH in H. cbn [String.length]. lia.
Qed.

Lemma endsWith_sliceEnd s p :
  JS.endsWith s p = true -> s = sliceEnd (String.length p) s +:+ p.
Proof.
  induction s as [|c s IH]; cbn [JS.endsWith]; intros H.
  - rewrite orb_false_r in H. apply String.eqb_eq in H. now subst.
  - destruct (String.eqb_spec (String c s) p) as [E|E].
    + rewrite <- E. unfold sliceEnd. rewrite Nat.sub_diag.
      now destruct s.
    + cbn [orb] in H. pose proof (endsWith_length s p H) as L.
      unfold sliceEnd in *. cbn [String.length].
      replace (S (String.length s) - String.length p)
        with (S (String.length s - String.length p)) by lia.
      cbn [String.substring String.append]. f_equal. now apply IH.
Qed.

(** The names whose stem is an id. *)
Lemma stemOf_Some name node x :
  stemOf (name, node) = Some x ->
  isFile node = true /\ (name = threadFile x \/ name = legacyThreadFile x).
Proof.
  unfold stemOf. cbn [fst snd]. destruct (isFile node); [|discriminate].
  destruct (JS.endsWith name THREAD_MARKDOWN_EXTENSION) eqn:E1.
  - intros [= <-]. split; [reflexivity|]. left. now apply endsWith_sliceEnd in E1.
  - destruct (JS.endsWith name ".json") eqn:E2; [|discriminate].
    intros [= <-]. split; [reflexivity|]. right. now apply endsWith_sliceEnd in E2.
Qed.

Lemma isFile_fileText node : isFile node = true -> fileText (Some node) <> None.
Proof. now destruct node. Qed.

Lemma stemOf_legacyThreadFile threadId content :
  stemOf (legacyThreadFile threadId, File content) = Some threadId.
Proof.
  unfold stemOf, legacyThreadFile. cbn [fst snd isFile].
  destruct (JS.endsWith (threadId +:+ ".json") THREAD_MARKDOWN_EXTENSION) eqn:E.
  - exfalso. apply endsWith_sliceEnd in E. symmetry in E.
    now apply (threadFile_not_legacy _ threadId) in E.
  - rewrite endsWith_app. f_equal. exact (sliceEnd_app threadId ".json").
Qed.

(** An id is listed when the threads directory holds its Markdown file or
    its legacy file, and only then. *)
Lemma listThreadIds_files s x :
  In x (listThreadIds s)
  <-> fileText (filesOf s !! threadFile x) <> None
      \/ fileText (filesOf s !! legacyThreadFile x) <> None.
Proof.
  rewrite listThreadIds_In. split.
  - intros (d & name & node & Hd & Hl & Hs).
    rewrite (filesOf_threadsDir s d Hd).
    apply stemOf_Some in Hs as (Hf & [-> | ->]); [left|right];
      rewrite Hl; now apply isFile_fileText.
  - unfold filesOf. destruct (threadsDir (theRoot s)) as [d|]; cbv [default from_option id].
    + intros [H|H].
      * destruct (d !! threadFile x) as [[c|e]|] eqn:E; try (now destruct H).
        exists d, (threadFile x), (File c). split; [reflexivity|].
        split; [exact E|apply stemOf_threadFile].
      * destruct (d !! legacyThreadFile x) as [[c|e]|] eqn:E; try (now destruct H).
        exists d, (legacyThreadFile x), (File c). split; [reflexivity|].
        split; [exact E|apply stemOf_legacyThreadFile].
    + rewrite !lookup_empty. intros [H|H]; now destruct H.
Qed.

Lemma leb_total a b : String.leb a b = false -> String.leb b a = true.
Proof.
  unfold String.leb. rewrite (String.compare_antisym a b).
  destruct (String.compare b a); cbn [CompOpp]; congruence.
Qed.

Lemma filesOf_writeIndex threads s : filesOf (writeIndex threads s) = filesOf s.
Proof. reflexivity. Qed.

End DeleteThread.

(** X10.  After [deleteThread] is fulfilled the thread is gone: [readThread]
    returns nothing for its id, [listThreadIds] does not list the id, and
    the index file has no entry of the id. *)
Theorem deleted_thread_is_gone (localeCompare : string -> string -> Z)
  (now now' : string) (threadId : string) (s s' : Store.State) :
  Store.deleteThread localeCompare now threadId s = Store.Fulfilled s' ->
  Store.readThread now' threadId s' = Store.Known None
  /\ ~ In threadId (Store.listThreadIds s')
  /\ exists threads,
       Store.indexFile (Store.theRoot s') = Some (Store.indexText threads)
       /\ Forall (fun e => Store.e_id e <> threadId) threads.
Proof.
  intros H. apply deleteThread_Fulfilled in H as (s0 & index & _ & Hp & _ & ->).
  destruct (entryName_threadFile _ Hp) as [Em Ej].
  set (s1 := Store.tryDeleteThreadFile (Store.threadFile threadId) s0).
  destruct (tryDeleteThreadFile_files (Store.threadFile threadId) s0) as [M1 _].
  destruct (tryDeleteThreadFile_files (Store.legacyThreadFile threadId) s1) as [J2 O2].
  fold s1 in M1.
  assert (M2 : StoreSpec.fileText
                 (StoreSpec.filesOf
                    (Store.tryDeleteThreadFile (Store.legacyThreadFile threadId) s1)
                  !! Store.threadFile threadId) = None).
  { rewrite O2; [exact M1|apply threadFile_not_legacy]. }
  split; [|split].
  - rewrite (readThread_files _ _ _ _ _ Em Ej), filesOf_writeIndex, M2, J2. reflexivity.
  - rewrite listThreadIds_files, filesOf_writeIndex, M2, J2. intros [E|E]; now apply E.
  - eexists. split; [apply writeIndex_indexFile|].
    apply List.Forall_forall. intros e He. apply filter_In in He as [_ He].
    unfold Store.otherThan in He. apply negb_true_iff in He.
    now apply String.eqb_neq in He.
Qed.

Lemma deleted_thread_is_gone_witness :
  exists s',
    Store.deleteThread StoreSpec.codeUnits "2000-01-03T00:00:00.000Z" "t0001" quiet_store
    = Store.Fulfilled s'
    /\ Store.readThread "2000-01-04T00:00:00.000Z" "t0001" s' = Store.Known None
    /\ ~ In "t0001" (Store.listThreadIds s').
Proof.
  eexists. split; [vm_compute; reflexivity|].
  match goal with
  | |- Store.readThread _ _ ?s' = _ /\ _ =>
      destruct (deleted_thread_is_gone StoreSpec.codeUnits "2000-01-03T00:00:00.000Z"
                  "2000-01-04T00:00:00.000Z" "t0001" quiet_store s')
        as (H1 & H2 & _)
  end.
  - vm_compute. reflexivity.
  - split; assumption.
Defined.

(** X11.  [listThreadIds] returns the ids in the order of their code units,
    each once; an id is listed when, and only when, the threads directory
    holds its Markdown file or a legacy JSON file of that stem. *)
Theorem listed_ids_are_the_thread_files (s : Store.State) :
  Sorted (fun a b => String.leb a b = true) (Store.listThreadIds s)
  /\ List.NoDup (Store.listThreadIds s)
  /\ forall threadId,
       In threadId (Store.listThreadIds s)
       <-> StoreSpec.fileText (StoreSpec.filesOf s !! Store.threadFile threadId) <> None
           \/ StoreSpec.fileText (StoreSpec.filesOf s !! Store.legacyThreadFile threadId)
              <> None.
Proof.
  split; [|split; [apply listThreadIds_NoDup|apply listThreadIds_files]].
  unfold Store.listThreadIds. destruct (Store.threadsDir (Store.theRoot s)); [|constructor].
  apply sortBy_Sorted, leb_total.
Qed.

(** ** Stores with nothing to migrate *)

Section QuietStores.
Import Json Store StoreSpec.
Variable localeCompare : string -> string -> Z.

Ltac run_store :=
  cbv [ensureInitialized tryMigrateLegacyRootDir createThreadsDir createLegacyCommentsDir
       ensureAgentsFile ensureIndexFile withThreads withLegacyComments withAgents
       writeIndex withIndex withRoot withMigration theRoot tryMigrateLegacyCommentsDir
       tryMigrateLegacyThreadJsonFiles andThen default from_option id emptyRoot
       root threadsDir commentsDir indexFile agentsFile legacyRoot migrationInProgress
       legacyRootMigrated filesOf initializedStore].

Lemma ensureInitialized_quiet queued now s :
  quiet s -> ensureInitialized localeCompare queued now s = Fulfilled (initializedStore s).
Proof.
  destruct s as [r l m f]. unfold quiet, filesOf, theRoot.
  cbn [legacyRoot migrationInProgress root]. intros (-> & -> & H3 & H4).
  destruct r as [[t c i a]|]; cbv [default from_option id] in H3, H4;
    cbn [threadsDir commentsDir indexFile agentsFile emptyRoot] in H3, H4.
  - destruct t as [t|], c as [c|], i as [i|], a, f;
      run_store; rewrite ?H4; run_store; rewrite ?H3; reflexivity.
  - destruct f; run_store; rewrite ?H4; run_store; rewrite ?H3; reflexivity.
Qed.

End QuietStores.

Section QuietFacts.
Import Json Store StoreSpec.

Lemma initializedStore_files s : filesOf (initializedStore s) = filesOf s.
Proof. reflexivity. Qed.

Lemma initializedStore_quiet s : quiet s -> quiet (initializedStore s).
Proof. intros (H1 & H2 & H3 & H4). repeat split; assumption. Qed.

Lemma initializedStore_again s : initializedStore (initializedStore s) = initializedStore s.
Proof. reflexivity. Qed.

Lemma initializedStore_readIndex s : readIndex (initializedStore s) = readIndex s.
Proof.
  unfold readIndex at 2. destruct (indexFile (theRoot s)) as [raw|] eqn:E.
  - unfold readIndex, initializedStore, theRoot at 1. cbn [root default indexFile].
    rewrite E. reflexivity.
  - unfold readIndex, initializedStore, theRoot at 1. cbn [root default indexFile].
    rewrite E. vm_compute. reflexivity.
Qed.

End QuietFacts.

(** X12.  On a store with nothing to migrate and an index file that
    [readIndex] reads without throwing, [writeThread] is fulfilled for every
    thread whose id has no slash and no backslash, unless a directory has
    the name of the thread file. *)
Theorem write_settles_on_quiet_store (localeCompare : string -> string -> Z)
  (now : string) (thread : PersistedThread) (s : Store.State)
  (index : list Store.IndexEntry) :
  StoreSpec.quiet s ->
  StoreSpec.fileName (t_id thread) ->
  StoreSpec.isFolder (StoreSpec.filesOf s !! Store.threadFile (t_id thread)) = false ->
  Store.readIndex s = Json.Returned index ->
  exists s', Store.writeThread localeCompare now thread s = Store.Fulfilled s'.
Proof.
  intros Hq Hp Hf Hi. apply plainName_spec in Hp.
  destruct (entryName_threadFile _ Hp) as [Em Ej].
  unfold Store.writeThread, Store.initialized.
  rewrite (proj1 (proj2 Hq)), (ensureInitialized_quiet localeCompare true now s Hq).
  cbn [Store.andThen]. unfold Store.storeThread. rewrite Em, Ej.
  unfold Store.writeThreadFile.
  change (default ∅ (Store.threadsDir (Store.theRoot (StoreSpec.initializedStore s))))
    with (StoreSpec.filesOf s).
  assert (Hr : forall d,
             Store.readIndex
               (Store.tryDeleteThreadFile (Store.legacyThreadFile (t_id thread))
                  (Store.withThreads d (StoreSpec.initializedStore s)))
             = Json.Returned index).
  { intros d. rewrite <- Hi, <- (initializedStore_readIndex s).
    apply readIndex_indexFile. now rewrite tryDeleteThreadFile_indexFile. }
  destruct (StoreSpec.filesOf s !! Store.threadFile (t_id thread)) as [[c|e]|];
    try discriminate Hf; cbn [Store.andThen]; rewrite Hr; eexists; reflexivity.
Qed.

Lemma write_settles_on_quiet_store_witness :
  exists s',
    Store.writeThread StoreSpec.codeUnits "2000-01-03T00:00:00.000Z" patched_thread
      quiet_store
    = Store.Fulfilled s'.
Proof.
  apply (write_settles_on_quiet_store StoreSpec.codeUnits "2000-01-03T00:00:00.000Z"
           patched_thread quiet_store [Store.entryOf scenarioA_thread]).
  - vm_compute. repeat split; reflexivity.
  - split; reflexivity.
  - vm_compute. reflexivity.
  - vm_compute. reflexivity.
Defined.

(** X13.  On a store with nothing to migrate, [ensureInitialized] is
    fulfilled; it keeps the thread files and the entries of the index, and
    a second initialization changes nothing. *)
Theorem initialization_is_idempotent (localeCompare : string -> string -> Z)
  (queued queued' : bool) (now now' : string) (s : Store.State) :
  StoreSpec.quiet s ->
  exists s1,
    Store.ensureInitialized localeCompare queued now s = Store.Fulfilled s1
    /\ StoreSpec.filesOf s1 = StoreSpec.filesOf s
    /\ Store.readIndex s1 = Store.readIndex s
    /\ Store.ensureInitialized localeCompare queued' now' s1 = Store.Fulfilled s1.
Proof.
  intros Hq. exists (StoreSpec.initializedStore s).
  split; [now apply ensureInitialized_quiet|]. split; [reflexivity|].
  split; [apply initializedStore_readIndex|].
  rewrite (ensureInitialized_quiet localeCompare queued' now' _ (initializedStore_quiet s Hq)).
  now rewrite initializedStore_again.
Qed.

Lemma initialization_is_idempotent_witness :
  exists s1,
    Store.ensureInitialized StoreSpec.codeUnits true "2000-01-03T00:00:00.000Z" quiet_store
    = Store.Fulfilled s1
    /\ StoreSpec.filesOf s1 = StoreSpec.filesOf quiet_store
    /\ Store.readIndex s1 = Store.readIndex quiet_store
    /\ Store.ensureInitialized StoreSpec.codeUnits false "2000-01-04T00:00:00.000Z" s1
       = Store.Fulfilled s1.
Proof.
  apply (initialization_is_idempotent StoreSpec.codeUnits true false
           "2000-01-03T00:00:00.000Z" "2000-01-04T00:00:00.000Z" quiet_store).
  vm_compute. repeat split; reflexivity.
Defined.

(** ** Offsets and positions *)

(** X14. [buildLineStarts] lists the line starts of a text in strictly
    increasing order, and for every offset that is not negative the binary
    search of [offsetToPosition] returns the last line that starts at or
    before the offset, with the distance from that line start as the
    character. *)
Theorem offset_is_on_the_located_line (text : string) (offset : Z) :
  (0 <= offset)%Z ->
  RelocateSpec.increasing (Relocate.buildLineStarts text)
  /\ RelocateSpec.locates (Relocate.buildLineStarts text) offset
       (Relocate.offsetToPosition (Relocate.buildLineStarts text) offset).
Proof.
  intros Hoff. split.
  - apply buildLineStarts_increasing.
  - now apply offsetToPosition_locates.
Qed.

Lemma offset_is_on_the_located_line_witness :
  (0 <= 9)%Z
  /\ RelocateSpec.increasing (Relocate.buildLineStarts scenarioA_text)
  /\ RelocateSpec.locates (Relocate.buildLineStarts scenarioA_text) 9%Z
       (Relocate.offsetToPosition
          (Relocate.buildLineStarts scenarioA_text) 9%Z).
Proof.
  split; [lia | apply offset_is_on_the_located_line; lia].
Defined.

(** ** The storage root stays inside the workspace *)

Section StorageRoot.
Import PathResolver PathSpec.

Lemma splitChar_keeps c sep s :
  JS.includesChar c s = false ->
  Forall (fun seg => JS.includesChar c seg = false) (JS.splitChar sep s).
Proof.
  induction s as [|d r IH]; intros H.
  - repeat constructor.
  - cbn [JS.includesChar] in H. apply orb_false_iff in H as [Hd Hr].
    specialize (IH Hr). cbn [JS.splitChar].
    destruct (Ascii.eqb d sep).
    + constructor; [reflexivity|exact IH].
    + destruct (JS.splitChar sep r) as [|l ls].
      * repeat constructor. cbn [JS.includesChar]. now rewrite Hd.
      * inversion IH as [|? ? Hl Hls]; subst. constructor; [|exact Hls].
        cbn [JS.includesChar]. now rewrite Hd, Hl.
Qed.

Lemma splitChar_noSep sep s :
  Forall (fun seg => JS.includesChar sep seg = false) (JS.splitChar sep s).
Proof.
  induction s as [|d r IH]; cbn [JS.splitChar].
  - repeat constructor.
  - destruct (Ascii.eqb d sep) eqn:E.
    + constructor; [reflexivity|exact IH].
    + rewrite Ascii.eqb_sym in E.
      destruct (JS.splitChar sep r) as [|l ls].
      * repeat constructor. cbn [JS.includesChar]. now rewrite E.
      * inversion IH as [|? ? Hl Hls]; subst. constructor; [|exact Hls].
        cbn [JS.includesChar]. now rewrite E, Hl.
Qed.

Lemma slashes_noBackslash s : JS.includesChar BACKSLASH (slashes s) = false.
Proof.
  induction s as [|c r IH]; [reflexivity|].
  cbn [slashes JS.includesChar]. rewrite IH, orb_false_r.
  destruct (Ascii.eqb c BACKSLASH) eqn:E; [reflexivity|].
  now rewrite Ascii.eqb_sym.
Qed.

Lemma split_separatorFree s :
  JS.includesChar BACKSLASH s = false ->
  Forall separatorFree (JS.splitChar SLASH s).
Proof.
  intros H. pose proof (splitChar_noSep SLASH s) as H1.
  pose proof (splitChar_keeps BACKSLASH SLASH s H) as H2.
  rewrite Forall_forall in *. intros seg Hin. split; auto.
Qed.

Lemma pushSegment_climbing stack seg :
  separatorFree seg -> climbing stack -> climbing (pushSegment true stack seg).
Proof.
  intros [Hs Hb] Hst. unfold pushSegment.
  destruct (String.eqb_spec seg "") as [|Hne]; [exact Hst|].
  destruct (String.eqb_spec seg ".") as [|Hnd]; [exact Hst|].
  cbn [orb].
  destruct (String.eqb_spec seg "..") as [->|Hndd].
  - destruct Hst as [k|top below Hp Hbelow].
    + destruct k as [|k]; cbn [repeat].
      * exact (climbing_up 1).
      * exact (climbing_up (S (S k))).
    + destruct (String.eqb_spec top "..") as [->|_]; [|exact Hbelow].
      destruct Hp as (_ & _ & Hp & _). now elim Hp.
  - apply climbing_seg; [|exact Hst]. repeat split; assumption.
Qed.

Lemma fold_climbing segs stack :
  Forall separatorFree segs -> climbing stack ->
  climbing (fold_left (pushSegment true) segs stack).
Proof.
  intros H. revert stack. induction H as [|seg segs Hseg _ IH]; intros stack Hst.
  - exact Hst.
  - cbn [fold_left]. apply IH. now apply pushSegment_climbing.
Qed.

Lemma climbing_rev stack :
  climbing stack ->
  rev stack = []
  \/ (exists tl, rev stack = ".." :: tl)
  \/ (rev stack <> [] /\ Forall plainSegment (rev stack)).
Proof.
  induction 1 as [k|seg stack Hp _ IH].
  - induction k as [|k IHk]; [now left|].
    right; left. cbn [repeat rev].
    destruct IHk as [->|[[tl ->]|[Hne Hall]]].
    + now exists [].
    + now exists (tl ++ [".."]).
    + destruct k as [|k]; [now elim Hne|].
      exfalso. cbn [repeat rev] in Hall.
      apply Forall_app in Hall as [_ Hall].
      inversion Hall as [|? ? (_ & _ & Hdd & _) _]; subst. now elim Hdd.
  - cbn [rev]. destruct IH as [->|[[tl ->]|[Hne Hall]]].
    + right; right. split; [discriminate|]. constructor; [exact Hp|constructor].
    + right; left. now exists (tl ++ [seg]).
    + right; right. split.
      * intros E. now apply app_eq_nil in E as [_ E].
      * apply Forall_app. split; [exact Hall|]. constructor; [exact Hp|constructor].
Qed.

Lemma stripDotSlash_other s :
  JS.startsWith s "./" = false -> stripDotSlash s = s.
Proof.
  destruct s as [|c r]; [reflexivity|].
  destruct c as [[] [] [] [] [] [] [] []]; try reflexivity.
  destruct r as [|d r]; [reflexivity|].
  destruct d as [[] [] [] [] [] [] [] []]; try reflexivity.
  discriminate.
Qed.

Lemma allSlashes_strip t : allSlashes t = true -> stripTrailingSlashes t = "".
Proof.
  destruct t as [|c r]; [reflexivity|]. intros H.
  cbn [stripTrailingSlashes]. now rewrite H.
Qed.

Lemma strip_segment a t :
  JS.includesChar SLASH a = false ->
  stripTrailingSlashes (a +:+ t) = a +:+ stripTrailingSlashes t.
Proof.
  induction a as [|c r IH]; intros H; [reflexivity|].
  cbn [JS.includesChar] in H. apply orb_false_iff in H as [Hc Hr].
  rewrite Ascii.eqb_sym in Hc.
  change (String c r +:+ t) with (String c (r +:+ t)).
  cbn [stripTrailingSlashes allSlashes]. rewrite Hc. cbn [andb].
  now rewrite (IH Hr).
Qed.

Lemma join_head segs :
  segs <> [] -> Forall plainSegment segs ->
  exists c r, JS.join "/" segs = String c r /\ Ascii.eqb c SLASH = false
              /\ forall x, JS.startsWith (String c r +:+ x) "./" = false.
Proof.
  intros Hne Hall. destruct segs as [|a l]; [now elim Hne|].
  inversion Hall as [|? ? (Ha & Hd & _ & Hs & _) _]; subst.
  destruct a as [|c r]; [now elim Ha|].
  cbn [JS.includesChar] in Hs. apply orb_false_iff in Hs as [Hc Hr].
  assert (Hhead : forall x, JS.startsWith (String c r +:+ x) "./" = false
                            \/ (r = "" /\ c = "."%char)).
  { intros x. destruct r as [|d r'].
    - destruct (Ascii.eqb_spec "."%char c) as [<-|Hn]; [now right|left].
      unfold JS.startsWith. cbn [JS.isPrefix String.append].
      destruct (Ascii.eqb_spec "."%char c); [contradiction|reflexivity].
    - left. cbn [JS.includesChar] in Hr. apply orb_false_iff in Hr as [Hd' _].
      unfold JS.startsWith. cbn [JS.isPrefix String.append].
      unfold SLASH in Hd'. rewrite Hd'. now rewrite andb_false_r. }
  rewrite Ascii.eqb_sym in Hc.
  destruct l as [|b l].
  - exists c, r. cbn [JS.join]. repeat split; [exact Hc|]. intros x.
    destruct (Hhead x) as [H|[-> ->]]; [exact H|now elim Hd].
  - exists c, (r +:+ "/" +:+ JS.join "/" (b :: l)). repeat split; [exact Hc|].
    intros x.
    destruct (Hhead (("/" +:+ JS.join "/" (b :: l)) +:+ x)) as [H|[-> ->]];
      [|now elim Hd].
    change (String c (r +:+ "/" +:+ JS.join "/" (b :: l)))
      with (String c r +:+ ("/" +:+ JS.join "/" (b :: l))).
    now rewrite sapp_assoc.
Qed.

Lemma strip_join segs t :
  segs <> [] -> Forall plainSegment segs -> allSlashes t = true ->
  stripTrailingSlashes (JS.join "/" segs +:+ t) = JS.join "/" segs.
Proof.
  intros Hne Hall Ht. induction segs as [|a l IH]; [now elim Hne|].
  inversion Hall as [|? ? Hpa Hl]; subst.
  destruct Hpa as (_ & _ & _ & Hs & _).
  destruct l as [|b l].
  - cbn [JS.join]. rewrite (strip_segment _ _ Hs), (allSlashes_strip _ Ht).
    apply sapp_nil_r.
  - change (JS.join "/" (a :: b :: l)) with (a +:+ "/" +:+ JS.join "/" (b :: l)).
    rewrite sapp_assoc, (strip_segment _ _ Hs). f_equal.
    assert (Hb : b :: l <> []) by discriminate.
    specialize (IH Hb Hl).
    destruct (join_head (b :: l) Hb Hl) as (c & r & E & Hc & _).
    rewrite sapp_assoc.
    change ("/" +:+ (JS.join "/" (b :: l) +:+ t))
      with (String "/" (JS.join "/" (b :: l) +:+ t)).
    cbn [stripTrailingSlashes allSlashes]. rewrite IH.
    rewrite E at 1. change (String c r +:+ t) with (String c (r +:+ t)).
    cbn [allSlashes]. rewrite Hc. now rewrite andb_false_r.
Qed.

Lemma climbed_rejected r :
  r = "" \/ (exists r', r = String "/" r') ->
  rejectedResult (stripTrailingSlashes (String "." (String "." r))) = true.
Proof.
  intros [->|[r' ->]]; [reflexivity|].
  cbn [stripTrailingSlashes allSlashes]. cbn.
  destruct (allSlashes r'); reflexivity.
Qed.

Lemma default_staysInside : staysInside DEFAULT_STORAGE_PATH.
Proof.
  exists [DEFAULT_STORAGE_PATH]. split; [discriminate|]. split; [|reflexivity].
  repeat constructor; discriminate.
Qed.

Lemma trimmed_staysInside s :
  JS.startsWith s "/" = false -> JS.includesChar BACKSLASH s = false ->
  rejectedResult (stripTrailingSlashes (stripDotSlash (posix_normalize s))) = true
  \/ staysInside (stripTrailingSlashes (stripDotSlash (posix_normalize s))).
Proof.
  intros Hstart Hback. destruct s as [|c0 r0]; [now left|].
  unfold posix_normalize.
  assert (Habs : Ascii.eqb c0 SLASH = false).
  { unfold JS.startsWith in Hstart. cbn [JS.isPrefix] in Hstart.
    rewrite andb_true_r in Hstart. now rewrite Ascii.eqb_sym. }
  rewrite Habs. cbn [negb].
  set (s := String c0 r0) in *.
  set (trailing := match lastChar s with Some c => Ascii.eqb c SLASH | None => false end).
  pose proof (fold_climbing _ [] (split_separatorFree s Hback) (climbing_up 0)) as Hcl.
  apply climbing_rev in Hcl. unfold normalizeString.
  set (l := rev (fold_left (pushSegment true) (JS.splitChar SLASH s) [])) in *.
  destruct Hcl as [->|[[tl ->]|[Hne Hall]]].
  - left. cbn [JS.join String.eqb]. destruct trailing; reflexivity.
  - left.
    assert (E : exists x, JS.join "/" (".." :: tl) = String "." (String "." x)
                          /\ (x = "" \/ exists x', x = String "/" x')).
    { destruct tl as [|b tl].
      - exists "". split; [reflexivity|now left].
      - exists ("/" +:+ JS.join "/" (b :: tl)). split; [reflexivity|].
        right. now exists (JS.join "/" (b :: tl)). }
    destruct E as (x & -> & Hx). cbn [String.eqb Ascii.eqb Bool.eqb].
    cbn.
    destruct trailing.
    + change (stripDotSlash (String "." (String "." ?y))) with (String "." (String "." y)).
      apply climbed_rejected. right.
      destruct Hx as [->|[x' ->]]; [now exists ""|now exists (x' +:+ "/")].
    + change (stripDotSlash (String "." (String "." ?y))) with (String "." (String "." y)).
      apply climbed_rejected. exact Hx.
  - destruct (join_head l Hne Hall) as (c & r & E & Hc & Hdot).
    assert (Hp : String.eqb (JS.join "/" l) "" = false) by now rewrite E.
    rewrite Hp. cbn [Ascii.eqb].
    assert (E' : (if trailing then (JS.join "/" l ++ "/")%string else JS.join "/" l)
                 = JS.join "/" l +:+ (if trailing then "/" else "")).
    { destruct trailing; [reflexivity|now rewrite sapp_nil_r]. }
    rewrite E'.
    rewrite stripDotSlash_other.
    2:{ rewrite E. apply Hdot. }
    rewrite strip_join; [|exact Hne|exact Hall|now destruct trailing].
    right. now exists l.
Qed.

End StorageRoot.

(** X15. Whatever the configured value, [normalizeStoragePath] returns a
    relative path of one or more segments joined by [/] in which no segment
    is empty, [.] or [..] and no segment holds a slash or a backslash: the
    storage root never leaves the workspace folder. *)
Theorem storage_root_stays_inside (value : string) :
  PathSpec.staysInside (PathResolver.normalizeStoragePath value).
Proof.
  unfold PathResolver.normalizeStoragePath.
  destruct (String.eqb (JS.trim value) ""); [apply default_staysInside|].
  destruct (JS.includesChar JS.NUL (JS.trim value)); [apply default_staysInside|].
  destruct (JS.startsWith (PathResolver.slashes (JS.trim value)) "/") eqn:Hs;
    [apply default_staysInside|].
  cbn [orb].
  destruct (JS.startsWith (PathResolver.slashes (JS.trim value)) "//");
    [apply default_staysInside|].
  destruct (PathResolver.hasDrivePrefix _); [apply default_staysInside|].
  unfold PathResolver.trimmedPath.
  destruct (trimmed_staysInside _ Hs (slashes_noBackslash (JS.trim value))) as [H|H].
  - rewrite H. apply default_staysInside.
  - destruct (PathResolver.rejectedResult _); [apply default_staysInside|exact H].
Qed.
(** ** Hunk headers and the lines of a hunk *)

Section HunkHeaders.
Import Json JsonSpec Diff HunkSpec.
Local Open Scope Z_scope.

Lemma stripPrefix_app p x : JS.stripPrefix p (p +:+ x) = Some x.
Proof.
  induction p as [|c p IH]; [reflexivity|].
  cbn [String.append JS.stripPrefix]. now rewrite Ascii.eqb_refl.
Qed.


Lemma numeral_spec n :
  0 <= n ->
  allDigits (numeral n) = true /\ numeral n <> "" /\ JS.numberOfDigits (numeral n) = n.
Proof.
  intros H. destruct (digitsOf_spec n H) as (H1 & H2 & H3 & _). auto.
Qed.

Lemma eqb_numeral_empty n : 0 <= n -> String.eqb (numeral n) "" = false.
Proof.
  intros H. destruct (numeral_spec n H) as (_ & Hne & _).
  now destruct (String.eqb_spec (numeral n) "").
Qed.

(** A number and its optional count, before a space. *)
Lemma matchStartCount_numeral n count r :
  0 <= n -> countOk count ->
  matchStartCount (numeral n +:+ countText count +:+ String " " r)
  = Some (numeral n, countDigits count, String " " r).
Proof.
  intros Hn Hc. destruct (numeral_spec n Hn) as (Hd & _ & _).
  unfold matchStartCount. destruct count as [m|]; cbn [countText countDigits option_map].
  - destruct (numeral_spec m Hc) as (Hd' & _ & _).
    change (("," +:+ numeral m) +:+ String " " r)
      with (String "," (numeral m +:+ String " " r)).
    rewrite (spanDigits_digits (numeral n) _ Hd) by reflexivity.
    rewrite (eqb_numeral_empty n Hn).
    rewrite (spanDigits_digits (numeral m) _ Hd') by reflexivity.
    now rewrite (eqb_numeral_empty m Hc).
  - change ("" +:+ String " " r) with (String " " r).
    rewrite (spanDigits_digits (numeral n) _ Hd) by reflexivity.
    now rewrite (eqb_numeral_empty n Hn).
Qed.

Lemma headerLine_parts a b c d rest :
  headerLine a b c d rest
  = "@@ -" +:+ (numeral a +:+ countText b
                +:+ String " " ("+" +:+ (numeral c +:+ countText d
                                         +:+ String " " ("@@" +:+ rest)))).
Proof. reflexivity. Qed.

(** [HUNK_RE] reads the numerals of a header line. *)
Lemma HUNK_RE_headerLine a b c d rest :
  0 <= a -> 0 <= c -> countOk b -> countOk d -> noLineTerminator rest = true ->
  HUNK_RE (headerLine a b c d rest)
  = Some {| m_oldStart := numeral a; m_oldLines := countDigits b;
            m_newStart := numeral c; m_newLines := countDigits d;
            m_rest := rest |}.
Proof.
  intros Ha Hc Hb Hd Hr. rewrite headerLine_parts. unfold HUNK_RE.
  rewrite stripPrefix_app, (matchStartCount_numeral a b _ Ha Hb).
  change (JS.stripPrefix " +" (String " " ("+" +:+ ?x))) with (Some x).
  cbv iota. rewrite (matchStartCount_numeral c d _ Hc Hd).
  change (JS.stripPrefix " @@" (String " " ("@@" +:+ rest))) with (Some rest).
  cbv iota. now rewrite Hr.
Qed.

(** A line that begins with a space, [+] or [-] is no header line. *)
Lemma HUNK_RE_lineText l : HUNK_RE (lineText l) = None.
Proof. now destruct l. Qed.

Lemma oneLine_noLineTerminator text : oneLine text -> noLineTerminator text = true.
Proof. intros [H1 H2]. unfold noLineTerminator. now rewrite H1, H2. Qed.

Lemma numeral_oneLine n c :
  0 <= n -> JS.isDigit c = false -> JS.includesChar c (numeral n) = false.
Proof.
  intros Hn Hc. destruct (numeral_spec n Hn) as (Hd & _ & _).
  induction (numeral n) as [|x s IH]; [reflexivity|].
  cbn [allDigits] in Hd. apply andb_true_iff in Hd as [Hx Hs].
  cbn [JS.includesChar]. rewrite (IH Hs), orb_false_r.
  destruct (Ascii.eqb_spec c x); [congruence|reflexivity].
Qed.

Lemma countText_oneLine count c :
  countOk count -> JS.isDigit c = false -> c <> ","%char ->
  JS.includesChar c (countText count) = false.
Proof.
  intros Hk Hc Hcomma. destruct count as [m|]; [|reflexivity].
  cbn [countText]. change ("," +:+ numeral m) with (String "," (numeral m)).
  cbn [JS.includesChar]. rewrite (numeral_oneLine m c Hk Hc), orb_false_r.
  now destruct (Ascii.eqb_spec c ",").
Qed.

Lemma headerLine_includesChar a b c d rest x :
  0 <= a -> 0 <= c -> countOk b -> countOk d ->
  JS.isDigit x = false -> JS.includesChar x "@@ -, +" = false ->
  JS.includesChar x rest = false ->
  JS.includesChar x (headerLine a b c d rest) = false.
Proof.
  intros Ha Hc Hb Hd Hx Hp Hr. unfold headerLine.
  assert (Hcomma : x <> ","%char).
  { intros ->. discriminate Hp. }
  rewrite !includesChar_app, (numeral_oneLine a x Ha Hx), (numeral_oneLine c x Hc Hx),
    (countText_oneLine b x Hb Hx Hcomma), (countText_oneLine d x Hd Hx Hcomma), Hr.
  cbn [JS.includesChar] in *.
  repeat (apply orb_false_iff in Hp as [? Hp]).
  repeat (apply orb_false_iff; split); assumption || reflexivity.
Qed.

Lemma lineText_oneLine l : bodyLineOk l -> oneLine (lineText l).
Proof.
  destruct l as [t|t|t]; cbn [bodyLineOk lineText];
    [intros [H1 H2]|intros [[H1 H2] _]|intros [[H1 H2] _]];
    split; cbn [String.append JS.includesChar]; rewrite ?H1, ?H2; reflexivity.
Qed.

(** The lines of the text of a hunk. *)
Lemma splitLines_lines l ls :
  Forall oneLine (l :: ls) -> JS.splitLines (JS.join NL (l :: ls)) = l :: ls.
Proof.
  intros H. unfold JS.splitLines. rewrite replaceCRLF_noCR.
  - rewrite splitLF_join.
    induction H as [|x xs [Hx _] _ IH]; [reflexivity|].
    cbn [map concat]. rewrite (splitLF_noLF x Hx). cbn [app]. now f_equal.
  - apply includesChar_join; [reflexivity|].
    eapply Forall_impl; [exact H|]. now intros x [_ Hx].
Qed.

Lemma splitLines_hunkText a b c d rest body :
  0 <= a -> 0 <= c -> countOk b -> countOk d -> oneLine rest ->
  Forall bodyLineOk body ->
  JS.splitLines (hunkText a b c d rest body)
  = headerLine a b c d rest :: map lineText body.
Proof.
  intros Ha Hc Hb Hd [Hr1 Hr2] Hbody. unfold hunkText. apply splitLines_lines.
  constructor.
  - split; apply headerLine_includesChar; auto.
  - apply Forall_map. eapply Forall_impl; [exact Hbody|]. apply lineText_oneLine.
Qed.

End HunkHeaders.

Section AddedRuns.
Import Json Diff HunkSpec.
Local Open Scope Z_scope.

Lemma addedRuns_added newLine text body :
  addedRuns newLine (Added text :: body)
  = continuedRuns {| start := newLine; end_ := newLine |} (newLine + 1) body.
Proof. destruct body as [|[t|t|t] body]; reflexivity. Qed.

Lemma continuedRuns_added open newLine text body :
  continuedRuns open newLine (Added text :: body)
  = continuedRuns {| start := start open; end_ := newLine |} (newLine + 1) body.
Proof.
  unfold continuedRuns at 1. rewrite addedRuns_added.
  destruct body as [|[t|t|t] body]; try reflexivity.
  unfold continuedRuns. destruct (addedRuns (newLine + 1) (Added t :: body)); reflexivity.
Qed.

Lemma rangeStep_kept st text :
  inHunk st = true ->
  rangeStep st (lineText (Kept text))
  = {| ranges := ranges (flush st); current := None; inHunk := true;
       newLine := newLine st + 1 |}.
Proof.
  destruct st as [r cur i n]. cbn [inHunk]. intros ->. unfold rangeStep.
  cbn [lineText inHunk negb].
  change (HUNK_RE (" " +:+ text)) with (@None HunkMatch).
  change (JS.startsWith (" " +:+ text) "+") with false.
  change (JS.startsWith (" " +:+ text) "-") with false.
  change (JS.startsWith (" " +:+ text) " ") with true.
  cbn [negb andb]. now destruct cur.
Qed.

Lemma rangeStep_removed st text :
  inHunk st = true -> JS.startsWith text "--" = false ->
  rangeStep st (lineText (Removed text)) = flush st.
Proof.
  destruct st as [r cur i n]. cbn [inHunk]. intros -> Ht. unfold rangeStep.
  cbn [lineText inHunk negb].
  change (HUNK_RE ("-" +:+ text)) with (@None HunkMatch).
  change (JS.startsWith ("-" +:+ text) "+") with false.
  change (JS.startsWith ("-" +:+ text) "---") with (JS.startsWith text "--").
  change (JS.startsWith ("-" +:+ text) "-") with true.
  rewrite Ht. reflexivity.
Qed.

Lemma rangeStep_added st text :
  inHunk st = true -> JS.startsWith text "++" = false ->
  match current st with Some c => end_ c + 1 = newLine st | None => True end ->
  rangeStep st (lineText (Added text))
  = {| ranges := ranges st;
       current := Some {| start := match current st with
                                   | Some c => start c
                                   | None => newLine st
                                   end;
                          end_ := newLine st |};
       inHunk := true;
       newLine := newLine st + 1 |}.
Proof.
  destruct st as [r cur i n]. cbn [inHunk current newLine ranges]. intros -> Ht Hc.
  unfold rangeStep. cbn [lineText inHunk negb current newLine ranges].
  change (HUNK_RE ("+" +:+ text)) with (@None HunkMatch).
  change (JS.startsWith ("+" +:+ text) "+++") with (JS.startsWith text "++").
  change (JS.startsWith ("+" +:+ text) "+") with true.
  rewrite Ht. cbn [negb andb].
  destruct cur as [c|]; [|reflexivity].
  rewrite <- Hc, Z.eqb_refl. reflexivity.
Qed.

(** The scan of the body of a hunk. *)
Lemma rangeScan_body body st :
  inHunk st = true ->
  match current st with Some c => end_ c + 1 = newLine st | None => True end ->
  Forall bodyLineOk body ->
  ranges (flush (fold_left rangeStep (map lineText body) st))
  = ranges st
    ++ match current st with
       | Some c => continuedRuns c (newLine st) body
       | None => addedRuns (newLine st) body
       end.
Proof.
  intros Hin Hc Hbody. revert st Hin Hc.
  induction Hbody as [|l body Hl _ IH]; intros st Hin Hc.
  - cbn [map fold_left]. unfold flush. destruct (current st) as [c|]; cbn [ranges].
    + reflexivity.
    + now rewrite app_nil_r.
  - cbn [map fold_left]. destruct l as [t|t|t]; cbn [bodyLineOk] in Hl.
    + rewrite (rangeStep_kept st t Hin), IH by reflexivity.
      cbn [ranges current newLine]. unfold flush.
      destruct (current st) as [c|]; cbn [ranges]; [|reflexivity].
      now rewrite <- app_assoc.
    + destruct Hl as [_ Ht]. rewrite (rangeStep_added st t Hin Ht Hc), IH by reflexivity.
      cbn [ranges current newLine].
      destruct (current st) as [c|]; [now rewrite continuedRuns_added|].
      now rewrite addedRuns_added.
    + destruct Hl as [_ Ht]. rewrite (rangeStep_removed st t Hin Ht).
      rewrite IH; [| |now rewrite flush_current].
      * rewrite flush_current, flush_newLine. unfold flush.
        destruct (current st) as [c|]; cbn [ranges]; [|reflexivity].
        now rewrite <- app_assoc.
      * unfold flush. now destruct (current st).
Qed.

Lemma changed_ranges_of_hunk a b c d rest body :
  0 <= a -> 0 <= c -> countOk b -> countOk d -> oneLine rest ->
  Forall bodyLineOk body ->
  parseUnifiedDiffChangedLineRanges (hunkText a b c d rest body) = addedRuns c body.
Proof.
  intros Ha Hc Hb Hd Hr Hbody. unfold parseUnifiedDiffChangedLineRanges.
  rewrite (splitLines_hunkText a b c d rest body Ha Hc Hb Hd Hr Hbody).
  cbn [fold_left]. unfold rangeStep at 2.
  rewrite (HUNK_RE_headerLine a b c d rest Ha Hc Hb Hd (oneLine_noLineTerminator _ Hr)).
  cbn [flush current ranges m_newStart].
  rewrite (proj2 (proj2 (numeral_spec c Hc))).
  now rewrite rangeScan_body.
Qed.

End AddedRuns.




(** ** The approximate line *)

Section ApproximateLine.
Import Json JsonSpec Diff HunkSpec Relocate RelocateSpec.
Local Open Scope Z_scope.

Lemma approxAt_headerLine a b c d rest :
  0 <= a -> 0 <= c -> countOk b -> countOk d ->
  approxAt (headerLine a b c d rest) = Some (numeral c).
Proof.
  intros Ha Hc Hb Hd. rewrite headerLine_parts. unfold approxAt.
  rewrite stripPrefix_app, (matchStartCount_numeral a b _ Ha Hb).
  change (JS.stripPrefix " +" (String " " ("+" +:+ ?x))) with (Some x).
  cbv iota. rewrite (matchStartCount_numeral c d _ Hc Hd).
  reflexivity.
Qed.

Lemma approxSearch_headerLine a b c d rest :
  0 <= a -> 0 <= c -> countOk b -> countOk d ->
  approxSearch (headerLine a b c d rest) = Some (numeral c).
Proof.
  intros Ha Hc Hb Hd. pose proof (approxAt_headerLine a b c d rest Ha Hc Hb Hd) as H.
  destruct (headerLine a b c d rest); cbn [approxSearch]; now rewrite H.
Qed.

Lemma stripPrefix_isPrefix p s : JS.isPrefix p s = false -> JS.stripPrefix p s = None.
Proof.
  revert s. induction p as [|c p IH]; intros s; [discriminate|].
  destruct s as [|x s]; [reflexivity|]. cbn [JS.isPrefix JS.stripPrefix].
  destruct (Ascii.eqb c x); [apply IH|reflexivity].
Qed.

(** A header without [@@ -] has no part the relocation reads. *)
Lemma approxSearch_none h : JS.includes h "@@ -" = false -> approxSearch h = None.
Proof.
  induction h as [|c r IH]; cbn [JS.includes]; intros H.
  - reflexivity.
  - apply orb_false_iff in H as [Hp Hr].
    cbn [approxSearch]. unfold approxAt. rewrite (stripPrefix_isPrefix _ _ Hp).
    now apply IH.
Qed.

Lemma safe_isFinite c : c <= MAX_SAFE -> isFinite c = true.
Proof.
  intros H. unfold isFinite. apply Z.ltb_lt.
  assert (MAX_SAFE < 2 ^ 1024 - 2 ^ 970) by (vm_compute; reflexivity). lia.
Qed.

(** [getApproximateLine] computes the approximate line of the
    specification. *)
Lemma getApproximateLine_approximate rng hh approx :
  approximateLine rng hh approx -> getApproximateLine rng hh = approx.
Proof.
  intros [a b c d rest Ha Hc Hb Hd|_|h Hh _]; unfold getApproximateLine.
  - rewrite (approxSearch_headerLine a b c d rest Ha (proj1 Hc) Hb Hd).
    change (String.eqb (headerLine a b c d rest) "") with false. cbv iota zeta.
    rewrite (proj2 (proj2 (numeral_spec c (proj1 Hc)))).
    now rewrite (safe_isFinite c (proj2 Hc)).
  - reflexivity.
  - rewrite (approxSearch_none h Hh). now destruct (String.eqb h "").
Qed.

End ApproximateLine.




(** ** Relocation of a thread that is where it was *)

Section Stable.
Import Relocate RelocateSpec.
Local Open Scope Z_scope.

Lemma locates_unique ls o p q :
  increasing ls -> locates ls o p -> locates ls o q -> p = q.
Proof.
  intros Hinc (s & Hs & Hle & Hc & Hab) (t & Ht & Hle' & Hc' & Hab').
  assert (Hl : line p = line q).
  { destruct (Z.lt_trichotomy (line p) (line q)) as [H|[H|H]]; [|exact H|].
    - pose proof (Hab _ _ Ht H). lia.
    - pose proof (Hab' _ _ Hs H). lia. }
  destruct p as [lp cp], q as [lq cq]. cbn [line character] in *. subst lq.
  assert (s = t) by congruence. subst t. f_equal. lia.
Qed.

(** *** The text around an occurrence *)

Lemma isPrefix_split p s : JS.isPrefix p s = true -> exists x, s = p +:+ x.
Proof.
  revert s. induction p as [|a p IH]; intros s H.
  - now exists s.
  - destruct s as [|b s]; [discriminate|]. cbn [JS.isPrefix] in H.
    apply andb_true_iff in H as [Hab Hp]. apply Ascii.eqb_eq in Hab. subst b.
    destruct (IH s Hp) as [x ->]. now exists x.
Qed.

Lemma dropChars_split (k : nat) text :
  (k <= String.length text)%nat ->
  exists pre, text = pre +:+ dropChars k text /\ String.length pre = k.
Proof.
  revert text. induction k as [|k IH]; intros text Hk.
  - now exists "".
  - destruct text as [|c r]; [simpl in Hk; lia|].
    destruct (IH r) as (pre & Hr & Hl); [simpl in Hk; lia|].
    exists (String c pre). cbn [dropChars String.length]. split; [|now rewrite Hl].
    cbn [String.append]. now rewrite <- Hr.
Qed.

Lemma occursAt_split sel text o :
  occursAt sel text o ->
  exists pre post, text = pre +:+ (sel +:+ post) /\ strlen pre = o.
Proof.
  intros [Hr Hp]. unfold strlen in Hr.
  destruct (dropChars_split (Z.to_nat o) text) as (pre & Ht & Hl); [lia|].
  destruct (isPrefix_split _ _ Hp) as [post Hpost].
  exists pre, post. split; [now rewrite <- Hpost|]. unfold strlen. lia.
Qed.


Lemma lineStartsFrom_app a b i :
  lineStartsFrom (a +:+ b) i = lineStartsFrom a i ++ lineStartsFrom b (i + strlen a).
Proof.
  revert i. induction a as [|c a IH]; intros i.
  - cbn [String.append lineStartsFrom app]. unfold strlen. simpl String.length.
    now rewrite Z.add_0_r.
  - cbn [String.append lineStartsFrom]. rewrite IH.
    replace (i + 1 + strlen a) with (i + strlen (String c a))
      by (unfold strlen; cbn [String.length]; lia).
    now destruct (Ascii.eqb c JS.LF).
Qed.

Lemma lineStartsFrom_within text i :
  Forall (fun x => i < x <= i + strlen text) (lineStartsFrom text i).
Proof.
  revert i. induction text as [|c r IH]; intros i; [constructor|].
  cbn [lineStartsFrom].
  assert (Hr : Forall (fun x => i < x <= i + strlen (String c r))
                 (lineStartsFrom r (i + 1))).
  { eapply Forall_impl; [apply IH|]. intros x. cbn beta.
    unfold strlen. cbn [String.length]. lia. }
  destruct (Ascii.eqb c JS.LF); [|exact Hr].
  constructor; [|exact Hr]. unfold strlen. cbn [String.length]. lia.
Qed.

(** A line feed at offset [k] of the text makes [k + 1] a line start. *)
Lemma lineFeed_lineStart text (k : nat) i :
  String.get k text = Some JS.LF -> In (i + Z.of_nat k + 1) (lineStartsFrom text i).
Proof.
  revert k i. induction text as [|c r IH]; intros k i H; [discriminate|].
  cbn [lineStartsFrom]. destruct k as [|k].
  - cbn [String.get] in H. injection H as ->.
    change (Ascii.eqb JS.LF JS.LF) with true. left. lia.
  - cbn [String.get] in H. specialize (IH k (i + 1) H).
    replace (i + Z.of_nat (S k) + 1) with (i + 1 + Z.of_nat k + 1) by lia.
    destruct (Ascii.eqb c JS.LF); [now right|exact IH].
Qed.

Lemma at_In {A} (l : list A) i x : at_ l i = Some x -> In x l.
Proof.
  unfold at_. destruct (i <? 0); [discriminate|]. apply nth_error_In.
Qed.

Lemma In_at {A} (l : list A) x : In x l -> exists i, at_ l i = Some x.
Proof.
  intros H. apply In_nth_error in H as [n Hn]. exists (Z.of_nat n).
  now rewrite at_of_nat.
Qed.

Lemma at_app_l {A} (l1 l2 : list A) i :
  i < len l1 -> at_ (l1 ++ l2) i = at_ l1 i.
Proof.
  unfold at_, len. intros Hi. destruct (Z.ltb_spec i 0); [reflexivity|].
  apply nth_error_app1. lia.
Qed.

Lemma at_app_r {A} (l1 l2 : list A) i :
  len l1 <= i -> at_ (l1 ++ l2) i = at_ l2 (i - len l1).
Proof.
  unfold at_, len. intros Hi.
  destruct (Z.ltb_spec i 0); [lia|].
  destruct (Z.ltb_spec (i - Z.of_nat (length l1)) 0); [lia|].
  rewrite nth_error_app2 by lia. f_equal. lia.
Qed.

(** Where the line starts up to the offset are [l1] and the later ones
    [l2], the offset is on the last line of [l1]. *)
Lemma locates_split (l1 l2 : list Z) off p :
  l1 <> [] ->
  Forall (fun x => x <= off) l1 -> Forall (fun x => off < x) l2 ->
  locates (l1 ++ l2) off p -> line p = len l1 - 1.
Proof.
  intros Hne H1 H2 (s & Hs & Hle & _ & Hab).
  assert (Hlen : 0 < len l1) by (unfold len; destruct l1; [congruence|simpl; lia]).
  pose proof (at_Some_bounds _ _ _ Hs) as Hb.
  destruct (Z.lt_trichotomy (line p) (len l1 - 1)) as [Hlt|[Heq|Hgt]]; [|exact Heq|].
  - destruct (at_in_range l1 (len l1 - 1)) as [y Hy]; [lia|].
    pose proof (at_In _ _ _ Hy) as Hin.
    rewrite List.Forall_forall in H1. specialize (H1 y Hin).
    rewrite <- (at_app_l l1 l2) in Hy by lia.
    specialize (Hab _ _ Hy Hlt). lia.
  - rewrite at_app_r in Hs by lia. apply at_In in Hs.
    rewrite List.Forall_forall in H2. specialize (H2 s Hs). lia.
Qed.

(** The selection ends as many lines below its start as it has line
    feeds. *)
Lemma span_lines sel text o first last :
  occursAt sel text o ->
  locates (buildLineStarts text) o first ->
  locates (buildLineStarts text) (o + strlen sel) last ->
  line last = line first + len (JS.splitLF sel) - 1.
Proof.
  intros Ho Hf Hl. destruct (occursAt_split _ _ _ Ho) as (pre & post & -> & Hpre).
  unfold buildLineStarts in Hf, Hl.
  rewrite lineStartsFrom_app in Hf, Hl. rewrite Z.add_0_l, Hpre in Hf, Hl.
  assert (H1 : Forall (fun x => x <= o) (0 :: lineStartsFrom pre 0)).
  { constructor; [destruct Ho as [[H _] _]; exact H|].
    eapply Forall_impl; [apply lineStartsFrom_within|]. intros x. cbn beta. lia. }
  assert (Hlf : line first = len (0 :: lineStartsFrom pre 0) - 1).
  { apply (locates_split _ (lineStartsFrom (sel +:+ post) o) o); [discriminate|exact H1| |].
    - eapply Forall_impl; [apply lineStartsFrom_within|]. intros x. cbn beta. lia.
    - exact Hf. }
  rewrite lineStartsFrom_app in Hl.
  change (0 :: lineStartsFrom pre 0 ++ lineStartsFrom sel o ++ lineStartsFrom post (o + strlen sel))
    with ((0 :: lineStartsFrom pre 0) ++ lineStartsFrom sel o ++ lineStartsFrom post (o + strlen sel))
    in Hl.
  rewrite app_assoc in Hl.
  assert (Hll : line last = len ((0 :: lineStartsFrom pre 0) ++ lineStartsFrom sel o) - 1).
  { apply (locates_split _ (lineStartsFrom post (o + strlen sel)) (o + strlen sel));
      [discriminate| | |exact Hl].
    - apply List.Forall_app. split.
      + eapply Forall_impl; [exact H1|]. intros x. cbn beta. unfold strlen. lia.
      + eapply Forall_impl; [apply lineStartsFrom_within|]. intros x. cbn beta. lia.
    - eapply Forall_impl; [apply lineStartsFrom_within|]. intros x. cbn beta. lia. }
  rewrite Hll, Hlf. unfold len. rewrite length_app.
  unfold JS.splitLF. rewrite <- (lineStartsFrom_length sel o). lia.
Qed.

(** An occurrence before a line feed that is before [o] starts on a line
    above the line of [o]. *)
Lemma earlier_line text o o' i p p' :
  0 <= o' <= i -> i < o -> lineFeedAt text i ->
  locates (buildLineStarts text) o' p' -> locates (buildLineStarts text) o p ->
  line p' < line p.
Proof.
  intros Ho' Hi [Hi0 Hlf] (s' & Hs' & Hle' & _ & Hab') (s & Hs & Hle & _ & Hab).
  assert (Hin : In (i + 1) (buildLineStarts text)).
  { right. pose proof (lineFeed_lineStart text (Z.to_nat i) 0 Hlf) as H.
    now replace (0 + Z.of_nat (Z.to_nat i) + 1) with (i + 1) in H by lia. }
  destruct (In_at _ _ Hin) as [j Hj].
  pose proof (buildLineStarts_increasing text) as Hinc.
  assert (line p' < j).
  { destruct (Z.lt_trichotomy (line p') j) as [H|[H|H]]; [exact H| |].
    - subst j. rewrite Hs' in Hj. injection Hj as ->. lia.
    - pose proof (Hinc _ _ _ _ Hj Hs' H). lia. }
  assert (j <= line p).
  { destruct (Z.le_gt_cases j (line p)) as [H'|H']; [exact H'|].
    pose proof (Hab _ _ Hj ltac:(lia)). lia. }
  lia.
Qed.

(** *** The score of an occurrence *)

Lemma matchingRun_bounds stored actual :
  0 <= matchingRun stored actual <= len stored.
Proof.
  unfold len. revert actual. induction stored as [|s stored IH]; intros actual.
  - simpl. lia.
  - destruct actual as [|a actual]; [simpl; lia|]. cbn [matchingRun].
    destruct (String.eqb a s); [|simpl; lia].
    specialize (IH actual). cbn [length]. lia.
Qed.

Lemma matchingRun_full stored rest :
  matchingRun stored (stored ++ rest) = len stored.
Proof.
  unfold len. induction stored as [|s stored IH]; [now destruct rest|].
  cbn [app matchingRun length]. rewrite String.eqb_refl, IH. lia.
Qed.

Lemma contextMatches_bounds lines ctx a b :
  RelocateSpec.contextMatches lines ctx a b <= len (before ctx) + len (after ctx).
Proof.
  unfold RelocateSpec.contextMatches.
  pose proof (matchingRun_bounds (rev (before ctx))
                (rev (firstn (Z.to_nat a) lines))) as H1.
  pose proof (matchingRun_bounds (after ctx) (skipn (Z.to_nat (b + 1)) lines)) as H2.
  unfold len in *. rewrite length_rev in H1. lia.
Qed.

Lemma contextMatches_intact lines ctx rng :
  contextIntact lines ctx rng ->
  RelocateSpec.contextMatches lines ctx (startLine rng) (endLine rng)
  = len (before ctx) + len (after ctx).
Proof.
  intros [[above Ha] [below Hb]]. unfold RelocateSpec.contextMatches.
  rewrite Ha, Hb, rev_app_distr, !matchingRun_full.
  unfold len. now rewrite length_rev.
Qed.

(** *** The occurrences that are tried *)


Lemma sorted_split l o :
  StronglySorted Z.lt l -> In o l ->
  exists l1 l2, l = l1 ++ o :: l2 /\ Forall (fun x => x < o) l1 /\ List.NoDup l1.
Proof.
  induction 1 as [|a l Hs IH Ha]; intros Hin; [destruct Hin|].
  destruct (Z.eq_dec a o) as [->|Hne].
  - exists [], l. repeat split; constructor.
  - destruct Hin as [Hin|Hin]; [congruence|].
    destruct (IH Hin) as (l1 & l2 & -> & Hlt & Hnd).
    exists (a :: l1), l2. split; [reflexivity|].
    assert (Hao : a < o).
    { rewrite List.Forall_forall in Ha. apply Ha. apply in_or_app. right. now left. }
    split; [now constructor|]. constructor; [|exact Hnd].
    intros Hin1. rewrite List.Forall_forall in Ha.
    specialize (Ha a ltac:(apply in_or_app; now left)). lia.
Qed.

Lemma occurrences_amongFirst text sel o :
  occursAt sel text o -> amongFirst 50 sel text o ->
  exists earlier later,
    occurrences text sel = earlier ++ o :: later
    /\ Forall (fun o' => occursAt sel text o' /\ o' < o) earlier.
Proof.
  intros Ho Hfirst.
  assert (Hin : In o (occurrencesFrom sel text 0)).
  { apply occurrencesFrom_spec. now rewrite Z.sub_0_r. }
  destruct (sorted_split _ _ (occurrencesFrom_sorted sel text 0) Hin)
    as (l1 & l2 & Heq & Hlt & Hnd).
  assert (Hl1 : Forall (fun o' => occursAt sel text o' /\ o' < o) l1).
  { apply List.Forall_forall. intros x Hx. split.
    - rewrite <- (Z.sub_0_r x). apply occurrencesFrom_spec. rewrite Heq.
      apply in_or_app. now left.
    - rewrite List.Forall_forall in Hlt. now apply Hlt. }
  specialize (Hfirst l1 Hnd Hl1).
  exists l1, (firstn (49 - length l1) l2). split; [|exact Hl1].
  unfold occurrences. rewrite Heq, firstn_app, firstn_all2 by lia.
  replace (50 - length l1)%nat with (S (49 - length l1)) by lia.
  reflexivity.
Qed.

(** Where the content of the file is the stored context, the relocation
    finds the stored range. *)
Lemma findAnchored_inPlace fileText ctx rng hh o :
  inPlace ctx rng hh fileText o ->
  findAnchoredRangeInText fileText ctx rng hh
  = if String.eqb (JS.trim (selectionText ctx)) "" then None else Some rng.
Proof.
  intros (Ho & Hspans & Hctx & Happrox & Hfirst & Hline).
  fold (selectionText ctx) in Ho, Hspans, Hfirst, Hline.
  destruct Hspans as (first & last & Hf & Hl & Hrng).
  assert (Ho0 : 0 <= o) by (destruct Ho as [[H _] _]; exact H).
  assert (Ho' : 0 <= o + strlen (selectionText ctx)) by (unfold strlen; lia).
  assert (Hoo : o <= o + strlen (selectionText ctx)) by (unfold strlen; lia).
  pose proof (buildLineStarts_increasing fileText) as Hinc.
  assert (Hfirst_pos : offsetToPosition (lineStarts fileText) o = first).
  { exact (locates_unique _ _ _ first Hinc (offsetToPosition_locates fileText o Ho0) Hf). }
  assert (Hlast_pos :
            offsetToPosition (lineStarts fileText) (o + strlen (selectionText ctx)) = last).
  { exact (locates_unique _ _ _ last Hinc (offsetToPosition_locates fileText _ Ho') Hl). }
  assert (Hsl : selectionStartLine fileText o = startLine rng).
  { unfold selectionStartLine. rewrite Hfirst_pos, Hrng. reflexivity. }
  assert (Hel : selectionEndLine fileText ctx o = endLine rng).
  { unfold selectionEndLine, selectionLineCount. rewrite Hsl, Hrng.
    cbn [startLine endLine]. symmetry.
    exact (span_lines _ _ _ _ _ Ho Hf Hl). }
  unfold findAnchoredRangeInText.
  destruct (String.eqb (JS.trim (selectionText ctx)) ""); [reflexivity|].
  rewrite (getApproximateLine_approximate rng hh _ Happrox).
  assert (Hscore : score fileText ctx (startLine rng) o
                   = (len (before ctx) + len (after ctx)) * 10
                   /\ distance fileText (startLine rng) o = 0).
  { unfold score, distance. rewrite contextMatches_refines, Hsl, Hel.
    fold (lines fileText) in Hctx.
    rewrite (contextMatches_intact _ _ _ Hctx). lia. }
  destruct Hscore as [Hscore Hdist].
  assert (Hany : forall x,
             score fileText ctx (startLine rng) x
             <= (len (before ctx) + len (after ctx)) * 10
                - Z.abs (selectionStartLine fileText x - startLine rng)).
  { intros x. unfold score, distance. rewrite contextMatches_refines.
    pose proof (contextMatches_bounds (lines fileText) ctx
                  (selectionStartLine fileText x) (selectionEndLine fileText ctx x)).
    lia. }
  destruct (occurrences_amongFirst _ _ _ Ho Hfirst) as (earlier & later & Hocc & Hearlier).
  rewrite (firstBest_bestOffset fileText ctx (startLine rng) _ o).
  - cbv iota. rewrite Hfirst_pos, Hlast_pos. unfold mkRange.
    rewrite (locates_monotone _ o (o + strlen (selectionText ctx)) first last
               Hinc Hf Hl Hoo).
    now rewrite Hrng.
  - exists earlier, later. split; [exact Hocc|]. split.
    + eapply Forall_impl; [exact Hearlier|]. intros x [Hx Hlt]. left.
      destruct (Hline x Hx Hlt) as (i & Hi & Hlf).
      assert (Hx0 : 0 <= x) by (destruct Hx as [[H _] _]; exact H).
      pose proof (earlier_line fileText o x i first
                    (offsetToPosition (lineStarts fileText) x)
                    ltac:(lia) ltac:(lia) Hlf
                    (offsetToPosition_locates fileText x Hx0) Hf) as Hlines.
      fold (selectionStartLine fileText x) in Hlines.
      rewrite Hrng in Hany. cbn [startLine] in Hany.
      specialize (Hany x). rewrite Hrng in Hscore. cbn [startLine] in Hscore.
      rewrite Hrng. cbn [startLine]. lia.
    + apply List.Forall_forall. intros x _. unfold noBetter.
      specialize (Hany x). rewrite Hscore, Hdist. unfold distance. lia.
Qed.

End Stable.

(** C6 (amended).  Relocation returns the thread as it is and writes
    nothing, or it returns the thread with another range and the time of
    the relocation as [updatedAt], and writes that thread.  It does the
    former when the content of the file is the stored context: the stored
    selection stands where the stored range says, with the stored lines
    around it, provided that the approximate line is the stored start line
    (no hunk header is stored, or one that points there), that fewer than 50
    occurrences of the selection come before it, and none of them on its
    line.  Relocating what it returned against the same content, at any
    later time, returns it unchanged and writes nothing.  The numbers stay
    where the doubles of the code are the integers of the model: the stored
    start line within 2^53, the numerals of the stored hunk header within 15
    digits. *)
Theorem relocation_idempotent (ws : Relocate.Workspace) (now now' : string)
  (persisted : PersistedThread) :
  RelocateSpec.safeNumbers persisted ->
  let first := Relocate.reanchorThreadIfNeeded ws now persisted in
  ((Relocate.returned first = persisted /\ Relocate.written first = None)
   \/ (exists moved,
          range (target persisted) <> Some moved
          /\ Relocate.returned first
             = with_updatedAt (with_range persisted (Some moved)) now
          /\ Relocate.written first = Some (Relocate.returned first)))
  /\ (forall ctx rng uri text o,
         context (anchor (target persisted)) = Some ctx ->
         range (target persisted) = Some rng ->
         Relocate.resolveWorkspaceRelativePath
           (workspaceRelativePath (target persisted)) = Some uri ->
         ws uri = Some text ->
         RelocateSpec.inPlace ctx rng (RelocateSpec.storedHeader persisted)
           (JS.replaceCRLF text) o ->
         first = {| Relocate.returned := persisted; Relocate.written := None |})
  /\ Relocate.reanchorThreadIfNeeded ws now' (Relocate.returned first)
     = {| Relocate.returned := Relocate.returned first; Relocate.written := None |}.
Proof.
  intros _ first. subst first. split; [|split].
  - destruct (reanchor_cases ws now persisted)
      as [Hu|(ctx & rng & uri & text & r1 & Hc & Hr & Hs & Hres & Hw & Hf & Hne & Hm)].
    + left. rewrite Hu. now split.
    + right. exists r1. rewrite Hm. cbn [Relocate.returned Relocate.written].
      split; [|now split]. rewrite Hr. intros [= <-].
      now rewrite arePersistedRangesEqual_refl in Hne.
  - intros ctx rng uri text o Hc Hr Hres Hw Hplace.
    unfold Relocate.reanchorThreadIfNeeded. rewrite Hc, Hr, Hres, Hw.
    destruct (String.eqb (JS.trim (selection ctx)) ""); [reflexivity|].
    fold (RelocateSpec.storedHeader persisted).
    rewrite (findAnchored_inPlace (JS.replaceCRLF text) ctx rng _ o Hplace).
    destruct (String.eqb (JS.trim (Relocate.selectionText ctx)) ""); [reflexivity|].
    now rewrite arePersistedRangesEqual_refl.
  - destruct (reanchor_cases ws now persisted)
      as [Hu|(ctx & rng & uri & text & r1 & Hc & Hr & Hs & Hres & Hw & Hf & Hne & Hm)].
    + rewrite Hu. cbn [Relocate.returned Relocate.unchanged].
      eapply reanchor_unchanged_any_clock, Hu.
    + rewrite Hm. cbn [Relocate.returned Relocate.written].
      eapply reanchor_moved_is_fixed; eauto.
Qed.

Lemma relocation_idempotent_witness :
  Relocate.reanchorThreadIfNeeded twice_workspace "2000-01-02T00:00:00.000Z"
    settled_thread
  = {| Relocate.returned := settled_thread; Relocate.written := None |}
  /\ (let first := Relocate.reanchorThreadIfNeeded scenarioA_workspace
                     "2000-01-02T00:00:00.000Z" scenarioA_thread in
      range (target (Relocate.returned first)) = Some anchored_range
      /\ Relocate.reanchorThreadIfNeeded scenarioA_workspace "2000-01-03T00:00:00.000Z"
           (Relocate.returned first)
         = {| Relocate.returned := Relocate.returned first; Relocate.written := None |}).
Proof.
  assert (Hocc : forall o', RelocateSpec.occursAt "return x;" twice_text o' ->
                            In o' [11%Z; 32%Z]).
  { intros o' Ho'. rewrite <- (Z.sub_0_r o') in Ho'.
    apply occurrencesFrom_spec in Ho'. vm_compute in Ho'. exact Ho'. }
  split.
  - assert (Hsafe : RelocateSpec.safeNumbers settled_thread).
    { split; [exact I|]. vm_compute. split; discriminate. }
    refine (proj1 (proj2 (relocation_idempotent twice_workspace
                            "2000-01-02T00:00:00.000Z" "2000-01-03T00:00:00.000Z"
                            settled_thread Hsafe))
              twice_context settled_range ["twice.ts"] twice_text 32%Z
              eq_refl eq_refl eq_refl eq_refl _).
    split; [|split; [|split; [|split; [|split]]]].
    + split; [vm_compute; split; discriminate|vm_compute; reflexivity].
    + eexists. eexists. split; [apply offsetToPosition_locates; lia|].
      split; [apply offsetToPosition_locates; vm_compute; discriminate|].
      vm_compute. reflexivity.
    + split; [exists ["let x = 1;"; "return x;"]|exists []]; vm_compute; reflexivity.
    + apply RelocateSpec.approximate_without_header. vm_compute. split; discriminate.
    + intros earlier Hnd Hall.
      assert (Hincl : incl earlier [11%Z]).
      { intros x Hx. rewrite List.Forall_forall in Hall.
        destruct (Hall x Hx) as [Ho' Hlt].
        destruct (Hocc x Ho') as [<-|[<-|[]]]; [now left|lia]. }
      pose proof (List.NoDup_incl_length Hnd Hincl) as Hlen. simpl in Hlen. lia.
    + intros o' Ho' Hlt. exists 20%Z.
      destruct (Hocc o' Ho') as [<-|[<-|[]]]; [|lia].
      split; [lia|]. split; [lia|vm_compute; reflexivity].
  - assert (Hsafe : RelocateSpec.safeNumbers scenarioA_thread).
    { split; [exact I|]. vm_compute. split; discriminate. }
    split; [vm_compute; reflexivity|].
    exact (proj2 (proj2 (relocation_idempotent scenarioA_workspace
                           "2000-01-02T00:00:00.000Z" "2000-01-03T00:00:00.000Z"
                           scenarioA_thread Hsafe))).
Defined.
(** C6 as stated fails: the context of [repeated_thread] was captured from
    the very document it is relocated against, yet relocation moves the
    range to the earlier occurrence on the line and stamps a new
    [updatedAt]. *)
Lemma relocation_moves_on_unchanged_content :
  context (anchor (target repeated_thread))
  = Some (Relocate.buildAnchorContext repeated_document repeated_range)
  /\ range (target repeated_thread) = Some repeated_range
  /\ repeated_workspace ["notes.txt"]
     = Some (JS.join (String JS.LF "") repeated_document)
  /\ let r := Relocate.reanchorThreadIfNeeded repeated_workspace
                "2000-01-02T00:00:00.000Z" repeated_thread in
     range (target (Relocate.returned r))
     = Some {| startLine := 0; startCharacter := 0; endLine := 0; endCharacter := 2 |}
     /\ updatedAt (Relocate.returned r) = "2000-01-02T00:00:00.000Z"
     /\ updatedAt (Relocate.returned r) <> updatedAt repeated_thread
     /\ Relocate.written r = Some (Relocate.returned r).
Proof.
  split; [reflexivity|]. split; [reflexivity|]. split; [reflexivity|].
  vm_compute. repeat split. discriminate.
Qed.


(** ** The authors of a written thread *)

Section Authors.
Import RoundTrip.

Lemma trimmed_authors thread :
  map c_author (comments (trimmed thread)) = map c_author (comments thread).
Proof.
  unfold trimmed. cbn [comments]. rewrite map_map. reflexivity.
Qed.

End Authors.



(** ** The hunk of a diff with one header *)

Section OneHunk.
Import Json Diff HunkSpec.
Local Open Scope Z_scope.

Lemma isFileHeader_lineText l : bodyLineOk l -> isFileHeader (lineText l) = false.
Proof.
  destruct l as [t|t|t]; cbn [bodyLineOk lineText]; unfold isFileHeader.
  - reflexivity.
  - intros [_ Ht].
    change (JS.startsWith ("+" +:+ t) "+++") with (JS.startsWith t "++").
    now rewrite Ht.
  - intros [_ Ht].
    change (JS.startsWith ("-" +:+ t) "---") with (JS.startsWith t "--").
    now rewrite Ht.
Qed.

Lemma fold_hunkStep_body body done h :
  Forall bodyLineOk body ->
  fold_left hunkStep (map lineText body) (done, Some h)
  = (done,
     Some {| h_header := h_header h; h_oldStart := h_oldStart h;
             h_oldLines := h_oldLines h; h_newStart := h_newStart h;
             h_newLines := h_newLines h;
             h_patchLines := h_patchLines h ++ map lineText body |}).
Proof.
  intros Hbody. revert h. induction Hbody as [|l body Hl _ IH]; intros h.
  - cbn [map fold_left]. rewrite app_nil_r. now destruct h.
  - cbn [map fold_left]. unfold hunkStep at 2.
    rewrite HUNK_RE_lineText. cbn [snd fst]. rewrite (isFileHeader_lineText l Hl).
    rewrite IH. cbn [h_header h_oldStart h_oldLines h_newStart h_newLines h_patchLines].
    now rewrite <- app_assoc.
Qed.

Lemma countOrOne_countDigits count :
  countOk count -> countOrOne (countDigits count) = countOf count.
Proof.
  destruct count as [n|]; [|reflexivity]. cbn [countOk countDigits option_map countOrOne countOf].
  intros H. exact (proj2 (proj2 (numeral_spec n H))).
Qed.

Lemma hunks_of_hunk a b c d rest body :
  0 <= a -> 0 <= c -> countOk b -> countOk d -> oneLine rest ->
  Forall bodyLineOk body ->
  parseUnifiedDiffHunks (hunkText a b c d rest body)
  = [ {| header := headerLine a b c d rest;
         oldStart := a; oldLines := countOf b;
         newStart := c; newLines := countOf d;
         patch := JS.trimEnd (hunkText a b c d rest body) |} ].
Proof.
  intros Ha Hc Hb Hd Hr Hbody. unfold parseUnifiedDiffHunks.
  rewrite (splitLines_hunkText a b c d rest body Ha Hc Hb Hd Hr Hbody).
  cbn [fold_left]. unfold hunkStep at 2.
  rewrite (HUNK_RE_headerLine a b c d rest Ha Hc Hb Hd (oneLine_noLineTerminator _ Hr)).
  cbn [flushHunk fst snd m_oldStart m_oldLines m_newStart m_newLines].
  rewrite (fold_hunkStep_body body _ _ Hbody).
  cbn [flushHunk fst snd h_header h_oldStart h_oldLines h_newStart h_newLines
       h_patchLines app].
  rewrite (proj2 (proj2 (numeral_spec a Ha))), (proj2 (proj2 (numeral_spec c Hc))).
  rewrite (countOrOne_countDigits b Hb), (countOrOne_countDigits d Hd).
  reflexivity.
Qed.

End OneHunk.


